(** * oamap: schema type system, JSON envelope and operation algebra

    A shallow embedding of [oamap/schema.py] and [oamap/operations.py].

    Python objects live in one arena ([heap]); [id(x)] is the index of [x]
    in the arena, so that sharing and Pointer cycles are visible to the
    identity-sensitive algorithms ([__eq__], [_collectlabels], [_tojson],
    [_finalizefromjson]).  Exceptions are values of type [exn]; a function
    that can raise returns a [result]. *)

From Stdlib Require Import ZArith String Ascii Floats DecimalString.
From Stdlib Require DecimalNat DecimalFacts.
From stdpp Require Import base gmap list strings.

Local Open Scope string_scope.
Local Open Scope Z_scope.
Set Warnings "-register-all".

(** ** Python runtime: exceptions and results *)

Inductive exn :=
| TypeError (msg : string)
| ValueError (msg : string)
| NotImplementedError (msg : string)
| IndexError (msg : string)
| AttributeError (msg : string)
| KeyError (msg : string)
| NameError (name : string)          (* the global name that is not bound *)
| UnboundLocalError (name : string). (* the local variable read before its assignment *)

(** [Stuck] is not a Python behaviour: it marks a recursion that exhausted
    its fuel or dereferenced an address outside the arena. *)
Inductive result (A : Type) :=
| Ok (a : A)
| Raise (e : exn)
| Stuck.
Arguments Ok {A} a.
Arguments Raise {A} e.
Arguments Stuck {A}.

Definition bind {A B} (m : result A) (k : A -> result B) : result B :=
  match m with
  | Ok a => k a
  | Raise e => Raise e
  | Stuck => Stuck
  end.

Notation "'do' x <- m ; k" := (bind m (fun x => k))
  (at level 10, x pattern, m at level 100, k at level 200).

(** ** JSON values (the output of [json.loads]) *)

Inductive json :=
| JNull
| JBool (b : bool)
| JInt (z : Z)
| JStr (s : string)
| JList (l : list json)
| JDict (d : list (string * json)).

(** A Python [dict] with string keys, in insertion order. *)
Fixpoint dict_get {V} (d : list (string * V)) (k : string) : option V :=
  match d with
  | [] => None
  | (k', v) :: d' => if bool_decide (k' = k) then Some v else dict_get d' k
  end.

Fixpoint dict_set {V} (d : list (string * V)) (k : string) (v : V) : list (string * V) :=
  match d with
  | [] => [(k, v)]
  | (k', v') :: d' =>
      if bool_decide (k' = k) then (k, v) :: d' else (k', v') :: dict_set d' k v
  end.

Definition dict_keys {V} (d : list (string * V)) : list string := d.*1.

(** [data.get(k, default)] *)
Definition get_default (d : list (string * json)) (k : string) (default : json) : json :=
  match dict_get d k with
  | Some v => v
  | None => default
  end.

(** [out[k] = v] executed only [if cond] *)
Definition set_if (cond : bool) (k : string) (v : json) (d : list (string * json)) :=
  if cond then dict_set d k v else d.

Definition json_of_optstring (o : option string) : json :=
  match o with
  | None => JNull
  | Some s => JStr s
  end.

Definition is_some {A} (o : option A) : bool :=
  match o with
  | Some _ => true
  | None => false
  end.

(** ** Numpy scalar types *)

Inductive dtype :=
| bool_ | int8 | int16 | int32 | int64
| uint8 | uint16 | uint32 | uint64
| float32 | float64 | complex64 | complex128.

Global Instance dtype_eq_dec : EqDecision dtype.
Proof. solve_decision. Defined.

(** [str(numpy.dtype)] *)
Definition str_dtype (t : dtype) : string :=
  match t with
  | bool_ => "bool" | int8 => "int8" | int16 => "int16" | int32 => "int32"
  | int64 => "int64" | uint8 => "uint8" | uint16 => "uint16"
  | uint32 => "uint32" | uint64 => "uint64" | float32 => "float32"
  | float64 => "float64" | complex64 => "complex64"
  | complex128 => "complex128"
  end.

Definition all_dtypes : list dtype :=
  [bool_; int8; int16; int32; int64; uint8; uint16; uint32; uint64;
   float32; float64; complex64; complex128].

Definition dtype_codes : list (string * dtype) :=
  [("?", bool_); ("i1", int8); ("i2", int16); ("i4", int32); ("i8", int64);
   ("u1", uint8); ("u2", uint16); ("u4", uint32); ("u8", uint64);
   ("f4", float32); ("f8", float64); ("c8", complex64); ("c16", complex128)].

(** [numpy.dtype(name)]: the canonical names and the one-letter codes. *)
Definition numpy_dtype (s : string) : result dtype :=
  match dict_get (map (fun t => (str_dtype t, t)) all_dtypes ++ dtype_codes) s with
  | Some t => Ok t
  | None => Raise (TypeError "data type not understood")
  end.

(** ** The external [oamap.source.packing.PackedSource] interface *)

Class Packing := {
  PackedSource : Type;
  PackedSource_eqb : PackedSource -> PackedSource -> bool;
  PackedSource_tojson : PackedSource -> json;
  PackedSource_fromjson : json -> result PackedSource
}.

(** ** Schema nodes *)

(** [id(x)]: the index of the object in the arena *)
Abbreviation addr := nat (only parsing).

(** What a child attribute holds: a Schema object, or (between the two
    phases of [fromjson]) the string of a back-reference. *)
Inductive slot :=
| Node (a : addr)
| Placeholder (label : string).

Global Instance slot_eq_dec : EqDecision slot.
Proof. solve_decision. Defined.

Section Schema.
Context `{Packing}.

(** The attributes of the base class [Schema]. *)
Record attrs := Attrs {
  nullable : bool;
  mask : option string;
  packing : option PackedSource;
  name : option string;
  doc : option string
}.

Inductive node :=
| Primitive (dtype_ : dtype) (dims : list Z) (data : option string) (c : attrs)
| List (content : slot) (starts stops : option string) (c : attrs)
| Union (possibilities : list slot) (tags offsets : option string) (c : attrs)
| Record_ (fields : list (string * slot)) (c : attrs)
| Tuple (types : list slot) (c : attrs)
| Pointer (target : slot) (positions : option string) (c : attrs).

Abbreviation heap := (list node) (only parsing).

Definition common (n : node) : attrs :=
  match n with
  | Primitive _ _ _ c | List _ _ _ c | Union _ _ _ c
  | Record_ _ c | Tuple _ c | Pointer _ _ c => c
  end.

(** The child attributes of a node, in iteration order. *)
Definition children (n : node) : list slot :=
  match n with
  | Primitive _ _ _ _ => []
  | List c _ _ _ => [c]
  | Union ps _ _ _ => ps
  | Record_ fs _ => fs.*2
  | Tuple ts _ => ts
  | Pointer t _ _ => [t]
  end.

(** The object a slot holds, when it is a Schema. *)
Definition lookup_obj (h : heap) (s : slot) : option node :=
  match s with
  | Node b => h !! b
  | Placeholder _ => None
  end.

(** ** Structural equality, [__eq__(self, other, memo)] *)

(** [x == y] on optional packings. *)
Definition packing_eq (p q : option PackedSource) : bool :=
  match p, q with
  | None, None => true
  | Some x, Some y => PackedSource_eqb x y
  | _, _ => false
  end.

Definition opt_eq (x y : option string) : bool := bool_decide (x = y).

(** [memo[id(self)] == id(other)] *)
Definition id_eq (m : addr) (other : slot) : bool :=
  match other with
  | Node b => bool_decide (m = b)
  | Placeholder _ => false
  end.

(** [all(x.__eq__(y, memo) for x, y in pairs)]: stops at the first [False]. *)
Fixpoint all_eq (f : slot -> slot -> gmap addr addr -> result (bool * gmap addr addr))
    (pairs : list (slot * slot)) (memo : gmap addr addr)
    : result (bool * gmap addr addr) :=
  match pairs with
  | [] => Ok (true, memo)
  | (x, y) :: rest =>
      do r <- f x y memo;
      if r.1 then all_eq f rest r.2 else Ok (false, r.2)
  end.

(** [[(self._fields[n], other._fields[n]) for n in self._fields]] *)
Fixpoint field_pairs (fs gs : list (string * slot)) : result (list (slot * slot)) :=
  match fs with
  | [] => Ok []
  | (n, x) :: fs' =>
      match dict_get gs n with
      | Some y => do rest <- field_pairs fs' gs; Ok ((x, y) :: rest)
      | None => Raise (KeyError n)
      end
  end.

(** [set(a) == set(b)] on the keys of two dicts *)
Definition same_keys (fs gs : list (string * slot)) : bool :=
  forallb (fun k => is_some (dict_get gs k)) (dict_keys fs)
  && forallb (fun k => is_some (dict_get fs k)) (dict_keys gs).

Fixpoint eq_memo (fuel : nat) (h : heap) (self other : slot)
    (memo : gmap addr addr) : result (bool * gmap addr addr) :=
  match fuel with
  | O => Stuck
  | S fuel =>
    match self with
    | Placeholder _ => Raise (TypeError "expected 1 argument, got 2")
    | Node a =>
      match h !! a with
      | None => Stuck
      | Some (Primitive t dims data c) =>
          match lookup_obj h other with
          | Some (Primitive t' dims' data' c') =>
              Ok (bool_decide (t = t') && bool_decide (dims = dims')
                  && eqb (nullable c) (nullable c') && opt_eq data data'
                  && opt_eq (mask c) (mask c') && packing_eq (packing c) (packing c')
                  && opt_eq (name c) (name c'), memo)
          | _ => Ok (false, memo)
          end
      | Some (List x starts stops c) =>
          match memo !! a with
          | Some b => Ok (id_eq b other, memo)
          | None =>
            match other, lookup_obj h other with
            | Node b, Some (List y starts' stops' c') =>
                if opt_eq starts starts' && opt_eq stops stops'
                   && opt_eq (mask c) (mask c') && packing_eq (packing c) (packing c')
                   && opt_eq (name c) (name c')
                then eq_memo fuel h x y (<[a:=b]> memo)
                else Ok (false, memo)
            | _, _ => Ok (false, memo)
            end
          end
      | Some (Union ps tags offsets c) =>
          match memo !! a with
          | Some b => Ok (id_eq b other, memo)
          | None =>
            match other, lookup_obj h other with
            | Node b, Some (Union qs tags' offsets' c') =>
                if bool_decide (length ps = length qs)
                   && eqb (nullable c) (nullable c') && opt_eq tags tags'
                   && opt_eq offsets offsets' && opt_eq (mask c) (mask c')
                   && packing_eq (packing c) (packing c') && opt_eq (name c) (name c')
                then all_eq (eq_memo fuel h) (zip ps qs) (<[a:=b]> memo)
                else Ok (false, memo)
            | _, _ => Ok (false, memo)
            end
          end
      | Some (Record_ fs c) =>
          match memo !! a with
          | Some b => Ok (id_eq b other, memo)
          | None =>
            match other, lookup_obj h other with
            | Node b, Some (Record_ gs c') =>
                if same_keys fs gs && eqb (nullable c) (nullable c')
                   && opt_eq (mask c) (mask c') && packing_eq (packing c) (packing c')
                   && opt_eq (name c) (name c')
                then do pairs <- field_pairs fs gs;
                     all_eq (eq_memo fuel h) pairs (<[a:=b]> memo)
                else Ok (false, memo)
            | _, _ => Ok (false, memo)
            end
          end
      | Some (Tuple ts c) =>
          match memo !! a with
          | Some b => Ok (id_eq b other, memo)
          | None =>
            match other, lookup_obj h other with
            | Node b, Some (Tuple us c') =>
                if bool_decide (length ts = length us)
                   && eqb (nullable c) (nullable c') && opt_eq (mask c) (mask c')
                   && packing_eq (packing c) (packing c') && opt_eq (name c) (name c')
                then all_eq (eq_memo fuel h) (zip ts us) (<[a:=b]> memo)
                else Ok (false, memo)
            | _, _ => Ok (false, memo)
            end
          end
      | Some (Pointer x positions c) =>
          match memo !! a with
          | Some b => Ok (id_eq b other, memo)
          | None =>
            match other, lookup_obj h other with
            | Node b, Some (Pointer y positions' c') =>
                if eqb (nullable c) (nullable c') && opt_eq positions positions'
                   && opt_eq (mask c) (mask c') && packing_eq (packing c) (packing c')
                   && opt_eq (name c) (name c')
                then eq_memo fuel h x y (<[a:=b]> memo)
                else Ok (false, memo)
            | _, _ => Ok (false, memo)
            end
          end
      end
    end
  end.

(** [self == other], i.e. [self.__eq__(other)] with [memo=None].  Every
    descent below a non-Primitive node first records that node in [memo],
    so one unit of fuel per arena cell, plus one for a final leaf, is
    enough (see [eq_memo_returns]). *)
Definition __eq__ (h : heap) (self other : addr) : result bool :=
  do r <- eq_memo (S (length h)) h (Node self) (Node other) ∅; Ok r.1.

(** ** Labels: [_labels], [_collectlabels], [_label] *)

(** [self._collectlabels(collection, labels)]: [collection] is the set of
    ids seen so far, [labels] the list of nodes seen more than once. *)
Fixpoint collect_all (f : slot -> gset addr * list addr -> result (gset addr * list addr))
    (l : list slot) (st : gset addr * list addr) : result (gset addr * list addr) :=
  match l with
  | [] => Ok st
  | x :: l' => do st' <- f x st; collect_all f l' st'
  end.

Fixpoint _collectlabels (fuel : nat) (h : heap) (self : slot)
    (st : gset addr * list addr) : result (gset addr * list addr) :=
  match fuel with
  | O => Stuck
  | S fuel =>
    match self with
    | Placeholder _ => Raise (AttributeError "_collectlabels")
    | Node a =>
      match h !! a with
      | None => Stuck
      | Some n =>
          if bool_decide (a ∈ st.1) then Ok (st.1, (st.2 ++ [a])%list)
          else collect_all (_collectlabels fuel h) (children n) ({[a]} ∪ st.1, st.2)
      end
    end
  end.

Definition _labels (h : heap) (self : addr) : result (list addr) :=
  do st <- _collectlabels (S (length h)) h (Node self) (∅, []); Ok st.2.

Definition str_nat (n : nat) : string := NilEmpty.string_of_uint (Nat.to_uint n).

Fixpoint index_of (self : addr) (labels : list addr) (index : nat) : option nat :=
  match labels with
  | [] => None
  | l :: rest => if bool_decide (l = self) then Some index else index_of self rest (S index)
  end.

(** [self._label(labels)]: ["#i"] for the first [i] with [labels[i] is self]. *)
Definition _label (self : addr) (labels : list addr) : option string :=
  match index_of self labels O with
  | Some i => Some ("#" ++ str_nat i)
  | None => None
  end.

(** ** Serialization, [_tojson(explicit, labels, shown)] *)

Definition _packingtojson (p : option PackedSource) : json :=
  match p with
  | None => JNull
  | Some x => PackedSource_tojson x
  end.

(** The keys every class writes last: mask, packing, name, doc, label. *)
Definition tail_tojson (explicit : bool) (c : attrs) (label : option string)
    (out : list (string * json)) : list (string * json) :=
  set_if (explicit || is_some label) "label" (json_of_optstring label)
  (set_if (explicit || is_some (doc c)) "doc" (json_of_optstring (doc c))
  (set_if (explicit || is_some (name c)) "name" (json_of_optstring (name c))
  (set_if (explicit || is_some (packing c)) "packing" (_packingtojson (packing c))
  (set_if (explicit || is_some (mask c)) "mask" (json_of_optstring (mask c)) out)))).

Definition nullable_tojson (explicit : bool) (c : attrs) (out : list (string * json)) :=
  set_if (explicit || nullable c) "nullable" (JBool (nullable c)) out.

Definition role_tojson (explicit : bool) (k : string) (v : option string)
    (out : list (string * json)) :=
  set_if (explicit || is_some v) k (json_of_optstring v) out.

(** [[x._tojson(explicit, labels, shown) for x in l]] *)
Fixpoint tojson_all (f : slot -> gset addr -> result (json * gset addr))
    (l : list slot) (shown : gset addr) : result (list json * gset addr) :=
  match l with
  | [] => Ok ([], shown)
  | x :: l' =>
      do r <- f x shown;
      do rs <- tojson_all f l' r.2;
      Ok (r.1 :: rs.1, rs.2)
  end.

Fixpoint _tojson (fuel : nat) (h : heap) (explicit : bool) (labels : list addr)
    (self : slot) (shown : gset addr) : result (json * gset addr) :=
  match fuel with
  | O => Stuck
  | S fuel =>
    match self with
    | Placeholder _ => Raise (AttributeError "_tojson")
    | Node a =>
      match h !! a with
      | None => Stuck
      | Some n =>
        let label := _label a labels in
        if negb (is_some label) || negb (bool_decide (a ∈ shown)) then
          let shown := {[a]} ∪ shown in
          match n with
          | Primitive t dims data c =>
              if negb explicit && bool_decide (dims = []) && negb (nullable c)
                 && negb (is_some data) && negb (is_some (mask c))
                 && negb (is_some (packing c)) && negb (is_some (name c))
              then Ok (JStr (str_dtype t), shown)
              else
                Ok (JDict
                  (tail_tojson explicit c label
                  (role_tojson explicit "data" data
                  (nullable_tojson explicit c
                  (set_if (explicit || negb (bool_decide (dims = []))) "dims"
                     (JList (map JInt dims))
                  [("type", JStr "primitive"); ("dtype", JStr (str_dtype t))])))),
                  shown)
          | List x starts stops c =>
              do r <- _tojson fuel h explicit labels x shown;
              Ok (JDict
                (tail_tojson explicit c label
                (role_tojson explicit "stops" stops
                (role_tojson explicit "starts" starts
                (nullable_tojson explicit c
                [("type", JStr "list"); ("content", r.1)])))), r.2)
          | Union ps tags offsets c =>
              do r <- tojson_all (_tojson fuel h explicit labels) ps shown;
              Ok (JDict
                (tail_tojson explicit c label
                (role_tojson explicit "offsets" offsets
                (role_tojson explicit "tags" tags
                (nullable_tojson explicit c
                [("type", JStr "union"); ("possibilities", JList r.1)])))), r.2)
          | Record_ fs c =>
              do r <- tojson_all (_tojson fuel h explicit labels) fs.*2 shown;
              Ok (JDict
                (tail_tojson explicit c label
                (nullable_tojson explicit c
                [("type", JStr "record");
                 ("fields", JList (zip_with (fun n x => JList [JStr n; x]) fs.*1 r.1))])),
                r.2)
          | Tuple ts c =>
              do r <- tojson_all (_tojson fuel h explicit labels) ts shown;
              Ok (JDict
                (tail_tojson explicit c label
                (nullable_tojson explicit c
                [("type", JStr "tuple"); ("types", JList r.1)])), r.2)
          | Pointer x positions c =>
              do r <- _tojson fuel h explicit labels x shown;
              Ok (JDict
                (tail_tojson explicit c label
                (role_tojson explicit "positions" positions
                (nullable_tojson explicit c
                [("type", JStr "pointer"); ("target", r.1)]))), r.2)
          end
        else Ok (json_of_optstring label, shown)
      end
    end
  end.

(** [Schema.tojson(self, explicit=False)] *)
Definition tojson (h : heap) (self : addr) (explicit : bool) : result json :=
  do labels <- _labels h self;
  do r <- _tojson (S (length h)) h explicit labels (Node self) ∅;
  Ok r.1.

(** ** Property setters used by deserialization *)

Definition in_range (lo hi c : ascii) : bool :=
  (nat_of_ascii lo <=? nat_of_ascii c)%nat && (nat_of_ascii c <=? nat_of_ascii hi)%nat.

Definition is_letter (c : ascii) : bool := in_range "a" "z" c || in_range "A" "Z" c.

(** The character class [[a-zA-Z_0-9]] of [Schema._baddelimiter] *)
Definition is_word (c : ascii) : bool :=
  is_letter c || bool_decide (c = "_"%char) || in_range "0" "9" c.

Fixpoint all_chars (p : ascii -> bool) (s : string) : bool :=
  match s with
  | EmptyString => true
  | String c s' => p c && all_chars p s'
  end.

(** [Schema._identifier], [[a-zA-Z][a-zA-Z_0-9]*], matching the whole string *)
Definition is_identifier (s : string) : bool :=
  match s with
  | EmptyString => false
  | String c s' => is_letter c && all_chars is_word s'
  end.

Definition nullable_setter (v : json) : result bool :=
  match v with
  | JBool b => Ok b
  | _ => Raise (TypeError "nullable must be True or False")
  end.

(** The setters of [mask], [data], [starts], ..., [doc]: None or a string. *)
Definition optstr_setter (what : string) (v : json) : result (option string) :=
  match v with
  | JNull => Ok None
  | JStr s => Ok (Some s)
  | _ => Raise (TypeError (what ++ " must be None or a string"))
  end.

Definition name_setter (v : json) : result (option string) :=
  match v with
  | JNull => Ok None
  | JStr s =>
      if is_identifier s then Ok (Some s)
      else Raise (TypeError "name must be None or a string matching the identifier pattern")
  | _ => Raise (TypeError "name must be None or a string matching the identifier pattern")
  end.

Definition bad_dims {A} : result A :=
  Raise (TypeError "dims must be a tuple of non-negative integers").

Fixpoint dims_items (l : list json) : result (list Z) :=
  match l with
  | [] => Ok []
  | x :: l' =>
      do z <- match x with
              | JInt z => if 0 <=? z then Ok z else bad_dims
              | JBool b => Ok (Z.b2z b)
              | _ => bad_dims
              end;
      do zs <- dims_items l'; Ok (z :: zs)
  end.

(** The [dims] setter: [tuple(value)], then every item a non-negative
    integer.  An empty string or dict also gives the empty tuple. *)
Definition dims_setter (v : json) : result (list Z) :=
  match v with
  | JList l => dims_items l
  | JStr EmptyString | JDict [] => Ok []
  | _ => bad_dims
  end.

Definition _packingfromjson (v : json) : result (option PackedSource) :=
  match v with
  | JNull => Ok None
  | _ => do p <- PackedSource_fromjson v; Ok (Some p)
  end.

(** [numpy.dtype(data["dtype"])]: [numpy.dtype(None)] is float64. *)
Definition dtype_fromjson (v : json) : result dtype :=
  match v with
  | JStr s => numpy_dtype s
  | JNull => Ok float64
  | _ => Raise (TypeError "data type not understood")
  end.

(** ** Deserialization, phase one: [_fromjson(data, labels)] *)

Definition alloc (h : heap) (n : node) : addr * heap := (length h, (h ++ [n])%list).

(** [if "label" in data: labels[data["label"]] = out] *)
Definition register_label (d : list (string * json)) (out : addr)
    (labels : gmap string addr) : result (gmap string addr) :=
  match dict_get d "label" with
  | None => Ok labels
  | Some (JStr s) => Ok (<[s:=out]> labels)
  | Some (JList _) | Some (JDict _) => Raise (TypeError "unhashable type")
  | Some _ => Ok labels
  end.

(** The assignments every non-Primitive class ends with. *)
Definition tail_fromjson (d : list (string * json)) (nullable_ : bool) : result attrs :=
  do m <- optstr_setter "mask" (get_default d "mask" JNull);
  do p <- _packingfromjson (get_default d "packing" JNull);
  do n <- name_setter (get_default d "name" JNull);
  do dc <- optstr_setter "doc" (get_default d "doc" JNull);
  Ok (Attrs nullable_ m p n dc).

Definition finish (d : list (string * json)) (n : node)
    (st : heap * gmap string addr) : result (slot * (heap * gmap string addr)) :=
  let (out, h) := alloc st.1 n in
  do labels <- register_label d out st.2;
  Ok (Node out, (h, labels)).

Fixpoint fromjson_all
    (f : json -> heap * gmap string addr -> result (slot * (heap * gmap string addr)))
    (l : list json) (st : heap * gmap string addr)
    : result (list slot * (heap * gmap string addr)) :=
  match l with
  | [] => Ok ([], st)
  | x :: l' =>
      do r <- f x st;
      do rs <- fromjson_all f l' r.2;
      Ok (r.1 :: rs.1, rs.2)
  end.

(** [all(len(x) == 2 and isinstance(x[0], basestring) for x in l)]; the
    pairs when it is [True], [None] when it is [False]. *)
Fixpoint check_pairs (l : list json) : result (option (list (string * json))) :=
  match l with
  | [] => Ok (Some [])
  | x :: l' =>
      match x with
      | JList [JStr n; v] =>
          do rest <- check_pairs l'; Ok (option_map (cons (n, v)) rest)
      | JStr (String a (String b EmptyString)) =>
          do rest <- check_pairs l';
          Ok (option_map (cons (String a EmptyString, JStr (String b EmptyString))) rest)
      | JDict [_; _] => Raise (KeyError "0")
      | JList _ | JStr _ | JDict _ => Ok None
      | _ => Raise (TypeError "object has no len()")
      end
  end.

Fixpoint insert_sorted (k : string) (l : list string) : list string :=
  match l with
  | [] => [k]
  | x :: l' => if String.leb k x then k :: l else x :: insert_sorted k l'
  end.

(** [sorted(keys)] *)
Definition sorted (l : list string) : list string := foldr insert_sorted [] l.

(** [OrderedDict(zip(names, values))] *)
Definition ordered_dict (names : list string) (values : list slot) : list (string * slot) :=
  foldl (fun d nv => dict_set d nv.1 nv.2) [] (zip names values).

Fixpoint json_depth (j : json) : nat :=
  match j with
  | JList l => S (foldr (fun x acc => Nat.max (json_depth x) acc) O l)
  | JDict d => S (foldr (fun kv acc => Nat.max (json_depth kv.2) acc) O d)
  | _ => 1%nat
  end.

Definition missing {A} (cls arg : string) : result A :=
  Raise (TypeError (cls ++ " Schema from JSON is missing argument '" ++ arg ++ "'")).

Fixpoint _fromjson (fuel : nat) (data : json) (st : heap * gmap string addr)
    : result (slot * (heap * gmap string addr)) :=
  match fuel with
  | O => Stuck
  | S fuel =>
    match data with
    | JStr s =>
        if bool_decide (String.prefix "#" s = true) then Ok (Placeholder s, st)
        else
          do t <- numpy_dtype s;
          let (out, h) := alloc st.1 (Primitive t [] None (Attrs false None None None None)) in
          Ok (Node out, (h, st.2))
    | JDict d =>
        match get_default d "type" (JStr "primitive") with
        | JStr tpe =>
          if bool_decide (tpe = "primitive") then
            match dict_get d "dtype" with
            | None => missing "Primitive" "dtype"
            | Some dt =>
                do t <- dtype_fromjson dt;
                do p <- _packingfromjson (get_default d "packing" JNull);
                do dims <- dims_setter (get_default d "dims" (JList []));
                do nl <- nullable_setter (get_default d "nullable" (JBool false));
                do dat <- optstr_setter "data" (get_default d "data" JNull);
                do m <- optstr_setter "mask" (get_default d "mask" JNull);
                do n <- name_setter (get_default d "name" JNull);
                do dc <- optstr_setter "doc" (get_default d "doc" JNull);
                finish d (Primitive t dims dat (Attrs nl m p n dc)) st
            end
          else if bool_decide (tpe = "list") then
            match dict_get d "content" with
            | None => missing "List" "content"
            | Some x =>
                do r <- _fromjson fuel x st;
                do nl <- nullable_setter (get_default d "nullable" (JBool false));
                do starts <- optstr_setter "starts" (get_default d "starts" JNull);
                do stops <- optstr_setter "stops" (get_default d "stops" JNull);
                do c <- tail_fromjson d nl;
                finish d (List r.1 starts stops c) r.2
            end
          else if bool_decide (tpe = "union") then
            match dict_get d "possibilities" with
            | None => missing "Union" "possibilities"
            | Some (JList l) =>
                do r <- fromjson_all (_fromjson fuel) l st;
                do nl <- nullable_setter (get_default d "nullable" (JBool false));
                do tags <- optstr_setter "tags" (get_default d "tags" JNull);
                do offsets <- optstr_setter "offsets" (get_default d "offsets" JNull);
                do c <- tail_fromjson d nl;
                finish d (Union r.1 tags offsets c) r.2
            | Some _ =>
                Raise (TypeError "argument 'possibilities' for Union Schema from JSON should be a list")
            end
          else if bool_decide (tpe = "record") then
            match dict_get d "fields" with
            | None => missing "Record" "fields"
            | Some fields_ =>
                do pairs <-
                  match fields_ with
                  | JList l =>
                      do chk <- check_pairs l;
                      match chk with
                      | Some pairs => Ok pairs
                      | None => Raise (TypeError "argument 'fields' for Record Schema from JSON should be a list or dict of key-value pairs")
                      end
                  | JDict fd =>
                      Ok (omap (fun n => option_map (pair n) (dict_get fd n)) (sorted (dict_keys fd)))
                  | _ => Raise (TypeError "argument 'fields' for Record Schema from JSON should be a list or dict of key-value pairs")
                  end;
                do r <- fromjson_all (_fromjson fuel) pairs.*2 st;
                do nl <- nullable_setter (get_default d "nullable" (JBool false));
                do c <- tail_fromjson d nl;
                finish d (Record_ (ordered_dict pairs.*1 r.1) c) r.2
            end
          else if bool_decide (tpe = "tuple") then
            match dict_get d "types" with
            | None => missing "Tuple" "types"
            | Some (JList l) =>
                do r <- fromjson_all (_fromjson fuel) l st;
                do nl <- nullable_setter (get_default d "nullable" (JBool false));
                do c <- tail_fromjson d nl;
                finish d (Tuple r.1 c) r.2
            | Some _ =>
                Raise (TypeError "argument 'types' for Tuple Schema from JSON should be a list")
            end
          else if bool_decide (tpe = "pointer") then
            match dict_get d "target" with
            | None => missing "Pointer" "target"
            | Some x =>
                do r <- _fromjson fuel x st;
                do nl <- nullable_setter (get_default d "nullable" (JBool false));
                do positions <- optstr_setter "positions" (get_default d "positions" JNull);
                do c <- tail_fromjson d nl;
                finish d (Pointer r.1 positions c) r.2
            end
          else Raise (TypeError "unrecognized type argument for Schema from JSON")
        | _ => Raise (TypeError "unrecognized type argument for Schema from JSON")
        end
    | _ => Raise (TypeError "unrecognized type for Schema from JSON")
    end
  end.

(** ** Deserialization, phase two: [_finalizefromjson(labels)] *)

(** [self.<children>[i] = s] *)
Definition set_child (n : node) (i : nat) (s : slot) : node :=
  match n with
  | Primitive _ _ _ _ => n
  | List _ starts stops c => List s starts stops c
  | Union ps tags offsets c => Union (<[i:=s]> ps) tags offsets c
  | Record_ fs c =>
      Record_ (match fs !! i with
               | Some (k, _) => <[i:=(k, s)]> fs
               | None => fs
               end) c
  | Tuple ts c => Tuple (<[i:=s]> ts) c
  | Pointer _ positions c => Pointer s positions c
  end.

(** The loop over the child attributes of [self]: a string is replaced by
    the node registered under it, a Schema is finalized in turn.  Each
    iteration reads the attribute from the current state of [self]. *)
Fixpoint finalize_slots (f : addr -> heap -> result heap)
    (labels : gmap string addr) (self : addr) (idx : list nat) (h : heap) : result heap :=
  match idx with
  | [] => Ok h
  | i :: idx' =>
      match h !! self with
      | None => Stuck
      | Some n =>
          match children n !! i with
          | None => Raise (IndexError "list index out of range")
          | Some (Placeholder s) =>
              match labels !! s with
              | None => Raise (TypeError "unresolved label")
              | Some t =>
                  finalize_slots f labels self idx' (<[self:=set_child n i (Node t)]> h)
              end
          | Some (Node c) =>
              do h' <- f c h; finalize_slots f labels self idx' h'
          end
      end
  end.

Fixpoint _finalizefromjson (fuel : nat) (labels : gmap string addr) (self : addr)
    (h : heap) : result heap :=
  match fuel with
  | O => Stuck
  | S fuel =>
      match h !! self with
      | None => Stuck
      | Some n =>
          finalize_slots (_finalizefromjson fuel labels) labels self
            (seq 0 (length (children n))) h
      end
  end.

(** [Schema.fromjson(data)]: the new root and the arena extended with the
    nodes it built. *)
Definition fromjson (h : heap) (data : json) : result (addr * heap) :=
  match data with
  | JStr _ | JDict _ =>
      do r <- _fromjson (S (json_depth data)) data (h, ∅);
      match r.1 with
      | Placeholder _ => Raise (TypeError "unresolved label")
      | Node out =>
          do h' <- _finalizefromjson (S (length r.2.1)) r.2.2 out r.2.1;
          Ok (out, h')
      end
  | _ => Raise (TypeError "JSON for a Schema must be a string or a dict")
  end.

(** [Schema.fromjson(Schema.tojson(S))] followed by [result == S] *)
Definition roundtrip (h : heap) (S : addr) : result (addr * heap) :=
  do j <- tojson h S false; fromjson h j.

Definition roundtrip_eq (h : heap) (S : addr) : result bool :=
  do r <- roundtrip h S; __eq__ r.2 r.1 S.

End Schema.

Arguments attrs {_}.
Arguments node {_}.
Abbreviation heap := (list node) (only parsing).

(** ** Delimiter validation *)

(** [Schema._baddelimiter.match(s) is not None].  [re.match] is anchored at
    the beginning of the string: only the first character is tested. *)
Definition _baddelimiter_match (s : string) : bool :=
  match s with
  | EmptyString => false
  | String c _ => is_word c
  end.

(** Some character of [s] is in the class [[a-zA-Z_0-9]]. *)
Fixpoint contains_word_char (s : string) : bool :=
  match s with
  | EmptyString => false
  | String c s' => is_word c || contains_word_char s'
  end.

Definition bad_delimiter {A} : result A :=
  Raise (ValueError "delimiters must not contain /[a-zA-Z_0-9]/").

(** The guard that opens [Schema.generator(prefix, delimiter, extension)]. *)
Definition generator_delimiter_check (delimiter : string) : result unit :=
  if _baddelimiter_match delimiter then bad_delimiter else Ok tt.

(** The setter of [PrefixSuffixPartitioning.delimiter]; returns the value
    stored in [_delimiter]. *)
Definition PrefixSuffixPartitioning_set_delimiter (value : json) : result string :=
  match value with
  | JStr s => if _baddelimiter_match s then bad_delimiter else Ok s
  | _ => bad_delimiter
  end.

(** The setter of [Dataset.delimiter]. *)
Definition Dataset_set_delimiter (value : json) : result (option string) :=
  match value with
  | JNull => Ok None
  | JStr s => if negb (_baddelimiter_match s) then bad_delimiter else Ok (Some s)
  | _ => bad_delimiter
  end.

(** ** Partitionings *)

Inductive Partitioning :=
| Partitioning_ (offsets : list Z)
| ExplicitPartitioning (offsets : list Z) (partitions : list (list (string * json)))
| PrefixSuffixPartitioning (offsets : list Z) (delimiter : string)
| PrefixPartitioning (offsets : list Z) (delimiter : string)
| SuffixPartitioning (offsets : list Z) (delimiter : string)
| ExternalPartitioning (lookup : string).

Definition bad_offsets {A} : result A :=
  Raise (TypeError "offsets must be an iterable of increasing integers").

Fixpoint offsets_items (last : Z) (l : list json) : result (list Z) :=
  match l with
  | [] => Ok []
  | x :: l' =>
      do z <- match x with
              | JInt z => Ok z
              | JBool b => Ok (Z.b2z b)
              | _ => bad_offsets
              end;
      if last <=? z then do zs <- offsets_items z l'; Ok (z :: zs) else bad_offsets
  end.

(** The setter of [Partitioning.offsets]. *)
Definition offsets_setter (value : json) : result (list Z) :=
  match value with
  | JList l => offsets_items 0 l
  | JStr EmptyString | JDict [] => Ok []
  | _ => bad_offsets
  end.

Fixpoint partitions_items (l : list json) : result (list (list (string * json))) :=
  match l with
  | [] => Ok []
  | JDict d :: l' => do ds <- partitions_items l'; Ok (d :: ds)
  | _ :: _ => Raise (AttributeError "items")
  end.

(** The setter of [ExplicitPartitioning.partitions]. *)
Definition partitions_setter (value : json) : result (list (list (string * json))) :=
  match value with
  | JList l => partitions_items l
  | JStr EmptyString | JDict [] => Ok []
  | JStr _ | JDict _ => Raise (AttributeError "items")
  | _ => Raise (TypeError "partitions must be an iterable of dicts")
  end.

Definition lookup_setter (value : json) : result string :=
  match value with
  | JStr s => Ok s
  | _ => Raise (TypeError "lookup must be a string")
  end.

Definition json_of_offsets (offsets : list Z) : json := JList (map JInt offsets).

(** [PrefixSuffixPartitioning._tojsonargs] *)
Definition prefixsuffix_tojsonargs (offsets : list Z) (delimiter : string) : list json :=
  (json_of_offsets offsets
   :: (if bool_decide (delimiter = "-") then [] else [JStr delimiter]))%list.

(** [Partitioning.tojson]: [{self.__class__.__name__: self._tojsonargs()}];
    the base class has no [_tojsonargs]. *)
Definition Partitioning_tojson (p : Partitioning) : result json :=
  match p with
  | Partitioning_ _ => Raise (AttributeError "_tojsonargs")
  | ExplicitPartitioning offsets partitions =>
      Ok (JDict [("ExplicitPartitioning",
                  JList [json_of_offsets offsets; JList (map JDict partitions)])])
  | PrefixSuffixPartitioning offsets delimiter =>
      Ok (JDict [("PrefixSuffixPartitioning", JList (prefixsuffix_tojsonargs offsets delimiter))])
  | PrefixPartitioning offsets delimiter =>
      Ok (JDict [("PrefixPartitioning", JList (prefixsuffix_tojsonargs offsets delimiter))])
  | SuffixPartitioning offsets delimiter =>
      Ok (JDict [("SuffixPartitioning", JList (prefixsuffix_tojsonargs offsets delimiter))])
  | ExternalPartitioning lookup =>
      Ok (JDict [("ExternalPartitioning", JList [JStr lookup])])
  end.

Definition bad_arity {A} : result A :=
  Raise (TypeError "__init__() takes a different number of arguments").

(** [PrefixSuffixPartitioning.__init__(offsets, delimiter="-")] *)
Definition prefixsuffix_init (mk : list Z -> string -> Partitioning) (args : list json)
    : result Partitioning :=
  match args with
  | [offsets] =>
      do o <- offsets_setter offsets;
      do d <- PrefixSuffixPartitioning_set_delimiter (JStr "-"); Ok (mk o d)
  | [offsets; delimiter] =>
      do o <- offsets_setter offsets;
      do d <- PrefixSuffixPartitioning_set_delimiter delimiter; Ok (mk o d)
  | _ => bad_arity
  end.

(** The positional arguments that unpacking an iterable gives *)
Definition star_args (args : json) : result (list json) :=
  match args with
  | JList l => Ok l
  | JStr s => Ok (map (fun c => JStr (String c EmptyString)) (list_ascii_of_string s))
  | JDict d => Ok (map JStr (dict_keys d))
  | _ => Raise (TypeError "argument after * must be an iterable")
  end.

(** The constructors of the partitioning classes, on positional
    arguments *)
Definition Partitioning_init (args : list json) : result Partitioning :=
  match args with
  | [offsets] => do o <- offsets_setter offsets; Ok (Partitioning_ o)
  | _ => bad_arity
  end.

Definition ExplicitPartitioning_init (args : list json) : result Partitioning :=
  match args with
  | [offsets; partitions] =>
      do o <- offsets_setter offsets;
      do p <- partitions_setter partitions; Ok (ExplicitPartitioning o p)
  | _ => bad_arity
  end.

Definition ExternalPartitioning_init (args : list json) : result Partitioning :=
  match args with
  | [lookup] => do l <- lookup_setter lookup; Ok (ExternalPartitioning l)
  | _ => bad_arity
  end.

(** [globals()[classname]], with [globals()] restricted to the
    partitioning classes *)
Definition partitioning_class (classname : string)
    : option (list json -> result Partitioning) :=
  if bool_decide (classname = "Partitioning") then Some Partitioning_init
  else if bool_decide (classname = "ExplicitPartitioning") then Some ExplicitPartitioning_init
  else if bool_decide (classname = "PrefixSuffixPartitioning")
  then Some (prefixsuffix_init PrefixSuffixPartitioning)
  else if bool_decide (classname = "PrefixPartitioning")
  then Some (prefixsuffix_init PrefixPartitioning)
  else if bool_decide (classname = "SuffixPartitioning")
  then Some (prefixsuffix_init SuffixPartitioning)
  else if bool_decide (classname = "ExternalPartitioning") then Some ExternalPartitioning_init
  else None.

(** [Partitioning.fromjson]: the class found under the only key is called
    on the unpacked value. *)
Definition Partitioning_fromjson (data : json) : result Partitioning :=
  match data with
  | JDict [(classname, args)] =>
      match partitioning_class classname with
      | None => Raise (ValueError "partitioning class not found")
      | Some cls => do args <- star_args args; cls args
      end
  | _ => Raise (TypeError "JSON for a Partitioning must be a one-item dict")
  end.

(** ** Datasets *)

Inductive extension_t :=
| ExtNone
| ExtModule (module : string)
| ExtModules (modules : list string).

Definition has_extension (e : extension_t) : bool :=
  match e with
  | ExtNone => false
  | _ => true
  end.

Section Dataset.
Context `{Packing}.

Record Dataset := mkDataset {
  ds_schema : addr;
  ds_prefix : option string;
  ds_delimiter : option string;
  ds_extension : extension_t;
  ds_partitioning : option Partitioning;
  ds_packing : option PackedSource;
  ds_name : option string;
  ds_doc : option string;
  ds_metadata : option (list (string * json))
}.

Definition json_of_extension (e : extension_t) : json :=
  match e with
  | ExtNone => JNull
  | ExtModule m => JStr m
  | ExtModules ms => JList (map JStr ms)
  end.

Definition json_of_metadata (m : option (list (string * json))) : json :=
  match m with
  | None => JNull
  | Some d => JDict d
  end.

(** [Dataset.tojson(self, explicit=False)] *)
Definition Dataset_tojson (h : heap) (d : Dataset) (explicit : bool) : result json :=
  do s <- tojson h (ds_schema d) explicit;
  let out := [("schema", s)] in
  let out := set_if (explicit || is_some (ds_prefix d)) "prefix"
               (json_of_optstring (ds_prefix d)) out in
  let out := set_if (explicit || is_some (ds_delimiter d)) "delimiter"
               (json_of_optstring (ds_delimiter d)) out in
  let out := set_if (explicit || has_extension (ds_extension d)) "extension"
               (json_of_extension (ds_extension d)) out in
  do out <-
    (if explicit || is_some (ds_partitioning d) then
       do p <- match ds_partitioning d with
               | None => Ok JNull
               | Some p => Partitioning_tojson p
               end;
       Ok (dict_set out "partitioning" p)
     else Ok out);
  let out := set_if (explicit || is_some (ds_packing d)) "packing"
               (_packingtojson (ds_packing d)) out in
  let out := set_if (explicit || is_some (ds_name d)) "name"
               (json_of_optstring (ds_name d)) out in
  let out := set_if (explicit || is_some (ds_doc d)) "doc"
               (json_of_optstring (ds_doc d)) out in
  let out := set_if (explicit || is_some (ds_metadata d)) "metadata"
               (json_of_metadata (ds_metadata d)) out in
  Ok (JDict out).

(** [isinstance(schema, List) and not schema.nullable] *)
Definition nonnullable_list (h : heap) (s : addr) : bool :=
  match h !! s with
  | Some (List _ _ _ c) => negb (nullable c)
  | _ => false
  end.

Definition metadata_setter (v : json) : result (option (list (string * json))) :=
  match v with
  | JNull => Ok None
  | JDict d => Ok (Some d)
  | _ => Raise (TypeError "metadata must be None or a dict of string-valued keys")
  end.

(** [Dataset.__init__]: the setters in the order the constructor runs
    them, on the arguments [Dataset.fromjson] passes; [extension] is left
    at its default [None]. *)
Definition Dataset_init (h : heap) (schema : addr) (prefix delimiter : json)
    (partitioning : option Partitioning) (packing_ : option PackedSource)
    (name_ doc_ metadata : json) : result Dataset :=
  do prefix <- optstr_setter "prefix" prefix;
  do delimiter <- Dataset_set_delimiter delimiter;
  do partitioning <-
    (if is_some partitioning && negb (nonnullable_list h schema)
     then Raise (TypeError "non-trivial (None) partitionings can only be used on data whose schema is a non-nullable List")
     else Ok partitioning);
  do name_ <- optstr_setter "name" name_;
  do doc_ <- optstr_setter "doc" doc_;
  do metadata <- metadata_setter metadata;
  Ok (mkDataset schema prefix delimiter ExtNone partitioning packing_ name_ doc_ metadata).

(** [Dataset.fromjson(data)] *)
Definition Dataset_fromjson (h : heap) (data : json) : result (Dataset * heap) :=
  match data with
  | JDict data =>
      match dict_get data "schema" with
      | None => Raise (KeyError "schema")
      | Some s =>
          do r <- fromjson h s;
          let prefix := get_default data "prefix" JNull in
          let delimiter := get_default data "delimiter" JNull in
          let extensions := get_default data "extension" JNull in
          do partitioning <-
            match get_default data "partitioning" JNull with
            | JNull => Ok None
            | p => do p <- Partitioning_fromjson p; Ok (Some p)
            end;
          do packing_ <- _packingfromjson (get_default data "packing" JNull);
          let name_ := get_default data "data" JNull in
          let doc_ := get_default data "doc" JNull in
          let metadata := get_default data "metadata" JNull in
          do d <- Dataset_init r.2 r.1 prefix delimiter partitioning packing_ name_ doc_ metadata;
          Ok (d, r.2)
      end
  | _ => Raise (TypeError "JSON for Dataset must be a dict")
  end.

End Dataset.

(** ** Numpy arrays

    One-dimensional arrays are lists.  Positions ([posdtype]) and mask
    entries ([maskdtype]) are integers of [Z]; the buffers the operations
    below build hold indices into existing buffers. *)

Definition index_error {A} : result A := Raise (IndexError "index out of bounds").

(** [a[i]], a negative [i] counting from the end *)
Definition getitem {A} (a : list A) (i : Z) : result A :=
  let k := if i <? 0 then i + Z.of_nat (length a) else i in
  if k <? 0 then index_error
  else match a !! Z.to_nat k with
       | Some x => Ok x
       | None => index_error
       end.

(** [a[i] = v] *)
Definition setitem {A} (a : list A) (i : Z) (v : A) : result (list A) :=
  let k := if i <? 0 then i + Z.of_nat (length a) else i in
  if (0 <=? k) && (k <? Z.of_nat (length a)) then Ok (<[Z.to_nat k:=v]> a)
  else index_error.

(** [a[idx]] for an integer array [idx] *)
Fixpoint take_indices {A} (a : list A) (idx : list Z) : result (list A) :=
  match idx with
  | [] => Ok []
  | i :: idx' => do x <- getitem a i; do xs <- take_indices a idx'; Ok (x :: xs)
  end.

(** Where a slice bound falls in an array of length [n] *)
Definition slice_bound (n : nat) (x : Z) : nat :=
  Z.to_nat (if x <? 0 then Z.max 0 (x + Z.of_nat n) else Z.min x (Z.of_nat n)).

Definition in_slice (n : nat) (s e : Z) (k : nat) : bool :=
  (slice_bound n s <=? k)%nat && (k <? slice_bound n e)%nat.

(** [a[s:e] = v] for a scalar [v]: the slice is clipped to the array. *)
Definition setslice_scalar (a : list Z) (s e : Z) (v : Z) : list Z :=
  imap (fun k x => if in_slice (length a) s e k then v else x) a.

(** [a[s:e] = vals] for an array [vals]: the lengths must agree, except
    that a one-element array is broadcast. *)
Definition setslice_array (a : list Z) (s e : Z) (vals : list Z) : result (list Z) :=
  let lo := slice_bound (length a) s in
  let width := (slice_bound (length a) e - lo)%nat in
  if bool_decide (length vals = width) || bool_decide (length vals = 1%nat) then
    Ok (imap (fun k x =>
                if in_slice (length a) s e k
                then default x (vals !! (if bool_decide (length vals = width)
                                         then (k - lo)%nat else O))
                else x) a)
  else Raise (ValueError "could not broadcast input array").

(** [numpy.arange(n)] *)
Definition arange (n : Z) : list Z := map Z.of_nat (seq 0 (Z.to_nat n)).

(** [numpy.empty(n)]: [n] cells holding whatever the allocator left there,
    given by [junk]. *)
Definition numpy_empty (n : Z) (junk : nat -> Z) : result (list Z) :=
  if n <? 0 then Raise (ValueError "negative dimensions are not allowed")
  else Ok (map junk (seq 0 (Z.to_nat n))).

Definition array_max (a : list Z) : result Z :=
  match a with
  | [] => Raise (ValueError "zero-size array to reduction operation maximum")
  | x :: a' => Ok (foldl Z.max x a')
  end.

Definition array_min (a : list Z) : result Z :=
  match a with
  | [] => Raise (ValueError "zero-size array to reduction operation minimum")
  | x :: a' => Ok (foldl Z.min x a')
  end.

(** [numpy.array_equal(a, b)] *)
Definition array_equal (a b : list Z) : bool := bool_decide (a = b).

(** [range(a, b)] *)
Definition range (a b : Z) : list Z :=
  map (fun k => a + Z.of_nat k) (seq 0 (Z.to_nat (b - a))).

(** [for x in xs: state = body(x, state)] *)
Fixpoint for_each {X S} (body : X -> S -> result S) (xs : list X) (s : S) : result S :=
  match xs with
  | [] => Ok s
  | x :: xs' => do s' <- body x s; for_each body xs' s'
  end.

(** ** parent and index *)

(** [_parent_fill(starts, stops, pointers)] *)
Definition _parent_fill (starts stops pointers : list Z) : result (list Z) :=
  for_each (fun i pointers =>
              do start <- getitem starts (Z.of_nat i);
              do stop <- getitem stops (Z.of_nat i);
              Ok (setslice_scalar pointers start stop (Z.of_nat i)))
           (seq 0 (length starts)) pointers.

(** [_index_fill(starts, stops, pointers)] *)
Definition _index_fill (starts stops pointers : list Z) : result (list Z) :=
  for_each (fun i pointers =>
              do start <- getitem starts (Z.of_nat i);
              do stop <- getitem stops (Z.of_nat i);
              setslice_array pointers start stop (arange (stop - start)))
           (seq 0 (length starts)) pointers.

(** The buffer [parent] attaches:
    [pointers = numpy.empty(stops.max() - starts.min()); parent.fill(...)] *)
Definition parent_pointers (starts stops : list Z) (junk : nat -> Z) : result (list Z) :=
  do hi <- array_max stops;
  do lo <- array_min starts;
  do pointers <- numpy_empty (hi - lo) junk;
  _parent_fill starts stops pointers.

(** The buffer [index] attaches. *)
Definition index_values (starts stops : list Z) (junk : nat -> Z) : result (list Z) :=
  do hi <- array_max stops;
  do lo <- array_min starts;
  do values <- numpy_empty (hi - lo) junk;
  _index_fill starts stops values.

(** ** The overlay source, [_DualSource] *)

(** The loop shared by [_DualSource.__init__] and
    [_DualSource.arrayname]:
    [while trial is None or trial in taken: trial = prefix + str(i); i += 1];
    returns [trial] and the final value of [i].  [fuel] bounds the number of
    iterations. *)
Fixpoint first_free (fuel : nat) (prefix : string) (taken : gset string) (i : nat)
    : result (string * nat) :=
  match fuel with
  | O => Stuck
  | S fuel =>
      let trial := prefix ++ str_nat i in
      if bool_decide (trial ∈ taken) then first_free fuel prefix taken (S i)
      else Ok (trial, S i)
  end.

(** The attributes of a [_DualSource] that its own methods use: the
    namespace, the arrays put so far, and the counter of array names. *)
Record DualSource (A : Type) := mkDualSource {
  src_namespace : string;
  src_new : gmap string A;
  src_arraynum : nat
}.
Arguments mkDualSource {A} _ _ _.
Arguments src_namespace {A} _.
Arguments src_new {A} _.
Arguments src_arraynum {A} _.

(** [_DualSource.__init__(self, old, oldns)] *)
Definition DualSource_init {A} (oldns : gset string) : result (DualSource A) :=
  do r <- first_free (S (size oldns)) "namespace-" oldns 0;
  Ok (mkDualSource r.1 ∅ 0).

(** [_DualSource.arrayname(self)]: the name, and the source with its
    counter advanced *)
Definition arrayname {A} (self : DualSource A) : result (string * DualSource A) :=
  do r <- first_free (S (size (src_new self))) "array-" (dom (src_new self))
            (src_arraynum self);
  Ok (r.1, mkDualSource (src_namespace self) (src_new self) r.2).

(** The roles of [oamap.generator] that [put] builds: the class, and the
    name and the namespace given to its constructor. *)
Inductive role_class :=
| DataRole | MaskRole | StartsRole | StopsRole | TagsRole | OffsetsRole | PositionsRole.

Record role := mkRole {
  role_class_of : role_class;
  role_name : string;
  role_namespace : string
}.

Section Put.
Context `{Packing}.
Context {A : Type}.

(** [str(role)].  The classes of the roles are in [oamap.generator],
    which is not among the sources: what [str] makes of a role is a
    parameter. *)
Variable str_role : role -> string.

(** [_DualSource.putall(roles2arrays)], [self.new] being a dict:
    [for n, x in roles2arrays.items(): self.new[str(n)] = x].  The items
    are taken in the order of their insertion, which is the order of a
    dict from Python 3.7 on; before, the order is that of the hashes, and
    the result differs only if two roles have the same [str]. *)
Definition putall (self : DualSource A) (roles2arrays : list (role * A)) : DualSource A :=
  mkDualSource (src_namespace self)
    (foldl (fun new nx => <[str_role nx.1:=nx.2]> new) (src_new self) roles2arrays)
    (src_arraynum self).

(** [schemanode.mask = value] *)
Definition set_mask (n : node) (value : option string) : node :=
  let c := common n in
  let c' := Attrs (nullable c) value (packing c) (name c) (doc c) in
  match n with
  | Primitive t dims data _ => Primitive t dims data c'
  | List x starts stops _ => List x starts stops c'
  | Union ps tags offsets _ => Union ps tags offsets c'
  | Record_ fs _ => Record_ fs c'
  | Tuple ts _ => Tuple ts c'
  | Pointer x positions _ => Pointer x positions c'
  end.

(** [_DualSource.put(self, schemanode, *arrays)]: a fresh name for every
    role of the node, the node rewritten to hold [str] of its roles, the
    node's namespace set to that of the source, and the arrays stored under
    [str] of their roles.  [nss] holds the attribute [namespace] of the
    nodes, which the classes of schemas do not declare.  On a Record or a
    Tuple no branch binds [roles2arrays], and reading it raises. *)
Definition put (self : DualSource A) (h : heap) (nss : gmap addr string)
    (schemanode : addr) (arrays : list A)
    : result (DualSource A * heap * gmap addr string) :=
  match h !! schemanode with
  | None => Stuck
  | Some n =>
      let ns := src_namespace self in
      do r <-
        match n with
        | Primitive t dims _ c =>
            do r <- arrayname self;
            let datarole := mkRole DataRole r.1 ns in
            do a0 <- getitem arrays 0;
            Ok (r.2, [(datarole, a0)], Primitive t dims (Some (str_role datarole)) c)
        | List x _ _ c =>
            do r1 <- arrayname self;
            let startsrole := mkRole StartsRole r1.1 ns in
            do r2 <- arrayname r1.2;
            let stopsrole := mkRole StopsRole r2.1 ns in
            do a0 <- getitem arrays 0;
            do a1 <- getitem arrays 1;
            Ok (r2.2, [(startsrole, a0); (stopsrole, a1)],
                List x (Some (str_role startsrole)) (Some (str_role stopsrole)) c)
        | Union ps _ _ c =>
            do r1 <- arrayname self;
            let tagsrole := mkRole TagsRole r1.1 ns in
            do r2 <- arrayname r1.2;
            let offsetsrole := mkRole OffsetsRole r2.1 ns in
            do a0 <- getitem arrays 0;
            do a1 <- getitem arrays 1;
            Ok (r2.2, [(tagsrole, a0); (offsetsrole, a1)],
                Union ps (Some (str_role tagsrole)) (Some (str_role offsetsrole)) c)
        | Record_ _ _ | Tuple _ _ =>
            Raise (UnboundLocalError "roles2arrays")
        | Pointer x _ c =>
            do r <- arrayname self;
            let positionsrole := mkRole PositionsRole r.1 ns in
            do a0 <- getitem arrays 0;
            Ok (r.2, [(positionsrole, a0)], Pointer x (Some (str_role positionsrole)) c)
        end;
      let '(self, roles2arrays, n) := r in
      do r <-
        (if nullable (common n) then
           do r <- arrayname self;
           let maskrole := mkRole MaskRole r.1 ns in
           do a <- getitem arrays (-1);
           Ok (r.2, (roles2arrays ++ [(maskrole, a)])%list,
               set_mask n (Some (str_role maskrole)))
         else Ok (self, roles2arrays, n));
      let '(self, roles2arrays, n) := r in
      Ok (putall self roles2arrays, <[schemanode:=n]> h, <[schemanode:=ns]> nss)
  end.

End Put.

(** A buffer an operation puts: cells of the dtype of a Primitive, or
    integers (masks, offsets, positions). *)
Inductive buffer (V : Type) :=
| DataBuffer (cells : list V)
| IndexBuffer (cells : list Z).
Arguments DataBuffer {V} _.
Arguments IndexBuffer {V} _.

(** numpy's elementwise tests between the cells of an array and a Python
    float: [numpy.isnan(x)], [x == y], [x >= y], [x <= y]. *)
Class Dtype (V : Type) := {
  numpy_isnan : V -> bool;
  numpy_eq : V -> float -> bool;
  numpy_ge : V -> float -> bool;
  numpy_le : V -> float -> bool
}.

(** The cells of dtype [float64] *)
#[global] Instance float64_cells : Dtype float := {|
  numpy_isnan := PrimFloat.is_nan;
  numpy_eq x y := PrimFloat.eqb x y;
  numpy_ge x y := PrimFloat.leb y x;
  numpy_le x y := PrimFloat.leb x y
|}.

Section Operations.
Context `{Packing}.

Definition plain : attrs := Attrs false None None None None.

(** [record[fieldname] = value] *)
Definition record_setitem (h : heap) (record : addr) (fieldname : string) (value : slot)
    : result heap :=
  match h !! record with
  | Some (Record_ fs c) => Ok (<[record:=Record_ (dict_set fs fieldname value) c]> h)
  | _ => Raise (TypeError "object does not support item assignment")
  end.

Definition nullable_at (h : heap) (s : slot) : bool :=
  match lookup_obj h s with
  | Some n => nullable (common n)
  | None => false
  end.

Definition is_record (h : heap) (s : slot) : bool :=
  match lookup_obj h s with
  | Some (Record_ _ _) => true
  | _ => false
  end.

(** [str(role)], as in [put] *)
Variable str_role : role -> string.

(** [parent(data, fieldname, at)].  [nodes] is [schema.path(at,
    parents=True)], [nss] holds the namespaces of the nodes and [oldns]
    those of the generator; [starts], [stops] are the offsets of the list
    found there.  Returns the new schema and its namespaces, the overlay
    source, the Pointer it adds to the child record, and the buffer put
    under it. *)
Definition parent (h : heap) (nss : gmap addr string) (oldns : gset string)
    (nodes : list addr) (fieldname : string)
    (starts stops : list Z) (junk : nat -> Z)
    : result (heap * gmap addr string * DualSource (list Z) * addr * list Z) :=
  match nodes with
  | listnode :: parentnode :: _ =>
      match h !! listnode with
      | Some (List childnode _ _ c) =>
          if negb (is_record h childnode) then
            Raise (TypeError "parent operation must be applied to a field with list of records type")
          else if nullable c || nullable_at h childnode then
            Raise (NotImplementedError "nullable; need to merge masks")
          else
            do pointers <- parent_pointers starts stops junk;
            let (p, h) := alloc h (Pointer (Node parentnode) None plain) in
            match childnode with
            | Node child =>
                do h <- record_setitem h child fieldname (Node p);
                do arrays <- DualSource_init oldns;
                do r <- put str_role arrays h nss p [pointers];
                Ok (r.1.2, r.2, r.1.1, p, pointers)
            | Placeholder _ => Stuck
            end
      | _ => Raise (TypeError "parent operation must be applied to a field with list type")
      end
  | _ => Raise (TypeError "parent operation must be applied to a field of a record")
  end.

(** [index(data, fieldname, at)], with [listnode = schema.path(at)]. *)
Definition index (h : heap) (nss : gmap addr string) (oldns : gset string)
    (listnode : addr) (fieldname : string)
    (starts stops : list Z) (junk : nat -> Z)
    : result (heap * gmap addr string * DualSource (list Z) * addr * list Z) :=
  match h !! listnode with
  | Some (List childnode _ _ c) =>
      if negb (is_record h childnode) then
        Raise (TypeError "index operation must be applied to a field with list of records type")
      else if nullable c || nullable_at h childnode then
        Raise (NotImplementedError "nullable; need to merge masks")
      else
        do values <- index_values starts stops junk;
        let (p, h) := alloc h (Primitive int32 [] None plain) in
        match childnode with
        | Node child =>
            do h <- record_setitem h child fieldname (Node p);
            do arrays <- DualSource_init oldns;
            do r <- put str_role arrays h nss p [values];
            Ok (r.1.2, r.2, r.1.1, p, values)
        | Placeholder _ => Stuck
        end
  | _ => Raise (TypeError "index operation must be applied to a field with list type")
  end.

End Operations.

Section Transformations.
Context `{Packing}.

(** The constant [oamap.generator.Masked.maskedvalue], whose module is not
    among the sources: the reserved mask entry that means "absent". *)
Variable maskedvalue : Z.

(** [str(role)], as in [put] *)
Variable str_role : role -> string.

(** ** tomask *)

(** [while isinstance(nodes[0], List): nodes = (nodes[0].content,) + nodes] *)
Fixpoint descend_lists (fuel : nat) (h : heap) (s : slot) : result slot :=
  match fuel with
  | O => Stuck
  | S fuel =>
      match lookup_obj h s with
      | Some (List x _ _ _) => descend_lists fuel h x
      | _ => Ok s
      end
  end.

(** The boolean array [selection], over cells of any dtype *)
Definition selection {V} `{Dtype V} (primitive : list V) (low : float)
    (high : option float) : result (list bool) :=
  match high with
  | None =>
      if PrimFloat.is_nan low then Ok (map numpy_isnan primitive)
      else Ok (map (fun x => numpy_eq x low) primitive)
  | Some high =>
      if PrimFloat.is_nan low || PrimFloat.is_nan high then
        Raise (ValueError "if a range is specified, neither of the endpoints can be NaN")
      else Ok (map (fun x => numpy_ge x low && numpy_le x high) primitive)
  end.

(** [mask[selection] = v] for a boolean array [selection] *)
Definition setmask (mask : list Z) (sel : list bool) (v : Z) : result (list Z) :=
  if bool_decide (length mask = length sel)
  then Ok (zip_with (fun m (s : bool) => if s then v else m) mask sel)
  else Raise (IndexError "boolean index did not match indexed array").

Definition set_nullable (n : node) (b : bool) : node :=
  let c := common n in
  let c' := Attrs b (mask c) (packing c) (name c) (doc c) in
  match n with
  | Primitive t dims data _ => Primitive t dims data c'
  | List x starts stops _ => List x starts stops c'
  | Union ps tags offsets _ => Union ps tags offsets c'
  | Record_ fs _ => Record_ fs c'
  | Tuple ts _ => Tuple ts c'
  | Pointer x positions _ => Pointer x positions c'
  end.

(** [tomask(data, at, low, high)], for [data] a proxy.  [at_] is the node
    [schema.path(at)] finds, [nss] the namespaces of the nodes and [oldns]
    those of the generator; [data_] holds the rows of the data buffer its
    generator reads, which are single cells when the node has no [dims],
    and [oldmask] is the mask it reads.  With [dims], [selection] has a row of
    booleans for each row of the data, and indexing the mask, which has one
    dimension, with it raises.  Returns the new schema and its namespaces,
    the overlay source, the node, and the two buffers put under it. *)
Definition tomask {V} `{Dtype V} (h : heap) (nss : gmap addr string) (oldns : gset string)
    (at_ : addr) (data_ : list V) (oldmask : list Z) (low : float) (high : option float)
    : result (heap * gmap addr string * DualSource (buffer V) * addr * list V * list Z) :=
  do s <- descend_lists (S (length h)) h (Node at_);
  do arrays <- DualSource_init oldns;
  match s, lookup_obj h s with
  | Node a, Some (Primitive t dims dat c) =>
      let primitive := data_ in
      let mask_ := if nullable c then oldmask
                   else arange (Z.of_nat (length primitive)) in
      let h := <[a:=set_nullable (Primitive t dims dat c) true]> h in
      do sel <- selection primitive low high;
      do mask_ <- (if bool_decide (dims = []) then setmask mask_ sel maskedvalue
                   else Raise (IndexError "too many indices for array"));
      do r <- put str_role arrays h nss a [DataBuffer primitive; IndexBuffer mask_];
      Ok (r.1.2, r.2, r.1.1, a, primitive, mask_)
  | _, _ =>
      Raise (NotImplementedError "tomask operation only defined on primitive fields")
  end.

(** ** flatten *)

Definition not_toplevel {A} (op : string) : result A :=
  Raise (TypeError (op ++ " can only be applied to a top-level OAMap proxy (List, Record, Tuple)")).

(** [flatten(data, at)].  [toplevel] is the test on the proxy that opens
    the function, [outernode] is [schema.path(at)], [nss] holds the
    namespaces of the nodes and [oldns] those of the generator; the four
    arrays are the offsets of the outer and of the inner list.  Returns the
    new schema and its namespaces, the overlay source, and the [starts],
    [stops] put under [outernode]. *)
Definition flatten (h : heap) (nss : gmap addr string) (oldns : gset string)
    (toplevel : bool) (outernode : addr)
    (outerstarts outerstops innerstarts innerstops : list Z)
    : result (heap * gmap addr string * DualSource (list Z) * list Z * list Z) :=
  if negb toplevel then not_toplevel "flatten" else
  match h !! outernode with
  | Some (List innernode ostarts ostops c) =>
      match lookup_obj h innernode with
      | Some (List x _ _ c') =>
          if nullable c || nullable c' then
            Raise (NotImplementedError "nullable; need to merge masks")
          else if negb (array_equal (drop 1 innerstarts)
                                (take (length innerstops - 1) innerstops)) then
            Raise (NotImplementedError "inner arrays are not contiguous: flatten would require the creation of pointers")
          else
            do starts <- take_indices innerstarts outerstarts;
            do stops <- take_indices innerstops (map (fun e => e - 1) outerstops);
            let h := <[outernode:=List x ostarts ostops c]> h in
            do arrays <- DualSource_init oldns;
            do r <- put str_role arrays h nss outernode [starts; stops];
            Ok (r.1.2, r.2, r.1.1, starts, stops)
      | _ => Raise (TypeError "path does not refer to a list within a list")
      end
  | _ => Raise (TypeError "path does not refer to a list within a list")
  end.

(** ** filter *)

(** [view[j]] on the scratch view of [filter].  The view is the list whose
    offsets are [starts = [lo]] and [stops = [hi]], put on a source of its
    own: a list of [hi - lo] elements, the element [k] of which is the
    element [lo + k] of the content.  It is indexed as a Python sequence: a
    negative index counts from the end, and an index out of range raises
    IndexError (the class of the proxy is not among the sources).
    [content_] holds the elements of the content, by position. *)
Definition view_getitem {D} (content_ : list D) (lo hi : Z) (j : Z) : result D :=
  let k := if j <? 0 then j + (hi - lo) else j in
  if (0 <=? k) && (k <? hi - lo) then getitem content_ (lo + k)
  else Raise (IndexError "index is out of bounds for size").

(** The loop that [filter] generates around the user's predicate [fcn]:
    [view] is the scratch list of the elements in the window of the list,
    given by its [__getitem__], [numitems] the number of elements kept so
    far.

    The body of the inner loop, for one position [j]:
    [datum = view[j]; if fcn(datum): pointers[numitems] = j; numitems += 1] *)
Definition filter_keep {D} (fcn : D -> bool) (view : Z -> result D) (j : Z)
    (st : Z * list Z) : result (Z * list Z) :=
  do datum <- view j;
  if fcn datum
  then do pointers <- setitem st.2 st.1 j; Ok (st.1 + 1, pointers)
  else Ok st.

(** The body of the outer loop, for the slot [i]:
    [for j in range(viewstarts[i], viewstops[i]): ...; stops[i] = numitems] *)
Definition filter_slot {D} (fcn : D -> bool) (view : Z -> result D)
    (viewstarts viewstops : list Z) (i : nat) (st : Z * list Z * list Z)
    : result (Z * list Z * list Z) :=
  let '(numitems, stops, pointers) := st in
  do lo <- getitem viewstarts (Z.of_nat i);
  do hi <- getitem viewstops (Z.of_nat i);
  do r <- for_each (filter_keep fcn view) (range lo hi) (numitems, pointers);
  do stops <- setitem stops (Z.of_nat i) r.1;
  Ok (r.1, stops, r.2).

Definition filter_fill {D} (fcn : D -> bool) (view : Z -> result D)
    (viewstarts viewstops stops pointers : list Z) : result (Z * list Z * list Z) :=
  for_each (filter_slot fcn view viewstarts viewstops)
           (seq 0 (length viewstarts)) (0, stops, pointers).

(** [filter(data, fcn, args, at)].  [listnode] is [schema.path(at)], [nss]
    the namespaces of the nodes and [oldns] those of the generator;
    [viewstarts] and [viewstops] are the offsets of the list, [content_]
    the elements of its content by position, and [innerpointers] the
    positions of its content when that is a Pointer.  [fcn] is the
    predicate with its extra arguments fixed, a function into the booleans
    (what numba's check of the return type asks for).  The view's schema is
    a copy of the list's, so what [put] makes of it is dropped.  Returns
    the new schema and its namespaces, the overlay source, the Pointer now
    under the list, [offsets] (of which [offsets[:-1]] and [offsets[1:]]
    are put under the list) and the positions put under the Pointer. *)
Definition filter {D} (h : heap) (nss : gmap addr string) (oldns : gset string)
    (toplevel : bool) (listnode : addr) (fcn : D -> bool)
    (content_ : list D) (viewstarts viewstops innerpointers : list Z) (junk : nat -> Z)
    : result (heap * gmap addr string * DualSource (list Z) * addr * list Z * list Z) :=
  if negb toplevel then not_toplevel "filter" else
  match h !! listnode with
  | Some (List content starts stops c) =>
      if nullable c then Raise (NotImplementedError "nullable; need to merge masks") else
      do viewarrays <- DualSource_init oldns;
      do lo <- array_min viewstarts;
      do hi <- array_max viewstops;
      do _ <- put str_role viewarrays h nss listnode [[lo]; [hi]];
      let view := view_getitem content_ lo hi in
      do stops_ <- numpy_empty (Z.of_nat (length viewstarts)) junk;
      do pointers <- numpy_empty (hi - lo) junk;
      do r <- filter_fill fcn view viewstarts viewstops stops_ pointers;
      let '(numitems, stops_, pointers) := r in
      let offsets := 0 :: stops_ in
      let pointers := take (Z.to_nat numitems) pointers in
      let (p, h) := alloc h (Pointer content None plain) in
      let h := <[listnode:=List (Node p) starts stops c]> h in
      do r <-
        match lookup_obj h content with
        | Some (Pointer target _ c') =>
            if nullable c' then Raise (NotImplementedError "nullable; need to merge masks")
            else
              do pointers <- take_indices innerpointers pointers;
              if bool_decide (target = Node p) then
                Raise (TypeError "Pointer may not point directly at itself (it would never resolve to a value)")
              else Ok (<[p:=Pointer target None plain]> h, pointers)
        | _ => Ok (h, pointers)
        end;
      let (h, pointers) := r in
      do arrays <- DualSource_init oldns;
      do r <- put str_role arrays h nss listnode
                [take (length offsets - 1) offsets; drop 1 offsets];
      do r <- put str_role r.1.1 r.1.2 r.2 p [pointers];
      Ok (r.1.2, r.2, r.1.1, p, offsets, pointers)
  | _ => Raise (TypeError "path does not refer to a list")
  end.

End Transformations.

(** ** merge *)

(** What [merge] compares of a List node: its namespace and the names of
    its offsets buffers. *)
Record list_identity := ListId {
  id_namespace : string;
  id_starts : option string;
  id_stops : option string
}.

Global Instance list_identity_eq_dec : EqDecision list_identity.
Proof. solve_decision. Defined.

(** [x.namespace == y.namespace and x.starts == y.starts and x.stops == y.stops] *)
Definition same_identity (x y : list_identity) : bool :=
  bool_decide (id_namespace x = id_namespace y)
  && bool_decide (id_starts x = id_starts y)
  && bool_decide (id_stops x = id_stops y).

(** The end of [merge(data, container, *paths)], from the point where the
    List nodes that the paths name have been gathered in [listnodes]: the
    container's own list comes first unless it was [constructed] by the
    call.  Returns the identity the container list ends with. *)
Definition merge_lists (constructed : bool) (containerlist : list_identity)
    (pathnodes : list list_identity) : result list_identity :=
  let listnodes := ((if constructed then [] else [containerlist]) ++ pathnodes)%list in
  match listnodes with
  | [] => Raise (TypeError "at least one path must match schema elements")
  | first :: rest =>
      if negb (forallb (fun x => same_identity x first) rest) then
        Raise (ValueError "some of the paths refer to lists of different names")
      else Ok (if constructed then first else containerlist)
  end.

(** ** Combiners *)

(** A pending result: [resolved_at] is the time at which it resolves. *)
Record future (A : Type) := Future {
  resolved_at : nat;
  outcome : A
}.
Arguments Future {A} _ _.
Arguments resolved_at {A} _.
Arguments outcome {A} _.

(** [future.result(None)] called at time [now]: blocks until the future
    has resolved. *)
Definition future_result {A} (f : future A) (now : nat) : A * nat :=
  (outcome f, Nat.max now (resolved_at f)).

(** [numpy.concatenate(arrays)] *)
Definition numpy_concatenate {A} (arrays : list (list A)) : result (list A) :=
  match arrays with
  | [] => Raise (ValueError "need at least one array to concatenate")
  | _ => Ok (concat arrays)
  end.

Record MapCombiner (A : Type) := mkMapCombiner {
  map_futures : list (future (list A));
  map_result : option (list A)
}.
Arguments mkMapCombiner {A} _ _.
Arguments map_futures {A} _.
Arguments map_result {A} _.

(** [results.append(future.result(timeout))] *)
Definition map_step {A} (st : list (list A) * nat) (f : future (list A))
    : list (list A) * nat :=
  let (r, now) := future_result f st.2 in ((st.1 ++ [r])%list, now).

(** [MapCombiner.result(timeout=None)] called at time [now]: the value, the
    combiner afterwards, and the time of return. *)
Definition MapCombiner_result {A} (c : MapCombiner A) (now : nat)
    : result (list A * MapCombiner A * nat) :=
  match map_result c with
  | Some r => Ok (r, c, now)
  | None =>
      let st := foldl map_step ([], now) (map_futures c) in
      do r <- numpy_concatenate st.1;
      Ok (r, mkMapCombiner (map_futures c) (Some r), st.2)
  end.

Section Reduce.
Context {T : Type}.
(** [x + y] on tallies *)
Variable add : T -> T -> T.

(** The tallies futures return are Python values: [None] is one of them. *)
Record ReduceCombiner := mkReduceCombiner {
  reduce_futures : list (future (option T));
  reduce_result : option T
}.

(** [result + future.result(timeout)] with [result] not [None] *)
Definition add_tally (x : T) (y : option T) : result (option T) :=
  match y with
  | Some y => Ok (Some (add x y))
  | None => Raise (TypeError "unsupported operand type(s) for +")
  end.

(** The body of the loop: [result = future.result(timeout)] when
    [result is None], else [result = result + future.result(timeout)]. *)
Definition reduce_step (f : future (option T)) (st : option T * nat)
    : result (option T * nat) :=
  let (r, now) := future_result f st.2 in
  match st.1 with
  | None => Ok (r, now)
  | Some x => do s <- add_tally x r; Ok (s, now)
  end.

(** [ReduceCombiner.result(timeout=None)] called at time [now]. *)
Definition ReduceCombiner_result (c : ReduceCombiner) (now : nat)
    : result (option T * ReduceCombiner * nat) :=
  match reduce_result c with
  | Some r => Ok (Some r, c, now)
  | None =>
      do r <- for_each reduce_step (reduce_futures c) (None, now);
      Ok (r.1, mkReduceCombiner (reduce_futures c) r.1, r.2)
  end.

End Reduce.

(** ** Closed examples *)

(** A store without packed sources, for the closed examples. *)
Global Instance NoPacking : Packing := {|
  PackedSource := Empty_set;
  PackedSource_eqb := fun _ _ => true;
  PackedSource_tojson := fun _ => JNull;
  PackedSource_fromjson := fun _ => Raise (TypeError "no PackedSource class")
|}.

(** [p = Primitive("f8"); S = Tuple([p, p])]: [S] is at address 1. *)
Definition shared_primitive : heap :=
  [Primitive float64 [] None plain; Tuple [Node 0%nat; Node 0%nat] plain].

(** [l = List("f8"); p = Pointer(l); l.content = p]: [l] is at address 0. *)
Definition list_cycle : heap :=
  [List (Node 1%nat) None None plain; Pointer (Node 0%nat) None plain].

(** [l = List("f8"); S = Tuple([l, l])] at address 2, and
    [T = Tuple([List("f8"), List("f8")])] at address 5. *)
Definition shared_and_unshared : heap :=
  [Primitive float64 [] None plain;
   List (Node 0%nat) None None plain;
   Tuple [Node 1%nat; Node 1%nat] plain;
   List (Node 0%nat) None None plain;
   List (Node 0%nat) None None plain;
   Tuple [Node 3%nat; Node 4%nat] plain].

(** The list slot [[starts[i], stops[i])] *)
Definition slot_of (starts stops : list Z) (i : nat) (s e : Z) : Prop :=
  starts !! i = Some s /\ stops !! i = Some e.

Definition slots_wf (starts stops : list Z) : Prop :=
  length starts = length stops
  /\ forall i s e, slot_of starts stops i s e -> 0 <= s <= e.

Definition slots_disjoint (starts stops : list Z) : Prop :=
  forall i i' s e s' e' j,
    slot_of starts stops i s e -> slot_of starts stops i' s' e' ->
    s <= j < e -> s' <= j < e' -> i = i'.

(** What the specification says of one element [x]: equal to [low],
    NaN-aware, or within [[low, high]] when [high] is given. *)
Definition spec_selected (low : float) (high : option float) (x : float) : bool :=
  match high with
  | None => if PrimFloat.is_nan low then PrimFloat.is_nan x else PrimFloat.eqb x low
  | Some high => PrimFloat.leb low x && PrimFloat.leb x high
  end.

(** A range with a NaN endpoint *)
Definition nan_range (low : float) (high : option float) : bool :=
  match high with
  | None => false
  | Some high => PrimFloat.is_nan low || PrimFloat.is_nan high
  end.

(** Inner storage is contiguous: [stops[i] == starts[i+1]] wherever both
    exist. *)
Definition contiguous (starts stops : list Z) : Prop :=
  forall i e s, stops !! i = Some e -> starts !! S i = Some s -> e = s.

(** Some [stops[i]] differs from [starts[i+1]]. *)
Definition noncontiguous (starts stops : list Z) : Prop :=
  exists i e s, stops !! i = Some e /\ starts !! S i = Some s /\ e <> s.

(** Every outer slot runs over existing inner lists: its start is the
    position of one, its stop the position after one. *)
Definition outer_in_range (outerstarts outerstops : list Z) (n : nat) : Prop :=
  (forall k, k ∈ outerstarts -> 0 <= k < Z.of_nat n)
  /\ (forall k, k ∈ outerstops -> 1 <= k <= Z.of_nat n).

(** The positions [range(viewstarts[i], viewstops[i])] of slot [i] *)
Definition slot_range (viewstarts viewstops : list Z) (i : nat) : list Z :=
  range (default 0 (viewstarts !! i)) (default 0 (viewstops !! i)).

(** The positions the loop of [filter] visits in its first [k] slots, in
    the order of the visit *)
Definition positions_upto (viewstarts viewstops : list Z) (k : nat) : list Z :=
  concat (map (slot_range viewstarts viewstops) (seq 0 k)).

(** [fcn(view[j])] *)
Definition keeps {D} (fcn : D -> bool) (view : Z -> result D) (j : Z) : bool :=
  match view j with
  | Ok datum => fcn datum
  | _ => false
  end.

(** The positions among [js] whose element satisfies the predicate *)
Fixpoint survivors {D} (fcn : D -> bool) (view : Z -> result D) (js : list Z) : list Z :=
  match js with
  | [] => []
  | j :: js' =>
      if keeps fcn view j then j :: survivors fcn view js' else survivors fcn view js'
  end.

(** What the setter of [Partitioning.offsets] accepts: integers that do
    not decrease, none below [last]. *)
Fixpoint offsets_ok (last : Z) (offsets : list Z) : bool :=
  match offsets with
  | [] => true
  | x :: rest => (last <=? x) && offsets_ok x rest
  end.

(** The invariant of a partitioning built by its constructor, for the
    classes that define [_tojsonargs] (the base class does not). *)
Definition Partitioning_wf (p : Partitioning) : bool :=
  match p with
  | Partitioning_ _ => false
  | ExplicitPartitioning offsets _ => offsets_ok 0 offsets
  | PrefixSuffixPartitioning offsets delimiter
  | PrefixPartitioning offsets delimiter
  | SuffixPartitioning offsets delimiter =>
      offsets_ok 0 offsets && negb (_baddelimiter_match delimiter)
  | ExternalPartitioning _ => true
  end.

(** The invariant of a Dataset built by its constructor: what the setters
    of [delimiter] and [partitioning] have let through. *)
Definition Dataset_wf `{Packing} (h : heap) (d : Dataset) : Prop :=
  (forall s, ds_delimiter d = Some s -> _baddelimiter_match s = true)
  /\ (forall p, ds_partitioning d = Some p ->
        Partitioning_wf p = true /\ nonnullable_list h (ds_schema d) = true).

(** A Dataset named ["events"] over [Tuple([p, p])], [p = Primitive("f8")] *)
Definition shared_primitive_dataset : Dataset :=
  mkDataset 1%nat None None ExtNone None None (Some "events") None None.

(** [List("f8")], the List at address 1 *)
Definition list_of_doubles : heap :=
  [Primitive float64 [] None plain; List (Node 0%nat) None None plain].

(** A Dataset over [List("f8")] with every optional entry set *)
Definition full_dataset : Dataset :=
  mkDataset 1%nat (Some "object") (Some "x") (ExtModule "oamap.extension.common")
    (Some (PrefixPartitioning [0; 5; 10] "-")) None (Some "events")
    (Some "two partitions") (Some [("run", JInt 7)]).

(** What [Dataset] asks of the node at the root of its schema. *)
Definition is_nonnullable_list `{Packing} (n : node) : bool :=
  match n with
  | List _ _ _ c => negb (nullable c)
  | _ => false
  end.

(** A slot that holds a live Schema object *)
Definition in_heap `{Packing} (h : heap) (s : slot) : Prop :=
  exists b, s = Node b /\ (b < length h)%nat.

(** A finished schema graph: every child attribute holds a Schema of the
    arena, and the fields of a Record have distinct names (they are the
    keys of a dict). *)
Definition heap_wf `{Packing} (h : heap) : Prop :=
  forall a n, h !! a = Some n ->
    (forall s, s ∈ children n -> in_heap h s)
    /\ (forall fs c, n = Record_ fs c -> NoDup fs.*1).

(** [PackedSource.__eq__] is reflexive. *)
Definition packing_eq_reflexive `{Packing} : Prop :=
  forall p : PackedSource, PackedSource_eqb p p = true.

(** A memo that matches nodes with themselves only *)
Definition memo_id (memo : gmap nat nat) : Prop :=
  forall k v, memo !! k = Some v -> k = v.

(** [Record({"muons": List(Record({"pt": "f8"}))})]: the outer Record is
    at address 3, the List at 2, its Record at 1. *)
Definition muons : heap :=
  [Primitive float64 [] None plain; Record_ [("pt", Node 0%nat)] plain;
   List (Node 1%nat) None None plain; Record_ [("muons", Node 2%nat)] plain].

(** [muons] once [parent] has added the field ["parent"] to the inner
    Record and put its buffer under the name [positions] *)
Definition muons_with_parent (positions : string) : heap :=
  [Primitive float64 [] None plain;
   Record_ [("pt", Node 0%nat); ("parent", Node 4%nat)] plain;
   List (Node 1%nat) None None plain; Record_ [("muons", Node 2%nat)] plain;
   Pointer (Node 3%nat) (Some positions) plain].

(** ** What structural equality reads of a node *)

(** The node as [__eq__] sees it: no class compares [doc], and [List]
    leaves [nullable] out of its comparison as well. *)
Definition eq_view `{Packing} (n : node) : node :=
  let c := common n in
  match n with
  | Primitive t dims data _ =>
      Primitive t dims data (Attrs (nullable c) (mask c) (packing c) (name c) None)
  | List x starts stops _ =>
      List x starts stops (Attrs false (mask c) (packing c) (name c) None)
  | Union ps tags offsets _ =>
      Union ps tags offsets (Attrs (nullable c) (mask c) (packing c) (name c) None)
  | Record_ fs _ => Record_ fs (Attrs (nullable c) (mask c) (packing c) (name c) None)
  | Tuple ts _ => Tuple ts (Attrs (nullable c) (mask c) (packing c) (name c) None)
  | Pointer x positions _ =>
      Pointer x positions (Attrs (nullable c) (mask c) (packing c) (name c) None)
  end.

(** ** Partitionings: array names *)

(** [str(z)] for an integer *)
Definition str_int (z : Z) : string :=
  if z <? 0 then "-" ++ str_nat (Z.to_nat (- z)) else str_nat (Z.to_nat z).

(** The value of [x] when [isinstance(x, numbers.Integral)]; [bool] is a
    subclass of [int]. *)
Definition integral (x : json) : option Z :=
  match x with
  | JInt z => Some z
  | JBool b => Some (Z.b2z b)
  | _ => None
  end.

(** ["{0}".format(x)] for an integral [x] *)
Definition format_integral (x : json) : string :=
  match x with
  | JInt z => str_int z
  | JBool true => "True"
  | JBool false => "False"
  | _ => ""
  end.

(** [Partitioning.arrayid(self, column, id)], the checks every subclass
    runs first; returns the column name and the value of [id]. *)
Definition arrayid_check (column id : json) : result (string * Z) :=
  match column with
  | JStr c =>
      match integral id with
      | Some i => Ok (c, i)
      | None => Raise (TypeError "id must be an integer")
      end
  | _ => Raise (TypeError "column must be a string")
  end.

(** [PrefixSuffixPartitioning.numpartitions] *)
Definition numpartitions (offsets : list Z) : Z := Z.of_nat (length offsets) - 1.

Definition id_out_of_range {A} : result A :=
  Raise (IndexError "id is out of range for numpartitions").

(** [self.arrayid(column, id)] by class.  The classes that do not
    override the method return [None] from the checks of the base class. *)
Definition Partitioning_arrayid (p : Partitioning) (column id : json) : result json :=
  do ci <- arrayid_check column id;
  match p with
  | Partitioning_ _ | PrefixSuffixPartitioning _ _ | ExternalPartitioning _ => Ok JNull
  | ExplicitPartitioning _ partitions =>
      do d <- getitem partitions ci.2;
      match dict_get d ci.1 with
      | Some v => Ok v
      | None => Raise (KeyError ci.1)
      end
  | PrefixPartitioning offsets delimiter =>
      if (0 <=? ci.2) && (ci.2 <? numpartitions offsets)
      then Ok (JStr (format_integral id ++ delimiter ++ ci.1))
      else id_out_of_range
  | SuffixPartitioning offsets delimiter =>
      if (0 <=? ci.2) && (ci.2 <? numpartitions offsets)
      then Ok (JStr (ci.1 ++ delimiter ++ "part" ++ format_integral id))
      else id_out_of_range
  end.

(** [self._offsets]; an ExternalPartitioning has no such attribute. *)
Definition Partitioning_offsets (p : Partitioning) : option (list Z) :=
  match p with
  | Partitioning_ o | ExplicitPartitioning o _ | PrefixSuffixPartitioning o _
  | PrefixPartitioning o _ | SuffixPartitioning o _ => Some o
  | ExternalPartitioning _ => None
  end.

(** [self._delimiter] *)
Definition Partitioning_delimiter (p : Partitioning) : option string :=
  match p with
  | PrefixSuffixPartitioning _ d | PrefixPartitioning _ d | SuffixPartitioning _ d => Some d
  | _ => None
  end.

(** [Partitioning.arrayat(self, column, index)] for an integer [index].
    The last line calls [arrayid] as a global name, which the module never
    binds: the name is looked up before the arguments are evaluated. *)
Definition Partitioning_arrayat (p : Partitioning) (column : json) (index : Z)
    : result json :=
  match Partitioning_offsets p with
  | None => Raise (AttributeError "_offsets")
  | Some offsets =>
      let size := getitem offsets (-1) in
      do normalindex <- (if 0 <=? index then Ok index
                         else do n <- size; Ok (index + n));
      do inbounds <- (if 0 <=? normalindex then do n <- size; Ok (normalindex <? n)
                      else Ok false);
      if inbounds then Raise (NameError "arrayid")
      else Raise (IndexError "index is out of bounds for size")
  end.

(** Every character of [s] is a decimal digit. *)
Definition all_digits (s : string) : bool := all_chars (in_range "0" "9") s.

(** The offsets a partitioning may hold: none negative, none below its
    predecessor. *)
Definition nondecreasing (offsets : list Z) : Prop :=
  forall i j x y, (i <= j)%nat -> offsets !! i = Some x -> offsets !! j = Some y ->
    0 <= x <= y.

(** ** define, map and reduce: the loops around the user's function

    [view] is the scratch list of the elements in the window of the list,
    as in [filter]; the user's function is a total function of the datum
    (its extra arguments are fixed). *)

(** [numpy.empty(len(view), dtype)] for any item type *)
Definition numpy_empty_like {A D} (view : list D) (junk : nat -> A) : list A :=
  map junk (seq 0 (length view)).

(** What [oamap.util.returntype] reports of the compiled function, read
    against the field's dtype; [define] holds [None] when numba is not in
    use. *)
Inductive returntype :=
| rtype_pyobject   (* [nb.types.pyobject] *)
| rtype_dtype      (* [nb.from_dtype(fieldtype.dtype)] *)
| rtype_optional   (* [nb.types.optional(nb.from_dtype(fieldtype.dtype))] *)
| rtype_other.

Section Define.
Context {D R V : Type}.

(** The constant [oamap.generator.Masked.maskedvalue] *)
Variable maskedvalue : Z.

(** The buffer is [numpy.empty(len(view), dtype=fieldtype.dtype)]: an
    assignment [primitive[i] = value] stores the value converted to that
    dtype, or raises when numpy cannot convert it.  [R] is what the
    function returns, [V] what a cell holds. *)
Variable astype : R -> result V.

(** The loop [define] generates for a non-nullable [fieldtype]:
    [primitive[i] = fcn(datum); i += 1] *)
Definition define_fill (fcn : D -> R) (view : list D) (primitive : list V)
    : result (Z * list V) :=
  for_each (fun datum st =>
              do value <- astype (fcn datum);
              do primitive <- setitem st.2 st.1 value; Ok (st.1 + 1, primitive))
           view (0, primitive).

(** The buffer [define] puts under the new field; the return type numba
    found is checked first. *)
Definition define_primitive (rtype : option returntype) (fcn : D -> R) (view : list D)
    (junk : nat -> V) : result (list V) :=
  match rtype with
  | Some rtype_pyobject =>
      Raise (TypeError "numba could not prove that the function's output type is the fieldtype")
  | Some rtype_optional | Some rtype_other =>
      Raise (TypeError "function returns another type than fieldtype is set to")
  | Some rtype_dtype | None =>
      do r <- define_fill fcn view (numpy_empty_like view junk); Ok r.2
  end.

(** The body of the loop for a nullable [fieldtype]; the state is
    [(i, numitems, primitive, mask)]. *)
Definition define_masked_step (fcn : D -> option R) (datum : D)
    (st : Z * Z * list V * list Z) : result (Z * Z * list V * list Z) :=
  let '(i, numitems, primitive, mask_) := st in
  match fcn datum with
  | None =>
      do mask_ <- setitem mask_ i maskedvalue;
      Ok (i + 1, numitems, primitive, mask_)
  | Some tmp =>
      do mask_ <- setitem mask_ i numitems;
      do value <- astype tmp;
      do primitive <- setitem primitive numitems value;
      Ok (i + 1, numitems + 1, primitive, mask_)
  end.

(** The buffers [define] puts under a new nullable field: the data, of
    which only the first [numitems] cells are written, and the mask. *)
Definition define_masked (rtype : option returntype) (fcn : D -> option R) (view : list D)
    (junk : nat -> V) (maskjunk : nat -> Z) : result (list V * list Z) :=
  match rtype with
  | Some rtype_pyobject | Some rtype_dtype | Some rtype_other =>
      Raise (TypeError "function returns another type than fieldtype is set to")
  | Some rtype_optional | None =>
      do r <- for_each (define_masked_step fcn) view
                (0, 0, numpy_empty_like view junk, numpy_empty_like view maskjunk);
      Ok (r.1.2, r.2)
  end.

End Define.

(** The return types [define] goes on with: none (numba not in use), or
    the one that fits the field type. *)
Definition rtype_accepted (nullable_ : bool) (rtype : option returntype) : bool :=
  match rtype with
  | None => true
  | Some rtype_dtype => negb nullable_
  | Some rtype_optional => nullable_
  | Some _ => false
  end.

(** The conversion of a Python integer to a cell of dtype [int32], as the
    C cast of numpy does it: the value modulo [2^32], read as signed. *)
Definition astype_int32 (x : Z) : result Z :=
  Ok ((x + 2 ^ 31) mod 2 ^ 32 - 2 ^ 31).

Section Map.
Context {D : Type}.

(** [if tmp is not None: out[numitems] = tmp; numitems += 1] *)
Definition map_keep {A} (tmp : option A) (st : Z * list A) : result (Z * list A) :=
  match tmp with
  | Some v => do out <- setitem st.2 st.1 v; Ok (st.1 + 1, out)
  | None => Ok st
  end.

(** [map] when numba has typed the function as returning a number:
    every row gives an item. *)
Definition map_compiled {A} (fcn : D -> A) (view : list D) (junk : nat -> A)
    : result (list A) :=
  do r <- for_each (fun datum => map_keep (Some (fcn datum))) view
            (0, numpy_empty_like view junk);
  Ok r.2.

(** [map] when numba has typed the function as returning an optional
    number: [out = out[:numitems]]. *)
Definition map_compiled_optional {A} (fcn : D -> option A) (view : list D)
    (junk : nat -> A) : result (list A) :=
  do r <- for_each (fun datum => map_keep (fcn datum)) view
            (0, numpy_empty_like view junk);
  Ok (take (Z.to_nat r.1) r.2).

(** [map] without numba ([rtype is None]), for a function that returns a
    float or [None].  The first loop looks for the first row with a value:
    it returns [viewindex] and the last value of [first]. *)
Fixpoint map_first (fcn : D -> option float) (view : list D) (viewindex : nat)
    (first : option float) : nat * option float :=
  match view with
  | [] => (viewindex, first)
  | datum :: rest =>
      let first := fcn datum in
      if is_some first then (S viewindex, first)
      else map_first fcn rest (S viewindex) first
  end.

(** The result is [None] or an array of float64. *)
Definition map_interpreted (fcn : D -> option float) (view : list D)
    (junk : nat -> float) : result (option (list float)) :=
  let (viewindex, first) := map_first fcn view 0 None in
  if bool_decide (viewindex = length view) then Ok None
  else
    match first with
    | Some v =>
        do out <- setitem (numpy_empty_like view junk) 0 v;
        do r <- for_each (fun datum => map_keep (fcn datum)) (drop viewindex view) (1, out);
        Ok (Some (take (Z.to_nat r.1) r.2))
    | None => Raise (TypeError "function must return tuples of numbers (rows of a table)")
    end.

(** The loop [reduce] generates: [tally = fcn(datum, tally)] *)
Definition reduce_fill {T} (fcn : D -> T -> T) (view : list D) (tally : T) : T :=
  foldl (fun tally datum => fcn datum tally) tally view.

End Map.


(** The number of elements of the first [k] slots that the predicate
    keeps *)
Definition kept_upto {D} (fcn : D -> bool) (view : Z -> result D)
    (viewstarts viewstops : list Z) (k : nat) : nat :=
  length (survivors fcn view (positions_upto viewstarts viewstops k)).

(** ** Correspondences between schema graphs *)

Section Bisimulation.
Context `{Packing}.

(** Two child attributes hold nodes that correspond. *)
Definition slot_sim (R : addr -> addr -> Prop) (x y : slot) : Prop :=
  exists a b, x = Node a /\ y = Node b /\ R a b.

(** The attributes every class but List compares; List leaves
    [nullable] out. *)
Definition attrs_sim (c c' : attrs) : Prop :=
  mask c = mask c' /\ packing_eq (packing c) (packing c') = true /\ name c = name c'.

(** Two nodes agree in class and in the attributes that [__eq__]
    compares, and their children correspond: in order for a List, Union,
    Tuple or Pointer, by field name for a Record. *)
Definition node_sim (R : addr -> addr -> Prop) (n m : node) : Prop :=
  match n, m with
  | Primitive t dims data c, Primitive t' dims' data' c' =>
      t = t' /\ dims = dims' /\ data = data' /\ nullable c = nullable c' /\ attrs_sim c c'
  | List x starts stops c, List y starts' stops' c' =>
      starts = starts' /\ stops = stops' /\ attrs_sim c c' /\ slot_sim R x y
  | Union ps tags offsets c, Union qs tags' offsets' c' =>
      tags = tags' /\ offsets = offsets' /\ nullable c = nullable c' /\ attrs_sim c c'
      /\ Forall2 (slot_sim R) ps qs
  | Record_ fs c, Record_ gs c' =>
      nullable c = nullable c' /\ attrs_sim c c' /\ same_keys fs gs = true
      /\ forall k x y, dict_get fs k = Some x -> dict_get gs k = Some y -> slot_sim R x y
  | Tuple ts c, Tuple us c' =>
      nullable c = nullable c' /\ attrs_sim c c' /\ Forall2 (slot_sim R) ts us
  | Pointer x positions c, Pointer y positions' c' =>
      positions = positions' /\ nullable c = nullable c' /\ attrs_sim c c' /\ slot_sim R x y
  | _, _ => False
  end.

Definition is_primitive (h : heap) (a : addr) : bool :=
  match h !! a with
  | Some (Primitive _ _ _ _) => true
  | _ => false
  end.

(** A correspondence from the nodes of one graph to the nodes of another
    that respects the structure, and that sends every node that is not a
    Primitive to one node only. *)
Definition eq_correspondence (h : heap) (R : addr -> addr -> Prop) : Prop :=
  (forall a b, R a b ->
     exists n m, h !! a = Some n /\ h !! b = Some m /\ node_sim R n m)
  /\ (forall a b b', R a b -> R a b' -> is_primitive h a = false -> b = b').

End Bisimulation.

Section Memo.
Context `{Packing}.

(** Every pair of a memo corresponds, and no Primitive is a key. *)
Definition memo_in (h : heap) (R : addr -> addr -> Prop) (memo : gmap nat nat) : Prop :=
  forall k v, memo !! k = Some v -> R k v /\ is_primitive h k = false.

(** The correspondence that a memo describes: its own pairs, and the
    pairs of Primitives that compare equal (they are never recorded). *)
Definition memo_rel (h : heap) (memo : gmap nat nat) (a b : addr) : Prop :=
  memo !! a = Some b
  \/ (is_primitive h a = true
      /\ exists n m, h !! a = Some n /\ h !! b = Some m /\ node_sim (fun _ _ => False) n m).

(** A pair of the memo whose nodes agree and whose children are matched
    by the memo *)
Definition memo_consistent (h : heap) (memo : gmap nat nat) (k v : addr) : Prop :=
  is_primitive h k = false
  /\ exists n m, h !! k = Some n /\ h !! v = Some m /\ node_sim (memo_rel h memo) n m.

End Memo.

(** The test of [heap_wf] on a concrete arena *)
Definition heap_wfb `{Packing} (h : heap) : bool :=
  forallb (fun n =>
             forallb (fun s => match s with
                               | Node b => (b <? length h)%nat
                               | Placeholder _ => false
                               end) (children n)
             && match n with
                | Record_ fs _ => bool_decide (NoDup fs.*1)
                | _ => true
                end) h.

(** ** copy *)

Section Copy.
Context `{Packing}.

(** Whether the interpreter is Python 3 ([sys.version_info[0] > 2]); the
    module runs on both. *)
Variable python3 : bool.

(** The [dims] setter on a tuple of integers *)
Definition dims_check (dims : list Z) : result (list Z) :=
  if forallb (Z.leb 0) dims then Ok dims else bad_dims.

(** The [name] setter on [None] or a string *)
Definition name_check (n : option string) : result (option string) :=
  name_setter (json_of_optstring n).

(** What the setters of [content] and [target] store for the value of a
    child attribute: a string is taken for a dtype and becomes a new
    Primitive. *)
Definition as_schema (h : heap) (x : slot) : result (slot * heap) :=
  match x with
  | Node b => Ok (Node b, h)
  | Placeholder s =>
      do t <- numpy_dtype s;
      let (p, h) := alloc h (Primitive t [] None plain) in Ok (Node p, h)
  end.

(** [Union._extend] and [Tuple._extend] on a list of child values: a
    TypeError below is raised again with the message of the method. *)
Fixpoint extend_items (what : string) (h : heap) (items : list slot)
    : result (list slot * heap) :=
  match items with
  | [] => Ok ([], h)
  | x :: rest =>
      match as_schema h x with
      | Ok (x', h) => do r <- extend_items what h rest; Ok (x' :: r.1, r.2)
      | Raise _ => Raise (TypeError (what ++ " must be an iterable of Schemas"))
      | Stuck => Stuck
      end
  end.

(** [Record._extend] on the items of a dict: every key must be an
    identifier.  The failed assertion is handled by
    [raise TypeError(err.message)]; an exception has the attribute
    [message] on Python 2 only, so on Python 3 the handler itself raises
    AttributeError.  The message of the assertion, which quotes the key and
    the pattern of identifiers, is cut short here. *)
Fixpoint extend_fields (h : heap) (items : list (string * slot))
    : result (list (string * slot) * heap) :=
  match items with
  | [] => Ok ([], h)
  | (n, x) :: rest =>
      if negb (is_identifier n) then
        if python3
        then Raise (AttributeError "'AssertionError' object has no attribute 'message'")
        else Raise (TypeError "fields must be a dict from identifier strings to Schemas; the key is not an identifier")
      else
        do r <- as_schema h x;
        do rs <- extend_fields r.2 rest;
        Ok ((n, r.1) :: rs.1, rs.2)
  end.

(** [OrderedDict(items)] *)
Definition ordered_items (items : list (string * slot)) : list (string * slot) :=
  foldl (fun d nv => dict_set d nv.1 nv.2) [] items.

(** The setters that every constructor runs last, on the attributes of
    an existing node; [doc] is not among the arguments of [copy], and the
    constructor sets it to [None]. *)
Definition copy_attrs (c : attrs) : result attrs :=
  do n <- name_check (name c);
  Ok (Attrs (nullable c) (mask c) (packing c) n None).

(** [self.copy()]: the constructor of the class of [self], called on the
    attributes of [self]. *)
Definition copy (h : heap) (self : addr) : result (addr * heap) :=
  match h !! self with
  | None => Stuck
  | Some (Primitive t dims data c) =>
      do dims <- dims_check dims;
      do c' <- copy_attrs c;
      Ok (alloc h (Primitive t dims data c'))
  | Some (List x starts stops c) =>
      do r <- as_schema h x;
      do c' <- copy_attrs c;
      Ok (alloc r.2 (List r.1 starts stops c'))
  | Some (Union ps tags offsets c) =>
      do r <- extend_items "possibilities" h ps;
      do c' <- copy_attrs c;
      Ok (alloc r.2 (Union r.1 tags offsets c'))
  | Some (Record_ fs c) =>
      do r <- extend_fields h fs;
      do c' <- copy_attrs c;
      Ok (alloc r.2 (Record_ (ordered_items r.1) c'))
  | Some (Tuple ts c) =>
      do r <- extend_items "types" h ts;
      do c' <- copy_attrs c;
      Ok (alloc r.2 (Tuple r.1 c'))
  | Some (Pointer x positions c) =>
      do r <- as_schema h x;
      do c' <- copy_attrs c;
      Ok (alloc r.2 (Pointer r.1 positions c'))
  end.

(** The node with its [doc] removed *)
Definition clear_doc (n : node) : node :=
  let c := common n in
  let c' := Attrs (nullable c) (mask c) (packing c) (name c) None in
  match n with
  | Primitive t dims data _ => Primitive t dims data c'
  | List x starts stops _ => List x starts stops c'
  | Union ps tags offsets _ => Union ps tags offsets c'
  | Record_ fs _ => Record_ fs c'
  | Tuple ts _ => Tuple ts c'
  | Pointer x positions _ => Pointer x positions c'
  end.

(** What the setters of a node have let through: a name that is an
    identifier, dimensions that are not negative, field names that are
    identifiers. *)
Definition node_valid (n : node) : bool :=
  match name (common n) with
  | Some s => is_identifier s
  | None => true
  end
  && match n with
     | Primitive _ dims _ _ => forallb (Z.leb 0) dims
     | Record_ fs _ => forallb is_identifier fs.*1
     | _ => true
     end.

End Copy.

(** ** The round trip through JSON *)

Section RoundTrip.
Context `{Packing}.

(** [PackedSource.fromjson(p.tojson())] is a packing equal to [p], and no
    packing is serialized as [null]. *)
Definition packing_roundtrips : Prop :=
  forall p : PackedSource,
    PackedSource_tojson p <> JNull
    /\ exists q, PackedSource_fromjson (PackedSource_tojson p) = Ok q
                 /\ PackedSource_eqb q p = true.

(** Every node of the arena holds what its setters accept. *)
Definition heap_valid (h : heap) : Prop :=
  forall a n, h !! a = Some n -> node_valid n = true.

(** The [name] of a node is [None] or an identifier. *)
Definition name_ok (c : attrs) : bool :=
  match name c with Some s => is_identifier s | None => true end.

(** The relation that a finite map from new nodes to old nodes describes *)
Definition map_rel (rho : gmap addr addr) (x y : addr) : Prop := rho !! x = Some y.

(** The nodes [news] that deserialization has appended to the arena [G],
    with the node of [h] that each of them was serialized from: a new node
    agrees with its original, and its children are new nodes built before
    it. *)
Definition built (h G news : heap) (rho : gmap addr addr) : Prop :=
  (forall x y, rho !! x = Some y ->
     (length G <= x < length G + length news)%nat
     /\ exists n m, news !! (x - length G)%nat = Some n /\ h !! y = Some m
                    /\ node_sim (map_rel rho) n m)
  /\ (forall i n, news !! i = Some n ->
        (forall s, s ∈ children n ->
           exists c, s = Node c /\ (length G <= c < length G + i)%nat)
        /\ (forall fs c, n = Record_ fs c -> NoDup fs.*1)).

(** [j] deserializes, on any arena, to a new node that was serialized
    from [a]. *)
Definition rebuilds (h : heap) (j : json) (a : addr) : Prop :=
  forall (G : heap) (fuel : nat), (json_depth j <= fuel)%nat ->
    exists r news rho,
      _fromjson fuel j (G, ∅) = Ok (Node r, ((G ++ news)%list, ∅))
      /\ built h G news rho /\ rho !! r = Some a.

Definition rebuilds_slot (h : heap) (j : json) (s : slot) : Prop :=
  exists a, s = Node a /\ rebuilds h j a.

End RoundTrip.

(** * Theorems *)

(** ** Delimiters *)

Lemma generator_delimiter_check_spec delimiter :
  generator_delimiter_check delimiter = Ok tt <-> _baddelimiter_match delimiter = false.
Proof.
  unfold generator_delimiter_check, bad_delimiter.
  destruct (_baddelimiter_match delimiter); split; intros; congruence.
Qed.

Lemma baddelimiter_match_contains s :
  _baddelimiter_match s = true -> contains_word_char s = true.
Proof. destruct s as [|c s]; simpl; [discriminate|]. intros ->. reflexivity. Qed.

(** A delimiter without any identifier character passes the guard of
    [Schema.generator] and the setter of [PrefixSuffixPartitioning]. *)
Lemma clean_delimiter_accepted s :
  contains_word_char s = false ->
  generator_delimiter_check s = Ok tt
  /\ PrefixSuffixPartitioning_set_delimiter (JStr s) = Ok s.
Proof.
  intros Hs. assert (Hm : _baddelimiter_match s = false).
  { destruct (_baddelimiter_match s) eqn:E; [|reflexivity].
    apply baddelimiter_match_contains in E. congruence. }
  unfold generator_delimiter_check. simpl. rewrite Hm. split; reflexivity.
Qed.

(** The setter of [Dataset.delimiter] accepts a string exactly when its
    first character is an identifier character. *)
Lemma Dataset_set_delimiter_spec s :
  Dataset_set_delimiter (JStr s) = Ok (Some s) <-> _baddelimiter_match s = true.
Proof.
  simpl. unfold bad_delimiter.
  destruct (_baddelimiter_match s); simpl; split; intros; congruence.
Qed.

(** C8: the three entry points do not reject every delimiter that
    contains a character of [[a-zA-Z_0-9]] and accept every other one.
    ["-a"] contains "a", yet [Schema.generator] and the setter of
    [PrefixSuffixPartitioning.delimiter] accept it, because the pattern is
    matched at the first character only.  ["-"] contains no such character,
    yet the setter of [Dataset.delimiter] raises ValueError on it, and
    accepts ["a"]. *)
Theorem delimiter_validation_at_first_char_only :
  contains_word_char "-a" = true
  /\ generator_delimiter_check "-a" = Ok tt
  /\ PrefixSuffixPartitioning_set_delimiter (JStr "-a") = Ok "-a"
  /\ contains_word_char "-" = false
  /\ Dataset_set_delimiter (JStr "-")
     = Raise (ValueError "delimiters must not contain /[a-zA-Z_0-9]/")
  /\ contains_word_char "a" = true
  /\ Dataset_set_delimiter (JStr "a") = Ok (Some "a").
Proof. repeat split; reflexivity. Qed.

(** ** merge *)

Lemma same_identity_eq x y : same_identity x y = true <-> x = y.
Proof.
  unfold same_identity. rewrite !andb_true_iff, !bool_decide_eq_true.
  destruct x, y; simpl. split.
  - intros [[-> ->] ->]. reflexivity.
  - intros [= -> -> ->]. auto.
Qed.

(** With one identity shared by all its lists, [merge] passes the test. *)
Lemma merge_lists_same_identity constructed containerlist pathnodes :
  pathnodes <> [] ->
  Forall (fun x => x = containerlist) pathnodes ->
  merge_lists constructed containerlist pathnodes = Ok containerlist.
Proof.
  intros Hne Hall. unfold merge_lists.
  destruct constructed; simpl.
  - destruct pathnodes as [|first rest]; [congruence|].
    inversion Hall as [|? ? ? Hrest]; subst.
    replace (forallb (fun x => same_identity x containerlist) rest) with true; [reflexivity|].
    symmetry. apply forallb_forall. intros x Hx.
    apply same_identity_eq. rewrite Forall_forall in Hrest.
    apply Hrest. apply list_elem_of_In. exact Hx.
  - replace (forallb (fun x => same_identity x containerlist) pathnodes) with true; [reflexivity|].
    symmetry. apply forallb_forall. intros x Hx.
    apply same_identity_eq. rewrite Forall_forall in Hall.
    apply Hall. apply list_elem_of_In. exact Hx.
Qed.

(** C7: when two of the List fields named by the paths differ in
    namespace, starts name or stops name, [merge] raises ValueError.  The
    test sees the names only: the buffers, and so their lengths, are not an
    input of it. *)
Theorem merge_rejects_distinct_identities
    (constructed : bool) (containerlist : list_identity)
    (pathnodes : list list_identity) (x y : list_identity) :
  x ∈ pathnodes -> y ∈ pathnodes -> x <> y ->
  merge_lists constructed containerlist pathnodes
  = Raise (ValueError "some of the paths refer to lists of different names").
Proof.
  intros Hx Hy Hxy. unfold merge_lists.
  set (listnodes := ((if constructed then [] else [containerlist]) ++ pathnodes)%list).
  assert (Hx' : x ∈ listnodes) by (apply elem_of_app; right; exact Hx).
  assert (Hy' : y ∈ listnodes) by (apply elem_of_app; right; exact Hy).
  clearbody listnodes.
  destruct listnodes as [|first rest]; [inversion Hx'|].
  destruct (forallb (fun z => same_identity z first) rest) eqn:Hall; [|reflexivity].
  exfalso. apply Hxy.
  assert (Heq : forall z, z ∈ first :: rest -> z = first).
  { intros z Hz. apply elem_of_cons in Hz as [->|Hz]; [reflexivity|].
    rewrite forallb_forall in Hall. apply same_identity_eq, Hall.
    apply list_elem_of_In. exact Hz. }
  rewrite (Heq x Hx'), (Heq y Hy'). reflexivity.
Qed.

(** Two lists over buffers of equal content under different names, as in
    [{"a-B": [0, 2], "a-E": [2, 5], "b-B": [0, 2], "b-E": [2, 5]}]. *)
Lemma merge_rejects_distinct_identities_witness :
  merge_lists true (ListId "" None None)
    [ListId "" (Some "a-B") (Some "a-E"); ListId "" (Some "b-B") (Some "b-E")]
  = Raise (ValueError "some of the paths refer to lists of different names").
Proof.
  apply (merge_rejects_distinct_identities true (ListId "" None None) _
           (ListId "" (Some "a-B") (Some "a-E")) (ListId "" (Some "b-B") (Some "b-E"))).
  - apply list_elem_of_here.
  - apply list_elem_of_further, list_elem_of_here.
  - discriminate.
Defined.

(** ** Combiners *)

Lemma map_results_loop {A} (fs : list (future (list A))) results now :
  foldl map_step (results, now) fs
  = ((results ++ map outcome fs)%list, foldl Nat.max now (map resolved_at fs)).
Proof.
  revert results now. induction fs as [|f fs IH]; intros results now; simpl.
  - rewrite app_nil_r. reflexivity.
  - unfold map_step at 2. simpl. rewrite IH, <- app_assoc. reflexivity.
Qed.

Lemma reduce_results_loop {T} (add : T -> T -> T) (fs : list (future (option T)))
    (ts : list T) (x : T) now :
  map outcome fs = map Some ts ->
  for_each (reduce_step add) fs (Some x, now)
  = Ok (Some (foldl add x ts), foldl Nat.max now (map resolved_at fs)).
Proof.
  revert ts x now. induction fs as [|f fs IH]; intros [|t ts] x now Hmap;
    simpl in *; try discriminate; [reflexivity|].
  injection Hmap as Hf Hmap. unfold reduce_step at 1. simpl. rewrite Hf. simpl.
  apply IH, Hmap.
Qed.

(** C9: [MapCombiner.result] returns the concatenation of the futures'
    buffers in the order of the list it was given, and
    [ReduceCombiner.result] the left fold of their tallies with [+] in that
    order; the times at which the futures resolve only show in the time at
    which the call returns. *)
Theorem combiners_follow_submission_order {A T} (add : T -> T -> T)
    (maps : list (future (list A))) (reduces : list (future (option T)))
    (t0 : T) (ts : list T) (now : nat) :
  maps <> [] ->
  map outcome reduces = map Some (t0 :: ts) ->
  MapCombiner_result (mkMapCombiner maps None) now
  = Ok (concat (map outcome maps),
        mkMapCombiner maps (Some (concat (map outcome maps))),
        foldl Nat.max now (map resolved_at maps))
  /\ ReduceCombiner_result add (mkReduceCombiner reduces None) now
     = Ok (Some (foldl add t0 ts),
           mkReduceCombiner reduces (Some (foldl add t0 ts)),
           foldl Nat.max now (map resolved_at reduces)).
Proof.
  intros Hne Hred. split.
  - unfold MapCombiner_result. cbn [map_result map_futures].
    rewrite map_results_loop. simpl.
    destruct maps as [|f fs]; [congruence|]. reflexivity.
  - unfold ReduceCombiner_result. cbn [reduce_result reduce_futures].
    destruct reduces as [|f fs]; [discriminate|].
    simpl in Hred. injection Hred as Hf Hmap.
    cbn [for_each]. unfold reduce_step at 1. simpl. rewrite Hf. simpl.
    rewrite (reduce_results_loop add fs ts t0 _ Hmap). reflexivity.
Qed.

(** Three futures returning [A], [B], [C] that resolve in the order second,
    third, first; the tallies are strings, whose [+] does not commute. *)
Lemma combiners_follow_submission_order_witness :
  let maps := [Future 2 ["A"]; Future 0 ["B"]; Future 1 ["C"]] in
  let reduces := [Future 2 (Some "a"); Future 0 (Some "b"); Future 1 (Some "c")] in
  MapCombiner_result (mkMapCombiner maps None) 0
  = Ok (["A"; "B"; "C"], mkMapCombiner maps (Some ["A"; "B"; "C"]), 2%nat)
  /\ ReduceCombiner_result String.append (mkReduceCombiner reduces None) 0
     = Ok (Some "abc", mkReduceCombiner reduces (Some "abc"), 2%nat).
Proof.
  intros maps reduces.
  apply (combiners_follow_submission_order String.append maps reduces "a" ["b"; "c"] 0%nat).
  - discriminate.
  - reflexivity.
Defined.

(** ** Serialization round trip *)

(** A Pointer cycle is labelled, written once and read back. *)
Example roundtrip_list_cycle :
  tojson list_cycle 0%nat false
  = Ok (JDict [("type", JStr "list");
               ("content", JDict [("type", JStr "pointer"); ("target", JStr "#0")]);
               ("label", JStr "#0")])
  /\ roundtrip_eq list_cycle 0%nat = Ok true.
Proof. split; vm_compute; reflexivity. Qed.

(** A List shared by two fields is written once and read back shared. *)
Example roundtrip_shared_list :
  roundtrip_eq shared_and_unshared 2%nat = Ok true.
Proof. vm_compute. reflexivity. Qed.

(** C1: the round trip does not return for [S = Tuple([p, p])] with
    [p = Primitive("f8")].  The shared [p] gets the label ["#0"], but its
    first occurrence is written as the bare string ["float64"], which
    carries no label; the second occurrence is written as ["#0"], and
    [Schema.fromjson] raises TypeError for the unresolved label. *)
Theorem roundtrip_shared_primitive_raises :
  _labels shared_primitive 1%nat = Ok [0%nat]
  /\ tojson shared_primitive 1%nat false
     = Ok (JDict [("type", JStr "tuple");
                  ("types", JList [JStr "float64"; JStr "#0"])])
  /\ roundtrip shared_primitive 1%nat = Raise (TypeError "unresolved label").
Proof. repeat split; vm_compute; reflexivity. Qed.

(** With [explicit=True] the Primitive is written as a dict with its
    label, and the same schema is read back. *)
Example roundtrip_shared_primitive_explicit :
  (do j <- tojson shared_primitive 1%nat true;
   do r <- fromjson shared_primitive j;
   __eq__ r.2 r.1 1%nat) = Ok true.
Proof. vm_compute. reflexivity. Qed.

(** ** Structural equality *)

(** C2: [==] is not symmetric.  With [l = List("f8")], [S = Tuple([l, l])]
    and [T = Tuple([List("f8"), List("f8")])], [S == T] is [False]: the
    second visit of [l] finds it matched with the first list of [T], not
    the second.  [T == S] is [True]: the two lists of [T] are distinct keys
    of the memo.  Both calls return, and [S == S] and [T == T] hold. *)
Theorem eq_not_symmetric :
  __eq__ shared_and_unshared 2%nat 5%nat = Ok false
  /\ __eq__ shared_and_unshared 5%nat 2%nat = Ok true
  /\ __eq__ shared_and_unshared 2%nat 2%nat = Ok true
  /\ __eq__ shared_and_unshared 5%nat 5%nat = Ok true.
Proof. repeat split; vm_compute; reflexivity. Qed.

(** ** The overlay source: its names *)

Lemma str_nat_inj n m : str_nat n = str_nat m -> n = m.
Proof.
  unfold str_nat. intros Hs. apply DecimalNat.Unsigned.to_uint_inj.
  apply (f_equal NilEmpty.uint_of_string) in Hs. rewrite !NilEmpty.usu in Hs.
  congruence.
Qed.

Lemma append_cons x (a b : string) : String x a ++ b = String x (a ++ b).
Proof. reflexivity. Qed.

Lemma append_inj_l (a b c : string) : a ++ b = a ++ c -> b = c.
Proof.
  induction a as [|x a IH]; [auto|]. rewrite !append_cons. intros [= Heq]. auto.
Qed.

Lemma prefixed_names_bound (prefix : string) (taken : gset string) (i0 n : nat) :
  (forall j, (i0 <= j < i0 + n)%nat -> (prefix ++ str_nat j) ∈ taken) -> (n <= size taken)%nat.
Proof.
  intros Hin.
  set (l := map (fun j => prefix ++ str_nat j) (seq i0 n)).
  assert (Hnd : NoDup l).
  { apply NoDup_fmap_2; [|apply NoDup_seq].
    intros j j' Heq. apply append_inj_l in Heq. apply str_nat_inj, Heq. }
  assert (Hsub : (list_to_set l : gset string) ⊆ taken).
  { intros x Hx. apply elem_of_list_to_set in Hx.
    apply list_elem_of_fmap in Hx as (j & -> & Hj). apply elem_of_seq in Hj. apply Hin. lia. }
  apply subseteq_size in Hsub. rewrite size_list_to_set in Hsub by exact Hnd.
  unfold l in Hsub. rewrite length_map, length_seq in Hsub. exact Hsub.
Qed.

(** The loop returns the first name from [i0] on that is not taken. *)
Lemma first_free_spec (prefix : string) (taken : gset string) (i0 : nat) :
  forall fuel i,
    (i0 <= i)%nat -> (forall j, (i0 <= j < i)%nat -> (prefix ++ str_nat j) ∈ taken) ->
    (size taken < fuel + (i - i0))%nat ->
    exists k, first_free fuel prefix taken i = Ok (prefix ++ str_nat k, S k)
      /\ (i <= k)%nat /\ ((prefix ++ str_nat k) ∉ taken)
      /\ forall j, (i0 <= j < k)%nat -> (prefix ++ str_nat j) ∈ taken.
Proof.
  induction fuel as [|fuel IH]; intros i Hi Hin Hfuel.
  - exfalso. pose proof (prefixed_names_bound prefix taken i0 (i - i0)) as Hb.
    assert (i - i0 <= size taken)%nat; [|lia].
    apply Hb. intros j Hj. apply Hin. lia.
  - cbn [first_free]. case_bool_decide as Htaken.
    + destruct (IH (S i)) as (k & Hk & Hle & Hfree & Hbelow); [lia| |lia|].
      { intros j Hj. destruct (decide (j = i)) as [->|Hne]; [exact Htaken|]. apply Hin. lia. }
      exists k. split; [exact Hk|]. split; [lia|]. split; assumption.
    + exists i. split; [reflexivity|]. split; [lia|]. split; assumption.
Qed.

Lemma DualSource_init_returns {A} (oldns : gset string) :
  exists k,
    DualSource_init (A := A) oldns = Ok (mkDualSource ("namespace-" ++ str_nat k) ∅ 0)
    /\ ("namespace-" ++ str_nat k) ∉ oldns.
Proof.
  unfold DualSource_init.
  destruct (first_free_spec "namespace-" oldns 0 (S (size oldns)) 0)
    as (k & Hk & _ & Hfree & _); [lia|intros j Hj; lia|lia|].
  exists k. rewrite Hk. cbn [bind fst]. split; [reflexivity|exact Hfree].
Qed.

Lemma arrayname_returns {A} (self : DualSource A) :
  exists k,
    arrayname self
    = Ok ("array-" ++ str_nat k, mkDualSource (src_namespace self) (src_new self) (S k))
    /\ (src_arraynum self <= k)%nat
    /\ src_new self !! ("array-" ++ str_nat k) = None.
Proof.
  unfold arrayname.
  destruct (first_free_spec "array-" (dom (src_new self)) (src_arraynum self)
              (S (size (src_new self))) (src_arraynum self))
    as (k & Hk & Hle & Hfree & _); [lia|intros j Hj; lia|rewrite size_dom; lia|].
  exists k. rewrite Hk. cbn [bind fst snd]. split; [reflexivity|]. split; [exact Hle|].
  apply not_elem_of_dom. exact Hfree.
Qed.

(** In a source that holds no array yet, the names are given in order. *)
Lemma arrayname_empty {A} (ns : string) (n : nat) :
  arrayname (A := A) (mkDualSource ns ∅ n)
  = Ok ("array-" ++ str_nat n, mkDualSource ns ∅ (S n)).
Proof.
  unfold arrayname. cbn [src_new src_arraynum src_namespace].
  rewrite map_size_empty, dom_empty_L. cbn [first_free].
  rewrite bool_decide_eq_false_2 by set_solver. reflexivity.
Qed.

(** ** parent and index *)

Lemma for_each_app {X S} (body : X -> S -> result S) xs ys s :
  for_each body (xs ++ ys)%list s = do s' <- for_each body xs s; for_each body ys s'.
Proof.
  revert s. induction xs as [|x xs IH]; intros s; simpl; [reflexivity|].
  destruct (body x s); simpl; auto.
Qed.

Lemma getitem_lookup {A} (a : list A) (i : nat) x :
  a !! i = Some x -> getitem a (Z.of_nat i) = Ok x.
Proof.
  intros Hx. unfold getitem.
  destruct (Z.of_nat i <? 0) eqn:E; [apply Z.ltb_lt in E; lia|].
  rewrite E, Nat2Z.id, Hx. reflexivity.
Qed.

Lemma foldl_max_ge x a : x <= foldl Z.max x a /\ forall y, y ∈ a -> y <= foldl Z.max x a.
Proof.
  revert x. induction a as [|z a IH]; intros x; simpl.
  - split; [lia|]. intros y Hy. inversion Hy.
  - destruct (IH (Z.max x z)) as [H1 H2]. split; [lia|].
    intros y Hy. apply elem_of_cons in Hy as [->|Hy]; [lia|auto].
Qed.

Lemma array_max_ge a m : array_max a = Ok m -> forall y, y ∈ a -> y <= m.
Proof.
  destruct a as [|x a]; simpl; [discriminate|]. intros [= <-] y Hy.
  destruct (foldl_max_ge x a) as [H1 H2].
  apply elem_of_cons in Hy as [->|Hy]; auto.
Qed.

Lemma slice_bound_nonneg n x : 0 <= x -> slice_bound n x = Z.to_nat (Z.min x (Z.of_nat n)).
Proof. intros Hx. unfold slice_bound. destruct (Z.ltb_spec x 0); [lia|reflexivity]. Qed.

Lemma in_slice_spec n s e j :
  0 <= s -> 0 <= e -> (j < n)%nat ->
  in_slice n s e j = true <-> s <= Z.of_nat j < e.
Proof.
  intros Hs He Hj. unfold in_slice.
  rewrite !slice_bound_nonneg by assumption.
  rewrite andb_true_iff, Nat.leb_le, Nat.ltb_lt. lia.
Qed.

Lemma setslice_scalar_length a s e v : length (setslice_scalar a s e v) = length a.
Proof. unfold setslice_scalar. apply length_imap. Qed.

Lemma setslice_scalar_lookup a s e v j x :
  0 <= s -> 0 <= e -> a !! j = Some x ->
  setslice_scalar a s e v !! j = Some (if bool_decide (s <= Z.of_nat j < e) then v else x).
Proof.
  intros Hs He Hx. unfold setslice_scalar. rewrite list_lookup_imap, Hx. simpl.
  f_equal. apply lookup_lt_Some in Hx.
  pose proof (in_slice_spec (length a) s e j Hs He Hx) as Hspec.
  destruct (in_slice (length a) s e j); case_bool_decide; try reflexivity.
  - exfalso. tauto.
  - exfalso. assert (false = true) by tauto. discriminate.
Qed.

Lemma arange_length n : length (arange n) = Z.to_nat n.
Proof. unfold arange. rewrite length_map, length_seq. reflexivity. Qed.

Lemma arange_lookup n k : (k < Z.to_nat n)%nat -> arange n !! k = Some (Z.of_nat k).
Proof.
  intros Hk. unfold arange. rewrite list_lookup_fmap, lookup_seq_lt by assumption.
  reflexivity.
Qed.

Lemma setslice_array_fit a s e :
  0 <= s <= e -> e <= Z.of_nat (length a) ->
  exists a', setslice_array a s e (arange (e - s)) = Ok a'
    /\ length a' = length a
    /\ forall j x, a !! j = Some x ->
         a' !! j = Some (if bool_decide (s <= Z.of_nat j < e) then Z.of_nat j - s else x).
Proof.
  intros Hse He. unfold setslice_array.
  assert (Hlo : slice_bound (length a) s = Z.to_nat s).
  { rewrite slice_bound_nonneg by lia. f_equal. lia. }
  assert (Hhi : slice_bound (length a) e = Z.to_nat e).
  { rewrite slice_bound_nonneg by lia. f_equal. lia. }
  rewrite Hlo, Hhi, arange_length.
  assert (Hw : Z.to_nat (e - s) = (Z.to_nat e - Z.to_nat s)%nat) by lia.
  rewrite (bool_decide_eq_true_2 _ Hw). simpl.
  eexists. split; [reflexivity|]. split; [apply length_imap|].
  intros j x Hx. rewrite list_lookup_imap, Hx. simpl. f_equal.
  pose proof (lookup_lt_Some _ _ _ Hx) as Hj.
  pose proof (in_slice_spec (length a) s e j ltac:(lia) ltac:(lia) Hj) as Hspec.
  destruct (in_slice (length a) s e j); case_bool_decide.
  - rewrite arange_lookup by lia. simpl. lia.
  - exfalso. tauto.
  - exfalso. assert (false = true) by tauto. discriminate.
  - reflexivity.
Qed.

Section Slots.
Variables starts stops : list Z.
Hypothesis Hwf : slots_wf starts stops.
Hypothesis Hdisj : slots_disjoint starts stops.

Lemma slot_exists i : (i < length starts)%nat -> exists s e, slot_of starts stops i s e.
Proof.
  intros Hi. destruct Hwf as [Hlen _].
  destruct (lookup_lt_is_Some_2 starts i Hi) as [s Hs].
  destruct (lookup_lt_is_Some_2 stops i ltac:(lia)) as [e He].
  exists s, e. split; assumption.
Qed.

Lemma parent_fill_prefix p0 k :
  (k <= length starts)%nat ->
  exists p, for_each (fun i pointers =>
              do start <- getitem starts (Z.of_nat i);
              do stop <- getitem stops (Z.of_nat i);
              Ok (setslice_scalar pointers start stop (Z.of_nat i)))
           (seq 0 k) p0 = Ok p
    /\ length p = length p0
    /\ forall i s e j, (i < k)%nat -> slot_of starts stops i s e ->
         s <= Z.of_nat j < e -> (j < length p0)%nat -> p !! j = Some (Z.of_nat i).
Proof.
  induction k as [|k IH]; intros Hk.
  - exists p0. simpl. split; [reflexivity|]. split; [reflexivity|]. intros; lia.
  - destruct (IH ltac:(lia)) as (p & Hp & Hlen & Hinv).
    destruct (slot_exists k ltac:(lia)) as (sk & ek & Hslot).
    pose proof (proj2 Hwf k sk ek Hslot) as Hrange.
    rewrite seq_S, for_each_app, Hp. simpl.
    destruct Hslot as [Hsk Hek].
    rewrite (getitem_lookup _ _ _ Hsk), (getitem_lookup _ _ _ Hek). simpl.
    eexists. split; [reflexivity|]. split; [rewrite setslice_scalar_length; exact Hlen|].
    intros i s e j Hi Hslot Hj Hjlen.
    destruct (lookup_lt_is_Some_2 p j ltac:(lia)) as [x Hx].
    rewrite (setslice_scalar_lookup p sk ek (Z.of_nat k) j x ltac:(lia) ltac:(lia) Hx). f_equal.
    destruct (decide (i = k)) as [->|Hne].
    + destruct Hslot as [Hs He]. rewrite Hsk in Hs. rewrite Hek in He.
      injection Hs as <-. injection He as <-.
      rewrite bool_decide_eq_true_2 by lia. reflexivity.
    + case_bool_decide as Hin.
      * exfalso. apply Hne.
        exact (Hdisj i k s e sk ek (Z.of_nat j) Hslot (conj Hsk Hek) Hj Hin).
      * specialize (Hinv i s e j ltac:(lia) Hslot Hj Hjlen). congruence.
Qed.

Lemma index_fill_prefix p0 k :
  (k <= length starts)%nat ->
  (forall e, e ∈ stops -> e <= Z.of_nat (length p0)) ->
  exists p, for_each (fun i pointers =>
              do start <- getitem starts (Z.of_nat i);
              do stop <- getitem stops (Z.of_nat i);
              setslice_array pointers start stop (arange (stop - start)))
           (seq 0 k) p0 = Ok p
    /\ length p = length p0
    /\ forall i s e j, (i < k)%nat -> slot_of starts stops i s e ->
         s <= Z.of_nat j < e -> p !! j = Some (Z.of_nat j - s).
Proof.
  intros Hk Hub. induction k as [|k IH].
  - exists p0. simpl. split; [reflexivity|]. split; [reflexivity|]. intros; lia.
  - destruct (IH ltac:(lia)) as (p & Hp & Hlen & Hinv).
    destruct (slot_exists k ltac:(lia)) as (sk & ek & Hslot).
    pose proof (proj2 Hwf k sk ek Hslot) as Hrange.
    rewrite seq_S, for_each_app, Hp. simpl.
    destruct Hslot as [Hsk Hek].
    rewrite (getitem_lookup _ _ _ Hsk), (getitem_lookup _ _ _ Hek). simpl.
    assert (Hek' : ek <= Z.of_nat (length p)).
    { rewrite Hlen. apply Hub. apply list_elem_of_lookup. eauto. }
    destruct (setslice_array_fit p sk ek Hrange Hek') as (p' & Hp' & Hlen' & Hlook).
    exists p'. split; [rewrite Hp'; reflexivity|]. split; [congruence|].
    intros i s e j Hi Hslot Hj.
    assert (Hjlen : (j < length p)%nat).
    { destruct Hslot as [_ He]. rewrite Hlen.
      assert (e <= Z.of_nat (length p0)) by (apply Hub, list_elem_of_lookup; eauto). lia. }
    destruct (lookup_lt_is_Some_2 p j Hjlen) as [x Hx].
    rewrite (Hlook j x Hx). f_equal.
    destruct (decide (i = k)) as [->|Hne].
    + destruct Hslot as [Hs He]. rewrite Hsk in Hs. rewrite Hek in He.
      injection Hs as <-. injection He as <-.
      rewrite bool_decide_eq_true_2 by lia. reflexivity.
    + case_bool_decide as Hin.
      * exfalso. apply Hne.
        exact (Hdisj i k s e sk ek (Z.of_nat j) Hslot (conj Hsk Hek) Hj Hin).
      * specialize (Hinv i s e j ltac:(lia) Hslot Hj). congruence.
Qed.

End Slots.

(** When the slots are well formed, pairwise disjoint, and the first
    child position in use is 0, [parent] gives every child the index of its
    slot and [index] its offset in the slot. *)
Lemma parent_index_correct starts stops junk :
  slots_wf starts stops -> slots_disjoint starts stops ->
  array_min starts = Ok 0 ->
  exists pointers values,
    parent_pointers starts stops junk = Ok pointers
    /\ index_values starts stops junk = Ok values
    /\ forall i s e j, slot_of starts stops i s e -> s <= Z.of_nat j < e ->
         pointers !! j = Some (Z.of_nat i) /\ values !! j = Some (Z.of_nat j - s).
Proof.
  intros Hwf Hdisj Hmin. unfold parent_pointers, index_values. rewrite Hmin.
  destruct stops as [|e0 stops'] eqn:Estops.
  { destruct starts; [discriminate|]. destruct Hwf as [Hlen _]. discriminate. }
  rewrite <- Estops in *.
  assert (Hmax : exists hi, array_max stops = Ok hi) by (rewrite Estops; simpl; eauto).
  destruct Hmax as [hi Hmax]. rewrite Hmax. simpl.
  pose proof (array_max_ge _ _ Hmax) as Hub.
  assert (Hhi : 0 <= hi).
  { destruct (slot_exists starts stops Hwf 0%nat) as (s & e & Hslot).
    - destruct Hwf as [-> _]. rewrite Estops. simpl. lia.
    - pose proof (proj2 Hwf _ _ _ Hslot).
      assert (e <= hi) by (apply Hub, list_elem_of_lookup; destruct Hslot; eauto). lia. }
  unfold numpy_empty. rewrite Z.sub_0_r.
  destruct (hi <? 0) eqn:E; [apply Z.ltb_lt in E; lia|]. simpl.
  set (p0 := map junk (seq 0 (Z.to_nat hi))).
  assert (Hp0 : length p0 = Z.to_nat hi) by (unfold p0; rewrite length_map, length_seq; reflexivity).
  destruct (parent_fill_prefix starts stops Hwf Hdisj p0 (length starts) ltac:(lia))
    as (p & Hp & Hlenp & Hinvp).
  destruct (index_fill_prefix starts stops Hwf Hdisj p0 (length starts) ltac:(lia))
    as (v & Hv & Hlenv & Hinvv).
  { intros e He. rewrite Hp0. specialize (Hub e He). lia. }
  exists p, v. split; [exact Hp|]. split; [exact Hv|].
  intros i s e j Hslot Hj.
  assert (Hi : (i < length starts)%nat) by (destruct Hslot as [Hs _]; eapply lookup_lt_Some; eauto).
  split.
  - apply (Hinvp i s e j Hi Hslot Hj). rewrite Hp0.
    assert (e <= hi) by (apply Hub, list_elem_of_lookup; destruct Hslot; eauto). lia.
  - apply (Hinvv i s e j Hi Hslot Hj).
Qed.

(** [put] of one buffer under a node that is not nullable, a Pointer or a
    Primitive, into a source that holds no array yet: the role is named
    [array-0]. *)
Lemma put_pointer `{Packing} {A} (str_role : role -> string) (ns : string)
    (h : heap) (nss : gmap addr string) (a : addr) x positions (c : attrs) (b0 : A) :
  h !! a = Some (Pointer x positions c) -> nullable c = false ->
  put str_role (mkDualSource ns ∅ 0) h nss a [b0]
  = Ok (mkDualSource ns (<[str_role (mkRole PositionsRole "array-0" ns):=b0]> ∅) 1,
        <[a:=Pointer x (Some (str_role (mkRole PositionsRole "array-0" ns))) c]> h,
        <[a:=ns]> nss).
Proof.
  intros Ha Hn. unfold put. rewrite Ha. cbn [src_namespace].
  rewrite arrayname_empty. cbn [bind fst snd].
  change (getitem [b0] 0) with (Ok b0). cbn [bind common]. rewrite Hn. reflexivity.
Qed.

Lemma put_primitive `{Packing} {A} (str_role : role -> string) (ns : string)
    (h : heap) (nss : gmap addr string) (a : addr) t dims dat (c : attrs) (b0 : A) :
  h !! a = Some (Primitive t dims dat c) -> nullable c = false ->
  put str_role (mkDualSource ns ∅ 0) h nss a [b0]
  = Ok (mkDualSource ns (<[str_role (mkRole DataRole "array-0" ns):=b0]> ∅) 1,
        <[a:=Primitive t dims (Some (str_role (mkRole DataRole "array-0" ns))) c]> h,
        <[a:=ns]> nss).
Proof.
  intros Ha Hn. unfold put. rewrite Ha. cbn [src_namespace].
  rewrite arrayname_empty. cbn [bind fst snd].
  change (getitem [b0] 0) with (Ok b0). cbn [bind common]. rewrite Hn. reflexivity.
Qed.

(** [put] of two buffers under a List that is not nullable, into a source
    that holds no array yet: the roles are named [array-0] and
    [array-1]. *)
Lemma put_list `{Packing} {A} (str_role : role -> string) (ns : string)
    (h : heap) (nss : gmap addr string) (a : addr) x starts stops (c : attrs) (b0 b1 : A) :
  h !! a = Some (List x starts stops c) -> nullable c = false ->
  put str_role (mkDualSource ns ∅ 0) h nss a [b0; b1]
  = Ok (mkDualSource ns
          (<[str_role (mkRole StopsRole "array-1" ns):=b1]>
             (<[str_role (mkRole StartsRole "array-0" ns):=b0]> ∅)) 2,
        <[a:=List x (Some (str_role (mkRole StartsRole "array-0" ns)))
               (Some (str_role (mkRole StopsRole "array-1" ns))) c]> h,
        <[a:=ns]> nss).
Proof.
  intros Ha Hn. unfold put. rewrite Ha. cbn [src_namespace].
  rewrite !arrayname_empty. cbn [bind fst snd]. rewrite arrayname_empty. cbn [bind fst snd].
  change (getitem [b0; b1] 0) with (Ok b0). change (getitem [b0; b1] 1) with (Ok b1).
  cbn [bind common]. rewrite Hn. reflexivity.
Qed.

(** The example of the specification: slots [[0, 3)] and [[3, 5)]. *)
Example parent_index_example (junk : nat -> Z) (str_role : role -> string)
    (nss : gmap addr string) (oldns : gset string) :
  parent_pointers [0; 3] [3; 5] junk = Ok [0; 0; 0; 1; 1]
  /\ index_values [0; 3] [3; 5] junk = Ok [0; 1; 2; 0; 1]
  /\ exists ns,
       let positions := str_role (mkRole PositionsRole "array-0" ns) in
       (ns ∉ oldns)
       /\ parent str_role muons nss oldns [2; 3]%nat "parent" [0; 3] [3; 5] junk
          = Ok (muons_with_parent positions, <[4%nat:=ns]> nss,
                mkDualSource ns (<[positions:=[0; 0; 0; 1; 1]]> ∅) 1,
                4%nat, [0; 0; 0; 1; 1]).
Proof.
  split; [reflexivity|]. split; [reflexivity|].
  destruct (DualSource_init_returns (A := list Z) oldns) as (k & Hinit & Hfresh).
  eexists. cbn zeta. split; [exact Hfresh|].
  unfold parent. cbn [lookup muons list_lookup negb is_record nullable_at lookup_obj
    orb nullable common plain].
  change (parent_pointers [0; 3] [3; 5] junk) with (Ok [0; 0; 0; 1; 1] : result (list Z)).
  cbn [bind alloc].
  match goal with
  | |- context [record_setitem ?a ?b ?c ?d] =>
      let v := eval vm_compute in (record_setitem a b c d) in
      change (record_setitem a b c d) with v
  end.
  cbn [bind]. rewrite Hinit. cbn [bind].
  erewrite put_pointer; [reflexivity|reflexivity|reflexivity].
Qed.

(** C4: for a list with the single slot [[2, 4)], [parent] allocates
    [stops.max() - starts.min() = 2] cells and assigns the slice [2:4] of
    them, which is empty: the children at positions 2 and 3 get no parent
    index, and the buffer it puts under the new Pointer keeps what the
    allocator left in it.  [index] raises ValueError, the two offsets not
    fitting the empty slice. *)
Theorem parent_index_offset_slot (junk : nat -> Z) (str_role : role -> string)
    (nss : gmap addr string) (oldns : gset string) :
  (exists ns,
     let positions := str_role (mkRole PositionsRole "array-0" ns) in
     (ns ∉ oldns)
     /\ parent str_role muons nss oldns [2; 3]%nat "parent" [2] [4] junk
        = Ok (muons_with_parent positions, <[4%nat:=ns]> nss,
              mkDualSource ns (<[positions:=[junk 0%nat; junk 1%nat]]> ∅) 1,
              4%nat, [junk 0%nat; junk 1%nat]))
  /\ index str_role muons nss oldns 2%nat "index" [2] [4] junk
     = Raise (ValueError "could not broadcast input array").
Proof.
  split; [|reflexivity].
  destruct (DualSource_init_returns (A := list Z) oldns) as (k & Hinit & Hfresh).
  eexists. cbn zeta. split; [exact Hfresh|].
  unfold parent. cbn [lookup muons list_lookup negb is_record nullable_at lookup_obj
    orb nullable common plain].
  change (parent_pointers [2] [4] junk) with (Ok [junk 0%nat; junk 1%nat] : result (list Z)).
  cbn [bind alloc].
  match goal with
  | |- context [record_setitem ?a ?b ?c ?d] =>
      let v := eval vm_compute in (record_setitem a b c d) in
      change (record_setitem a b c d) with v
  end.
  cbn [bind]. rewrite Hinit. cbn [bind].
  erewrite put_pointer; [reflexivity|reflexivity|reflexivity].
Qed.

(** ** tomask *)

Lemma selection_spec (primitive : list float) low high :
  selection primitive low high
  = if nan_range low high
    then Raise (ValueError "if a range is specified, neither of the endpoints can be NaN")
    else Ok (map (spec_selected low high) primitive).
Proof.
  unfold selection, nan_range, spec_selected. destruct high as [high|].
  - destruct (PrimFloat.is_nan low || PrimFloat.is_nan high); reflexivity.
  - destruct (PrimFloat.is_nan low); reflexivity.
Qed.

Lemma setmask_lookup mask_ sel v m :
  setmask mask_ sel v = Ok m ->
  length m = length sel
  /\ forall i (s : bool) x, sel !! i = Some s -> mask_ !! i = Some x ->
       m !! i = Some (if s then v else x).
Proof.
  unfold setmask. case_bool_decide as Hlen; [|discriminate]. intros [= <-].
  split.
  - rewrite length_zip_with. lia.
  - intros i s x Hs Hx. rewrite lookup_zip_with, Hx. simpl. rewrite Hs. reflexivity.
Qed.

(** [put] of a data buffer and a mask under a nullable Primitive, into a
    source that holds no array yet: the roles are named [array-0] and
    [array-1]. *)
Lemma put_primitive_nullable `{Packing} {A} (str_role : role -> string) (ns : string)
    (h : heap) (nss : gmap addr string) (a : addr) t dims dat (c : attrs) (b0 b1 : A) :
  h !! a = Some (Primitive t dims dat c) -> nullable c = true ->
  put str_role (mkDualSource ns ∅ 0) h nss a [b0; b1]
  = Ok (mkDualSource ns
          (<[str_role (mkRole MaskRole "array-1" ns):=b1]>
             (<[str_role (mkRole DataRole "array-0" ns):=b0]> ∅)) 2,
        <[a:=Primitive t dims (Some (str_role (mkRole DataRole "array-0" ns)))
               (Attrs true (Some (str_role (mkRole MaskRole "array-1" ns)))
                  (packing c) (name c) (doc c))]> h,
        <[a:=ns]> nss).
Proof.
  intros Ha Hn. unfold put. rewrite Ha. cbn [src_namespace].
  rewrite arrayname_empty. cbn [bind fst snd].
  change (getitem [b0; b1] 0) with (Ok b0). cbn [bind common]. rewrite Hn.
  rewrite arrayname_empty. cbn [bind fst snd].
  change (getitem [b0; b1] (-1)) with (Ok b1). cbn [bind].
  unfold putall, set_mask. cbn [foldl app fst snd src_namespace src_new src_arraynum common].
  rewrite Hn. reflexivity.
Qed.

(** What [tomask] does on a Primitive without [dims], the namespace of its
    source being [ns]. *)
Lemma tomask_primitive `{Packing} (maskedvalue : Z) (str_role : role -> string)
    (h : heap) (nss : gmap addr string) (oldns : gset string) (ns : string) (a : addr)
    (t : dtype) (dat : option string) (c : attrs)
    (data_ : list float) (oldmask : list Z) (low : float) (high : option float) :
  h !! a = Some (Primitive t [] dat c) ->
  DualSource_init (A := buffer float) oldns = Ok (mkDualSource ns ∅ 0) ->
  tomask maskedvalue str_role h nss oldns a data_ oldmask low high
  = do sel <- selection data_ low high;
    do mask_ <- setmask (if nullable c then oldmask else arange (Z.of_nat (length data_)))
                  sel maskedvalue;
    Ok (<[a:=Primitive t [] (Some (str_role (mkRole DataRole "array-0" ns)))
               (Attrs true (Some (str_role (mkRole MaskRole "array-1" ns)))
                  (packing c) (name c) (doc c))]> h,
        <[a:=ns]> nss,
        mkDualSource ns
          (<[str_role (mkRole MaskRole "array-1" ns):=IndexBuffer mask_]>
             (<[str_role (mkRole DataRole "array-0" ns):=DataBuffer data_]> ∅)) 2,
        a, data_, mask_).
Proof.
  intros Ha Hinit.
  assert (Hal : (a < length h)%nat) by (eapply lookup_lt_Some; eauto).
  assert (Hdesc : descend_lists (S (length h)) h (Node a) = Ok (Node a)).
  { simpl. rewrite Ha. reflexivity. }
  unfold tomask. rewrite Hdesc. cbn [bind]. rewrite Hinit. cbn [bind lookup_obj].
  rewrite Ha. destruct (selection data_ low high) as [sel| |]; cbn [bind]; try reflexivity.
  rewrite bool_decide_eq_true_2 by reflexivity.
  destruct (setmask _ sel maskedvalue) as [mask_| |]; cbn [bind]; try reflexivity.
  cbn [set_nullable common].
  rewrite (put_primitive_nullable str_role ns _ nss a t [] dat
             (Attrs true (mask c) (packing c) (name c) (doc c))
             (DataBuffer data_) (IndexBuffer mask_)).
  - cbn [bind fst snd packing name doc]. rewrite list_insert_insert_eq. reflexivity.
  - apply list_lookup_insert_eq. exact Hal.
  - reflexivity.
Qed.

(** With [dims], the selection has as many dimensions as the data, and the
    mask, which has one, cannot be indexed with it. *)
Lemma tomask_dims_raises `{Packing} (maskedvalue : Z) (str_role : role -> string)
    (h : heap) (nss : gmap addr string) (oldns : gset string) (a : addr)
    (t : dtype) (dims : list Z) (dat : option string) (c : attrs)
    (data_ : list float) (oldmask : list Z) (low : float) (high : option float) :
  h !! a = Some (Primitive t dims dat c) -> dims <> [] -> nan_range low high = false ->
  tomask maskedvalue str_role h nss oldns a data_ oldmask low high
  = Raise (IndexError "too many indices for array").
Proof.
  intros Ha Hdims Hnan.
  assert (Hdesc : descend_lists (S (length h)) h (Node a) = Ok (Node a)).
  { simpl. rewrite Ha. reflexivity. }
  destruct (DualSource_init_returns (A := buffer float) oldns) as (k & Hinit & _).
  unfold tomask. rewrite Hdesc. cbn [bind]. rewrite Hinit. cbn [bind lookup_obj].
  rewrite Ha, selection_spec, Hnan. cbn [bind].
  rewrite bool_decide_eq_false_2 by exact Hdims. reflexivity.
Qed.

(** On a Primitive without [dims] whose mask, if it has one, is as long as
    its data, [tomask] returns the data buffer as it is, makes the node
    nullable, and returns a mask that holds the masked value at the cells
    of the data that are selected and, elsewhere, what the old mask held
    there (or the index of the cell when the node was not nullable).  With
    a negative masked value and a node that was not nullable, the masked
    entries are exactly the selected elements.  A range with a NaN endpoint
    raises ValueError. *)
Lemma tomask_marks_selected `{Packing} (maskedvalue : Z) (str_role : role -> string)
    (h : heap) (nss : gmap addr string) (oldns : gset string) (a : addr)
    (t : dtype) (dat : option string) (c : attrs)
    (data_ : list float) (oldmask : list Z) (low : float) (high : option float) :
  h !! a = Some (Primitive t [] dat c) ->
  (nullable c = true -> length oldmask = length data_) ->
  maskedvalue < 0 ->
  (nan_range low high = true ->
   tomask maskedvalue str_role h nss oldns a data_ oldmask low high
   = Raise (ValueError "if a range is specified, neither of the endpoints can be NaN"))
  /\ (nan_range low high = false ->
      exists ns mask_,
        (ns ∉ oldns)
        /\ tomask maskedvalue str_role h nss oldns a data_ oldmask low high
           = Ok (<[a:=Primitive t [] (Some (str_role (mkRole DataRole "array-0" ns)))
                      (Attrs true (Some (str_role (mkRole MaskRole "array-1" ns)))
                         (packing c) (name c) (doc c))]> h,
                 <[a:=ns]> nss,
                 mkDualSource ns
                   (<[str_role (mkRole MaskRole "array-1" ns):=IndexBuffer mask_]>
                      (<[str_role (mkRole DataRole "array-0" ns):=DataBuffer data_]> ∅)) 2,
                 a, data_, mask_)
        /\ length mask_ = length data_
        /\ forall i x, data_ !! i = Some x ->
             mask_ !! i = Some (if spec_selected low high x then maskedvalue
                                else if nullable c then default 0 (oldmask !! i)
                                     else Z.of_nat i)
             /\ (nullable c = false ->
                 (mask_ !! i = Some maskedvalue <-> spec_selected low high x = true))).
Proof.
  intros Ha Hlen Hneg.
  destruct (DualSource_init_returns (A := buffer float) oldns) as (k & Hinit & Hfresh).
  rewrite (tomask_primitive maskedvalue str_role h nss oldns _ a t dat c data_ oldmask
             low high Ha Hinit).
  rewrite selection_spec. split; intros Hnan; rewrite Hnan; [reflexivity|].
  cbn [bind].
  set (mask0 := if nullable c then oldmask else arange (Z.of_nat (length data_))).
  assert (Hlen0 : length mask0 = length data_).
  { unfold mask0. destruct (nullable c); [auto|]. rewrite arange_length. lia. }
  destruct (setmask mask0 (map (spec_selected low high) data_) maskedvalue) as [m| |] eqn:Hm.
  2,3: unfold setmask in Hm; rewrite length_map, (bool_decide_eq_true_2 _ Hlen0) in Hm;
       discriminate.
  destruct (setmask_lookup _ _ _ _ Hm) as [Hlm Hlook]. rewrite length_map in Hlm.
  exists ("namespace-" ++ str_nat k), m. cbn [bind].
  split; [exact Hfresh|]. split; [reflexivity|]. split; [exact Hlm|].
  intros i x Hx.
  assert (Hi : (i < length data_)%nat) by (eapply lookup_lt_Some; eauto).
  destruct (lookup_lt_is_Some_2 mask0 i ltac:(lia)) as [m0 Hm0].
  assert (Hsel : map (spec_selected low high) data_ !! i = Some (spec_selected low high x))
    by (rewrite list_lookup_fmap, Hx; reflexivity).
  rewrite (Hlook i _ m0 Hsel Hm0).
  assert (Hm0' : m0 = if nullable c then default 0 (oldmask !! i) else Z.of_nat i).
  { unfold mask0 in Hm0. destruct (nullable c).
    - rewrite Hm0. reflexivity.
    - rewrite arange_lookup in Hm0 by lia. congruence. }
  split.
  - rewrite Hm0'. reflexivity.
  - intros Hnn. rewrite Hnn in Hm0'. subst m0.
    destruct (spec_selected low high x); split; intros Hq; try reflexivity; try discriminate.
    injection Hq as Hq. lia.
Qed.

(** The examples of the specification, on a Primitive that is not
    nullable: data [[1, 2, NaN, 4]] and [low = NaN]; data [[1, 2, 3, 4]]
    and the range [[2, 3]]; a range with a NaN endpoint. *)
Example tomask_examples (maskedvalue : Z) (str_role : role -> string)
    (nss : gmap addr string) (oldns : gset string) :
  let h := [Primitive float64 [] None plain] in
  (exists h' nss' arrays,
     tomask maskedvalue str_role h nss oldns 0%nat [1; 2; nan; 4]%float [] nan None
     = Ok (h', nss', arrays, 0%nat, [1; 2; nan; 4]%float, [0; 1; maskedvalue; 3]))
  /\ (exists h' nss' arrays,
        tomask maskedvalue str_role h nss oldns 0%nat [1; 2; 3; 4]%float [] 2%float
          (Some 3%float)
        = Ok (h', nss', arrays, 0%nat, [1; 2; 3; 4]%float, [0; maskedvalue; maskedvalue; 3]))
  /\ tomask maskedvalue str_role h nss oldns 0%nat [1; 2; 3; 4]%float [] 2%float (Some nan)
     = Raise (ValueError "if a range is specified, neither of the endpoints can be NaN").
Proof.
  intros h.
  destruct (DualSource_init_returns (A := buffer float) oldns) as (k & Hinit & _).
  rewrite !(tomask_primitive maskedvalue str_role h nss oldns _ 0%nat float64 None plain _ _
              _ _ eq_refl Hinit).
  repeat split; try (eexists _, _, _); reflexivity.
Qed.

(** C3: [tomask] computes its selection over the cells of the data buffer
    and applies it to the entries of the mask, which stand for the
    elements.  On a nullable Primitive the two differ: in the buffers that
    [define] writes for the elements [None, 1.0, 2.0] (data [[1.0, 2.0, _]],
    mask [[masked, 0, 1]]: the mask of an element holds the cell of its
    value), [tomask] with [low = 2.0] selects cell 1 and masks element 1,
    whose value is 1.0, and leaves element 2, whose value 2.0 equals [low],
    as it was.  When the data buffer holds only the cells in use, the
    selection is shorter than the mask and [tomask] raises IndexError. *)
Theorem tomask_masks_cells_not_elements `{Packing} (maskedvalue : Z)
    (str_role : role -> string) (nss : gmap addr string) (oldns : gset string) :
  let h := [Primitive float64 [] None (Attrs true None None None None)] in
  define_masked maskedvalue Ok None
    (fun x : option float => x) [None; Some 1%float; Some 2%float]
    (fun _ => 0%float) (fun _ => 0)
  = Ok ([1; 2; 0]%float, [maskedvalue; 0; 1])
  /\ (exists h' nss' arrays,
        tomask maskedvalue str_role h nss oldns 0%nat
          [1; 2; 0]%float [maskedvalue; 0; 1] 2%float None
        = Ok (h', nss', arrays, 0%nat, [1; 2; 0]%float, [maskedvalue; maskedvalue; 1]))
  /\ tomask maskedvalue str_role h nss oldns 0%nat
       [1; 2]%float [maskedvalue; 0; 1] 2%float None
     = Raise (IndexError "boolean index did not match indexed array").
Proof.
  intros h.
  destruct (DualSource_init_returns (A := buffer float) oldns) as (k & Hinit & _).
  rewrite !(tomask_primitive maskedvalue str_role h nss oldns _ 0%nat float64 None
              (Attrs true None None None None) _ _ _ _ eq_refl Hinit).
  split; [reflexivity|]. split; [eexists _, _, _|]; reflexivity.
Qed.

(** ** flatten *)

Lemma noncontiguous_not_equal starts stops :
  noncontiguous starts stops ->
  array_equal (drop 1 starts) (take (length stops - 1) stops) = false.
Proof.
  intros (i & e & s & He & Hs & Hne). unfold array_equal.
  apply bool_decide_eq_false. intros Heq.
  assert (H1 : drop 1 starts !! i = Some s) by (rewrite lookup_drop; exact Hs).
  rewrite Heq in H1. apply lookup_take_Some in H1 as [H1 _]. congruence.
Qed.

Lemma contiguous_equal starts stops :
  contiguous starts stops -> length starts = length stops ->
  array_equal (drop 1 starts) (take (length stops - 1) stops) = true.
Proof.
  intros Hc Hlen. unfold array_equal. apply bool_decide_eq_true.
  apply list_eq. intros i. rewrite lookup_drop.
  destruct (decide (i < length stops - 1)%nat) as [Hi|Hi].
  - rewrite lookup_take_lt by assumption.
    destruct (lookup_lt_is_Some_2 stops i ltac:(lia)) as [e He].
    destruct (lookup_lt_is_Some_2 starts (S i) ltac:(lia)) as [s Hs].
    simpl. rewrite He, Hs. f_equal. symmetry. eapply Hc; eauto.
  - rewrite lookup_take_ge by lia. apply lookup_ge_None. simpl. lia.
Qed.

Lemma take_indices_in_range {A} (a : list A) (idx : list Z) :
  (forall i, i ∈ idx -> 0 <= i < Z.of_nat (length a)) ->
  exists r, take_indices a idx = Ok r
    /\ length r = length idx
    /\ forall k i, idx !! k = Some i -> r !! k = a !! Z.to_nat i.
Proof.
  induction idx as [|i idx IH]; intros Hin.
  - exists []. simpl. repeat split. intros k i Hk. rewrite lookup_nil in Hk. discriminate.
  - destruct IH as (r & Hr & Hlen & Hlook).
    { intros j Hj. apply Hin. apply list_elem_of_further, Hj. }
    pose proof (Hin i (list_elem_of_here _ _)) as Hi.
    destruct (lookup_lt_is_Some_2 a (Z.to_nat i) ltac:(lia)) as [x Hx].
    assert (Hget : getitem a i = Ok x).
    { replace i with (Z.of_nat (Z.to_nat i)) by lia. apply getitem_lookup, Hx. }
    exists (x :: r). simpl. rewrite Hget, Hr. simpl.
    split; [reflexivity|]. split; [lia|].
    intros [|k] j Hk; simpl in *.
    + injection Hk as <-. congruence.
    + apply Hlook, Hk.
Qed.

(** The positions covered by [n] consecutive contiguous slots are those
    between the start of the first and the stop of the last. *)
Lemma contiguous_cover (S_ E_ : nat -> Z) (first n : nat) (j : Z) :
  (forall m, (first <= m < first + S n)%nat -> S_ m <= E_ m) ->
  (forall m, (first <= m)%nat -> (m < first + n)%nat -> E_ m = S_ (S m)) ->
  S_ first <= j < E_ (first + n)%nat
  <-> exists m, (first <= m < first + S n)%nat /\ S_ m <= j < E_ m.
Proof.
  induction n as [|n IH]; intros Hwf Hc.
  - rewrite Nat.add_0_r. split.
    + intros Hj. exists first. split; [lia|exact Hj].
    + intros (m & Hm & Hj). assert (m = first) by lia. subst. exact Hj.
  - assert (IH' := IH ltac:(intros; apply Hwf; lia) ltac:(intros; apply Hc; lia)).
    assert (Hlast : E_ (first + n)%nat = S_ (first + S n)%nat).
    { rewrite (Hc (first + n)%nat) by lia. f_equal. lia. }
    assert (Hwl := Hwf (first + S n)%nat ltac:(lia)).
    assert (Hmono : S_ first <= E_ (first + n)%nat).
    { clear -Hwf Hc. induction n as [|n IHn].
      - rewrite Nat.add_0_r. apply Hwf. lia.
      - assert (S_ first <= E_ (first + n)%nat).
        { apply IHn; intros; [apply Hwf|apply Hc]; lia. }
        assert (E_ (first + n)%nat = S_ (first + S n)%nat).
        { rewrite (Hc (first + n)%nat) by lia. f_equal. lia. }
        assert (S_ (first + S n)%nat <= E_ (first + S n)%nat) by (apply Hwf; lia).
        lia. }
    split.
    + intros Hj. destruct (Z.lt_ge_cases j (E_ (first + n)%nat)) as [Hlt|Hge].
      * destruct (proj1 IH' ltac:(lia)) as (m & Hm & Hjm). exists m. split; [lia|exact Hjm].
      * exists (first + S n)%nat. split; [lia|]. lia.
    + intros (m & Hm & Hjm). destruct (decide (m = first + S n)%nat) as [->|Hne].
      * lia.
      * assert (S_ first <= j < E_ (first + n)%nat) by (apply IH'; exists m; split; [lia|exact Hjm]).
        lia.
Qed.

(** What [flatten] does on a List(List(X)) whose lists are not nullable and
    whose inner offsets pass the test of contiguity, the namespace of its
    source being [ns]. *)
Lemma flatten_contiguous_returns `{Packing} (str_role : role -> string) (h : heap)
    (nss : gmap addr string) (oldns : gset string) (ns : string) (outernode : addr)
    (innernode x : slot) (ostarts ostops istarts istops : option string)
    (c c' : attrs) (outerstarts outerstops innerstarts innerstops : list Z) :
  h !! outernode = Some (List innernode ostarts ostops c) ->
  lookup_obj h innernode = Some (List x istarts istops c') ->
  nullable c = false -> nullable c' = false ->
  array_equal (drop 1 innerstarts) (take (length innerstops - 1) innerstops) = true ->
  DualSource_init (A := list Z) oldns = Ok (mkDualSource ns ∅ 0) ->
  flatten str_role h nss oldns true outernode outerstarts outerstops innerstarts innerstops
  = do starts <- take_indices innerstarts outerstarts;
    do stops <- take_indices innerstops (map (fun e => e - 1) outerstops);
    Ok (<[outernode:=List x (Some (str_role (mkRole StartsRole "array-0" ns)))
                       (Some (str_role (mkRole StopsRole "array-1" ns))) c]> h,
        <[outernode:=ns]> nss,
        mkDualSource ns
          (<[str_role (mkRole StopsRole "array-1" ns):=stops]>
             (<[str_role (mkRole StartsRole "array-0" ns):=starts]> ∅)) 2,
        starts, stops).
Proof.
  intros Houter Hinner Hn Hn' Heq Hinit.
  assert (Hol : (outernode < length h)%nat) by (eapply lookup_lt_Some; eauto).
  unfold flatten. cbn [negb]. rewrite Houter, Hinner, Hn, Hn', Heq. cbn [orb negb].
  destruct (take_indices innerstarts outerstarts) as [starts| |]; cbn [bind]; try reflexivity.
  destruct (take_indices innerstops _) as [stops| |]; cbn [bind]; try reflexivity.
  rewrite Hinit. cbn [bind].
  rewrite (put_list str_role ns _ nss outernode x ostarts ostops c starts stops).
  - cbn [bind fst snd]. rewrite list_insert_insert_eq. reflexivity.
  - apply list_lookup_insert_eq. exact Hol.
  - exact Hn.
Qed.

(** On a List(List(X)) whose inner offsets are not contiguous, [flatten]
    raises NotImplementedError and returns nothing.  When they are
    contiguous (and neither list is nullable) and every outer slot runs
    over existing inner lists, it returns the schema with the content of
    the outer list replaced by X, and offsets that are the inner offsets at
    the outer ones: [innerstarts[outerstarts]] and
    [innerstops[outerstops - 1]].  The positions of a new slot that comes
    from an outer slot that is not empty are exactly those of the inner
    lists it ran over. *)
Lemma flatten_requires_contiguous `{Packing} (str_role : role -> string) (h : heap)
    (nss : gmap addr string) (oldns : gset string) (outernode : addr)
    (innernode x : slot) (ostarts ostops istarts istops : option string)
    (c c' : attrs) (outerstarts outerstops innerstarts innerstops : list Z) :
  h !! outernode = Some (List innernode ostarts ostops c) ->
  lookup_obj h innernode = Some (List x istarts istops c') ->
  (noncontiguous innerstarts innerstops ->
   exists msg,
     flatten str_role h nss oldns true outernode outerstarts outerstops
       innerstarts innerstops
     = Raise (NotImplementedError msg))
  /\ (contiguous innerstarts innerstops ->
      slots_wf innerstarts innerstops ->
      nullable c = false -> nullable c' = false ->
      outer_in_range outerstarts outerstops (length innerstarts) ->
      exists ns arrays starts stops,
        flatten str_role h nss oldns true outernode outerstarts outerstops
          innerstarts innerstops
        = Ok (<[outernode:=List x (Some (str_role (mkRole StartsRole "array-0" ns)))
                             (Some (str_role (mkRole StopsRole "array-1" ns))) c]> h,
              <[outernode:=ns]> nss, arrays, starts, stops)
        /\ (forall k os, outerstarts !! k = Some os ->
              starts !! k = innerstarts !! Z.to_nat os)
        /\ (forall k oe, outerstops !! k = Some oe ->
              stops !! k = innerstops !! Z.to_nat (oe - 1))
        /\ (forall k os oe s e j,
              outerstarts !! k = Some os -> outerstops !! k = Some oe -> os < oe ->
              starts !! k = Some s -> stops !! k = Some e ->
              (s <= j < e
               <-> exists m si ei, os <= Z.of_nat m < oe
                     /\ slot_of innerstarts innerstops m si ei /\ si <= j < ei))).
Proof.
  intros Houter Hinner. split.
  - intros Hnc. unfold flatten. cbn [negb]. rewrite Houter, Hinner.
    destruct (nullable c || nullable c'); [eauto|].
    rewrite (noncontiguous_not_equal _ _ Hnc). cbn [negb]. eauto.
  - intros Hc Hwf Hn Hn' [Hos Hoe].
    destruct (DualSource_init_returns (A := list Z) oldns) as (k0 & Hinit & _).
    rewrite (flatten_contiguous_returns str_role h nss oldns _ outernode innernode x
               ostarts ostops istarts istops c c' _ _ _ _ Houter Hinner Hn Hn'
               (contiguous_equal _ _ Hc (proj1 Hwf)) Hinit).
    destruct (take_indices_in_range innerstarts outerstarts Hos) as (starts & Hs & _ & Hsl).
    destruct (take_indices_in_range innerstops (map (fun e => e - 1) outerstops))
      as (stops & He & _ & Hel).
    { intros i Hi. apply list_elem_of_fmap in Hi as (oe & -> & Hoe').
      specialize (Hoe oe Hoe'). rewrite <- (proj1 Hwf). lia. }
    rewrite Hs, He. cbn [bind]. eexists _, _, starts, stops.
    split; [reflexivity|]. split; [exact Hsl|].
    assert (Hel' : forall k oe, outerstops !! k = Some oe ->
                     stops !! k = innerstops !! Z.to_nat (oe - 1)).
    { intros k oe Hk. apply Hel. rewrite list_lookup_fmap, Hk. reflexivity. }
    split; [exact Hel'|].
    intros k os oe s e j Hkos Hkoe Hlt Hsk Hek.
    rewrite (Hsl k os Hkos) in Hsk. rewrite (Hel' k oe Hkoe) in Hek.
    assert (Hos' := Hos os ltac:(apply list_elem_of_lookup; eauto)).
    assert (Hoe' := Hoe oe ltac:(apply list_elem_of_lookup; eauto)).
    set (S_ := fun m => default 0 (innerstarts !! m)).
    set (E_ := fun m => default 0 (innerstops !! m)).
    set (first := Z.to_nat os). set (n := Z.to_nat (oe - 1 - os)).
    assert (Hlast : Z.to_nat (oe - 1) = (first + n)%nat) by (unfold first, n; lia).
    assert (Hslot : forall m, (m < length innerstarts)%nat ->
                      slot_of innerstarts innerstops m (S_ m) (E_ m)).
    { intros m Hm. destruct (slot_exists _ _ Hwf m Hm) as (si & ei & Hsi & Hei).
      unfold slot_of, S_, E_. rewrite Hsi, Hei. split; reflexivity. }
    assert (Hcover := contiguous_cover S_ E_ first n j).
    rewrite Hlast in Hek.
    assert (HS : S_ first = s) by (unfold S_; fold first in Hsk; rewrite Hsk; reflexivity).
    assert (HE : E_ (first + n)%nat = e) by (unfold E_; rewrite Hek; reflexivity).
    rewrite HS, HE in Hcover. rewrite Hcover.
    + split.
      * intros (m & Hm & Hj). exists m, (S_ m), (E_ m).
        split; [unfold first, n in Hm; lia|]. split; [|exact Hj].
        apply Hslot. unfold first, n in Hm. lia.
      * intros (m & si & ei & Hm & [Hsi Hei] & Hj). exists m.
        split; [unfold first, n; lia|]. unfold S_, E_. rewrite Hsi, Hei. exact Hj.
    + intros m Hm. apply (proj2 Hwf m). apply Hslot. unfold first, n in Hm. lia.
    + intros m Hm1 Hm2.
      destruct (Hslot m ltac:(unfold first, n in *; lia)) as [_ Hem].
      destruct (Hslot (S m) ltac:(unfold first, n in *; lia)) as [Hsm _].
      exact (Hc m _ _ Hem Hsm).
Qed.

(** Outer slot [[0, 2)] over the inner lists [[0, 3)] and [[3, 5)]; and
    inner lists [[0, 3)] and [[4, 5)], which leave position 3 out:
    [flatten] raises instead of returning offsets. *)
Example flatten_examples (str_role : role -> string) (nss : gmap addr string)
    (oldns : gset string) :
  let h := [Primitive float64 [] None plain; List (Node 0%nat) None None plain;
            List (Node 1%nat) None None plain] in
  (exists h' nss' arrays,
     flatten str_role h nss oldns true 2%nat [0] [2] [0; 3] [3; 5]
     = Ok (h', nss', arrays, [0], [5]))
  /\ flatten str_role h nss oldns true 2%nat [0] [2] [0; 4] [3; 5]
     = Raise (NotImplementedError "inner arrays are not contiguous: flatten would require the creation of pointers").
Proof.
  intros h. split; [|reflexivity].
  destruct (DualSource_init_returns (A := list Z) oldns) as (k & Hinit & _).
  rewrite (flatten_contiguous_returns str_role h nss oldns _ 2%nat (Node 1%nat) (Node 0%nat)
             None None None None plain plain [0] [2] [0; 3] [3; 5]
             eq_refl eq_refl eq_refl eq_refl eq_refl Hinit).
  eexists _, _, _. reflexivity.
Qed.

(** C5: with contiguous inner offsets, [flatten] takes the new offsets of
    an outer slot at [innerstarts[start]] and [innerstops[stop - 1]],
    whether or not the slot is empty.  Over the inner lists [[0, 2)] and
    [[2, 5)], the outer lists [[0, 0)] and [[0, 2)], the first of which is
    empty, become [[0, 5)] and [[0, 5)]: [stop - 1] is [-1], which numpy
    reads from the end, and the empty list is given all five elements.
    With the outer lists [[0, 2)] and [[2, 2)], the second of which is
    empty, [innerstarts[2]] raises IndexError. *)
Theorem flatten_fills_empty_outer_list (str_role : role -> string) (nss : gmap addr string)
    (oldns : gset string) :
  let h := [Primitive float64 [] None plain; List (Node 0%nat) None None plain;
            List (Node 1%nat) None None plain] in
  (exists h' nss' arrays,
     flatten str_role h nss oldns true 2%nat [0; 0] [0; 2] [0; 2] [2; 5]
     = Ok (h', nss', arrays, [0; 0], [5; 5]))
  /\ flatten str_role h nss oldns true 2%nat [0; 2] [2; 2] [0; 2] [2; 5]
     = Raise (IndexError "index out of bounds").
Proof.
  intros h.
  destruct (DualSource_init_returns (A := list Z) oldns) as (k & Hinit & _).
  rewrite (flatten_contiguous_returns str_role h nss oldns _ 2%nat (Node 1%nat) (Node 0%nat)
             None None None None plain plain [0; 0] [0; 2] [0; 2] [2; 5]
             eq_refl eq_refl eq_refl eq_refl eq_refl Hinit).
  rewrite (flatten_contiguous_returns str_role h nss oldns _ 2%nat (Node 1%nat) (Node 0%nat)
             None None None None plain plain [0; 2] [2; 2] [0; 2] [2; 5]
             eq_refl eq_refl eq_refl eq_refl eq_refl Hinit).
  split; [eexists _, _, _|]; reflexivity.
Qed.

(** ** filter *)

Lemma survivors_app {D} (fcn : D -> bool) view js ks :
  survivors fcn view (js ++ ks) = (survivors fcn view js ++ survivors fcn view ks)%list.
Proof.
  induction js as [|j js IH]; simpl; [reflexivity|].
  destruct (keeps fcn view j); simpl; rewrite IH; reflexivity.
Qed.

Lemma survivors_length {D} (fcn : D -> bool) view js :
  (length (survivors fcn view js) <= length js)%nat.
Proof.
  induction js as [|j js IH]; simpl; [lia|].
  destruct (keeps fcn view j); simpl; lia.
Qed.

Lemma survivors_elem {D} (fcn : D -> bool) view js j :
  j ∈ survivors fcn view js -> j ∈ js.
Proof.
  induction js as [|k js IH]; simpl; [auto|].
  destruct (keeps fcn view k).
  - intros Hj. apply elem_of_cons in Hj as [->|Hj].
    + apply list_elem_of_here.
    + apply list_elem_of_further, IH, Hj.
  - intros Hj. apply list_elem_of_further, IH, Hj.
Qed.

(** The survivors depend on the view at the positions visited only. *)
Lemma survivors_ext {D} (fcn : D -> bool) (view view' : Z -> result D) js :
  (forall j, j ∈ js -> view j = view' j) ->
  survivors fcn view js = survivors fcn view' js.
Proof.
  induction js as [|j js IH]; intros Heq; [reflexivity|]. simpl. unfold keeps.
  rewrite (Heq j) by apply list_elem_of_here.
  rewrite IH by (intros k Hk; apply Heq, list_elem_of_further, Hk). reflexivity.
Qed.

Lemma getitem_nonneg {A} (a : list A) (j : Z) :
  0 <= j < Z.of_nat (length a) -> exists x, getitem a j = Ok x.
Proof.
  intros Hj. destruct (lookup_lt_is_Some_2 a (Z.to_nat j) ltac:(lia)) as [x Hx].
  exists x. replace j with (Z.of_nat (Z.to_nat j)) by lia. apply getitem_lookup, Hx.
Qed.

Lemma setitem_nat {A} (a : list A) (n : nat) (v : A) :
  (n < length a)%nat -> setitem a (Z.of_nat n) v = Ok (<[n:=v]> a).
Proof.
  intros Hn. unfold setitem.
  destruct (Z.of_nat n <? 0) eqn:E; [apply Z.ltb_lt in E; lia|].
  destruct (0 <=? Z.of_nat n) eqn:E1; [|apply Z.leb_gt in E1; lia].
  destruct (Z.of_nat n <? Z.of_nat (length a)) eqn:E2; [|apply Z.ltb_ge in E2; lia].
  simpl. rewrite Nat2Z.id. reflexivity.
Qed.

(** The inner loop appends the kept positions of [js] after the [n]
    entries written so far. *)
Lemma filter_keep_loop {D} (fcn : D -> bool) (view : Z -> result D) js (n : nat) pointers :
  (forall j, j ∈ js -> exists x, view j = Ok x) ->
  (n + length js <= length pointers)%nat ->
  exists pointers',
    for_each (filter_keep fcn view) js (Z.of_nat n, pointers)
    = Ok (Z.of_nat (n + length (survivors fcn view js)), pointers')
    /\ length pointers' = length pointers
    /\ take (n + length (survivors fcn view js)) pointers'
       = (take n pointers ++ survivors fcn view js)%list.
Proof.
  revert n pointers. induction js as [|j js IH]; intros n pointers Hin Hlen.
  - exists pointers. simpl. rewrite !Nat.add_0_r, app_nil_r. auto.
  - simpl in Hlen.
    destruct (Hin j (list_elem_of_here _ _)) as [x Hx].
    assert (Hin' : forall k, k ∈ js -> exists y, view k = Ok y)
      by (intros k Hk; apply Hin, list_elem_of_further, Hk).
    cbn [for_each survivors]. unfold filter_keep at 1, keeps. rewrite Hx. cbn [bind fst snd].
    destruct (fcn x).
    + rewrite setitem_nat by lia. cbn [bind].
      replace (Z.of_nat n + 1) with (Z.of_nat (S n)) by lia.
      destruct (IH (S n) (<[n:=j]> pointers) Hin') as (p' & Hp' & Hlen' & Htake).
      { rewrite length_insert. lia. }
      exists p'. rewrite Hp'. cbn [length].
      replace (n + S (length (survivors fcn view js)))%nat
        with (S n + length (survivors fcn view js))%nat by lia.
      split; [reflexivity|]. split; [rewrite Hlen', length_insert; reflexivity|].
      rewrite Htake.
      rewrite (take_S_r (<[n:=j]> pointers) n j)
        by (apply list_lookup_insert_eq; lia).
      rewrite take_insert_ge by lia. rewrite <- app_assoc. reflexivity.
    + apply IH; [exact Hin'|lia].
Qed.

Lemma positions_upto_S viewstarts viewstops k :
  positions_upto viewstarts viewstops (S k)
  = (positions_upto viewstarts viewstops k ++ slot_range viewstarts viewstops k)%list.
Proof.
  unfold positions_upto. rewrite seq_S, map_app, concat_app. simpl.
  rewrite app_nil_r. reflexivity.
Qed.

(** The outer loop, after its first [k] slots, with what it writes into
    [stops]. *)
Lemma filter_slot_loop_stops {D} (fcn : D -> bool) (view : Z -> result D)
    viewstarts viewstops stops pointers k :
  length viewstarts = length viewstops ->
  length stops = length viewstarts ->
  (k <= length viewstarts)%nat ->
  (forall j, j ∈ positions_upto viewstarts viewstops k -> exists x, view j = Ok x) ->
  (length (positions_upto viewstarts viewstops k) <= length pointers)%nat ->
  exists stops' pointers',
    for_each (filter_slot fcn view viewstarts viewstops) (seq 0 k) (0, stops, pointers)
    = Ok (Z.of_nat (kept_upto fcn view viewstarts viewstops k), stops', pointers')
    /\ length stops' = length stops
    /\ length pointers' = length pointers
    /\ take (kept_upto fcn view viewstarts viewstops k) pointers'
       = survivors fcn view (positions_upto viewstarts viewstops k)
    /\ forall i, (i < k)%nat ->
         stops' !! i = Some (Z.of_nat (kept_upto fcn view viewstarts viewstops (S i))).
Proof.
  intros Hlen Hstops. unfold kept_upto. induction k as [|k IH]; intros Hk Hin Hfit.
  - exists stops, pointers. simpl. repeat split; auto. intros i Hi. lia.
  - rewrite positions_upto_S in Hin, Hfit. rewrite positions_upto_S.
    rewrite length_app in Hfit.
    destruct IH as (stops1 & pointers1 & Hloop & Hls & Hlp & Htake & Hstops1).
    { lia. } { intros j Hj. apply Hin, elem_of_app. left. exact Hj. } { lia. }
    rewrite seq_S, for_each_app, Hloop. cbn [bind for_each plus].
    destruct (lookup_lt_is_Some_2 viewstarts k ltac:(lia)) as [lo Hlo].
    destruct (lookup_lt_is_Some_2 viewstops k ltac:(lia)) as [hi Hhi].
    unfold filter_slot.
    rewrite (getitem_lookup _ _ _ Hlo), (getitem_lookup _ _ _ Hhi). cbn [bind].
    assert (Hrange : slot_range viewstarts viewstops k = range lo hi)
      by (unfold slot_range; rewrite Hlo, Hhi; reflexivity).
    rewrite Hrange in *.
    set (n := length (survivors fcn view (positions_upto viewstarts viewstops k))) in *.
    destruct (filter_keep_loop fcn view (range lo hi) n pointers1)
      as (pointers2 & Hinner & Hlp2 & Htake2).
    { intros j Hj. apply Hin, elem_of_app. right. exact Hj. }
    { pose proof (survivors_length fcn view (positions_upto viewstarts viewstops k)) as Hs.
      fold n in Hs. lia. }
    rewrite Hinner. cbn [bind fst snd].
    rewrite setitem_nat by lia. cbn [bind].
    exists (<[k:=Z.of_nat (n + length (survivors fcn view (range lo hi)))]> stops1), pointers2.
    rewrite survivors_app, length_app. fold n.
    split; [reflexivity|]. split; [rewrite length_insert; exact Hls|].
    split; [congruence|]. split; [rewrite Htake2, Htake; reflexivity|].
    intros i Hi. destruct (decide (i = k)) as [->|Hne].
    + rewrite list_lookup_insert_eq by lia.
      rewrite positions_upto_S, survivors_app, length_app, Hrange. reflexivity.
    + rewrite list_lookup_insert_ne by lia. apply Hstops1. lia.
Qed.

Lemma numpy_empty_nat (n : nat) junk :
  numpy_empty (Z.of_nat n) junk = Ok (map junk (seq 0 n)).
Proof.
  unfold numpy_empty. destruct (Z.of_nat n <? 0) eqn:E; [apply Z.ltb_lt in E; lia|].
  rewrite Nat2Z.id. reflexivity.
Qed.

Lemma elem_of_range a b j : j ∈ range a b <-> a <= j < b.
Proof.
  unfold range. rewrite list_elem_of_fmap. split.
  - intros (k & -> & Hk). apply elem_of_seq in Hk. lia.
  - intros Hj. exists (Z.to_nat (j - a)). split; [lia|]. apply elem_of_seq. lia.
Qed.

Lemma NoDup_range a b : NoDup (range a b).
Proof. unfold range. apply NoDup_fmap_2; [intros x y; lia|apply NoDup_seq]. Qed.

(** The positions the loop visits in its first [k] slots are those of
    these slots. *)
Lemma positions_upto_elem viewstarts viewstops k j :
  length viewstarts = length viewstops -> (k <= length viewstarts)%nat ->
  j ∈ positions_upto viewstarts viewstops k
  <-> exists i s e, (i < k)%nat /\ slot_of viewstarts viewstops i s e /\ s <= j < e.
Proof.
  intros Hlen. induction k as [|k IH]; intros Hk.
  - split; [intros Hj; inversion Hj|intros (i & _ & _ & Hi & _); lia].
  - rewrite positions_upto_S, elem_of_app, IH by lia.
    destruct (lookup_lt_is_Some_2 viewstarts k ltac:(lia)) as [lo Hlo].
    destruct (lookup_lt_is_Some_2 viewstops k ltac:(lia)) as [hi Hhi].
    assert (Hrange : slot_range viewstarts viewstops k = range lo hi)
      by (unfold slot_range; rewrite Hlo, Hhi; reflexivity).
    rewrite Hrange, elem_of_range. split.
    + intros [(i & s & e & Hi & Hslot & Hj)|Hj].
      * exists i, s, e. split; [lia|]. split; assumption.
      * exists k, lo, hi. split; [lia|]. split; [split; assumption|exact Hj].
    + intros (i & s & e & Hi & Hslot & Hj). destruct (decide (i = k)) as [->|Hne].
      * right. destruct Hslot as [Hs He]. rewrite Hlo in Hs. rewrite Hhi in He.
        injection Hs as <-. injection He as <-. exact Hj.
      * left. exists i, s, e. split; [lia|]. split; assumption.
Qed.

(** Slots that do not overlap are visited without repetition. *)
Lemma positions_upto_NoDup viewstarts viewstops k :
  length viewstarts = length viewstops -> slots_disjoint viewstarts viewstops ->
  (k <= length viewstarts)%nat ->
  NoDup (positions_upto viewstarts viewstops k).
Proof.
  intros Hlen Hdisj. induction k as [|k IH]; intros Hk; [constructor|].
  rewrite positions_upto_S. apply NoDup_app. split; [apply IH; lia|].
  destruct (lookup_lt_is_Some_2 viewstarts k ltac:(lia)) as [lo Hlo].
  destruct (lookup_lt_is_Some_2 viewstops k ltac:(lia)) as [hi Hhi].
  assert (Hrange : slot_range viewstarts viewstops k = range lo hi)
    by (unfold slot_range; rewrite Hlo, Hhi; reflexivity).
  rewrite Hrange. split; [|apply NoDup_range].
  intros j Hj Hj'. apply positions_upto_elem in Hj as (i & s & e & Hi & Hslot & Hin);
    [|exact Hlen|lia].
  apply elem_of_range in Hj'.
  assert (i = k) by exact (Hdisj i k s e lo hi j Hslot (conj Hlo Hhi) Hin Hj').
  lia.
Qed.

Lemma NoDup_bounded_length (l : list Z) (hi : Z) :
  NoDup l -> (forall j, j ∈ l -> 0 <= j < hi) -> (length l <= Z.to_nat hi)%nat.
Proof.
  intros Hnd Hin.
  assert (Hsub : l ⊆+ range 0 hi).
  { apply NoDup_submseteq; [exact Hnd|]. intros j Hj. apply elem_of_range, Hin, Hj. }
  apply submseteq_length in Hsub. unfold range in Hsub.
  rewrite length_map, length_seq in Hsub. lia.
Qed.

Lemma array_max_elem a m : array_max a = Ok m -> m ∈ a.
Proof.
  destruct a as [|x a]; simpl; [discriminate|]. intros [= <-].
  revert x. induction a as [|y a IH]; intros x; simpl; [apply list_elem_of_here|].
  pose proof (IH (Z.max x y)) as Hm. apply elem_of_cons in Hm as [Heq|Hin].
  - rewrite Heq. destruct (Z.max_spec x y) as [[_ ->]|[_ ->]].
    + apply list_elem_of_further, list_elem_of_here.
    + apply list_elem_of_here.
  - apply list_elem_of_further, list_elem_of_further, Hin.
Qed.

(** In a window that starts at 0, the view reads the content at the
    position asked for. *)
Lemma view_getitem_window {D} (content_ : list D) (hi j : Z) :
  0 <= j < hi -> view_getitem content_ 0 hi j = getitem content_ j.
Proof.
  intros Hj. unfold view_getitem.
  destruct (j <? 0) eqn:E; [apply Z.ltb_lt in E; lia|].
  rewrite Z.sub_0_r.
  destruct (0 <=? j) eqn:E1; [|apply Z.leb_gt in E1; lia].
  destruct (j <? hi) eqn:E2; [|apply Z.ltb_ge in E2; lia].
  reflexivity.
Qed.

(** The loop of [filter] over offsets that are well formed and do not
    overlap, the content holding an element at every position in use, the
    window starting at 0. *)
Lemma filter_fill_returns {D} (fcn : D -> bool) (content_ : list D)
    (viewstarts viewstops : list Z) (hi : Z) (junk : nat -> Z) :
  slots_wf viewstarts viewstops -> slots_disjoint viewstarts viewstops ->
  array_max viewstops = Ok hi ->
  (forall e, e ∈ viewstops -> e <= Z.of_nat (length content_)) ->
  let view := getitem content_ in
  let n := length viewstarts in
  0 <= hi
  /\ (forall j, j ∈ positions_upto viewstarts viewstops n -> 0 <= j < hi)
  /\ exists stops' pointers',
       filter_fill fcn (view_getitem content_ 0 hi) viewstarts viewstops
         (map junk (seq 0 n)) (map junk (seq 0 (Z.to_nat hi)))
       = Ok (Z.of_nat (kept_upto fcn view viewstarts viewstops n), stops', pointers')
       /\ length stops' = n
       /\ take (kept_upto fcn view viewstarts viewstops n) pointers'
          = survivors fcn view (positions_upto viewstarts viewstops n)
       /\ forall i, (i < n)%nat ->
            stops' !! i = Some (Z.of_nat (kept_upto fcn view viewstarts viewstops (S i))).
Proof.
  intros Hwf Hdisj Hmax Hcover view n.
  pose proof (array_max_ge _ _ Hmax) as Hub.
  pose proof (array_max_elem _ _ Hmax) as Hhi_in.
  destruct Hwf as [Hlen Hslots].
  assert (Hin : forall k, (k <= n)%nat ->
            forall j, j ∈ positions_upto viewstarts viewstops k -> 0 <= j < hi).
  { intros k Hk j Hj. apply positions_upto_elem in Hj as (i & s & e & Hi & Hslot & Hj);
      [|exact Hlen|exact Hk].
    pose proof (Hslots i s e Hslot).
    assert (e <= hi) by (apply Hub, list_elem_of_lookup; destruct Hslot; eauto). lia. }
  assert (Hhi : 0 <= hi).
  { apply list_elem_of_lookup in Hhi_in as [i Hi].
    destruct (lookup_lt_is_Some_2 viewstarts i) as [s Hs].
    { rewrite Hlen. eapply lookup_lt_Some; eauto. }
    pose proof (Hslots i s hi (conj Hs Hi)). lia. }
  split; [exact Hhi|]. split; [apply Hin; lia|].
  assert (Hview : forall k, (k <= n)%nat ->
            survivors fcn (view_getitem content_ 0 hi) (positions_upto viewstarts viewstops k)
            = survivors fcn view (positions_upto viewstarts viewstops k)).
  { intros k Hk. apply survivors_ext. intros j Hj. apply view_getitem_window.
    apply (Hin k Hk j Hj). }
  unfold filter_fill.
  destruct (filter_slot_loop_stops fcn (view_getitem content_ 0 hi) viewstarts viewstops
              (map junk (seq 0 n)) (map junk (seq 0 (Z.to_nat hi))) n Hlen)
    as (stops' & pointers' & Hloop & Hls & _ & Htake & Hstops).
  { rewrite length_map, length_seq. reflexivity. }
  { lia. }
  { intros j Hj. pose proof (Hin n ltac:(lia) j Hj) as Hr.
    rewrite view_getitem_window by exact Hr. apply getitem_nonneg.
    specialize (Hcover hi Hhi_in). lia. }
  { rewrite length_map, length_seq. apply NoDup_bounded_length.
    - apply positions_upto_NoDup; [exact Hlen|exact Hdisj|lia].
    - apply Hin. lia. }
  unfold kept_upto in *. exists stops', pointers'.
  rewrite <- (Hview n) by lia. split; [exact Hloop|].
  split; [rewrite Hls, length_map, length_seq; reflexivity|]. split; [exact Htake|].
  intros i Hi. rewrite <- (Hview (S i)) by lia. apply Hstops, Hi.
Qed.

(** [put] of one buffer under a Pointer that is not nullable, whatever the
    source holds *)
Lemma put_pointer_any `{Packing} {A} (str_role : role -> string) (self : DualSource A)
    (h : heap) (nss : gmap addr string) (a : addr) x positions (c : attrs) (b0 : A) :
  h !! a = Some (Pointer x positions c) -> nullable c = false ->
  exists k,
    let positionsrole :=
      mkRole PositionsRole ("array-" ++ str_nat k) (src_namespace self) in
    put str_role self h nss a [b0]
    = Ok (mkDualSource (src_namespace self)
            (<[str_role positionsrole:=b0]> (src_new self)) (S k),
          <[a:=Pointer x (Some (str_role positionsrole)) c]> h,
          <[a:=src_namespace self]> nss).
Proof.
  intros Ha Hn. destruct (arrayname_returns self) as (k & Hname & _).
  exists k. cbn zeta. unfold put. rewrite Ha, Hname. cbn [bind fst snd].
  change (getitem [b0] 0) with (Ok b0). cbn [bind common]. rewrite Hn. reflexivity.
Qed.

(** [filter] up to the end of its loop, on a list that is not nullable and
    whose offsets are well formed, do not overlap and start at 0, the
    content holding an element at every position in use: what is left is
    the rewriting of the schema. *)
Lemma filter_loop_returns `{Packing} {D} (str_role : role -> string) (h : heap)
    (nss : gmap addr string) (oldns : gset string) (listnode : addr) (content : slot)
    (starts stops : option string) (c : attrs) (fcn : D -> bool) (content_ : list D)
    (viewstarts viewstops innerpointers : list Z) (junk : nat -> Z) :
  h !! listnode = Some (List content starts stops c) -> nullable c = false ->
  slots_wf viewstarts viewstops -> slots_disjoint viewstarts viewstops ->
  array_min viewstarts = Ok 0 ->
  (forall e, e ∈ viewstops -> e <= Z.of_nat (length content_)) ->
  let view := getitem content_ in
  let n := length viewstarts in
  exists stops',
    length stops' = n
    /\ (forall i, (i < n)%nat ->
          stops' !! i = Some (Z.of_nat (kept_upto fcn view viewstarts viewstops (S i))))
    /\ (forall j, j ∈ positions_upto viewstarts viewstops n ->
          0 <= j < Z.of_nat (length content_))
    /\ filter str_role h nss oldns true listnode fcn content_ viewstarts viewstops
         innerpointers junk
       = (let offsets := 0 :: stops' in
          let pointers := survivors fcn view (positions_upto viewstarts viewstops n) in
          let (p, h) := alloc h (Pointer content None plain) in
          let h := <[listnode:=List (Node p) starts stops c]> h in
          do r <-
            match lookup_obj h content with
            | Some (Pointer target _ c') =>
                if nullable c' then
                  Raise (NotImplementedError "nullable; need to merge masks")
                else
                  do pointers <- take_indices innerpointers pointers;
                  if bool_decide (target = Node p) then
                    Raise (TypeError "Pointer may not point directly at itself (it would never resolve to a value)")
                  else Ok (<[p:=Pointer target None plain]> h, pointers)
            | _ => Ok (h, pointers)
            end;
          let (h, pointers) := r in
          do arrays <- DualSource_init oldns;
          do r <- put str_role arrays h nss listnode
                    [take (length offsets - 1) offsets; drop 1 offsets];
          do r <- put str_role r.1.1 r.1.2 r.2 p [pointers];
          Ok (r.1.2, r.2, r.1.1, p, offsets, pointers)).
Proof.
  intros Hlist Hn Hwf Hdisj Hmin Hcover view n.
  destruct (DualSource_init_returns (A := list Z) oldns) as (k0 & Hinit & _).
  assert (Hmax : exists hi, array_max viewstops = Ok hi).
  { destruct viewstops as [|e0 ves]; [|simpl; eauto].
    destruct viewstarts; [discriminate|]. destruct Hwf as [Hlen _]. discriminate. }
  destruct Hmax as [hi Hmax].
  destruct (filter_fill_returns fcn content_ viewstarts viewstops hi junk Hwf Hdisj Hmax Hcover)
    as (Hhi & Hin & stops' & pointers' & Hloop & Hls & Htake & Hstops).
  exists stops'. split; [exact Hls|]. split; [exact Hstops|]. split.
  { intros j Hj. specialize (Hin j Hj).
    specialize (Hcover hi (array_max_elem _ _ Hmax)). lia. }
  unfold filter. cbn [negb]. rewrite Hlist, Hn, Hinit. cbn [bind]. rewrite Hmin, Hmax.
  cbn [bind].
  rewrite (put_list str_role _ h nss listnode content starts stops c [0] [hi] Hlist Hn).
  cbn [bind]. rewrite numpy_empty_nat. cbn [bind].
  rewrite Z.sub_0_r. replace hi with (Z.of_nat (Z.to_nat hi)) at 1 by lia.
  rewrite numpy_empty_nat. cbn [bind].
  rewrite Hloop. cbn [bind]. rewrite Nat2Z.id, Htake. reflexivity.
Qed.

(** C6: filtering a list whose content is a (non-nullable) Pointer to X,
    with offsets that are well formed, do not overlap and start at 0 (as
    those a previous [filter] put: [offsets[:-1]] and [offsets[1:]] of an
    array that starts at 0 and does not decrease), every position in use
    having an entry in the old positions: [filter] returns a schema in
    which the content of the list is a new Pointer whose target is X
    itself, not the old Pointer, the rest of the schema being as before.
    The positions put under the new Pointer are the old positions taken at
    the surviving indices, entry by entry: one index array. *)
Theorem filter_composes_pointers `{Packing} {D} (str_role : role -> string) (h : heap)
    (nss : gmap addr string) (oldns : gset string) (listnode content : addr)
    (target : slot) (starts stops positions : option string) (c c' : attrs)
    (fcn : D -> bool) (content_ : list D) (viewstarts viewstops innerpointers : list Z)
    (junk : nat -> Z) :
  h !! listnode = Some (List (Node content) starts stops c) ->
  h !! content = Some (Pointer target positions c') ->
  is_Some (lookup_obj h target) ->
  nullable c = false -> nullable c' = false ->
  slots_wf viewstarts viewstops -> slots_disjoint viewstarts viewstops ->
  array_min viewstarts = Ok 0 ->
  (forall e, e ∈ viewstops -> e <= Z.of_nat (length innerpointers)) ->
  length content_ = length innerpointers ->
  let kept := survivors fcn (getitem content_)
                (positions_upto viewstarts viewstops (length viewstarts)) in
  exists h' nss' arrays offsets pointers starts' stops' positions',
    filter str_role h nss oldns true listnode fcn content_ viewstarts viewstops
      innerpointers junk
    = Ok (h', nss', arrays, length h, offsets, pointers)
    /\ h' !! listnode = Some (List (Node (length h)) (Some starts') (Some stops') c)
    /\ h' !! length h = Some (Pointer target (Some positions') plain)
    /\ (forall a, a <> listnode -> (a < length h)%nat -> h' !! a = h !! a)
    /\ src_new arrays !! positions' = Some pointers
    /\ length pointers = length kept
    /\ forall k j, kept !! k = Some j ->
         exists x, innerpointers !! Z.to_nat j = Some x /\ pointers !! k = Some x.
Proof.
  intros Hlist Hcontent Htarget Hn Hn' Hwf Hdisj Hmin Hcover Hlen kept.
  assert (Hll : (listnode < length h)%nat) by (eapply lookup_lt_Some; eauto).
  assert (Hcl : (content < length h)%nat) by (eapply lookup_lt_Some; eauto).
  assert (Hcne : content <> listnode) by (intros ->; congruence).
  assert (Htne : target <> Node (length h)).
  { intros ->. destruct Htarget as [n Hn0]. simpl in Hn0.
    apply lookup_lt_Some in Hn0. lia. }
  destruct (filter_loop_returns str_role h nss oldns listnode (Node content) starts stops c
              fcn content_ viewstarts viewstops innerpointers junk Hlist Hn Hwf Hdisj Hmin)
    as (stops_ & Hls & Hstops & Hin & Hfilter).
  { rewrite Hlen. exact Hcover. }
  rewrite Hfilter. clear Hfilter. fold kept. unfold alloc. cbn zeta. cbn [lookup_obj].
  rewrite list_lookup_insert_ne by congruence.
  rewrite lookup_app_l by exact Hcl. rewrite Hcontent, Hn'.
  destruct (take_indices_in_range innerpointers kept) as (pointers & Hp & Hlp & Hlook).
  { intros j Hj. apply survivors_elem in Hj. specialize (Hin j Hj). lia. }
  rewrite Hp. cbn [bind]. rewrite (bool_decide_eq_false_2 _ Htne). cbn [bind].
  destruct (DualSource_init_returns (A := list Z) oldns) as (k0 & Hinit & _).
  rewrite Hinit. cbn [bind].
  set (p := length h).
  set (h2 := <[listnode:=List (Node p) starts stops c]> (h ++ [Pointer (Node content) None plain])%list).
  set (h3 := <[p:=Pointer target None plain]> h2).
  assert (Hl2 : length h2 = S (length h)).
  { unfold h2. rewrite length_insert, length_app. simpl. lia. }
  assert (H3l : h3 !! listnode = Some (List (Node p) starts stops c)).
  { unfold h3, h2. rewrite list_lookup_insert_ne by (unfold p; lia).
    apply list_lookup_insert_eq. rewrite length_app. lia. }
  rewrite (put_list str_role _ h3 nss listnode (Node p) starts stops c _ _ H3l Hn).
  cbn [bind fst snd].
  set (ns := "namespace-" ++ str_nat k0).
  set (h4 := <[listnode:=List (Node p) (Some (str_role (mkRole StartsRole "array-0" ns)))
                            (Some (str_role (mkRole StopsRole "array-1" ns))) c]> h3).
  assert (H4p : h4 !! p = Some (Pointer target None plain)).
  { unfold h4, h3. rewrite list_lookup_insert_ne by (unfold p; lia).
    apply list_lookup_insert_eq. rewrite Hl2. unfold p. lia. }
  match goal with
  | |- context [put str_role ?s h4 ?n p [pointers]] =>
      destruct (put_pointer_any str_role s h4 n p target None plain pointers H4p eq_refl)
        as (k & Hput)
  end.
  cbn zeta in Hput. rewrite Hput. cbn [bind fst snd src_namespace src_new].
  eexists _, _, _, _, pointers, _, _, _. split; [reflexivity|].
  split; [|split; [|split; [|split; [|split]]]].
  - rewrite list_lookup_insert_ne by (unfold p; lia).
    apply list_lookup_insert_eq. unfold h3. rewrite length_insert, Hl2. lia.
  - apply list_lookup_insert_eq. unfold h4, h3. rewrite !length_insert, Hl2. unfold p. lia.
  - intros a Ha Hal. rewrite list_lookup_insert_ne by (unfold p; lia).
    unfold h4. rewrite list_lookup_insert_ne by congruence.
    unfold h3. rewrite list_lookup_insert_ne by (unfold p; lia).
    unfold h2. rewrite list_lookup_insert_ne by congruence. apply lookup_app_l, Hal.
  - apply lookup_insert_eq.
  - exact Hlp.
  - intros k1 j Hk. rewrite (Hlook k1 j Hk).
    assert (Hj : j ∈ kept) by (eapply list_elem_of_lookup_2; eauto).
    apply survivors_elem in Hj. specialize (Hin j Hj).
    destruct (lookup_lt_is_Some_2 innerpointers (Z.to_nat j) ltac:(lia)) as [x Hx].
    exists x. split; [exact Hx|exact Hx].
Qed.

(** A list of three pointers into a buffer of doubles, filtered by
    [x > 15]: the elements at 1 and 2 survive, and the new positions are the
    old positions [[5, 3, 4]] taken there. *)
Lemma filter_composes_pointers_witness :
  let h := [Primitive float64 [] None plain; Pointer (Node 0%nat) None plain;
            List (Node 1%nat) None None plain] in
  let kept := survivors (fun x => 15 <? x) (getitem [10; 20; 30]) (positions_upto [0] [3] 1) in
  exists h' nss' arrays offsets pointers starts' stops' positions',
    filter role_name h ∅ ∅ true 2%nat (fun x => 15 <? x) [10; 20; 30] [0] [3] [5; 3; 4]
      (fun _ => 0)
    = Ok (h', nss', arrays, 3%nat, offsets, pointers)
    /\ h' !! 2%nat = Some (List (Node 3%nat) (Some starts') (Some stops') plain)
    /\ h' !! 3%nat = Some (Pointer (Node 0%nat) (Some positions') plain)
    /\ (forall a, a <> 2%nat -> (a < 3)%nat -> h' !! a = h !! a)
    /\ src_new arrays !! positions' = Some pointers
    /\ length pointers = length kept
    /\ forall k j, kept !! k = Some j ->
         exists x, [5; 3; 4] !! Z.to_nat j = Some x /\ pointers !! k = Some x.
Proof.
  intros h.
  apply (filter_composes_pointers role_name h ∅ ∅ 2%nat 1%nat (Node 0%nat) None None None
           plain plain (fun x => 15 <? x) [10; 20; 30] [0] [3] [5; 3; 4] (fun _ => 0)
           eq_refl eq_refl).
  - eexists. reflexivity.
  - reflexivity.
  - reflexivity.
  - split; [reflexivity|]. intros [|i] s e [Hs He]; simpl in Hs, He; try discriminate.
    injection Hs as <-. injection He as <-. lia.
  - intros [|i] [|i'] s e s' e' j [Hs He] [Hs' He'] Hj Hj';
      simpl in Hs, He, Hs', He'; try discriminate; reflexivity.
  - reflexivity.
  - intros e He. apply list_elem_of_singleton in He. subst. simpl. lia.
  - reflexivity.
Defined.

(** The same call, evaluated with [str(role)] the name of the role: the
    schema is still List(Pointer(float64)), and the buffers are the offsets
    [[0, 2]] and the positions [[3, 4]]. *)
Example filter_twice_example :
  filter role_name
         [Primitive float64 [] None plain; Pointer (Node 0%nat) None plain;
          List (Node 1%nat) None None plain]
         ∅ ∅ true 2%nat (fun x => 15 <? x) [10; 20; 30] [0] [3] [5; 3; 4] (fun _ => 0)
  = Ok ([Primitive float64 [] None plain; Pointer (Node 0%nat) None plain;
         List (Node 3%nat) (Some "array-0") (Some "array-1") plain;
         Pointer (Node 0%nat) (Some "array-2") plain],
        {[2%nat := "namespace-0"; 3%nat := "namespace-0"]},
        mkDualSource "namespace-0"
          {["array-0" := [0]; "array-1" := [2]; "array-2" := [3; 4]]} 3,
        3%nat, [0; 2], [3; 4]).
Proof. vm_compute. reflexivity. Qed.

(** A list whose only slot is [[2, 4)]: the view has the two elements at
    the positions 2 and 3 of the content, and the loop asks it for its
    elements 2 and 3. *)
Example filter_window_not_at_zero :
  filter role_name
         [Primitive float64 [] None plain; List (Node 0%nat) None None plain]
         ∅ ∅ true 1%nat (fun x => 15 <? x) [10; 20; 30; 40] [2] [4] [] (fun _ => 0)
  = Raise (IndexError "index is out of bounds for size").
Proof. vm_compute. reflexivity. Qed.

(** Offsets that do not decrease: every entry is at most the entries
    after it. *)
Lemma offsets_ok_lookup (last : Z) (offsets : list Z) :
  offsets_ok last offsets = true ->
  forall i j x y, (i <= j)%nat -> offsets !! i = Some x -> offsets !! j = Some y ->
    last <= x /\ x <= y.
Proof.
  revert last. induction offsets as [|o offsets IH]; intros last Hok i j x y Hij Hx Hy.
  - rewrite lookup_nil in Hx. discriminate.
  - cbn [offsets_ok] in Hok. apply andb_true_iff in Hok as [Hlo Hok].
    apply Z.leb_le in Hlo. destruct i as [|i], j as [|j]; simpl in Hx, Hy.
    + injection Hx as <-. injection Hy as <-. lia.
    + injection Hx as <-. destruct (IH o Hok j j y y ltac:(lia) Hy Hy). lia.
    + lia.
    + destruct (IH o Hok i j x y ltac:(lia) Hx Hy). lia.
Qed.

(** The offsets that [filter] puts under its list, [offsets[:-1]] and
    [offsets[1:]] of an array that starts at 0 and does not decrease, are
    well formed, do not overlap and start at 0. *)
Lemma filter_offsets_slots (rest : list Z) :
  rest <> [] -> offsets_ok 0 rest = true ->
  let offsets := 0 :: rest in
  let starts := take (length offsets - 1) offsets in
  let stops := drop 1 offsets in
  slots_wf starts stops /\ slots_disjoint starts stops /\ array_min starts = Ok 0.
Proof.
  intros Hne Hok offsets starts stops.
  assert (Hok' : offsets_ok 0 offsets = true) by (simpl; exact Hok).
  assert (Hstart : forall i s, starts !! i = Some s -> offsets !! i = Some s).
  { intros i s Hs. unfold starts in Hs. apply lookup_take_Some in Hs as [Hs _]. exact Hs. }
  assert (Hstop : forall i e, stops !! i = Some e -> offsets !! S i = Some e).
  { intros i e He. unfold stops in He. rewrite lookup_drop in He. exact He. }
  split; [|split].
  - split.
    + unfold starts, stops. rewrite length_take, length_drop. lia.
    + intros i s e [Hs He].
      destruct (offsets_ok_lookup 0 offsets Hok' i (S i) s e ltac:(lia)
                  (Hstart _ _ Hs) (Hstop _ _ He)). lia.
  - intros i i' s e s' e' j [Hs He] [Hs' He'] Hj Hj'.
    destruct (Nat.lt_trichotomy i i') as [Hlt|[Heq|Hgt]]; [|exact Heq|].
    + destruct (offsets_ok_lookup 0 offsets Hok' (S i) i' e s' ltac:(lia)
                  (Hstop _ _ He) (Hstart _ _ Hs')). lia.
    + destruct (offsets_ok_lookup 0 offsets Hok' (S i') i e' s ltac:(lia)
                  (Hstop _ _ He') (Hstart _ _ Hs)). lia.
  - destruct rest as [|r rest]; [congruence|].
    unfold starts, offsets. cbn [length].
    replace (S (S (length rest)) - 1)%nat with (S (length rest)) by lia.
    cbn [take array_min].
    f_equal.
    assert (Hge : forall l : list Z, (forall x, x ∈ l -> 0 <= x) -> foldl Z.min 0 l = 0).
    { induction l as [|x l IHl]; intros Hl; [reflexivity|]. simpl.
      rewrite Z.min_l by (apply Hl, list_elem_of_here).
      apply IHl. intros y Hy. apply Hl, list_elem_of_further, Hy. }
    apply Hge. intros x Hx. apply list_elem_of_lookup in Hx as [i Hi].
    apply lookup_take_Some in Hi as [Hi _].
    destruct (offsets_ok_lookup 0 (r :: rest) Hok i i x x ltac:(lia) Hi Hi). lia.
Qed.

(** [filter] by [x > 15] on two lists of two doubles each, then [filter] by
    [x > 25] on its result, whose list holds a Pointer: the offsets, the
    positions and the elements of the second call are those the first
    returned.  The schema stays a List(Pointer(float64)), the Pointer of
    the first call being left aside, and the positions are positions of the
    doubles. *)
Example filter_after_filter_example :
  let h := [Primitive float64 [] None plain; List (Node 0%nat) None None plain] in
  let h1 := [Primitive float64 [] None plain;
             List (Node 2%nat) (Some "array-0") (Some "array-1") plain;
             Pointer (Node 0%nat) (Some "array-2") plain] in
  filter role_name h ∅ ∅ true 1%nat (fun x => 15 <? x) [10; 20; 30; 40] [0; 2] [2; 4] []
    (fun _ => 0)
  = Ok (h1, {[1%nat := "namespace-0"; 2%nat := "namespace-0"]},
        mkDualSource "namespace-0"
          {["array-0" := [0; 1]; "array-1" := [1; 3]; "array-2" := [1; 2; 3]]} 3,
        2%nat, [0; 1; 3], [1; 2; 3])
  /\ filter role_name h1 {[1%nat := "namespace-0"; 2%nat := "namespace-0"]}
       {["namespace-0"]} true 1%nat (fun x => 25 <? x) [20; 30; 40] [0; 1] [1; 3] [1; 2; 3]
       (fun _ => 0)
     = Ok ([Primitive float64 [] None plain;
            List (Node 3%nat) (Some "array-0") (Some "array-1") plain;
            Pointer (Node 0%nat) (Some "array-2") plain;
            Pointer (Node 0%nat) (Some "array-2") plain],
           {[1%nat := "namespace-1"; 2%nat := "namespace-0"; 3%nat := "namespace-1"]},
           mkDualSource "namespace-1"
             {["array-0" := [0; 0]; "array-1" := [0; 2]; "array-2" := [2; 3]]} 3,
           3%nat, [0; 0; 2], [2; 3]).
Proof. split; vm_compute; reflexivity. Qed.

(** ** Datasets *)

Lemma dict_get_dict_set {V} (d : list (string * V)) k v k' :
  dict_get (dict_set d k v) k' = if bool_decide (k = k') then Some v else dict_get d k'.
Proof.
  induction d as [|[k0 v0] d IH]; simpl.
  - reflexivity.
  - destruct (decide (k0 = k)) as [->|Hne].
    + rewrite bool_decide_eq_true_2 by reflexivity. simpl.
      destruct (bool_decide (k = k')); reflexivity.
    + rewrite bool_decide_eq_false_2 by exact Hne. simpl. rewrite IH.
      destruct (decide (k0 = k')) as [->|Hne'].
      * rewrite (bool_decide_eq_true_2 (k' = k')) by reflexivity.
        rewrite bool_decide_eq_false_2 by congruence. reflexivity.
      * rewrite (bool_decide_eq_false_2 (k0 = k')) by exact Hne'. reflexivity.
Qed.

Lemma dict_get_set_if_ne b k v d k' :
  k <> k' -> dict_get (set_if b k v d) k' = dict_get d k'.
Proof.
  intros Hne. unfold set_if. destruct b; [|reflexivity].
  rewrite dict_get_dict_set, bool_decide_eq_false_2 by exact Hne. reflexivity.
Qed.

Lemma dict_get_set_if_eq b k v d :
  dict_get (set_if b k v d) k = if b then Some v else dict_get d k.
Proof.
  unfold set_if. destruct b; [|reflexivity].
  rewrite dict_get_dict_set, bool_decide_eq_true_2 by reflexivity. reflexivity.
Qed.

Lemma get_default_set_if_ne b k v d k' dflt :
  k <> k' -> get_default (set_if b k v d) k' dflt = get_default d k' dflt.
Proof. intros Hne. unfold get_default. rewrite dict_get_set_if_ne by exact Hne. reflexivity. Qed.

Lemma get_default_set_if_eq b k v d dflt :
  get_default (set_if b k v d) k dflt = if b then v else get_default d k dflt.
Proof. unfold get_default. rewrite dict_get_set_if_eq. destruct b; reflexivity. Qed.

Lemma offsets_items_of_offsets last offsets :
  offsets_ok last offsets = true -> offsets_items last (map JInt offsets) = Ok offsets.
Proof.
  revert last. induction offsets as [|x rest IH]; intros last; simpl; [reflexivity|].
  rewrite andb_true_iff. intros [Hx Hrest]. rewrite Hx, (IH x Hrest). reflexivity.
Qed.

Lemma partitions_items_of_partitions partitions :
  partitions_items (map JDict partitions) = Ok partitions.
Proof. induction partitions as [|p ps IH]; simpl; [reflexivity|]. rewrite IH. reflexivity. Qed.

Lemma prefixsuffix_roundtrip mk offsets delimiter :
  offsets_ok 0 offsets && negb (_baddelimiter_match delimiter) = true ->
  prefixsuffix_init mk (prefixsuffix_tojsonargs offsets delimiter) = Ok (mk offsets delimiter).
Proof.
  rewrite andb_true_iff, negb_true_iff. intros [Ho Hd].
  unfold prefixsuffix_tojsonargs, prefixsuffix_init.
  case_bool_decide as Hdash; simpl; rewrite (offsets_items_of_offsets 0 offsets Ho); simpl.
  - subst delimiter. reflexivity.
  - rewrite Hd. reflexivity.
Qed.

(** A partitioning of a class with [_tojsonargs] is read back as it was. *)
Lemma Partitioning_roundtrip p :
  Partitioning_wf p = true ->
  exists j, Partitioning_tojson p = Ok (JDict j)
    /\ Partitioning_fromjson (JDict j) = Ok p.
Proof.
  destruct p as [o|o ps|o dl|o dl|o dl|l]; simpl; intros Hwf; try discriminate;
    eexists; (split; [reflexivity|]); unfold Partitioning_fromjson.
  - change (partitioning_class "ExplicitPartitioning") with (Some ExplicitPartitioning_init).
    cbn [star_args bind]. unfold ExplicitPartitioning_init.
    cbn [offsets_setter json_of_offsets partitions_setter].
    rewrite (offsets_items_of_offsets 0 o Hwf). cbn [bind].
    rewrite partitions_items_of_partitions. reflexivity.
  - change (partitioning_class "PrefixSuffixPartitioning")
      with (Some (prefixsuffix_init PrefixSuffixPartitioning)).
    cbn [star_args bind]. apply (prefixsuffix_roundtrip PrefixSuffixPartitioning o dl Hwf).
  - change (partitioning_class "PrefixPartitioning")
      with (Some (prefixsuffix_init PrefixPartitioning)).
    cbn [star_args bind]. apply (prefixsuffix_roundtrip PrefixPartitioning o dl Hwf).
  - change (partitioning_class "SuffixPartitioning")
      with (Some (prefixsuffix_init SuffixPartitioning)).
    cbn [star_args bind]. apply (prefixsuffix_roundtrip SuffixPartitioning o dl Hwf).
  - reflexivity.
Qed.

Lemma bind_ok {A B} (m : result A) (k : A -> result B) b :
  bind m k = Ok b -> exists a, m = Ok a /\ k a = Ok b.
Proof. destruct m as [a| |]; simpl; intros Hb; try discriminate. eauto. Qed.

Ltac bind_inv H :=
  let x := fresh "x" in
  let Hx := fresh "Hx" in
  apply bind_ok in H as (x & Hx & H).

Tactic Notation "bind_inv_as" hyp(H) simple_intropattern(x) ident(Hx) :=
  apply bind_ok in H as (x & Hx & H).

Section Finalize.
Context `{Packing}.

Lemma nonnullable_list_lookup (h : heap) s :
  nonnullable_list h s = default false (is_nonnullable_list <$> h !! s).
Proof. unfold nonnullable_list. destruct (h !! s) as [[]|]; reflexivity. Qed.

Lemma set_child_is_nonnullable_list n i s :
  is_nonnullable_list (set_child n i s) = is_nonnullable_list n.
Proof. destruct n; reflexivity. Qed.

(** Phase two replaces child attributes only: every node keeps its class
    and its own attributes. *)
Lemma finalize_slots_preserves (g : addr -> heap -> result heap) labels self idx :
  (forall c h0 h1, g c h0 = Ok h1 ->
     forall a, is_nonnullable_list <$> h1 !! a = is_nonnullable_list <$> h0 !! a) ->
  forall h h', finalize_slots g labels self idx h = Ok h' ->
  forall a, is_nonnullable_list <$> h' !! a = is_nonnullable_list <$> h !! a.
Proof.
  intros Hg. induction idx as [|i idx IH]; intros h h' Hfin a; simpl in Hfin.
  - injection Hfin as <-. reflexivity.
  - destruct (h !! self) as [n|] eqn:Hself; [|discriminate].
    destruct (children n !! i) as [[c|s]|]; [| |discriminate].
    + bind_inv Hfin. rewrite (IH _ _ Hfin a). apply (Hg _ _ _ Hx).
    + destruct (labels !! s) as [t|]; [|discriminate].
      rewrite (IH _ _ Hfin a).
      destruct (decide (a = self)) as [->|Hne].
      * rewrite list_lookup_insert_eq by (eapply lookup_lt_Some; eauto).
        rewrite Hself. simpl. rewrite set_child_is_nonnullable_list. reflexivity.
      * rewrite list_lookup_insert_ne by congruence. reflexivity.
Qed.

Lemma _finalizefromjson_preserves fuel labels self (h h' : heap) :
  _finalizefromjson fuel labels self h = Ok h' ->
  forall a, is_nonnullable_list <$> h' !! a = is_nonnullable_list <$> h !! a.
Proof.
  revert self h h'. induction fuel as [|fuel IH]; intros self h h' Hfin; [discriminate|].
  simpl in Hfin. destruct (h !! self) as [n|]; [|discriminate].
  eapply finalize_slots_preserves; [|exact Hfin].
  intros c h0 h1 Hc. apply (IH _ _ _ Hc).
Qed.

Lemma tail_fromjson_nullable d nl c : tail_fromjson d nl = Ok c -> nullable c = nl.
Proof.
  unfold tail_fromjson. intros Hc. repeat bind_inv Hc. injection Hc as <-. reflexivity.
Qed.

(** The JSON of a non-nullable List, and what [fromjson] builds from it. *)
Lemma tojson_list_root (h : heap) s x starts stops c js :
  h !! s = Some (List x starts stops c) -> nullable c = false ->
  tojson h s false = Ok js ->
  exists d content, js = JDict d
    /\ get_default d "type" (JStr "primitive") = JStr "list"
    /\ dict_get d "content" = Some content
    /\ get_default d "nullable" (JBool false) = JBool false.
Proof.
  intros Hs Hn Hjs. unfold tojson in Hjs. bind_inv Hjs. bind_inv Hjs.
  injection Hjs as <-. rename Hx0 into Hr. cbn [_tojson] in Hr. rewrite Hs in Hr.
  rewrite (bool_decide_eq_false_2 (s ∈ (∅ : gset nat))) in Hr by set_solver.
  rewrite orb_true_r in Hr. bind_inv Hr. injection Hr as <-. cbn [fst].
  eexists _, _. split; [reflexivity|].
  unfold tail_tojson, role_tojson, nullable_tojson. rewrite Hn.
  unfold get_default.
  repeat (rewrite dict_get_set_if_ne by discriminate).
  rewrite dict_get_set_if_eq.
  repeat split; reflexivity.
Qed.

Lemma fromjson_list_root (h h' : heap) d content s' :
  get_default d "type" (JStr "primitive") = JStr "list" ->
  dict_get d "content" = Some content ->
  get_default d "nullable" (JBool false) = JBool false ->
  fromjson h (JDict d) = Ok (s', h') ->
  nonnullable_list h' s' = true.
Proof.
  intros Htype Hcontent Hnl Hfrom. unfold fromjson in Hfrom.
  bind_inv_as Hfrom [out [h1 labels]] Hone.
  cbn [_fromjson] in Hone. rewrite Htype in Hone.
  rewrite (bool_decide_eq_false_2 ("list" = "primitive")) in Hone by discriminate.
  rewrite (bool_decide_eq_true_2 ("list" = "list")) in Hone by reflexivity.
  rewrite Hcontent in Hone. bind_inv_as Hone [x [h0 labels0]] Hchild.
  rewrite Hnl in Hone. cbn [nullable_setter bind] in Hone.
  bind_inv_as Hone starts Hstarts. bind_inv_as Hone stops Hstops.
  bind_inv_as Hone c Htail. apply tail_fromjson_nullable in Htail.
  unfold finish, alloc in Hone. cbn [fst snd] in Hone.
  bind_inv_as Hone labels1 Hlabels. injection Hone as <- <- <-.
  cbn [fst snd] in Hfrom. bind_inv_as Hfrom h2 Hfin. injection Hfrom as <- <-.
  rewrite nonnullable_list_lookup.
  rewrite (_finalizefromjson_preserves _ _ _ _ _ Hfin).
  rewrite lookup_app_r by lia. rewrite Nat.sub_diag. simpl.
  rewrite Htail. reflexivity.
Qed.

(** The root of a schema that is a non-nullable List is one after the
    round trip. *)
Lemma roundtrip_root_list (h h' : heap) s js s' :
  nonnullable_list h s = true ->
  tojson h s false = Ok js -> fromjson h js = Ok (s', h') ->
  nonnullable_list h' s' = true.
Proof.
  intros Hnn Hto Hfrom. unfold nonnullable_list in Hnn.
  destruct (h !! s) as [[| x starts stops c | | | |]|] eqn:Hs; try discriminate.
  apply negb_true_iff in Hnn.
  destruct (tojson_list_root h s x starts stops c js Hs Hnn Hto)
    as (d & content & -> & Htype & Hcontent & Hnl).
  exact (fromjson_list_root h h' d content s' Htype Hcontent Hnl Hfrom).
Qed.

End Finalize.

Lemma dict_get_dict_set_ne {V} (d : list (string * V)) k v k' :
  k <> k' -> dict_get (dict_set d k v) k' = dict_get d k'.
Proof. intros Hne. rewrite dict_get_dict_set, bool_decide_eq_false_2 by exact Hne. reflexivity. Qed.

Lemma dict_get_dict_set_eq {V} (d : list (string * V)) k v :
  dict_get (dict_set d k v) k = Some v.
Proof. rewrite dict_get_dict_set, bool_decide_eq_true_2 by reflexivity. reflexivity. Qed.

Ltac dict_lookup :=
  unfold get_default;
  repeat first [ rewrite dict_get_set_if_ne by discriminate
               | rewrite dict_get_dict_set_ne by discriminate
               | rewrite dict_get_set_if_eq
               | rewrite dict_get_dict_set_eq ].

Lemma optstr_setter_of_optstring what x :
  optstr_setter what (json_of_optstring x) = Ok x.
Proof. destruct x; reflexivity. Qed.

Lemma metadata_setter_of_metadata m : metadata_setter (json_of_metadata m) = Ok m.
Proof. destruct m; reflexivity. Qed.

(** Where [Schema.fromjson] returns on the JSON of the schema of a Dataset
    and its packing survives the round trip of its class,
    [Dataset.fromjson(Dataset.tojson(d))] returns a Dataset with the schema
    that [Schema.fromjson] built and the prefix, delimiter, partitioning,
    packing, doc and metadata of [d]; its name and its extension are [None]
    whatever those of [d] were. *)
Lemma Dataset_roundtrip_drops_name_and_extension `{Packing} (h : heap) (d : Dataset)
    (js : json) (s' : addr) (h' : heap) :
  Dataset_wf h d ->
  tojson h (ds_schema d) false = Ok js ->
  fromjson h js = Ok (s', h') ->
  _packingfromjson (_packingtojson (ds_packing d)) = Ok (ds_packing d) ->
  exists j,
    Dataset_tojson h d false = Ok j
    /\ Dataset_fromjson h j
       = Ok (mkDataset s' (ds_prefix d) (ds_delimiter d) ExtNone (ds_partitioning d)
               (ds_packing d) None (ds_doc d) (ds_metadata d), h').
Proof.
  intros [Hdelim Hpart] Hto Hfrom Hpack.
  assert (Hd : Dataset_set_delimiter (json_of_optstring (ds_delimiter d))
               = Ok (ds_delimiter d)).
  { destruct (ds_delimiter d) as [s|]; [|reflexivity]. simpl.
    rewrite (Hdelim s eq_refl). reflexivity. }
  unfold Dataset_tojson. rewrite Hto. cbn [bind orb].
  destruct (ds_partitioning d) as [p|] eqn:Hp.
  - destruct (Hpart p eq_refl) as [Hwf Hnn].
    destruct (Partitioning_roundtrip p Hwf) as (jp & Hjp & Hpj).
    rewrite Hjp. cbn [is_some bind]. eexists. split; [reflexivity|].
    unfold Dataset_fromjson.
    replace (dict_get _ "schema") with (Some js) by (dict_lookup; reflexivity).
    rewrite Hfrom. cbn [bind fst snd].
    replace (get_default _ "partitioning" JNull) with (JDict jp)
      by (dict_lookup; reflexivity).
    rewrite Hpj. cbn [bind].
    replace (get_default _ "packing" JNull) with (_packingtojson (ds_packing d))
      by (dict_lookup; destruct (ds_packing d); reflexivity).
    rewrite Hpack. cbn [bind]. unfold Dataset_init.
    replace (get_default _ "prefix" JNull) with (json_of_optstring (ds_prefix d))
      by (dict_lookup; destruct (ds_prefix d); reflexivity).
    replace (get_default _ "delimiter" JNull) with (json_of_optstring (ds_delimiter d))
      by (dict_lookup; destruct (ds_delimiter d); reflexivity).
    replace (get_default _ "data" JNull) with JNull by (dict_lookup; reflexivity).
    replace (get_default _ "doc" JNull) with (json_of_optstring (ds_doc d))
      by (dict_lookup; destruct (ds_doc d); reflexivity).
    replace (get_default _ "metadata" JNull) with (json_of_metadata (ds_metadata d))
      by (dict_lookup; destruct (ds_metadata d); reflexivity).
    rewrite !optstr_setter_of_optstring, Hd, metadata_setter_of_metadata.
    cbn [bind is_some andb].
    rewrite (roundtrip_root_list h h' (ds_schema d) js s' Hnn Hto Hfrom).
    reflexivity.
  - cbn [is_some bind]. eexists. split; [reflexivity|].
    unfold Dataset_fromjson.
    replace (dict_get _ "schema") with (Some js) by (dict_lookup; reflexivity).
    rewrite Hfrom. cbn [bind fst snd].
    replace (get_default _ "partitioning" JNull) with JNull
      by (dict_lookup; reflexivity).
    cbn [bind].
    replace (get_default _ "packing" JNull) with (_packingtojson (ds_packing d))
      by (dict_lookup; destruct (ds_packing d); reflexivity).
    rewrite Hpack. cbn [bind]. unfold Dataset_init.
    replace (get_default _ "prefix" JNull) with (json_of_optstring (ds_prefix d))
      by (dict_lookup; destruct (ds_prefix d); reflexivity).
    replace (get_default _ "delimiter" JNull) with (json_of_optstring (ds_delimiter d))
      by (dict_lookup; destruct (ds_delimiter d); reflexivity).
    replace (get_default _ "data" JNull) with JNull by (dict_lookup; reflexivity).
    replace (get_default _ "doc" JNull) with (json_of_optstring (ds_doc d))
      by (dict_lookup; destruct (ds_doc d); reflexivity).
    replace (get_default _ "metadata" JNull) with (json_of_metadata (ds_metadata d))
      by (dict_lookup; destruct (ds_metadata d); reflexivity).
    rewrite !optstr_setter_of_optstring, Hd, metadata_setter_of_metadata.
    reflexivity.
Qed.

(** A Dataset with a name, all of whose other attributes are set *)
Example Dataset_roundtrip_example :
  exists j,
    Dataset_tojson list_of_doubles full_dataset false = Ok j
    /\ Dataset_fromjson list_of_doubles j
       = Ok (mkDataset 3%nat (Some "object") (Some "x") ExtNone
               (Some (PrefixPartitioning [0; 5; 10] "-")) None None
               (Some "two partitions") (Some [("run", JInt 7)]),
             (list_of_doubles ++ [Primitive float64 [] None plain;
                                  List (Node 2%nat) None None plain])%list).
Proof.
  apply (Dataset_roundtrip_drops_name_and_extension list_of_doubles full_dataset
           (JDict [("type", JStr "list"); ("content", JStr "float64")]) 3%nat).
  - split.
    + intros s [= <-]. reflexivity.
    + intros p [= <-]. split; reflexivity.
  - vm_compute. reflexivity.
  - vm_compute. reflexivity.
  - reflexivity.
Qed.

(** C10: for the Dataset [Dataset(Tuple([p, p]), name="events")], whose
    schema holds the plain Primitive [p] twice, [Dataset.tojson] returns
    and [Dataset.fromjson] raises TypeError on what it returned: the round
    trip returns no Dataset, and so preserves neither the schema nor any
    other attribute.  [Schema.tojson] writes the second occurrence of [p]
    as a label that it has defined nowhere, and [Schema.fromjson], which
    [Dataset.fromjson] calls on the entry ["schema"], cannot resolve it. *)
Theorem Dataset_roundtrip_raises :
  Dataset_wf shared_primitive shared_primitive_dataset
  /\ (exists j,
        Dataset_tojson shared_primitive shared_primitive_dataset false = Ok j
        /\ Dataset_fromjson shared_primitive j = Raise (TypeError "unresolved label"))
  /\ ~ (exists d' h',
          (do j <- Dataset_tojson shared_primitive shared_primitive_dataset false;
           Dataset_fromjson shared_primitive j) = Ok (d', h')).
Proof.
  assert (Hr : (do j <- Dataset_tojson shared_primitive shared_primitive_dataset false;
                Dataset_fromjson shared_primitive j)
               = Raise (TypeError "unresolved label")) by (vm_compute; reflexivity).
  split; [|split].
  - split; intros x Hx; discriminate Hx.
  - eexists. split; [vm_compute; reflexivity|]. vm_compute. reflexivity.
  - intros (d' & h' & Hok). rewrite Hr in Hok. discriminate Hok.
Qed.

(** ** Structural equality on every schema graph *)

Section Equality.
Context `{Packing}.
Variable h : heap.
Hypothesis Hwf : heap_wf h.
Hypothesis Hpacking : packing_eq_reflexive.

Lemma packing_eq_refl p : packing_eq p p = true.
Proof. destruct p; simpl; [apply Hpacking|reflexivity]. Qed.

Lemma opt_eq_refl x : opt_eq x x = true.
Proof. apply bool_decide_eq_true. reflexivity. Qed.

Lemma eqb_refl' (b : bool) : eqb b b = true.
Proof. destruct b; reflexivity. Qed.

Lemma memo_size_bound (memo : gmap nat nat) :
  dom memo ⊆ (set_seq 0 (length h) : gset nat) -> (size memo <= length h)%nat.
Proof.
  intros Hdom. rewrite <- (size_dom (D := gset nat)).
  rewrite <- (size_set_seq (C := gset nat) 0 (length h)). apply subseteq_size, Hdom.
Qed.

Lemma memo_insert_bound (memo : gmap nat nat) a b :
  (a < length h)%nat -> dom memo ⊆ (set_seq 0 (length h) : gset nat) ->
  dom (<[a:=b]> memo) ⊆ (set_seq 0 (length h) : gset nat).
Proof.
  intros Ha Hdom. rewrite dom_insert_L. intros k Hk.
  apply elem_of_union in Hk as [Hk|Hk]; [|auto].
  apply elem_of_singleton in Hk. subst. apply elem_of_set_seq. lia.
Qed.

Lemma memo_id_insert memo a : memo_id memo -> memo_id (<[a:=a]> memo).
Proof.
  intros Hid k v Hk. apply lookup_insert_Some in Hk as [[-> ->]|[_ Hk]]; [reflexivity|].
  apply Hid, Hk.
Qed.

(** What one call of [eq_memo] with [fuel] guarantees. *)
Definition eq_returns (fuel : nat) : Prop :=
  forall a b (memo : gmap nat nat),
    (a < length h)%nat -> (b < length h)%nat ->
    dom memo ⊆ (set_seq 0 (length h) : gset nat) ->
    (length h < fuel + size memo)%nat ->
    exists r memo',
      eq_memo fuel h (Node a) (Node b) memo = Ok (r, memo')
      /\ memo ⊆ memo'
      /\ dom memo' ⊆ (set_seq 0 (length h) : gset nat)
      /\ (a = b -> memo_id memo -> r = true /\ memo_id memo').

Lemma all_eq_returns fuel pairs :
  eq_returns fuel ->
  (forall x y, (x, y) ∈ pairs -> in_heap h x /\ in_heap h y) ->
  forall memo : gmap nat nat,
    dom memo ⊆ (set_seq 0 (length h) : gset nat) ->
    (length h < fuel + size memo)%nat ->
    exists r memo',
      all_eq (eq_memo fuel h) pairs memo = Ok (r, memo')
      /\ memo ⊆ memo'
      /\ dom memo' ⊆ (set_seq 0 (length h) : gset nat)
      /\ ((forall x y, (x, y) ∈ pairs -> x = y) -> memo_id memo ->
          r = true /\ memo_id memo').
Proof.
  intros IH. induction pairs as [|[x y] pairs IHp]; intros Hin memo Hdom Hfuel.
  - exists true, memo. simpl. repeat split; auto.
  - destruct (Hin x y (list_elem_of_here _ _)) as [(a & -> & Ha) (b & -> & Hb)].
    destruct (IH a b memo Ha Hb Hdom Hfuel) as (r & memo1 & Hr & Hsub & Hdom1 & Hrefl).
    cbn [all_eq]. rewrite Hr. cbn [bind fst snd].
    destruct r.
    + destruct (IHp (fun x y Hxy => Hin x y (list_elem_of_further _ _ _ Hxy)) memo1 Hdom1)
        as (r2 & memo2 & Hr2 & Hsub2 & Hdom2 & Hrefl2).
      { pose proof (map_subseteq_size _ _ Hsub). lia. }
      exists r2, memo2. split; [exact Hr2|]. split; [etrans; eauto|]. split; [exact Hdom2|].
      intros Heq Hid.
      assert (Hab : Node a = Node b) by (apply Heq, list_elem_of_here).
      injection Hab as Hab.
      destruct (Hrefl Hab Hid) as [_ Hid1].
      apply Hrefl2; [|exact Hid1].
      intros x y Hxy. apply Heq, list_elem_of_further, Hxy.
    + exists false, memo1. split; [reflexivity|]. split; [exact Hsub|]. split; [exact Hdom1|].
      intros Heq Hid.
      assert (Hab : Node a = Node b) by (apply Heq, list_elem_of_here).
      injection Hab as Hab.
      destruct (Hrefl Hab Hid) as [Hfalse _]. discriminate.
Qed.

Lemma zip_diag {A} (l : list A) x y : (x, y) ∈ zip l l -> x = y.
Proof.
  induction l as [|z l IH]; simpl; intros Hxy; [inversion Hxy|].
  apply elem_of_cons in Hxy as [[= -> ->]|Hxy]; auto.
Qed.

Lemma dict_get_elem {V} (d : list (string * V)) k v : dict_get d k = Some v -> v ∈ d.*2.
Proof.
  induction d as [|[k0 v0] d IH]; simpl; [discriminate|].
  case_bool_decide.
  - intros [= ->]. apply list_elem_of_here.
  - intros Hv. apply list_elem_of_further, IH, Hv.
Qed.

Lemma dict_get_NoDup {V} (d : list (string * V)) k v :
  NoDup d.*1 -> (k, v) ∈ d -> dict_get d k = Some v.
Proof.
  induction d as [|[k0 v0] d IH]; simpl; intros Hnd Hin; [inversion Hin|].
  apply NoDup_cons in Hnd as [Hk0 Hnd].
  apply elem_of_cons in Hin as [[= -> ->]|Hin].
  - rewrite bool_decide_eq_true_2 by reflexivity. reflexivity.
  - rewrite bool_decide_eq_false_2; [apply IH; assumption|].
    intros ->. apply Hk0.
    apply list_elem_of_fmap. exists (k, v). split; [reflexivity|exact Hin].
Qed.

Lemma field_pairs_returns (fs gs : list (string * slot)) :
  forallb (fun k => is_some (dict_get gs k)) (dict_keys fs) = true ->
  exists pairs, field_pairs fs gs = Ok pairs
    /\ (forall x y, (x, y) ∈ pairs -> x ∈ fs.*2 /\ y ∈ gs.*2)
    /\ ((forall n x, (n, x) ∈ fs -> dict_get gs n = Some x) ->
        forall x y, (x, y) ∈ pairs -> x = y).
Proof.
  induction fs as [|[n x] fs IH]; simpl; intros Hkeys.
  - exists []. split; [reflexivity|]. split.
    + intros x y Hxy. inversion Hxy.
    + intros _ x y Hxy. inversion Hxy.
  - apply andb_true_iff in Hkeys as [Hn Hkeys].
    destruct (dict_get gs n) as [y|] eqn:Hy; [|discriminate].
    destruct (IH Hkeys) as (pairs & Hp & Hin & Hdiag).
    exists ((x, y) :: pairs). rewrite Hp. split; [reflexivity|]. split.
    + intros x' y' Hxy. apply elem_of_cons in Hxy as [[= -> ->]|Hxy].
      * split; [apply list_elem_of_here|]. eapply dict_get_elem, Hy.
      * destruct (Hin x' y' Hxy). split; [apply list_elem_of_further|]; assumption.
    + intros Hsame x' y' Hxy. apply elem_of_cons in Hxy as [[= -> ->]|Hxy].
      * specialize (Hsame n x (list_elem_of_here _ _)). congruence.
      * apply (Hdiag (fun n' x'' Hnx => Hsame n' x'' (list_elem_of_further _ _ _ Hnx)) x' y' Hxy).
Qed.

Lemma same_keys_refl (fs : list (string * slot)) : NoDup fs.*1 -> same_keys fs fs = true.
Proof.
  intros Hnd. unfold same_keys.
  assert (Hall : forallb (fun k => is_some (dict_get fs k)) (dict_keys fs) = true).
  { apply forallb_forall. intros k Hk. apply list_elem_of_In in Hk.
    apply list_elem_of_fmap in Hk as ([k' v] & -> & Hkv).
    simpl. rewrite (dict_get_NoDup fs k' v Hnd Hkv). reflexivity. }
  rewrite Hall. reflexivity.
Qed.

Ltac eq_answer r memo Hdom :=
  exists r, memo; split; [reflexivity|]; split; [reflexivity|]; split; [exact Hdom|].

Ltac eq_same_node Hn Hnb :=
  rewrite Hn in Hnb; inversion Hnb; subst.

Ltac eq_cond_refl Hc :=
  rewrite ?opt_eq_refl, ?packing_eq_refl, ?eqb_refl', ?same_keys_refl in Hc by auto;
  repeat (rewrite bool_decide_eq_true_2 in Hc by reflexivity);
  discriminate Hc.

(** Every call of [eq_memo] on two nodes of the arena returns, provided
    the fuel exceeds the number of nodes that the memo does not hold yet;
    on a node and itself, with a memo that matches nodes with themselves,
    it returns [True]. *)
Lemma eq_memo_returns fuel : eq_returns fuel.
Proof.
  induction fuel as [|f IH]; intros a b memo Ha Hb Hdom Hfuel.
  { pose proof (memo_size_bound memo Hdom). lia. }
  destruct (lookup_lt_is_Some_2 h a Ha) as [n Hn].
  destruct (lookup_lt_is_Some_2 h b Hb) as [nb Hnb].
  destruct (Hwf a n Hn) as [Hch Hrec]. destruct (Hwf b nb Hnb) as [Hchb Hrecb].
  assert (Hhit : forall b', memo !! a = Some b' ->
            exists r memo',
              Ok (id_eq b' (Node b), memo) = Ok (r, memo')
              /\ memo ⊆ memo' /\ dom memo' ⊆ (set_seq 0 (length h) : gset nat)
              /\ (a = b -> memo_id memo -> r = true /\ memo_id memo')).
  { intros b' Hb'. eq_answer (id_eq b' (Node b)) memo Hdom.
    intros -> Hid. split; [|exact Hid]. rewrite (Hid _ _ Hb').
    apply bool_decide_eq_true. reflexivity. }
  assert (Hins : memo !! a = None ->
            dom (<[a:=b]> memo) ⊆ (set_seq 0 (length h) : gset nat)
            /\ (length h < f + size (<[a:=b]> memo))%nat
            /\ memo ⊆ <[a:=b]> memo).
  { intros Hnone. split; [apply memo_insert_bound; assumption|]. split.
    - rewrite map_size_insert_None by exact Hnone. lia.
    - apply insert_subseteq, Hnone. }
  cbn [eq_memo lookup_obj]. rewrite Hn.
  destruct n as [t dims dat c | x starts stops c | ps tags offsets c
                 | fs c | ts c | x positions c].
  - (* Primitive *)
    rewrite Hnb. destruct nb; try (eq_answer false memo Hdom; intros -> _; congruence).
    eexists _, memo. split; [reflexivity|]. split; [reflexivity|]. split; [exact Hdom|].
    intros -> Hid. eq_same_node Hn Hnb. split; [|exact Hid].
    rewrite opt_eq_refl, opt_eq_refl, opt_eq_refl, packing_eq_refl, eqb_refl'.
    rewrite !bool_decide_eq_true_2 by reflexivity. reflexivity.
  - (* List *)
    destruct (memo !! a) as [b'|] eqn:Hmemo; [exact (Hhit b' eq_refl)|].
    destruct (Hins eq_refl) as (Hdom1 & Hfuel1 & Hsub1).
    rewrite Hnb. destruct nb as [| y starts' stops' c' | | | |];
      try (eq_answer false memo Hdom; intros -> _; congruence).
    match goal with |- context [if ?cond then _ else _] => destruct cond eqn:Hc end.
    2: { eq_answer false memo Hdom. intros -> _. eq_same_node Hn Hnb. eq_cond_refl Hc. }
    destruct (Hch x ltac:(simpl; apply list_elem_of_here)) as (xa & -> & Hxa).
    destruct (Hchb y ltac:(simpl; apply list_elem_of_here)) as (ya & -> & Hya).
    destruct (IH xa ya _ Hxa Hya Hdom1 Hfuel1) as (r & memo' & Hr & Hsub & Hdom' & Hrefl).
    exists r, memo'. split; [exact Hr|]. split; [etrans; eauto|]. split; [exact Hdom'|].
    intros -> Hid. eq_same_node Hn Hnb. apply Hrefl; [reflexivity|].
    apply memo_id_insert, Hid.
  - (* Union *)
    destruct (memo !! a) as [b'|] eqn:Hmemo; [exact (Hhit b' eq_refl)|].
    destruct (Hins eq_refl) as (Hdom1 & Hfuel1 & Hsub1).
    rewrite Hnb. destruct nb as [| | qs tags' offsets' c' | | |];
      try (eq_answer false memo Hdom; intros -> _; congruence).
    match goal with |- context [if ?cond then _ else _] => destruct cond eqn:Hc end.
    2: { eq_answer false memo Hdom. intros -> _. eq_same_node Hn Hnb. eq_cond_refl Hc. }
    destruct (all_eq_returns f (zip ps qs) IH) with (memo := <[a:=b]> memo)
      as (r & memo' & Hr & Hsub & Hdom' & Hrefl); [|exact Hdom1|exact Hfuel1|].
    { intros x y Hxy. split.
      - apply Hch. simpl. eapply elem_of_zip_l, Hxy.
      - apply Hchb. simpl. eapply elem_of_zip_r, Hxy. }
    exists r, memo'. split; [exact Hr|]. split; [etrans; eauto|]. split; [exact Hdom'|].
    intros -> Hid. eq_same_node Hn Hnb. apply Hrefl; [|apply memo_id_insert, Hid].
    intros x y Hxy. eapply zip_diag, Hxy.
  - (* Record *)
    destruct (memo !! a) as [b'|] eqn:Hmemo; [exact (Hhit b' eq_refl)|].
    destruct (Hins eq_refl) as (Hdom1 & Hfuel1 & Hsub1).
    rewrite Hnb. destruct nb as [| | | gs c' | |];
      try (eq_answer false memo Hdom; intros -> _; congruence).
    match goal with |- context [if ?cond then _ else _] => destruct cond eqn:Hc end.
    2: { eq_answer false memo Hdom. intros -> _. eq_same_node Hn Hnb.
         rewrite (same_keys_refl gs (Hrec gs c' eq_refl)) in Hc. eq_cond_refl Hc. }
    assert (Hkeys : forallb (fun k => is_some (dict_get gs k)) (dict_keys fs) = true).
    { unfold same_keys in Hc. rewrite !andb_true_iff in Hc. tauto. }
    destruct (field_pairs_returns fs gs Hkeys) as (pairs & Hp & Hin & Hdiag).
    rewrite Hp. cbn [bind].
    destruct (all_eq_returns f pairs IH) with (memo := <[a:=b]> memo)
      as (r & memo' & Hr & Hsub & Hdom' & Hrefl); [|exact Hdom1|exact Hfuel1|].
    { intros x y Hxy. destruct (Hin x y Hxy). split; [apply Hch|apply Hchb]; assumption. }
    exists r, memo'. split; [exact Hr|]. split; [etrans; eauto|]. split; [exact Hdom'|].
    intros -> Hid. eq_same_node Hn Hnb. apply Hrefl; [|apply memo_id_insert, Hid].
    apply Hdiag. intros n x Hnx. apply dict_get_NoDup; [|exact Hnx].
    exact (Hrec gs c' eq_refl).
  - (* Tuple *)
    destruct (memo !! a) as [b'|] eqn:Hmemo; [exact (Hhit b' eq_refl)|].
    destruct (Hins eq_refl) as (Hdom1 & Hfuel1 & Hsub1).
    rewrite Hnb. destruct nb as [| | | | us c' |];
      try (eq_answer false memo Hdom; intros -> _; congruence).
    match goal with |- context [if ?cond then _ else _] => destruct cond eqn:Hc end.
    2: { eq_answer false memo Hdom. intros -> _. eq_same_node Hn Hnb. eq_cond_refl Hc. }
    destruct (all_eq_returns f (zip ts us) IH) with (memo := <[a:=b]> memo)
      as (r & memo' & Hr & Hsub & Hdom' & Hrefl); [|exact Hdom1|exact Hfuel1|].
    { intros x y Hxy. split.
      - apply Hch. simpl. eapply elem_of_zip_l, Hxy.
      - apply Hchb. simpl. eapply elem_of_zip_r, Hxy. }
    exists r, memo'. split; [exact Hr|]. split; [etrans; eauto|]. split; [exact Hdom'|].
    intros -> Hid. eq_same_node Hn Hnb. apply Hrefl; [|apply memo_id_insert, Hid].
    intros x y Hxy. eapply zip_diag, Hxy.
  - (* Pointer *)
    destruct (memo !! a) as [b'|] eqn:Hmemo; [exact (Hhit b' eq_refl)|].
    destruct (Hins eq_refl) as (Hdom1 & Hfuel1 & Hsub1).
    rewrite Hnb. destruct nb as [| | | | | y positions' c'];
      try (eq_answer false memo Hdom; intros -> _; congruence).
    match goal with |- context [if ?cond then _ else _] => destruct cond eqn:Hc end.
    2: { eq_answer false memo Hdom. intros -> _. eq_same_node Hn Hnb. eq_cond_refl Hc. }
    destruct (Hch x ltac:(simpl; apply list_elem_of_here)) as (xa & -> & Hxa).
    destruct (Hchb y ltac:(simpl; apply list_elem_of_here)) as (ya & -> & Hya).
    destruct (IH xa ya _ Hxa Hya Hdom1 Hfuel1) as (r & memo' & Hr & Hsub & Hdom' & Hrefl).
    exists r, memo'. split; [exact Hr|]. split; [etrans; eauto|]. split; [exact Hdom'|].
    intros -> Hid. eq_same_node Hn Hnb. apply Hrefl; [reflexivity|].
    apply memo_id_insert, Hid.
Qed.

(** [a == b] returns on any two nodes of a finished schema graph, cyclic
    or not, and [a == a] is [True]. *)
Lemma eq_terminates_reflexive a b :
  (a < length h)%nat -> (b < length h)%nat ->
  (exists r, __eq__ h a b = Ok r) /\ __eq__ h a a = Ok true.
Proof.
  intros Ha Hb. unfold __eq__. split.
  - destruct (eq_memo_returns (S (length h)) a b ∅ Ha Hb) as (r & memo' & Hr & _).
    { rewrite dom_empty_L. set_solver. }
    { rewrite map_size_empty. lia. }
    rewrite Hr. eauto.
  - destruct (eq_memo_returns (S (length h)) a a ∅ Ha Ha) as (r & memo' & Hr & _ & _ & Hrefl).
    { rewrite dom_empty_L. set_solver. }
    { rewrite map_size_empty. lia. }
    rewrite Hr. destruct (Hrefl eq_refl) as [-> _]; [|reflexivity].
    intros k v Hk. rewrite lookup_empty in Hk. discriminate.
Qed.

End Equality.

(** ** Structural equality: what it guarantees and what it does not read *)

Lemma list_cycle_wf : heap_wf list_cycle.
Proof.
  intros a n Ha. split.
  - intros s Hs. destruct a as [|[|a]]; simpl in Ha; try discriminate;
      injection Ha as <-; simpl in Hs; apply list_elem_of_singleton in Hs as ->;
      eexists; (split; [reflexivity|simpl; lia]).
  - intros fs c ->. destruct a as [|[|a]]; discriminate.
Qed.

Lemma NoPacking_eq_reflexive : packing_eq_reflexive.
Proof. intros p. reflexivity. Qed.

(** X1: on a finished schema graph, with Pointer cycles or shared nodes,
    [a == b] returns a boolean for any two nodes, and [a == a] is [True]. *)
Theorem eq_returns_and_is_reflexive `{Packing} (h : heap) (a b : addr) :
  heap_wf h -> packing_eq_reflexive ->
  (a < length h)%nat -> (b < length h)%nat ->
  (exists r, __eq__ h a b = Ok r) /\ __eq__ h a a = Ok true.
Proof.
  intros Hwf Hp Ha Hb. unfold __eq__. split.
  - destruct (eq_memo_returns h Hwf Hp (S (length h)) a b ∅ Ha Hb) as (r & memo' & Hr & _).
    { rewrite dom_empty_L. set_solver. }
    { rewrite map_size_empty. lia. }
    rewrite Hr. eauto.
  - destruct (eq_memo_returns h Hwf Hp (S (length h)) a a ∅ Ha Ha)
      as (r & memo' & Hr & _ & _ & Hrefl).
    { rewrite dom_empty_L. set_solver. }
    { rewrite map_size_empty. lia. }
    rewrite Hr. destruct (Hrefl eq_refl) as [-> _]; [|reflexivity].
    intros k v Hk. rewrite lookup_empty in Hk. discriminate.
Qed.

Lemma eq_returns_and_is_reflexive_witness :
  (exists r, __eq__ list_cycle 0%nat 1%nat = Ok r) /\ __eq__ list_cycle 0%nat 0%nat = Ok true.
Proof.
  apply (eq_returns_and_is_reflexive list_cycle 0%nat 1%nat list_cycle_wf
           NoPacking_eq_reflexive); simpl; lia.
Defined.

Lemma all_eq_ext f g pairs memo :
  (forall x y m, f x y m = g x y m) -> all_eq f pairs memo = all_eq g pairs memo.
Proof.
  intros Hfg. revert memo. induction pairs as [|[x y] rest IH]; intros memo; simpl.
  - reflexivity.
  - rewrite Hfg. destruct (g x y memo) as [[r m]| |]; simpl; [|reflexivity..].
    destruct r; [apply IH|reflexivity].
Qed.

Section EqView.
Context `{Packing}.

Lemma lookup_obj_eq_view (h : heap) s :
  lookup_obj (map eq_view h) s = eq_view <$> lookup_obj h s.
Proof. destruct s; simpl; [apply list_lookup_fmap|reflexivity]. Qed.

Lemma eq_memo_eq_view fuel (h : heap) self other memo :
  eq_memo fuel (map eq_view h) self other memo = eq_memo fuel h self other memo.
Proof.
  revert self other memo. induction fuel as [|fuel IH]; intros self other memo; [reflexivity|].
  cbn [eq_memo]. destruct self as [a|l]; [|reflexivity].
  rewrite list_lookup_fmap. destruct (h !! a) as [n|]; [|reflexivity].
  rewrite lookup_obj_eq_view.
  destruct n as [t dims data c|x starts stops c|ps tags offsets c|fs c|ts c|x positions c];
    cbn [fmap option_fmap option_map eq_view common nullable mask packing name doc];
    try (destruct (memo !! a); [reflexivity|]);
    destruct other as [b|l]; try reflexivity;
    cbn [lookup_obj]; rewrite ?list_lookup_fmap; destruct (h !! b) as [[t' dims' data' c'|y starts' stops' c'
      |qs tags' offsets' c'|gs c'|us c'|y positions' c']|];
    cbn [fmap option_fmap option_map eq_view common nullable mask packing name doc];
    try reflexivity;
    try (rewrite IH; reflexivity);
    try (rewrite (all_eq_ext _ _ _ _ (IH)); reflexivity).
  destruct (_ && _); [|reflexivity].
  destruct (field_pairs fs gs); cbn [bind]; [|reflexivity..].
  apply all_eq_ext, IH.
Qed.

End EqView.

(** X2: [__eq__] reads a schema graph through [eq_view] only: two graphs that
    differ in [doc] strings and in the [nullable] flags of List nodes, and
    in nothing else, compare the same against each other and against any
    third schema.  So a nullable List equals the same List not nullable. *)
Theorem eq_ignores_doc_and_list_nullable `{Packing} (h h' : heap) (a b : addr) :
  map eq_view h = map eq_view h' -> __eq__ h a b = __eq__ h' a b.
Proof.
  intros Hview. unfold __eq__.
  assert (Hlen : length h = length h').
  { rewrite <- (length_map eq_view h), Hview, length_map. reflexivity. }
  rewrite <- (eq_memo_eq_view _ h), <- (eq_memo_eq_view _ h'), Hview, Hlen. reflexivity.
Qed.

(** [List("f8", nullable=True, doc="momenta")] against [List("f8")] *)
Lemma eq_ignores_doc_and_list_nullable_witness :
  __eq__ [Primitive float64 [] None plain;
          List (Node 0%nat) None None (Attrs true None None None (Some "momenta"));
          List (Node 0%nat) None None plain] 1%nat 2%nat
  = __eq__ [Primitive float64 [] None plain;
            List (Node 0%nat) None None plain;
            List (Node 0%nat) None None plain] 1%nat 2%nat.
Proof.
  apply (eq_ignores_doc_and_list_nullable
           [Primitive float64 [] None plain;
            List (Node 0%nat) None None (Attrs true None None None (Some "momenta"));
            List (Node 0%nat) None None plain]
           [Primitive float64 [] None plain;
            List (Node 0%nat) None None plain;
            List (Node 0%nat) None None plain] 1%nat 2%nat).
  reflexivity.
Defined.

(** ** Partitionings *)

(** X3: a partitioning of a class that defines [_tojsonargs], holding what
    its setters accept, is read back by [Partitioning.fromjson] from its
    own [tojson] as it was; the base class cannot be written at all. *)
Theorem Partitioning_tojson_fromjson (p : Partitioning) :
  Partitioning_wf p = true ->
  exists j, Partitioning_tojson p = Ok j /\ Partitioning_fromjson j = Ok p.
Proof.
  intros Hwf. destruct (Partitioning_roundtrip p Hwf) as (j & Hto & Hfrom). eauto.
Qed.

Lemma Partitioning_tojson_fromjson_witness :
  exists j, Partitioning_tojson (SuffixPartitioning [0; 5; 5; 12] "/") = Ok j
    /\ Partitioning_fromjson j = Ok (SuffixPartitioning [0; 5; 5; 12] "/").
Proof. apply (Partitioning_tojson_fromjson (SuffixPartitioning [0; 5; 5; 12] "/")). reflexivity. Defined.

Lemma offsets_items_bounds last l o :
  offsets_items last l = Ok o ->
  forall i x, o !! i = Some x -> last <= x.
Proof.
  revert last o. induction l as [|v l IH]; intros last o; simpl.
  - intros [= <-] i x Hx. rewrite lookup_nil in Hx. discriminate.
  - intros Ho. bind_inv_as Ho z Hz.
    destruct (last <=? z) eqn:Hle; [|discriminate]. apply Z.leb_le in Hle.
    bind_inv_as Ho zs Hzs. injection Ho as <-.
    intros [|i] x Hx; simpl in Hx.
    + injection Hx as <-. exact Hle.
    + specialize (IH z zs Hzs i x Hx). lia.
Qed.

Lemma offsets_items_nondecreasing last l o :
  0 <= last -> offsets_items last l = Ok o -> nondecreasing o.
Proof.
  revert last o. induction l as [|v l IH]; intros last o Hlast; simpl.
  - intros [= <-] i j x y _ Hx. rewrite lookup_nil in Hx. discriminate.
  - intros Ho. bind_inv_as Ho z Hz.
    destruct (last <=? z) eqn:Hle; [|discriminate]. apply Z.leb_le in Hle.
    bind_inv_as Ho zs Hzs. injection Ho as <-.
    intros [|i] [|j] x y Hij Hx Hy; simpl in Hx, Hy.
    + injection Hx as <-. injection Hy as <-. lia.
    + injection Hx as <-. pose proof (offsets_items_bounds z l zs Hzs j y Hy). lia.
    + lia.
    + apply (IH z zs ltac:(lia) Hzs i j x y); [lia|assumption..].
Qed.

Lemma offsets_setter_nondecreasing v o : offsets_setter v = Ok o -> nondecreasing o.
Proof.
  destruct v as [| | |s|l|d]; simpl; try discriminate.
  - destruct s; [|discriminate]. intros [= <-] i j x y _ Hx.
    rewrite lookup_nil in Hx. discriminate.
  - apply offsets_items_nondecreasing. lia.
  - destruct d; [|discriminate]. intros [= <-] i j x y _ Hx.
    rewrite lookup_nil in Hx. discriminate.
Qed.

Lemma set_delimiter_accepts v d :
  PrefixSuffixPartitioning_set_delimiter v = Ok d -> _baddelimiter_match d = false.
Proof.
  destruct v as [| | |s| |]; simpl; try discriminate.
  destruct (_baddelimiter_match s) eqn:Hs; [discriminate|]. intros [= <-]. exact Hs.
Qed.

Lemma prefixsuffix_init_invariant mk args p :
  (forall o d, Partitioning_offsets (mk o d) = Some o
               /\ Partitioning_delimiter (mk o d) = Some d) ->
  prefixsuffix_init mk args = Ok p ->
  (forall o, Partitioning_offsets p = Some o -> nondecreasing o)
  /\ (forall d, Partitioning_delimiter p = Some d -> _baddelimiter_match d = false).
Proof.
  intros Hmk. unfold prefixsuffix_init.
  destruct args as [|a0 [|a1 [|a2 args]]]; try discriminate; intros Hinit.
  - bind_inv_as Hinit o Ho. bind_inv_as Hinit d Hd. injection Hinit as <-.
    destruct (Hmk o d) as [-> ->]. split.
    + intros o' [= <-]. eapply offsets_setter_nondecreasing, Ho.
    + intros d' [= <-]. eapply set_delimiter_accepts, Hd.
  - bind_inv_as Hinit o Ho. bind_inv_as Hinit d Hd. injection Hinit as <-.
    destruct (Hmk o d) as [-> ->]. split.
    + intros o' [= <-]. eapply offsets_setter_nondecreasing, Ho.
    + intros d' [= <-]. eapply set_delimiter_accepts, Hd.
Qed.

(** X4: whatever JSON it is given, a partitioning that [Partitioning.fromjson]
    returns holds offsets that are not negative and never decrease (equal
    neighbours, an empty partition, are let through) and a delimiter that
    does not begin with a character of [[a-zA-Z_0-9]]. *)
Theorem Partitioning_fromjson_invariant (data : json) (p : Partitioning) :
  Partitioning_fromjson data = Ok p ->
  (forall o, Partitioning_offsets p = Some o -> nondecreasing o)
  /\ (forall d, Partitioning_delimiter p = Some d -> _baddelimiter_match d = false).
Proof.
  unfold Partitioning_fromjson.
  destruct data as [| | | | |[|[classname args] [|]]]; try discriminate.
  unfold partitioning_class.
  repeat case_bool_decide; try discriminate; intros Hp; bind_inv_as Hp l Hl.
  - unfold Partitioning_init in Hp. destruct l as [|a0 [|]]; try discriminate.
    bind_inv_as Hp o Ho. injection Hp as <-. split; [|discriminate].
    intros o' [= <-]. eapply offsets_setter_nondecreasing, Ho.
  - unfold ExplicitPartitioning_init in Hp. destruct l as [|a0 [|a1 [|]]]; try discriminate.
    bind_inv_as Hp o Ho. bind_inv_as Hp ps Hps. injection Hp as <-. split; [|discriminate].
    intros o' [= <-]. eapply offsets_setter_nondecreasing, Ho.
  - eapply prefixsuffix_init_invariant; [|exact Hp]. intros; split; reflexivity.
  - eapply prefixsuffix_init_invariant; [|exact Hp]. intros; split; reflexivity.
  - eapply prefixsuffix_init_invariant; [|exact Hp]. intros; split; reflexivity.
  - unfold ExternalPartitioning_init in Hp. destruct l as [|a0 [|]]; try discriminate.
    bind_inv_as Hp o Ho. injection Hp as <-. split; discriminate.
Qed.

Lemma Partitioning_fromjson_invariant_witness :
  (forall o, Partitioning_offsets (PrefixPartitioning [0; 3; 3; 8] "-") = Some o ->
     nondecreasing o)
  /\ (forall d, Partitioning_delimiter (PrefixPartitioning [0; 3; 3; 8] "-") = Some d ->
        _baddelimiter_match d = false).
Proof.
  apply (Partitioning_fromjson_invariant
           (JDict [("PrefixPartitioning", JList [JList [JInt 0; JInt 3; JInt 3; JInt 8]])])).
  reflexivity.
Defined.
(** *** Decimal strings *)

Lemma string_of_uint_digits d : all_digits (NilEmpty.string_of_uint d) = true.
Proof. induction d; simpl; auto. Qed.

Lemma str_nat_digits n : all_digits (str_nat n) = true.
Proof. apply string_of_uint_digits. Qed.

Lemma str_nat_nonempty n : exists c s, str_nat n = String c s.
Proof.
  unfold str_nat. destruct (Nat.to_uint n) eqn:E; simpl; eauto.
  exfalso. pose proof (DecimalNat.Unsigned.to_of (Nat.to_uint n)) as Hto.
  rewrite DecimalNat.Unsigned.of_to in Hto. rewrite E in Hto at 1.
  symmetry in Hto. exact (DecimalFacts.unorm_nonnil _ Hto).
Qed.

Lemma digit_is_word c : in_range "0" "9" c = true -> is_word c = true.
Proof. unfold is_word. intros ->. apply orb_true_r. Qed.

Lemma all_digits_word s : all_digits s = true -> all_chars is_word s = true.
Proof.
  induction s as [|c s IH]; simpl; [reflexivity|].
  unfold all_digits. simpl. rewrite !andb_true_iff. intros [Hc Hs].
  split; [apply digit_is_word, Hc|apply IH, Hs].
Qed.

(** Two strings of word characters, each followed by a character that is
    not one, are equal when the whole strings are. *)
Lemma word_prefix_inj w1 w2 c1 c2 r1 r2 :
  all_chars is_word w1 = true -> all_chars is_word w2 = true ->
  is_word c1 = false -> is_word c2 = false ->
  w1 ++ String c1 r1 = w2 ++ String c2 r2 -> w1 = w2 /\ String c1 r1 = String c2 r2.
Proof.
  revert w2. induction w1 as [|a w1 IH]; intros [|b w2]; cbn [all_chars];
    rewrite ?andb_true_iff; intros H1 H2 Hc1 Hc2 Heq.
  - auto.
  - change (String c1 r1 = String b (w2 ++ String c2 r2)) in Heq.
    injection Heq as -> _. destruct H2 as [H2 _]. congruence.
  - change (String a (w1 ++ String c1 r1) = String c2 r2) in Heq.
    injection Heq as -> _. destruct H1 as [H1 _]. congruence.
  - change (String a (w1 ++ String c1 r1) = String b (w2 ++ String c2 r2)) in Heq.
    injection Heq as -> Heq. destruct H1 as [_ H1]. destruct H2 as [_ H2].
    destruct (IH w2 H1 H2 Hc1 Hc2 Heq) as [-> Hr]. auto.
Qed.

Lemma append_assoc (a b c : string) : (a ++ b) ++ c = a ++ (b ++ c).
Proof.
  induction a as [|x a IH]; [reflexivity|]. rewrite !append_cons, IH. reflexivity.
Qed.

(** What [format] gives for an id that passed the range check *)
Lemma format_integral_word id i :
  integral id = Some i -> 0 <= i ->
  all_chars is_word (format_integral id) = true
  /\ exists c s, format_integral id = String c s.
Proof.
  destruct id as [|[|]|z| | |]; simpl; try discriminate; intros [= <-] Hi.
  - split; [reflexivity|eauto].
  - split; [reflexivity|eauto].
  - unfold str_int. destruct (z <? 0) eqn:E; [apply Z.ltb_lt in E; lia|].
    split; [apply all_digits_word, str_nat_digits|apply str_nat_nonempty].
Qed.

Lemma format_integral_inj id id' i i' :
  integral id = Some i -> integral id' = Some i' -> 0 <= i -> 0 <= i' ->
  format_integral id = format_integral id' -> id = id'.
Proof.
  assert (Hd : forall z b, 0 <= z ->
            str_int z <> (if b : bool then "True" else "False")).
  { intros z b Hz Heq. unfold str_int in Heq.
    destruct (z <? 0) eqn:E; [apply Z.ltb_lt in E; lia|].
    pose proof (str_nat_digits (Z.to_nat z)) as Hdig. rewrite Heq in Hdig.
    destruct b; discriminate. }
  destruct id as [|b|z| | |]; simpl; try discriminate; intros [= <-];
    destruct id' as [|b'|z'| | |]; simpl; try discriminate; intros [= <-] Hi Hi' Heq.
  - destruct b, b'; try discriminate; reflexivity.
  - exfalso. apply (Hd z' b Hi'). destruct b; symmetry; exact Heq.
  - exfalso. apply (Hd z b' Hi). destruct b'; exact Heq.
  - unfold str_int in Heq.
    destruct (z <? 0) eqn:E; [apply Z.ltb_lt in E; lia|].
    destruct (z' <? 0) eqn:E'; [apply Z.ltb_lt in E'; lia|].
    apply str_nat_inj in Heq. f_equal. lia.
Qed.

(** X5: with a delimiter that its setter accepts and that is not empty, a
    PrefixPartitioning never gives one array name to two different pairs of
    a partition id and a column: the id ends where the delimiter begins. *)
Theorem PrefixPartitioning_arrayid_injective (offsets : list Z) (delimiter : string)
    (column column' id id' name_ : json) :
  _baddelimiter_match delimiter = false -> delimiter <> "" ->
  Partitioning_arrayid (PrefixPartitioning offsets delimiter) column id = Ok name_ ->
  Partitioning_arrayid (PrefixPartitioning offsets delimiter) column' id' = Ok name_ ->
  column = column' /\ id = id'.
Proof.
  intros Hd Hne H1 H2. unfold Partitioning_arrayid in H1, H2.
  bind_inv_as H1 ci Hci. bind_inv_as H2 ci' Hci'.
  unfold arrayid_check in Hci, Hci'.
  destruct column as [| | |c| |]; try discriminate.
  destruct column' as [| | |c'| |]; try discriminate.
  destruct (integral id) as [i|] eqn:Hi; [|discriminate].
  destruct (integral id') as [i'|] eqn:Hi'; [|discriminate].
  injection Hci as <-. injection Hci' as <-. cbn [fst snd] in H1, H2.
  destruct ((0 <=? i) && (i <? numpartitions offsets)) eqn:Hr; [|discriminate].
  destruct ((0 <=? i') && (i' <? numpartitions offsets)) eqn:Hr'; [|discriminate].
  apply andb_true_iff in Hr as [Hr _]. apply andb_true_iff in Hr' as [Hr' _].
  apply Z.leb_le in Hr, Hr'.
  rewrite <- H2 in H1. injection H1 as H1.
  destruct delimiter as [|d0 ds]; [congruence|]. simpl in Hd.
  destruct (format_integral_word id i Hi Hr) as [Hw _].
  destruct (format_integral_word id' i' Hi' Hr') as [Hw' _].
  cbn [append] in H1.
  destruct (word_prefix_inj _ _ _ _ _ _ Hw Hw' Hd Hd H1) as [Hf Hrest].
  injection Hrest as Hrest. apply append_inj_l in Hrest. subst c'.
  split; [reflexivity|]. eapply format_integral_inj; eauto.
Qed.

Lemma PrefixPartitioning_arrayid_injective_witness :
  JStr "pt" = JStr "pt" /\ JInt 1 = JInt 1.
Proof.
  apply (PrefixPartitioning_arrayid_injective [0; 5; 10] "-" (JStr "pt") (JStr "pt")
           (JInt 1) (JInt 1) (JStr "1-pt")); [reflexivity|discriminate|reflexivity..].
Defined.

(** The empty delimiter passes the setter, and with it the partition 1 of
    the column ["2x"] and the partition 12 of the column ["x"] share the
    array name ["12x"]. *)
Example PrefixPartitioning_empty_delimiter_collision :
  let offsets := map Z.of_nat (seq 0 14) in
  PrefixSuffixPartitioning_set_delimiter (JStr "") = Ok ""
  /\ Partitioning_arrayid (PrefixPartitioning offsets "") (JStr "2x") (JInt 1)
     = Ok (JStr "12x")
  /\ Partitioning_arrayid (PrefixPartitioning offsets "") (JStr "x") (JInt 12)
     = Ok (JStr "12x").
Proof. repeat split; reflexivity. Qed.
Lemma chars_app (a b : string) :
  list_ascii_of_string (a ++ b) = (list_ascii_of_string a ++ list_ascii_of_string b)%list.
Proof.
  induction a as [|x a IH]; [reflexivity|]. rewrite append_cons. simpl. rewrite IH. reflexivity.
Qed.

Lemma chars_inj (a b : string) : list_ascii_of_string a = list_ascii_of_string b -> a = b.
Proof.
  intros Heq. rewrite <- (string_of_list_ascii_of_string a), Heq.
  apply string_of_list_ascii_of_string.
Qed.

Lemma append_inj_r (a b s : string) : a ++ s = b ++ s -> a = b.
Proof.
  intros Heq. apply chars_inj. apply (f_equal list_ascii_of_string) in Heq.
  rewrite !chars_app in Heq. exact (app_inv_tail _ _ _ Heq).
Qed.

(** The text after the last occurrence of a character *)
Lemma last_occurrence_inj {A} (t : A) (p1 p2 f1 f2 : list A) :
  t ∉ f1 -> t ∉ f2 -> (p1 ++ t :: f1 = p2 ++ t :: f2)%list -> p1 = p2 /\ f1 = f2.
Proof.
  revert p2. induction p1 as [|x p1 IH]; intros [|y p2] H1 H2 Heq; simpl in Heq.
  - injection Heq as ->. auto.
  - injection Heq as -> ->. exfalso. apply H1, elem_of_app. right. apply list_elem_of_here.
  - injection Heq as -> <-. exfalso. apply H2, elem_of_app. right. apply list_elem_of_here.
  - injection Heq as -> Heq. destruct (IH p2 H1 H2 Heq) as [-> ->]. auto.
Qed.

Lemma all_digits_no_t s : all_digits s = true -> "t"%char ∉ list_ascii_of_string s.
Proof.
  induction s as [|c s IH]; simpl.
  - intros _ Hin. inversion Hin.
  - unfold all_digits. simpl. rewrite andb_true_iff. intros [Hc Hs] Hin.
    apply elem_of_cons in Hin as [<-|Hin]; [discriminate|]. exact (IH Hs Hin).
Qed.

Lemma format_integral_no_t id i :
  integral id = Some i -> 0 <= i -> "t"%char ∉ list_ascii_of_string (format_integral id).
Proof.
  destruct id as [|[|]|z| | |]; simpl; try discriminate; intros [= <-] Hi.
  - intros Hin. repeat (apply elem_of_cons in Hin as [Hin|Hin]; [discriminate|]). inversion Hin.
  - intros Hin. repeat (apply elem_of_cons in Hin as [Hin|Hin]; [discriminate|]). inversion Hin.
  - unfold str_int. destruct (z <? 0) eqn:E; [apply Z.ltb_lt in E; lia|].
    apply all_digits_no_t, str_nat_digits.
Qed.

(** X6: a SuffixPartitioning never gives one array name to two different
    pairs of a partition id and a column, whatever its delimiter: the id is
    what follows the last ["t"] of the name. *)
Theorem SuffixPartitioning_arrayid_injective (offsets : list Z) (delimiter : string)
    (column column' id id' name_ : json) :
  Partitioning_arrayid (SuffixPartitioning offsets delimiter) column id = Ok name_ ->
  Partitioning_arrayid (SuffixPartitioning offsets delimiter) column' id' = Ok name_ ->
  column = column' /\ id = id'.
Proof.
  intros H1 H2. unfold Partitioning_arrayid in H1, H2.
  bind_inv_as H1 ci Hci. bind_inv_as H2 ci' Hci'.
  unfold arrayid_check in Hci, Hci'.
  destruct column as [| | |c| |]; try discriminate.
  destruct column' as [| | |c'| |]; try discriminate.
  destruct (integral id) as [i|] eqn:Hi; [|discriminate].
  destruct (integral id') as [i'|] eqn:Hi'; [|discriminate].
  injection Hci as <-. injection Hci' as <-. cbn [fst snd] in H1, H2.
  destruct ((0 <=? i) && (i <? numpartitions offsets)) eqn:Hr; [|discriminate].
  destruct ((0 <=? i') && (i' <? numpartitions offsets)) eqn:Hr'; [|discriminate].
  apply andb_true_iff in Hr as [Hr _]. apply andb_true_iff in Hr' as [Hr' _].
  apply Z.leb_le in Hr, Hr'.
  rewrite <- H2 in H1. injection H1 as H1.
  apply (f_equal list_ascii_of_string) in H1.
  change ("part" ++ ?f) with ("par" ++ String "t" f) in H1.
  rewrite <- !append_assoc in H1. rewrite !(chars_app _ (String "t" _)) in H1.
  cbn [list_ascii_of_string] in H1.
  destruct (last_occurrence_inj "t"%char _ _ _ _
              (format_integral_no_t id i Hi Hr) (format_integral_no_t id' i' Hi' Hr') H1)
    as [Hp Hf].
  apply chars_inj in Hp, Hf. rewrite !append_assoc in Hp. apply append_inj_r in Hp.
  subst c'. split; [reflexivity|]. eapply format_integral_inj; eauto.
Qed.

Lemma SuffixPartitioning_arrayid_injective_witness :
  JStr "pt" = JStr "pt" /\ JInt 1 = JInt 1.
Proof.
  apply (SuffixPartitioning_arrayid_injective [0; 5; 10] "" (JStr "pt") (JStr "pt")
           (JInt 1) (JInt 1) (JStr "ptpart1")); reflexivity.
Defined.

(** X7: [Partitioning.arrayat] returns for no partitioning, column and
    index.  On an ExternalPartitioning, which has no offsets, it raises
    AttributeError; with an empty list of offsets, IndexError; with [size]
    the last offset, it raises IndexError for every index outside
    [[-size, size)], and for every index inside it stops with NameError at
    the global name [arrayid], which the module never binds. *)
Theorem Partitioning_arrayat_never_returns (p : Partitioning) (column : json) (index : Z) :
  (forall lookup, p = ExternalPartitioning lookup ->
   exists msg, Partitioning_arrayat p column index = Raise (AttributeError msg))
  /\ ((forall lookup, p <> ExternalPartitioning lookup) ->
      exists offsets, Partitioning_offsets p = Some offsets)
  /\ (forall offsets, Partitioning_offsets p = Some offsets ->
        (last offsets = None ->
         exists msg, Partitioning_arrayat p column index = Raise (IndexError msg))
        /\ (forall size, last offsets = Some size ->
              (- size <= index < size ->
               Partitioning_arrayat p column index = Raise (NameError "arrayid"))
              /\ (~ (- size <= index < size) ->
                  exists msg, Partitioning_arrayat p column index = Raise (IndexError msg))))
  /\ (forall name_, Partitioning_arrayat p column index <> Ok name_).
Proof.
  split.
  { intros lookup ->. eexists. reflexivity. }
  split.
  { intros Hne. destruct p; simpl; eauto. exfalso. eapply Hne. reflexivity. }
  unfold Partitioning_arrayat.
  destruct (Partitioning_offsets p) as [offsets|] eqn:Hoffsets.
  2: { split; [discriminate|]. discriminate. }
  assert (Hsize : getitem offsets (-1)
                  = match last offsets with Some x => Ok x | None => index_error end).
  { unfold getitem. change (-1 <? 0) with true. cbn match.
    destruct (decide (offsets = [])) as [->|Hne]; [reflexivity|].
    assert (Hlen : (0 < length offsets)%nat) by (destruct offsets; simpl; [congruence|lia]).
    destruct (-1 + Z.of_nat (length offsets) <? 0) eqn:E; [apply Z.ltb_lt in E; lia|].
    replace (Z.to_nat (-1 + Z.of_nat (length offsets))) with (pred (length offsets)) by lia.
    rewrite last_lookup. destruct (offsets !! pred (length offsets)) eqn:El; [reflexivity|].
    apply lookup_ge_None in El. lia. }
  rewrite Hsize.
  destruct (last offsets) as [size|] eqn:Hlast; unfold index_error.
  - assert (Hcases :
        (- size <= index < size ->
         (do normalindex <- (if 0 <=? index then Ok index
                             else do n <- Ok size; Ok (index + n));
          do inbounds <- (if 0 <=? normalindex then do n <- Ok size; Ok (normalindex <? n)
                          else Ok false);
          if inbounds then Raise (NameError "arrayid")
          else Raise (IndexError "index is out of bounds for size"))
         = (Raise (NameError "arrayid") : result json))
        /\ (~ (- size <= index < size) ->
            (do normalindex <- (if 0 <=? index then Ok index
                                else do n <- Ok size; Ok (index + n));
             do inbounds <- (if 0 <=? normalindex then do n <- Ok size; Ok (normalindex <? n)
                             else Ok false);
             if inbounds then Raise (NameError "arrayid")
             else Raise (IndexError "index is out of bounds for size"))
            = (Raise (IndexError "index is out of bounds for size") : result json))).
    { destruct (0 <=? index) eqn:E0; cbn [bind].
      - rewrite E0. cbn [bind]. apply Z.leb_le in E0.
        destruct (index <? size) eqn:E1;
          [apply Z.ltb_lt in E1|apply Z.ltb_ge in E1]; split; intros Hr;
          first [reflexivity|lia].
      - apply Z.leb_gt in E0. destruct (0 <=? index + size) eqn:E1; cbn [bind].
        + apply Z.leb_le in E1. destruct (index + size <? size) eqn:E2;
            [apply Z.ltb_lt in E2|apply Z.ltb_ge in E2]; split; intros Hr;
            first [reflexivity|lia].
        + apply Z.leb_gt in E1. split; intros Hr; first [reflexivity|lia]. }
    destruct Hcases as [Hin Hout]. split.
    + intros o [= <-]. rewrite Hlast. split; [discriminate|]. intros sz [= <-]. split.
      * exact Hin.
      * intros Hr. eexists. exact (Hout Hr).
    + intros name_ Hok. destruct (decide (- size <= index < size)) as [Hr|Hr].
      * rewrite (Hin Hr) in Hok. discriminate.
      * rewrite (Hout Hr) in Hok. discriminate.
  - assert (Hraise : (do normalindex <- (if 0 <=? index then Ok index
                                         else do n <- Raise (IndexError "index out of bounds");
                                              Ok (index + n));
                      do inbounds <- (if 0 <=? normalindex
                                      then do n <- Raise (IndexError "index out of bounds");
                                           Ok (normalindex <? n)
                                      else Ok false);
                      if inbounds then Raise (NameError "arrayid")
                      else Raise (IndexError "index is out of bounds for size"))
                     = (Raise (IndexError "index out of bounds") : result json)).
    { destruct (0 <=? index) eqn:E0; cbn [bind]; [rewrite E0|]; reflexivity. }
    split.
    + intros o [= <-]. rewrite Hlast. split; [|discriminate]. intros _. eexists. exact Hraise.
    + intros name_ Hok. rewrite Hraise in Hok. discriminate.
Qed.

(** ** define, map and reduce *)

Lemma numpy_empty_like_length {A D} (view : list D) (junk : nat -> A) :
  length (numpy_empty_like view junk) = length view.
Proof. unfold numpy_empty_like. rewrite length_map, length_seq. reflexivity. Qed.

(** The loop that keeps the rows with a value appends them, in order,
    after the [n] items written so far. *)
Lemma map_keep_loop {D A} (f : D -> option A) (view : list D) (n : nat) (out : list A) :
  (n + length view <= length out)%nat ->
  exists out',
    for_each (fun datum => map_keep (f datum)) view (Z.of_nat n, out)
    = Ok (Z.of_nat (n + length (omap f view)), out')
    /\ length out' = length out
    /\ take (n + length (omap f view)) out' = (take n out ++ omap f view)%list.
Proof.
  revert n out. induction view as [|d view IH]; intros n out Hlen.
  - exists out. simpl. rewrite !Nat.add_0_r, app_nil_r. auto.
  - simpl in Hlen. cbn [for_each omap list_omap]. unfold map_keep at 1.
    destruct (f d) as [v|]; cbn [fst snd bind].
    + rewrite setitem_nat by lia. cbn [bind].
      replace (Z.of_nat n + 1) with (Z.of_nat (S n)) by lia.
      destruct (IH (S n) (<[n:=v]> out)) as (out' & Hloop & Hlen' & Htake).
      { rewrite length_insert. lia. }
      exists out'. rewrite Hloop. cbn [length].
      replace (n + S (length (omap f view)))%nat with (S n + length (omap f view))%nat by lia.
      split; [reflexivity|]. split; [rewrite Hlen', length_insert; reflexivity|].
      rewrite Htake. rewrite (take_S_r (<[n:=v]> out) n v) by (apply list_lookup_insert_eq; lia).
      rewrite take_insert_ge by lia. rewrite <- app_assoc. reflexivity.
    + apply IH. lia.
Qed.

Lemma omap_map_Some {D A} (f : D -> A) (view : list D) :
  omap (fun d => Some (f d)) view = map f view.
Proof. induction view as [|d view IH]; csimpl; [reflexivity|]. rewrite IH. reflexivity. Qed.

Lemma map_compiled_map {D A} (fcn : D -> A) (view : list D) (junk : nat -> A) :
  map_compiled fcn view junk = Ok (map fcn view).
Proof.
  unfold map_compiled.
  destruct (map_keep_loop (fun d => Some (fcn d)) view 0 (numpy_empty_like view junk))
    as (out' & Hloop & Hlen & Htake).
  { rewrite numpy_empty_like_length. lia. }
  change (Z.of_nat 0) with 0 in Hloop. rewrite Hloop. cbn [bind snd]. f_equal.
  rewrite omap_map_Some in Htake. simpl in Htake. rewrite <- Htake.
  rewrite take_ge; [reflexivity|].
  rewrite Hlen, numpy_empty_like_length, length_map. lia.
Qed.

Lemma map_compiled_optional_omap {D A} (fcn : D -> option A) (view : list D)
    (junk : nat -> A) :
  map_compiled_optional fcn view junk = Ok (omap fcn view).
Proof.
  unfold map_compiled_optional.
  destruct (map_keep_loop fcn view 0 (numpy_empty_like view junk))
    as (out' & Hloop & Hlen & Htake).
  { rewrite numpy_empty_like_length. lia. }
  change (Z.of_nat 0) with 0 in Hloop. rewrite Hloop. cbn [bind fst snd].
  rewrite Nat2Z.id, Htake. reflexivity.
Qed.

(** X8: with numba, [map] returns one item for every row that has a value,
    in the order of the rows: every row when the function is typed as
    returning a number, the rows that do not give [None] when it is typed as
    returning an optional number.  No cell of the buffer allocated with
    [numpy.empty] is returned unwritten. *)
Theorem map_compiled_keeps_values {D A} (view : list D) (junk : nat -> A)
    (fcn : D -> A) (fcn_optional : D -> option A) :
  map_compiled fcn view junk = Ok (map fcn view)
  /\ map_compiled_optional fcn_optional view junk = Ok (omap fcn_optional view).
Proof. split; [apply map_compiled_map|apply map_compiled_optional_omap]. Qed.

(** Where the first loop of the interpreted [map] stops. *)
Lemma map_first_cases {D} (fcn : D -> option float) (view : list D) k0 f0 :
  (Forall (fun d => fcn d = None) view
   /\ (map_first fcn view k0 f0).1 = (k0 + length view)%nat)
  \/ (exists pre d v post,
        view = (pre ++ d :: post)%list /\ Forall (fun d => fcn d = None) pre
        /\ fcn d = Some v
        /\ map_first fcn view k0 f0 = ((k0 + S (length pre))%nat, Some v)).
Proof.
  revert k0 f0. induction view as [|d view IH]; intros k0 f0.
  - left. split; [constructor|]. simpl. lia.
  - cbn [map_first]. destruct (fcn d) as [v|] eqn:Hd; cbn [is_some].
    + right. exists [], d, v, view. simpl. repeat split; auto. f_equal. lia.
    + destruct (IH (S k0) None) as [[Hall Hk]|(pre & d' & v & post & -> & Hall & Hd' & Hk)].
      * left. split; [constructor; assumption|]. rewrite Hk. simpl. lia.
      * right. exists (d :: pre), d', v, post. simpl.
        repeat split; [constructor; assumption|assumption|]. rewrite Hk. f_equal. lia.
Qed.

Lemma omap_all_None {D A} (f : D -> option A) (l : list D) :
  Forall (fun d => f d = None) l -> omap f l = [].
Proof.
  induction 1 as [|d l Hd _ IH]; csimpl; [reflexivity|]. rewrite Hd. exact IH.
Qed.

(** X9: without numba, [map] over a function that returns floats or [None]
    returns the values of the rows that have one, in the order of the rows,
    as soon as a row before the last has a value.  When no row before the
    last has one it returns [None]: a value that only the last row gives is
    dropped, the test [viewindex == len(view)] taking "found at the last
    row" for "found nowhere". *)
Theorem map_interpreted_drops_last_row_only {D} (fcn : D -> option float)
    (view : list D) (junk : nat -> float) :
  ((forall i d, view !! i = Some d -> (S i < length view)%nat -> fcn d = None) ->
   map_interpreted fcn view junk = Ok None)
  /\ (forall i d, view !! i = Some d -> (S i < length view)%nat -> is_Some (fcn d) ->
      map_interpreted fcn view junk = Ok (Some (omap fcn view))).
Proof.
  unfold map_interpreted.
  destruct (map_first_cases fcn view 0 None)
    as [[Hall Hk]|(pre & d0 & v & post & Hview & Hall & Hd0 & Hk)].
  - destruct (map_first fcn view 0 None) as [viewindex first]. simpl in Hk. subst viewindex.
    rewrite bool_decide_eq_true_2 by reflexivity. split; [reflexivity|].
    intros i d Hi _ [x Hx]. rewrite Forall_forall in Hall.
    rewrite (Hall d) in Hx; [discriminate|]. eapply list_elem_of_lookup_2. eauto.
  - rewrite Hk. simpl. split.
    + intros Hnone. destruct post as [|p post].
      * rewrite bool_decide_eq_true_2; [reflexivity|].
        subst view. rewrite length_app. simpl. lia.
      * rewrite (Hnone (length pre) d0) in Hd0; [discriminate| |].
        -- subst view. rewrite lookup_app_r by lia. rewrite Nat.sub_diag. reflexivity.
        -- subst view. rewrite length_app. simpl. lia.
    + intros i d Hi Hlast [x Hx].
      assert (Hpost : (0 < length post)%nat).
      { destruct (decide (i < length pre)%nat) as [Hlt|Hge].
        - exfalso. rewrite Forall_forall in Hall. subst view.
          rewrite lookup_app_l in Hi by exact Hlt.
          rewrite (Hall d) in Hx; [discriminate|]. eapply list_elem_of_lookup_2. eauto.
        - subst view. rewrite length_app in Hlast. simpl in Hlast. lia. }
      assert (Hlen : length view = (length pre + S (length post))%nat)
        by (subst view; rewrite length_app; reflexivity).
      rewrite bool_decide_eq_false_2 by lia.
      pose proof (numpy_empty_like_length view junk) as Hout.
      change 0 with (Z.of_nat 0). rewrite setitem_nat by lia. cbn [bind].
      assert (Hdrop : drop (S (length pre)) view = post).
      { subst view. rewrite drop_app_ge by lia.
        replace (S (length pre) - length pre)%nat with 1%nat by lia. reflexivity. }
      rewrite Hdrop.
      destruct (map_keep_loop fcn post 1 (<[0%nat:=v]> (numpy_empty_like view junk)))
        as (out' & Hloop & _ & Htake).
      { rewrite length_insert. lia. }
      change (Z.of_nat 1) with 1 in Hloop. rewrite Hloop. cbn [bind fst snd].
      rewrite Nat2Z.id, Htake. do 2 f_equal.
      assert (Hhead : take 1 (<[0%nat:=v]> (numpy_empty_like view junk)) = [v]).
      { destruct (numpy_empty_like view junk); [simpl in Hout; lia|]. reflexivity. }
      rewrite Hhead, Hview, omap_app, (omap_all_None _ _ Hall). csimpl.
      rewrite Hd0. reflexivity.
Qed.

Lemma map_interpreted_drops_last_row_only_witness :
  map_interpreted (fun x : Z => if x <? 10 then None else Some 1%float) [1; 2; 30]
    (fun _ => 0%float)
  = Ok None.
Proof.
  apply (proj1 (map_interpreted_drops_last_row_only
                  (fun x : Z => if x <? 10 then None else Some 1%float) [1; 2; 30]
                  (fun _ => 0%float))).
  intros [|[|[|i]]] d Hi Hlast; simpl in Hi, Hlast; try lia; injection Hi as <-; reflexivity.
Defined.
Lemma omap_concat {D A} (f : D -> option A) (vs : list (list D)) :
  omap f (concat vs) = concat (map (omap f) vs).
Proof.
  induction vs as [|v vs IH]; simpl; [reflexivity|]. rewrite omap_app, IH. reflexivity.
Qed.

(** X10: with numba typing the function, as returning a number or as
    returning an optional number, [map] over the partitions of a dataset,
    combined by [MapCombiner], gives the array that [map] gives over the
    whole: the values of the partitions, in the order of the partitions.
    (Without numba a partition can give [None] instead of an array, and
    nothing is stated.) *)
Theorem map_partitions_combine {D A} (fcn : D -> A) (fcn_optional : D -> option A)
    (vs : list (list D)) (fs : list (future (list A))) (junk : nat -> A) (now : nat) :
  vs <> [] ->
  (Forall2 (fun f v => map_compiled fcn v junk = Ok (outcome f)) fs vs ->
   exists r c t,
     MapCombiner_result (mkMapCombiner fs None) now = Ok (r, c, t)
     /\ map_compiled fcn (concat vs) junk = Ok r)
  /\ (Forall2 (fun f v => map_compiled_optional fcn_optional v junk = Ok (outcome f)) fs vs ->
      exists r c t,
        MapCombiner_result (mkMapCombiner fs None) now = Ok (r, c, t)
        /\ map_compiled_optional fcn_optional (concat vs) junk = Ok r).
Proof.
  intros Hne.
  assert (Hgen : forall g : D -> option A,
            Forall2 (fun f v => map_compiled_optional g v junk = Ok (outcome f)) fs vs ->
            exists r c t,
              MapCombiner_result (mkMapCombiner fs None) now = Ok (r, c, t)
              /\ map_compiled_optional g (concat vs) junk = Ok r).
  { intros g Hfs. exists (omap g (concat vs)).
    assert (Hout : map outcome fs = map (omap g) vs).
    { clear Hne. induction Hfs as [|f v fs vs Hf _ IH]; [reflexivity|].
      rewrite map_compiled_optional_omap in Hf. injection Hf as Hf. simpl.
      rewrite <- Hf, IH. reflexivity. }
    unfold MapCombiner_result. cbn [map_result map_futures].
    rewrite map_results_loop. cbn [fst snd app]. rewrite Hout.
    assert (Hcat : numpy_concatenate (map (omap g) vs) = Ok (omap g (concat vs))).
    { rewrite omap_concat. destruct vs; [congruence|reflexivity]. }
    rewrite Hcat. cbn [bind].
    eexists _, _. split; [reflexivity|apply map_compiled_optional_omap]. }
  split; [|apply Hgen].
  intros Hfs. destruct (Hgen (fun d => Some (fcn d))) as (r & c & t & Hres & Hmap).
  - eapply Forall2_impl; [exact Hfs|]. intros f v Hf. cbn beta in Hf |- *.
    rewrite map_compiled_optional_omap, omap_map_Some.
    rewrite map_compiled_map in Hf. exact Hf.
  - exists r, c, t. split; [exact Hres|].
    rewrite map_compiled_optional_omap, omap_map_Some in Hmap.
    rewrite map_compiled_map. exact Hmap.
Qed.

Lemma map_partitions_combine_witness :
  (exists r c t,
     MapCombiner_result (mkMapCombiner [Future 1 [2; 3; 6]; Future 0 [4; 1]] None) 0
     = Ok (r, c, t)
     /\ map_compiled (fun x => x + 1) (concat [[1; 2; 5]; [3; 0]]) (fun _ => 0) = Ok r)
  /\ (exists r c t,
        MapCombiner_result (mkMapCombiner [Future 1 [2; 5]; Future 0 [3]] None) 0 = Ok (r, c, t)
        /\ map_compiled_optional (fun x => if x <? 2 then None else Some x)
             (concat [[1; 2; 5]; [3; 0]]) (fun _ => 0) = Ok r).
Proof.
  split.
  - apply (proj1 (map_partitions_combine (fun x => x + 1)
                    (fun x => if x <? 2 then None else Some x)
                    [[1; 2; 5]; [3; 0]] [Future 1 [2; 3; 6]; Future 0 [4; 1]] (fun _ => 0) 0%nat
                    ltac:(discriminate))).
    repeat constructor.
  - apply (proj2 (map_partitions_combine (fun x => x + 1)
                    (fun x => if x <? 2 then None else Some x)
                    [[1; 2; 5]; [3; 0]] [Future 1 [2; 5]; Future 0 [3]] (fun _ => 0) 0%nat
                    ltac:(discriminate))).
    repeat constructor.
Defined.

Lemma reduce_fill_app {D T} (fcn : D -> T -> T) (v w : list D) (t : T) :
  reduce_fill fcn (v ++ w) t = reduce_fill fcn w (reduce_fill fcn v t).
Proof. unfold reduce_fill. apply foldl_app. Qed.

Section ReduceCombine.
Context {D T : Type}.
Variable add : T -> T -> T.
Variable fcn : D -> T -> T.
Variable tally : T.
(** The function adds what it makes of the datum to the tally it is
    given, and the initial tally adds nothing. *)
Hypothesis fcn_add : forall d s t, fcn d (add s t) = add s (fcn d t).
Hypothesis add_tally : forall s, add s tally = s.

Lemma reduce_fill_from (v : list D) (s : T) :
  reduce_fill fcn v s = add s (reduce_fill fcn v tally).
Proof.
  induction v as [|d v IH] using rev_ind.
  - simpl. symmetry. apply add_tally.
  - rewrite !reduce_fill_app. simpl. rewrite IH, fcn_add. reflexivity.
Qed.

Lemma foldl_add_partitions (done : list D) (vs : list (list D)) :
  foldl add (reduce_fill fcn done tally) (map (fun v => reduce_fill fcn v tally) vs)
  = reduce_fill fcn (done ++ concat vs) tally.
Proof.
  revert done. induction vs as [|v vs IH]; intros done; simpl.
  - rewrite app_nil_r. reflexivity.
  - rewrite <- reduce_fill_from, <- reduce_fill_app, IH, <- app_assoc. reflexivity.
Qed.

End ReduceCombine.

(** X11: [reduce] over the partitions of a dataset, each from the initial
    tally, combined by [ReduceCombiner] with [+], gives the tally that
    [reduce] gives over the whole, when the function adds to the tally it is
    given ([fcn(d, s + t) == s + fcn(d, t)]) and the initial tally is
    neutral on the right ([s + tally == s]). *)
Theorem reduce_partitions_combine {D T} (add : T -> T -> T) (fcn : D -> T -> T)
    (tally : T) (vs : list (list D)) (fs : list (future (option T))) (now : nat) :
  (forall d s t, fcn d (add s t) = add s (fcn d t)) ->
  (forall s, add s tally = s) ->
  vs <> [] ->
  map outcome fs = map (fun v => Some (reduce_fill fcn v tally)) vs ->
  exists c t,
    ReduceCombiner_result add (mkReduceCombiner fs None) now
    = Ok (Some (reduce_fill fcn (concat vs) tally), c, t).
Proof.
  intros Hfcn Htally Hne Hout.
  destruct vs as [|v vs]; [congruence|]. destruct fs as [|f fs]; [discriminate|].
  simpl in Hout. injection Hout as Hf Hout.
  unfold ReduceCombiner_result. cbn [reduce_result reduce_futures for_each].
  unfold reduce_step at 1. cbn [future_result fst snd]. rewrite Hf. cbn [bind].
  rewrite (reduce_results_loop add fs (map (fun v => reduce_fill fcn v tally) vs)
             (reduce_fill fcn v tally)).
  2: { rewrite Hout, map_map. reflexivity. }
  cbn [bind fst snd]. rewrite (foldl_add_partitions add fcn tally Hfcn Htally v vs).
  eexists _, _. reflexivity.
Qed.

(** Summing [[1, 2]] and [[3]] apart and combining, against summing
    [[1, 2, 3]] *)
Lemma reduce_partitions_combine_witness :
  exists c t,
    ReduceCombiner_result Z.add (mkReduceCombiner [Future 1 (Some 3); Future 0 (Some 3)] None) 0
    = Ok (Some (reduce_fill (fun d t => t + d) (concat [[1; 2]; [3]]) 0), c, t).
Proof.
  apply (reduce_partitions_combine Z.add (fun d t => t + d) 0 [[1; 2]; [3]]
           [Future 1 (Some 3); Future 0 (Some 3)] 0%nat).
  - intros d s t. lia.
  - intros s. lia.
  - discriminate.
  - reflexivity.
Defined.

(** The loop of [define] for a field that is not nullable, from row [n],
    when every value converts. *)
Lemma define_fill_loop {D R V} (astype : R -> result V) (cast : R -> V) (fcn : D -> R)
    (view : list D) (n : nat) (out : list V) :
  (forall datum, datum ∈ view -> astype (fcn datum) = Ok (cast (fcn datum))) ->
  (n + length view <= length out)%nat ->
  exists out',
    for_each (fun datum st =>
                do value <- astype (fcn datum);
                do primitive <- setitem st.2 st.1 value; Ok (st.1 + 1, primitive))
             view (Z.of_nat n, out)
    = Ok (Z.of_nat (n + length view), out')
    /\ length out' = length out
    /\ take (n + length view) out' = (take n out ++ map (fun d => cast (fcn d)) view)%list.
Proof.
  revert n out. induction view as [|d view IH]; intros n out Hcast Hlen.
  - exists out. simpl. rewrite !Nat.add_0_r, app_nil_r. auto.
  - simpl in Hlen. cbn [for_each fst snd].
    rewrite (Hcast d) by apply list_elem_of_here. cbn [bind].
    rewrite setitem_nat by lia. cbn [bind].
    replace (Z.of_nat n + 1) with (Z.of_nat (S n)) by lia.
    destruct (IH (S n) (<[n:=cast (fcn d)]> out)) as (out' & Hloop & Hlen' & Htake).
    { intros datum Hd. apply Hcast, list_elem_of_further, Hd. }
    { rewrite length_insert. lia. }
    exists out'. rewrite Hloop. cbn [length].
    replace (n + S (length view))%nat with (S n + length view)%nat by lia.
    split; [reflexivity|]. split; [rewrite Hlen', length_insert; reflexivity|].
    rewrite Htake.
    rewrite (take_S_r (<[n:=cast (fcn d)]> out) n (cast (fcn d)))
      by (apply list_lookup_insert_eq; lia).
    rewrite take_insert_ge by lia. rewrite <- app_assoc. reflexivity.
Qed.

(** The loop of [define] for a nullable field, from row [i0] with [n]
    items written, when every value converts. *)
Lemma define_masked_loop {D R V} (maskedvalue : Z) (astype : R -> result V) (cast : R -> V)
    (fcn : D -> option R) (view : list D)
    (i0 n : nat) (primitive : list V) (mask_ : list Z) :
  (forall datum tmp, datum ∈ view -> fcn datum = Some tmp -> astype tmp = Ok (cast tmp)) ->
  (i0 + length view <= length mask_)%nat ->
  (n + length view <= length primitive)%nat ->
  exists primitive' mask',
    for_each (define_masked_step maskedvalue astype fcn) view
      (Z.of_nat i0, Z.of_nat n, primitive, mask_)
    = Ok (Z.of_nat (i0 + length view), Z.of_nat (n + length (omap fcn view)),
          primitive', mask')
    /\ length primitive' = length primitive /\ length mask' = length mask_
    /\ (forall i, (i < i0)%nat -> mask' !! i = mask_ !! i)
    /\ (forall k, (k < n)%nat -> primitive' !! k = primitive !! k)
    /\ forall i datum, view !! i = Some datum ->
         match fcn datum with
         | None => mask' !! (i0 + i)%nat = Some maskedvalue
         | Some tmp =>
             let k := (n + length (omap fcn (take i view)))%nat in
             mask' !! (i0 + i)%nat = Some (Z.of_nat k) /\ primitive' !! k = Some (cast tmp)
         end.
Proof.
  revert i0 n primitive mask_.
  induction view as [|d view IH]; intros i0 n primitive mask_ Hcast Hm Hp.
  - exists primitive, mask_. simpl. rewrite !Nat.add_0_r.
    repeat split; auto. intros i datum Hi. rewrite lookup_nil in Hi. discriminate.
  - assert (Hcast' : forall datum tmp, datum ∈ view -> fcn datum = Some tmp ->
                       astype tmp = Ok (cast tmp)).
    { intros datum tmp Hd. apply Hcast, list_elem_of_further, Hd. }
    simpl in Hm, Hp. cbn [for_each]. unfold define_masked_step at 1.
    destruct (fcn d) as [v|] eqn:Hd.
    + rewrite setitem_nat by lia. cbn [bind].
      rewrite (Hcast d v (list_elem_of_here _ _) Hd). cbn [bind].
      rewrite setitem_nat by lia. cbn [bind].
      replace (Z.of_nat i0 + 1) with (Z.of_nat (S i0)) by lia.
      replace (Z.of_nat n + 1) with (Z.of_nat (S n)) by lia.
      destruct (IH (S i0) (S n) (<[n:=cast v]> primitive) (<[i0:=Z.of_nat n]> mask_) Hcast')
        as (p' & m' & Hloop & Hlp & Hlm & Hmask & Hprim & Hrows).
      { rewrite length_insert. lia. } { rewrite length_insert. lia. }
      assert (Ho : omap fcn (d :: view) = v :: omap fcn view)
        by (csimpl; rewrite Hd; reflexivity).
      exists p', m'. rewrite Hloop, Ho. cbn [length].
      replace (S i0 + length view)%nat with (i0 + S (length view))%nat by lia.
      replace (S n + length (omap fcn view))%nat
        with (n + S (length (omap fcn view)))%nat by lia.
      split; [reflexivity|]. rewrite length_insert in Hlp. rewrite length_insert in Hlm.
      split; [exact Hlp|]. split; [exact Hlm|].
      split; [|split].
      * intros i Hi. rewrite Hmask by lia. apply list_lookup_insert_ne. lia.
      * intros k Hk. rewrite Hprim by lia. apply list_lookup_insert_ne. lia.
      * intros [|i] datum Hi; simpl in Hi.
        -- injection Hi as <-. rewrite Hd. cbn [take]. csimpl.
           rewrite !Nat.add_0_r. split.
           ++ rewrite Hmask by lia. apply list_lookup_insert_eq. lia.
           ++ rewrite Hprim by lia. apply list_lookup_insert_eq. lia.
        -- specialize (Hrows i datum Hi). destruct (fcn datum) as [w|].
           ++ cbn [take]. assert (Ho' : omap fcn (d :: take i view) = v :: omap fcn (take i view))
                by (csimpl; rewrite Hd; reflexivity).
              rewrite Ho'. cbn [length].
              replace (i0 + S i)%nat with (S i0 + i)%nat by lia.
              replace (n + S (length (omap fcn (take i view))))%nat
                with (S n + length (omap fcn (take i view)))%nat by lia.
              exact Hrows.
           ++ replace (i0 + S i)%nat with (S i0 + i)%nat by lia. exact Hrows.
    + rewrite setitem_nat by lia. cbn [bind].
      replace (Z.of_nat i0 + 1) with (Z.of_nat (S i0)) by lia.
      destruct (IH (S i0) n primitive (<[i0:=maskedvalue]> mask_) Hcast')
        as (p' & m' & Hloop & Hlp & Hlm & Hmask & Hprim & Hrows).
      { rewrite length_insert. lia. } { lia. }
      assert (Ho : omap fcn (d :: view) = omap fcn view)
        by (csimpl; rewrite Hd; reflexivity).
      exists p', m'. rewrite Hloop, Ho.
      replace (S i0 + length view)%nat with (i0 + S (length view))%nat by lia.
      split; [reflexivity|]. rewrite length_insert in Hlm.
      split; [exact Hlp|]. split; [exact Hlm|].
      split; [|split].
      * intros i Hi. rewrite Hmask by lia. apply list_lookup_insert_ne. lia.
      * exact Hprim.
      * intros [|i] datum Hi; simpl in Hi.
        -- injection Hi as <-. rewrite Hd. rewrite Nat.add_0_r.
           rewrite Hmask by lia. apply list_lookup_insert_eq. lia.
        -- specialize (Hrows i datum Hi). destruct (fcn datum) as [w|].
           ++ cbn [take]. assert (Ho' : omap fcn (d :: take i view) = omap fcn (take i view))
                by (csimpl; rewrite Hd; reflexivity).
              rewrite Ho'.
              replace (i0 + S i)%nat with (S i0 + i)%nat by lia. exact Hrows.
           ++ replace (i0 + S i)%nat with (S i0 + i)%nat by lia. exact Hrows.
Qed.

(** X12: the buffers [define] fills hold the function's values converted
    to the dtype of the field ([primitive[i] = value] on an array of
    [fieldtype.dtype]).  When numba is not in use or has found the return
    type that fits the field type, and numpy converts the value of every
    row ([astype] gives [cast]): with a field type that is not nullable the
    data buffer holds the converted value of every row; with a nullable
    one, for every row, the mask holds the masked value when the function
    gave [None], and otherwise the number of earlier rows with a value,
    which is the cell of the data buffer that holds the row's converted
    value, the values being packed in the order of the rows.  With any
    other return type [define] raises TypeError before the loop. *)
Theorem define_fills_every_row {D R V} (maskedvalue : Z) (astype : R -> result V)
    (cast : R -> V) (view : list D)
    (fcn : D -> R) (fcn_optional : D -> option R) (junk : nat -> V) (maskjunk : nat -> Z)
    (rtype : option returntype) :
  (forall datum, datum ∈ view -> astype (fcn datum) = Ok (cast (fcn datum))) ->
  (forall datum tmp, datum ∈ view -> fcn_optional datum = Some tmp ->
     astype tmp = Ok (cast tmp)) ->
  (if rtype_accepted false rtype
   then define_primitive astype rtype fcn view junk = Ok (map (fun d => cast (fcn d)) view)
   else exists msg, define_primitive astype rtype fcn view junk = Raise (TypeError msg))
  /\ (if rtype_accepted true rtype
      then exists primitive mask_,
        define_masked maskedvalue astype rtype fcn_optional view junk maskjunk
        = Ok (primitive, mask_)
        /\ length primitive = length view /\ length mask_ = length view
        /\ forall i datum, view !! i = Some datum ->
             match fcn_optional datum with
             | None => mask_ !! i = Some maskedvalue
             | Some tmp =>
                 let k := length (omap fcn_optional (take i view)) in
                 mask_ !! i = Some (Z.of_nat k) /\ primitive !! k = Some (cast tmp)
             end
      else exists msg,
        define_masked maskedvalue astype rtype fcn_optional view junk maskjunk
        = Raise (TypeError msg)).
Proof.
  intros Hcast Hcast_optional.
  assert (Hfill : (do r <- define_fill astype fcn view (numpy_empty_like view junk); Ok r.2)
                  = Ok (map (fun d => cast (fcn d)) view)).
  { unfold define_fill.
    destruct (define_fill_loop astype cast fcn view 0 (numpy_empty_like view junk) Hcast)
      as (out' & Hloop & Hlen & Htake).
    { rewrite numpy_empty_like_length. lia. }
    change (Z.of_nat 0) with 0 in Hloop. rewrite Hloop.
    cbn [bind snd]. f_equal. simpl in Htake. rewrite <- Htake.
    rewrite take_ge; [reflexivity|]. rewrite Hlen, numpy_empty_like_length. lia. }
  assert (Hmasked : exists primitive mask_,
            (do r <- for_each (define_masked_step maskedvalue astype fcn_optional) view
                       (0, 0, numpy_empty_like view junk, numpy_empty_like view maskjunk);
             Ok (r.1.2, r.2)) = Ok (primitive, mask_)
            /\ length primitive = length view /\ length mask_ = length view
            /\ forall i datum, view !! i = Some datum ->
                 match fcn_optional datum with
                 | None => mask_ !! i = Some maskedvalue
                 | Some tmp =>
                     let k := length (omap fcn_optional (take i view)) in
                     mask_ !! i = Some (Z.of_nat k) /\ primitive !! k = Some (cast tmp)
                 end).
  { destruct (define_masked_loop maskedvalue astype cast fcn_optional view 0 0
                (numpy_empty_like view junk) (numpy_empty_like view maskjunk) Hcast_optional)
      as (p' & m' & Hloop & Hlp & Hlm & _ & _ & Hrows).
    { rewrite numpy_empty_like_length. lia. } { rewrite numpy_empty_like_length. lia. }
    change (Z.of_nat 0) with 0 in Hloop. rewrite Hloop. cbn [bind fst snd].
    exists p', m'. rewrite numpy_empty_like_length in Hlp. rewrite numpy_empty_like_length in Hlm.
    split; [reflexivity|]. split; [exact Hlp|]. split; [exact Hlm|]. exact Hrows. }
  unfold define_primitive, define_masked.
  destruct rtype as [[| | |]|]; cbn [rtype_accepted negb]; split;
    first [exact Hfill | exact Hmasked | eexists; reflexivity].
Qed.

(** Python integers into a field of dtype [int32]: [2^40] is stored as 0. *)
Lemma define_fills_every_row_witness :
  define_primitive astype_int32 None (fun x : Z => x * x) [3; 2 ^ 20] (fun _ => 7)
  = Ok [9; 0]
  /\ exists primitive mask_,
       define_masked (-1) astype_int32 None
         (fun x : Z => if x <? 10 then None else Some (x * x)) [3; 2 ^ 20] (fun _ => 7)
         (fun _ => 7)
       = Ok (primitive, mask_)
       /\ length primitive = 2%nat /\ length mask_ = 2%nat
       /\ forall i datum, [3; 2 ^ 20] !! i = Some datum ->
            match (if datum <? 10 then None else Some (datum * datum)) with
            | None => mask_ !! i = Some (-1)
            | Some tmp =>
                let k := length (omap (fun x : Z => if x <? 10 then None else Some (x * x))
                                   (take i [3; 2 ^ 20])) in
                mask_ !! i = Some (Z.of_nat k)
                /\ primitive !! k = Some ((tmp + 2 ^ 31) mod 2 ^ 32 - 2 ^ 31)
            end.
Proof.
  apply (define_fills_every_row (-1) astype_int32 (fun x => (x + 2 ^ 31) mod 2 ^ 32 - 2 ^ 31)
           [3; 2 ^ 20] (fun x : Z => x * x)
           (fun x : Z => if x <? 10 then None else Some (x * x))
           (fun _ => 7) (fun _ => 7) None).
  - intros datum _. reflexivity.
  - intros datum tmp _ _. reflexivity.
Defined.

(** ** filter: the offsets of the filtered list *)

Lemma kept_upto_S {D} (fcn : D -> bool) view viewstarts viewstops k :
  kept_upto fcn view viewstarts viewstops (S k)
  = (kept_upto fcn view viewstarts viewstops k
     + length (survivors fcn view (slot_range viewstarts viewstops k)))%nat.
Proof. unfold kept_upto. rewrite positions_upto_S, survivors_app, length_app. reflexivity. Qed.


Lemma offsets_ok_of_lookup (last : Z) (offsets : list Z) :
  (forall i x, offsets !! i = Some x -> last <= x) ->
  (forall i x y, offsets !! i = Some x -> offsets !! S i = Some y -> x <= y) ->
  offsets_ok last offsets = true.
Proof.
  revert last. induction offsets as [|o offsets IH]; intros last Hlo Hstep; [reflexivity|].
  cbn [offsets_ok]. apply andb_true_iff. split.
  - apply Z.leb_le. apply (Hlo 0%nat). reflexivity.
  - apply IH.
    + intros i x Hx. destruct i as [|i].
      * apply (Hstep 0%nat o x); [reflexivity|exact Hx].
      * assert (o <= x); [|lia].
        clear -Hstep Hx. revert x Hx. induction i as [|i IHi]; intros x Hx.
        -- destruct offsets as [|y offsets]; [discriminate|].
           pose proof (Hstep 0%nat o y eq_refl eq_refl).
           pose proof (Hstep 1%nat y x eq_refl Hx). lia.
        -- destruct (lookup_lt_is_Some_2 offsets (S i)) as [y Hy].
           { apply lookup_lt_Some in Hx. lia. }
           pose proof (IHi y Hy). pose proof (Hstep (S (S i)) y x Hy Hx). lia.
    + intros i x y Hx Hy. apply (Hstep (S i) x y Hx Hy).
Qed.

(** The running counts that [filter] writes into [offsets[1:]] do not
    decrease: with the 0 before them, they are offsets on which [filter]
    can be applied again. *)
Lemma filter_stops_nondecreasing {D} (fcn : D -> bool) (view : Z -> result D)
    (viewstarts viewstops stops' : list Z) :
  length stops' = length viewstarts ->
  (forall i, (i < length viewstarts)%nat ->
     stops' !! i = Some (Z.of_nat (kept_upto fcn view viewstarts viewstops (S i)))) ->
  offsets_ok 0 stops' = true.
Proof.
  intros Hlen Hstops. apply offsets_ok_of_lookup.
  - intros i x Hx. rewrite Hstops in Hx by (apply lookup_lt_Some in Hx; lia).
    injection Hx as <-. lia.
  - intros i x y Hx Hy.
    rewrite Hstops in Hx by (apply lookup_lt_Some in Hx; lia).
    rewrite Hstops in Hy by (apply lookup_lt_Some in Hy; lia).
    injection Hx as <-. injection Hy as <-. rewrite (kept_upto_S _ _ _ _ (S i)). lia.
Qed.



(** ** tomask twice *)



(** ** parent and index on lists that start at position 0 *)

(** X15: on a non-nullable list of non-nullable records whose offsets are well
    formed, do not overlap and start at 0, [parent] and [index] return: each
    stores a new node under [fieldname] in the record (a Pointer to the
    parent node, an int32 Primitive), puts its buffer under it, in an
    overlay source whose namespace is none of those given, under the role
    named [array-0], and leaves the rest of the schema as it was; the
    buffer of [parent] holds, for every child, the number of the slot that
    contains it, the buffer of [index] its offset in that slot. *)
Theorem parent_index_from_zero `{Packing} (str_role : role -> string) (h : heap)
    (nss : gmap addr string) (oldns : gset string) (listnode parentnode child : addr)
    (rest : list addr) (fieldname : string) (st sp : option string) (c rc : attrs)
    (fs : list (string * slot)) (starts stops : list Z) (junk : nat -> Z) :
  h !! listnode = Some (List (Node child) st sp c) ->
  h !! child = Some (Record_ fs rc) ->
  nullable c = false -> nullable rc = false ->
  slots_wf starts stops -> slots_disjoint starts stops ->
  array_min starts = Ok 0 ->
  exists ns pointers values,
    let positions := str_role (mkRole PositionsRole "array-0" ns) in
    let data := str_role (mkRole DataRole "array-0" ns) in
    (ns ∉ oldns)
    /\ parent str_role h nss oldns (listnode :: parentnode :: rest) fieldname starts stops
         junk
       = Ok (<[child:=Record_ (dict_set fs fieldname (Node (length h))) rc]>
               (h ++ [Pointer (Node parentnode) (Some positions) plain])%list,
             <[length h:=ns]> nss,
             mkDualSource ns (<[positions:=pointers]> ∅) 1,
             length h, pointers)
    /\ index str_role h nss oldns listnode fieldname starts stops junk
       = Ok (<[child:=Record_ (dict_set fs fieldname (Node (length h))) rc]>
               (h ++ [Primitive int32 [] (Some data) plain])%list,
             <[length h:=ns]> nss,
             mkDualSource ns (<[data:=values]> ∅) 1,
             length h, values)
    /\ forall i s e j, slot_of starts stops i s e -> s <= Z.of_nat j < e ->
         pointers !! j = Some (Z.of_nat i) /\ values !! j = Some (Z.of_nat j - s).
Proof.
  intros Hl Hc Hnl Hnr Hwf Hdisj Hmin.
  destruct (parent_index_correct starts stops junk Hwf Hdisj Hmin)
    as (pointers & values & Hp & Hv & Hslots).
  assert (Hlt : (child < length h)%nat) by (eapply lookup_lt_Some; eauto).
  destruct (DualSource_init_returns (A := list Z) oldns) as (k & Hinit & Hfresh).
  assert (Hnew : forall (n n' : node) (r : node),
            <[length h:=n']> (<[child:=r]> (h ++ [n])%list)
            = <[child:=r]> (h ++ [n'])%list).
  { intros n n' r. rewrite !(insert_app_l h) by exact Hlt.
    rewrite insert_app_r_alt by (rewrite length_insert; lia).
    rewrite length_insert, Nat.sub_diag. reflexivity. }
  assert (Hlook : forall (n r : node),
            <[child:=r]> (h ++ [n])%list !! length h = Some n).
  { intros n r. rewrite list_lookup_insert_ne by lia.
    rewrite lookup_app_r by lia. rewrite Nat.sub_diag. reflexivity. }
  exists ("namespace-" ++ str_nat k), pointers, values. cbn zeta.
  split; [exact Hfresh|]. split; [|split; [|exact Hslots]].
  - unfold parent. rewrite Hl. unfold is_record, nullable_at. cbn [lookup_obj].
    rewrite Hc, Hnl. cbn [negb orb common]. rewrite Hnr. rewrite Hp. cbn [bind alloc].
    unfold record_setitem. rewrite lookup_app_l by exact Hlt. rewrite Hc. cbn [bind].
    rewrite Hinit. cbn [bind].
    rewrite (put_pointer str_role _ _ nss (length h) (Node parentnode) None plain pointers
               (Hlook _ _) eq_refl).
    cbn [bind fst snd]. rewrite Hnew. reflexivity.
  - unfold index. rewrite Hl. unfold is_record, nullable_at. cbn [lookup_obj].
    rewrite Hc, Hnl. cbn [negb orb common]. rewrite Hnr. rewrite Hv. cbn [bind alloc].
    unfold record_setitem. rewrite lookup_app_l by exact Hlt. rewrite Hc. cbn [bind].
    rewrite Hinit. cbn [bind].
    rewrite (put_primitive str_role _ _ nss (length h) int32 [] None plain values
               (Hlook _ _) eq_refl).
    cbn [bind fst snd]. rewrite Hnew. reflexivity.
Qed.

(** The list of muons, with offsets [[0, 3]] and [[3, 5]] *)
Lemma parent_index_from_zero_witness :
  exists ns pointers values,
    let positions := role_name (mkRole PositionsRole "array-0" ns) in
    let data := role_name (mkRole DataRole "array-0" ns) in
    (ns ∉ (∅ : gset string))
    /\ parent role_name muons ∅ ∅ [2; 3]%nat "event" [0; 3] [3; 5] (fun _ => 0)
       = Ok (<[1%nat:=Record_ (dict_set [("pt", Node 0%nat)] "event" (Node (length muons)))
                       plain]>
               (muons ++ [Pointer (Node 3%nat) (Some positions) plain])%list,
             <[length muons:=ns]> ∅,
             mkDualSource ns (<[positions:=pointers]> ∅) 1,
             length muons, pointers)
    /\ index role_name muons ∅ ∅ 2%nat "event" [0; 3] [3; 5] (fun _ => 0)
       = Ok (<[1%nat:=Record_ (dict_set [("pt", Node 0%nat)] "event" (Node (length muons)))
                       plain]>
               (muons ++ [Primitive int32 [] (Some data) plain])%list,
             <[length muons:=ns]> ∅,
             mkDualSource ns (<[data:=values]> ∅) 1,
             length muons, values)
    /\ forall i s e j, slot_of [0; 3] [3; 5] i s e -> s <= Z.of_nat j < e ->
         pointers !! j = Some (Z.of_nat i) /\ values !! j = Some (Z.of_nat j - s).
Proof.
  apply (parent_index_from_zero role_name muons ∅ ∅ 2%nat 3%nat 1%nat [] "event" None None
           plain plain [("pt", Node 0%nat)] [0; 3] [3; 5] (fun _ => 0)
           eq_refl eq_refl eq_refl eq_refl).
  - split; [reflexivity|]. intros [|[|i]] s e [Hs He]; simpl in Hs, He; try discriminate;
      injection Hs as <-; injection He as <-; lia.
  - intros [|[|i]] [|[|i']] s e s' e' j [Hs He] [Hs' He'] Hj Hj';
      simpl in Hs, He, Hs', He'; try discriminate;
      injection Hs as <-; injection He as <-; injection Hs' as <-; injection He' as <-;
      try reflexivity; lia.
  - reflexivity.
Defined.

(** ** The overlay source *)

(** X16: a new [_DualSource] takes the first of the names ["namespace-0"],
    ["namespace-1"], ... that is not among the namespaces in use: its search
    ends, whatever they are, and its namespace collides with none of them. *)
Theorem DualSource_namespace_is_fresh {A} (oldns : gset string) :
  exists k,
    DualSource_init (A := A) oldns = Ok (mkDualSource ("namespace-" ++ str_nat k) ∅ 0)
    /\ (("namespace-" ++ str_nat k) ∉ oldns)
    /\ forall j, (j < k)%nat -> ("namespace-" ++ str_nat j) ∈ oldns.
Proof.
  unfold DualSource_init.
  destruct (first_free_spec "namespace-" oldns 0 (S (size oldns)) 0)
    as (k & Hk & _ & Hfree & Hbelow); [lia|intros j Hj; lia|lia|].
  exists k. rewrite Hk. cbn [bind fst]. split; [reflexivity|]. split; [exact Hfree|].
  intros j Hj. apply Hbelow. lia.
Qed.

(** X17: [arrayname] returns a name under which the source holds no array,
    whatever has been put into it, and advances the counter past it: no
    later call returns that name again, even if nothing was ever put under
    it. *)
Theorem arrayname_never_repeats {A} (self : DualSource A) :
  exists k,
    arrayname self
    = Ok ("array-" ++ str_nat k,
          mkDualSource (src_namespace self) (src_new self) (S k))
    /\ (src_arraynum self <= k)%nat
    /\ src_new self !! ("array-" ++ str_nat k) = None
    /\ forall (later : DualSource A) name_ later',
         (S k <= src_arraynum later)%nat -> arrayname later = Ok (name_, later') ->
         bool_decide (name_ = "array-" ++ str_nat k) = false.
Proof.
  assert (Hcall : forall s : DualSource A, exists k,
            arrayname s = Ok ("array-" ++ str_nat k,
                              mkDualSource (src_namespace s) (src_new s) (S k))
            /\ (src_arraynum s <= k)%nat /\ src_new s !! ("array-" ++ str_nat k) = None).
  { intros s. unfold arrayname.
    destruct (first_free_spec "array-" (dom (src_new s)) (src_arraynum s)
                (S (size (src_new s))) (src_arraynum s))
      as (k & Hk & Hle & Hfree & _); [lia|intros j Hj; lia|rewrite size_dom; lia|].
    exists k. rewrite Hk. cbn [bind fst snd]. split; [reflexivity|]. split; [exact Hle|].
    apply not_elem_of_dom. exact Hfree. }
  destruct (Hcall self) as (k & Hk & Hle & Hfree). exists k.
  split; [exact Hk|]. split; [exact Hle|]. split; [exact Hfree|].
  intros later name_ later' Hlater Hname.
  destruct (Hcall later) as (k' & Hk' & Hle' & _). rewrite Hk' in Hname.
  injection Hname as <- _. apply bool_decide_eq_false. intros Heq.
  apply append_inj_l, str_nat_inj in Heq. lia.
Qed.

(** ** Structural equality and correspondences *)

Section Correspondence.
Context `{Packing}.
Variable h : heap.
Variable R : addr -> addr -> Prop.
Hypothesis HR : eq_correspondence h R.

Lemma memo_in_insert memo a b :
  memo_in h R memo -> R a b -> is_primitive h a = false -> memo_in h R (<[a:=b]> memo).
Proof.
  intros Hm Hab Hp k v Hk. apply lookup_insert_Some in Hk as [[<- <-]|[_ Hk]]; auto.
Qed.

Lemma attrs_sim_cond (c c' : attrs) :
  attrs_sim c c' ->
  opt_eq (mask c) (mask c') && packing_eq (packing c) (packing c')
  && opt_eq (name c) (name c') = true.
Proof.
  intros (Hm & Hp & Hn). unfold opt_eq. rewrite Hm, Hn, Hp.
  rewrite !bool_decide_eq_true_2 by reflexivity. reflexivity.
Qed.

Lemma eqb_eq_true (b b' : bool) : b = b' -> eqb b b' = true.
Proof. intros ->. destruct b'; reflexivity. Qed.

Lemma all_eq_follows fuel pairs :
  (forall a b memo r memo',
     eq_memo fuel h (Node a) (Node b) memo = Ok (r, memo') ->
     R a b -> memo_in h R memo -> r = true /\ memo_in h R memo') ->
  forall memo r memo',
    all_eq (eq_memo fuel h) pairs memo = Ok (r, memo') ->
    Forall (fun xy => slot_sim R xy.1 xy.2) pairs -> memo_in h R memo ->
    r = true /\ memo_in h R memo'.
Proof.
  intros IH. induction pairs as [|[x y] pairs IHp]; intros memo r memo' Hall Hsim Hm.
  - simpl in Hall. injection Hall as <- <-. auto.
  - inversion Hsim as [|? ? (a & b & Hx & Hy & Hab) Hrest]; subst. simpl in Hx, Hy. subst x y.
    cbn [all_eq] in Hall. apply bind_ok in Hall as ([r1 memo1] & Hr1 & Hall).
    destruct (IH a b memo r1 memo1 Hr1 Hab Hm) as [-> Hm1]. cbn [fst snd] in Hall.
    exact (IHp memo1 r memo' Hall Hrest Hm1).
Qed.

Lemma Forall2_zip_sim (ps qs : list slot) :
  Forall2 (slot_sim R) ps qs -> Forall (fun xy => slot_sim R xy.1 xy.2) (zip ps qs).
Proof. induction 1; simpl; constructor; auto. Qed.

Lemma field_pairs_sim (fs gs : list (string * slot)) pairs :
  NoDup fs.*1 ->
  (forall k x y, dict_get fs k = Some x -> dict_get gs k = Some y -> slot_sim R x y) ->
  field_pairs fs gs = Ok pairs ->
  Forall (fun xy => slot_sim R xy.1 xy.2) pairs.
Proof.
  revert pairs. induction fs as [|[k x] fs IH]; intros pairs Hnd Hsim Hp; simpl in Hp.
  - injection Hp as <-. constructor.
  - destruct (dict_get gs k) as [y|] eqn:Hy; [|discriminate].
    apply bind_ok in Hp as (rest & Hrest & Hp). injection Hp as <-.
    simpl in Hnd. apply NoDup_cons in Hnd as [Hk Hnd].
    constructor.
    + apply (Hsim k x y); [|exact Hy]. simpl. rewrite bool_decide_eq_true_2 by reflexivity.
      reflexivity.
    + apply IH; [exact Hnd| |exact Hrest].
      intros k' x' y' Hx' Hy'. apply (Hsim k' x' y'); [|exact Hy'].
      simpl. case_bool_decide as Hkk; [|exact Hx'].
      subst k'. exfalso. apply Hk. apply list_elem_of_fmap.
      exists (k, x'). split; [reflexivity|].
      clear -Hx'. induction fs as [|[k0 x0] fs IH]; simpl in Hx'; [discriminate|].
      case_bool_decide as Hk0.
      * injection Hx' as <-. subst k0. apply list_elem_of_here.
      * apply list_elem_of_further, IH, Hx'.
Qed.

Hypothesis Hwf : heap_wf h.

(** A call on two nodes that correspond, if it returns, returns [True]. *)
Lemma eq_memo_follows fuel a b memo r memo' :
  eq_memo fuel h (Node a) (Node b) memo = Ok (r, memo') ->
  R a b -> memo_in h R memo -> r = true /\ memo_in h R memo'.
Proof.
  revert a b memo r memo'.
  induction fuel as [|fuel IH]; intros a b memo r memo' Hcall Hab Hm; [discriminate|].
  destruct HR as [Hsim Hfun].
  destruct (Hsim a b Hab) as (n & m & Hn & Hmb & Hnm).
  cbn [eq_memo] in Hcall. rewrite Hn in Hcall. cbn [lookup_obj] in Hcall.
  destruct n as [t dims data c|x starts stops c|ps tags offsets c|fs c|ts c|x positions c];
    destruct m as [t' dims' data' c'|y starts' stops' c'|qs tags' offsets' c'|gs c'|us c'
                  |y positions' c']; try contradiction; cbn [node_sim] in Hnm.
  - rewrite Hmb in Hcall. destruct Hnm as (-> & -> & -> & Hnl & Hattrs).
    injection Hcall as <- <-. split; [|exact Hm].
    pose proof (attrs_sim_cond c c' Hattrs) as Hc.
    apply andb_true_iff in Hc as [Hc Hc3]. apply andb_true_iff in Hc as [Hc1 Hc2].
    rewrite Hc1, Hc2, Hc3, (eqb_eq_true _ _ Hnl). unfold opt_eq.
    rewrite !bool_decide_eq_true_2 by reflexivity. reflexivity.
  - assert (Hp : is_primitive h a = false) by (unfold is_primitive; rewrite Hn; reflexivity).
    destruct (memo !! a) as [b0|] eqn:Hma.
    + injection Hcall as <- <-. split; [|exact Hm].
      destruct (Hm a b0 Hma) as [Hab0 _]. rewrite (Hfun a b0 b Hab0 Hab Hp).
      apply bool_decide_eq_true. reflexivity.
    + rewrite Hmb in Hcall. destruct Hnm as (-> & -> & Hattrs & (xa & ya & -> & -> & Hxy)).
      pose proof (attrs_sim_cond c c' Hattrs) as Hc.
      apply andb_true_iff in Hc as [Hc Hc3]. apply andb_true_iff in Hc as [Hc1 Hc2].
      unfold opt_eq at 1 2 in Hcall. rewrite !bool_decide_eq_true_2 in Hcall by reflexivity.
      rewrite Hc1, Hc2, Hc3 in Hcall. cbn [andb] in Hcall.
      exact (IH xa ya _ r memo' Hcall Hxy (memo_in_insert memo a b Hm Hab Hp)).
  - assert (Hp : is_primitive h a = false) by (unfold is_primitive; rewrite Hn; reflexivity).
    destruct (memo !! a) as [b0|] eqn:Hma.
    + injection Hcall as <- <-. split; [|exact Hm].
      destruct (Hm a b0 Hma) as [Hab0 _]. rewrite (Hfun a b0 b Hab0 Hab Hp).
      apply bool_decide_eq_true. reflexivity.
    + rewrite Hmb in Hcall. destruct Hnm as (-> & -> & Hnl & Hattrs & Hps).
      pose proof (attrs_sim_cond c c' Hattrs) as Hc.
      apply andb_true_iff in Hc as [Hc Hc3]. apply andb_true_iff in Hc as [Hc1 Hc2].
      unfold opt_eq at 1 2 in Hcall.
      rewrite (bool_decide_eq_true_2 _ (Forall2_length _ _ _ Hps)) in Hcall.
      rewrite !bool_decide_eq_true_2 in Hcall by reflexivity.
      rewrite Hc1, Hc2, Hc3, (eqb_eq_true _ _ Hnl) in Hcall. cbn [andb] in Hcall.
      exact (all_eq_follows fuel _ IH _ r memo' Hcall (Forall2_zip_sim _ _ Hps)
               (memo_in_insert memo a b Hm Hab Hp)).
  - assert (Hp : is_primitive h a = false) by (unfold is_primitive; rewrite Hn; reflexivity).
    destruct (memo !! a) as [b0|] eqn:Hma.
    + injection Hcall as <- <-. split; [|exact Hm].
      destruct (Hm a b0 Hma) as [Hab0 _]. rewrite (Hfun a b0 b Hab0 Hab Hp).
      apply bool_decide_eq_true. reflexivity.
    + rewrite Hmb in Hcall. destruct Hnm as (Hnl & Hattrs & Hkeys & Hfs).
      pose proof (attrs_sim_cond c c' Hattrs) as Hc.
      apply andb_true_iff in Hc as [Hc Hc3]. apply andb_true_iff in Hc as [Hc1 Hc2].
      rewrite Hkeys, Hc1, Hc2, Hc3, (eqb_eq_true _ _ Hnl) in Hcall. cbn [andb] in Hcall.
      apply bind_ok in Hcall as (pairs & Hpairs & Hcall).
      destruct (Hwf a _ Hn) as [_ Hnd].
      exact (all_eq_follows fuel _ IH _ r memo' Hcall
               (field_pairs_sim fs gs pairs (Hnd fs c eq_refl) Hfs Hpairs)
               (memo_in_insert memo a b Hm Hab Hp)).
  - assert (Hp : is_primitive h a = false) by (unfold is_primitive; rewrite Hn; reflexivity).
    destruct (memo !! a) as [b0|] eqn:Hma.
    + injection Hcall as <- <-. split; [|exact Hm].
      destruct (Hm a b0 Hma) as [Hab0 _]. rewrite (Hfun a b0 b Hab0 Hab Hp).
      apply bool_decide_eq_true. reflexivity.
    + rewrite Hmb in Hcall. destruct Hnm as (Hnl & Hattrs & Hts).
      pose proof (attrs_sim_cond c c' Hattrs) as Hc.
      apply andb_true_iff in Hc as [Hc Hc3]. apply andb_true_iff in Hc as [Hc1 Hc2].
      rewrite (bool_decide_eq_true_2 _ (Forall2_length _ _ _ Hts)) in Hcall.
      rewrite Hc1, Hc2, Hc3, (eqb_eq_true _ _ Hnl) in Hcall. cbn [andb] in Hcall.
      exact (all_eq_follows fuel _ IH _ r memo' Hcall (Forall2_zip_sim _ _ Hts)
               (memo_in_insert memo a b Hm Hab Hp)).
  - assert (Hp : is_primitive h a = false) by (unfold is_primitive; rewrite Hn; reflexivity).
    destruct (memo !! a) as [b0|] eqn:Hma.
    + injection Hcall as <- <-. split; [|exact Hm].
      destruct (Hm a b0 Hma) as [Hab0 _]. rewrite (Hfun a b0 b Hab0 Hab Hp).
      apply bool_decide_eq_true. reflexivity.
    + rewrite Hmb in Hcall.
      destruct Hnm as (-> & Hnl & Hattrs & (xa & ya & -> & -> & Hxy)).
      pose proof (attrs_sim_cond c c' Hattrs) as Hc.
      apply andb_true_iff in Hc as [Hc Hc3]. apply andb_true_iff in Hc as [Hc1 Hc2].
      unfold opt_eq at 1 in Hcall. rewrite !bool_decide_eq_true_2 in Hcall by reflexivity.
      rewrite Hc1, Hc2, Hc3, (eqb_eq_true _ _ Hnl) in Hcall. cbn [andb] in Hcall.
      exact (IH xa ya _ r memo' Hcall Hxy (memo_in_insert memo a b Hm Hab Hp)).
Qed.

End Correspondence.
Section Soundness.
Context `{Packing}.
Variable h : heap.

Lemma slot_sim_mono (R R' : addr -> addr -> Prop) x y :
  (forall a b, R a b -> R' a b) -> slot_sim R x y -> slot_sim R' x y.
Proof. intros HRR (a & b & -> & -> & Hab). exists a, b. auto. Qed.

Lemma node_sim_mono (R R' : addr -> addr -> Prop) n m :
  (forall a b, R a b -> R' a b) -> node_sim R n m -> node_sim R' n m.
Proof.
  intros HRR. destruct n, m; cbn [node_sim]; try tauto.
  - intros (? & ? & ? & Hs). do 3 (split; [assumption|]). eapply slot_sim_mono; eauto.
  - intros (? & ? & ? & ? & Hs). do 4 (split; [assumption|]).
    eapply Forall2_impl; [exact Hs|]. intros x y. apply slot_sim_mono, HRR.
  - intros (? & ? & ? & Hs). do 3 (split; [assumption|]).
    intros k x y Hx Hy. eapply slot_sim_mono; eauto.
  - intros (? & ? & Hs). do 2 (split; [assumption|]).
    eapply Forall2_impl; [exact Hs|]. intros x y. apply slot_sim_mono, HRR.
  - intros (? & ? & ? & Hs). do 3 (split; [assumption|]). eapply slot_sim_mono; eauto.
Qed.

Lemma memo_rel_mono (memo memo' : gmap nat nat) a b :
  memo ⊆ memo' -> memo_rel h memo a b -> memo_rel h memo' a b.
Proof.
  intros Hsub [Hm|Hp]; [left|right; exact Hp].
  eapply lookup_weaken; eauto.
Qed.

Lemma memo_consistent_mono (memo memo' : gmap nat nat) k v :
  memo ⊆ memo' -> memo_consistent h memo k v -> memo_consistent h memo' k v.
Proof.
  intros Hsub (Hp & n & m & Hn & Hm & Hsim). split; [exact Hp|].
  exists n, m. split; [exact Hn|]. split; [exact Hm|].
  eapply node_sim_mono; [|exact Hsim]. intros a b. apply memo_rel_mono, Hsub.
Qed.

Lemma attrs_cond_sim (c c' : attrs) :
  opt_eq (mask c) (mask c') && packing_eq (packing c) (packing c')
  && opt_eq (name c) (name c') = true ->
  attrs_sim c c'.
Proof.
  rewrite !andb_true_iff. unfold opt_eq. rewrite !bool_decide_eq_true.
  intros [[Hm Hp] Hn]. repeat split; assumption.
Qed.

Lemma eqb_true_eq (b b' : bool) : eqb b b' = true -> b = b'.
Proof. destruct b, b'; simpl; congruence. Qed.

(** What a call that returns [True] has established. *)
Definition eq_establishes (fuel : nat) : Prop :=
  forall a other memo memo',
    eq_memo fuel h (Node a) other memo = Ok (true, memo') ->
    memo ⊆ memo'
    /\ (exists b, other = Node b /\ memo_rel h memo' a b)
    /\ forall k v, memo' !! k = Some v -> memo !! k = None -> memo_consistent h memo' k v.

Lemma all_eq_establishes fuel pairs :
  eq_establishes fuel ->
  forall memo memo',
    all_eq (eq_memo fuel h) pairs memo = Ok (true, memo') ->
    memo ⊆ memo'
    /\ Forall (fun xy => slot_sim (memo_rel h memo') xy.1 xy.2) pairs
    /\ forall k v, memo' !! k = Some v -> memo !! k = None -> memo_consistent h memo' k v.
Proof.
  intros IH. induction pairs as [|[x y] pairs IHp]; intros memo memo' Hall.
  - simpl in Hall. injection Hall as <-. split; [reflexivity|]. split; [constructor|].
    intros k v Hk Hk'. congruence.
  - cbn [all_eq] in Hall. apply bind_ok in Hall as ([r1 memo1] & Hr1 & Hall).
    cbn [fst snd] in Hall. destruct r1; [|discriminate].
    destruct x as [a|l]; [|destruct fuel; discriminate].
    destruct (IH a y memo memo1 Hr1) as (Hsub1 & (b & -> & Hab) & Hnew1).
    destruct (IHp memo1 memo' Hall) as (Hsub2 & Hrest & Hnew2).
    split; [etrans; eauto|]. split.
    + constructor; [|exact Hrest]. exists a, b. repeat split.
      eapply memo_rel_mono; eauto.
    + intros k v Hk Hk0. destruct (memo1 !! k) as [v1|] eqn:Hk1.
      * assert (v1 = v) by (pose proof (lookup_weaken _ _ _ _ Hk1 Hsub2); congruence).
        subst v1. eapply memo_consistent_mono; [exact Hsub2|]. apply Hnew1; assumption.
      * apply Hnew2; assumption.
Qed.

Lemma zip_sim_Forall2 (R : addr -> addr -> Prop) (ps qs : list slot) :
  length ps = length qs ->
  Forall (fun xy => slot_sim R xy.1 xy.2) (zip ps qs) -> Forall2 (slot_sim R) ps qs.
Proof.
  revert qs. induction ps as [|p ps IH]; intros [|q qs] Hlen Hall; try discriminate.
  - constructor.
  - simpl in Hall. inversion Hall; subst. constructor; [assumption|].
    apply IH; [simpl in Hlen; lia|assumption].
Qed.

Lemma field_pairs_lookup (fs gs : list (string * slot)) pairs k x y :
  field_pairs fs gs = Ok pairs ->
  dict_get fs k = Some x -> dict_get gs k = Some y -> (x, y) ∈ pairs.
Proof.
  revert pairs. induction fs as [|[k0 x0] fs IH]; intros pairs Hp Hx Hy; simpl in *.
  - discriminate.
  - destruct (dict_get gs k0) as [y0|] eqn:Hy0; [|discriminate].
    apply bind_ok in Hp as (rest & Hrest & Hp). injection Hp as <-.
    case_bool_decide as Hk.
    + subst k0. injection Hx as <-. rewrite Hy in Hy0. injection Hy0 as <-.
      apply list_elem_of_here.
    + apply list_elem_of_further. eapply IH; eauto.
Qed.

Ltac eq_known Hcall Hma :=
  let Hid := fresh "Hid" in
  let b := fresh "b" in
  injection Hcall as Hid <-;
  match goal with
  | |- context [?o = Node _] =>
      destruct o as [b|?]; simpl in Hid; [|discriminate];
      apply bool_decide_eq_true in Hid; subst;
      split; [reflexivity|]; split; [exists b; split; [reflexivity|left; exact Hma]|];
      intros k v Hk Hk'; congruence
  end.

Lemma eq_memo_establishes fuel : eq_establishes fuel.
Proof.
  induction fuel as [|fuel IH]; intros a other memo memo' Hcall; [discriminate|].
  cbn [eq_memo] in Hcall.
  destruct (h !! a) as [n|] eqn:Hn; [|discriminate].
  destruct n as [t dims data c|x starts stops c|ps tags offsets c|fs c|ts c|x positions c].
  - destruct other as [b|l]; cbn [lookup_obj] in Hcall; [|discriminate].
    destruct (h !! b) as [[t' dims' data' c'| | | | |]|] eqn:Hb; try discriminate.
    injection Hcall as Hcond <-.
    split; [reflexivity|]. split; [|intros k v Hk Hk'; congruence].
    exists b. split; [reflexivity|]. right.
    split; [unfold is_primitive; rewrite Hn; reflexivity|].
    eexists _, _. split; [exact Hn|]. split; [exact Hb|]. cbn [node_sim].
    rewrite !andb_true_iff in Hcond. unfold opt_eq in Hcond.
    rewrite !bool_decide_eq_true in Hcond.
    destruct Hcond as [[[[[[Ht Hd] Hnl] Hdat] Hm] Hp] Hnm].
    split; [exact Ht|]. split; [exact Hd|]. split; [exact Hdat|].
    split; [apply eqb_true_eq, Hnl|]. repeat split; assumption.
  - destruct (memo !! a) as [b0|] eqn:Hma; [eq_known Hcall Hma|].
    destruct other as [b|l]; cbn [lookup_obj] in Hcall; [|discriminate].
    destruct (h !! b) as [[|y starts' stops' c'| | | |]|] eqn:Hb; try discriminate.
    destruct (_ && _) eqn:Hcond in Hcall; [|discriminate].
    destruct x as [xa|l]; [|destruct fuel; discriminate].
    destruct (IH xa y _ memo' Hcall) as (Hsub & (ya & -> & Hxy) & Hnew).
    assert (Hab : memo' !! a = Some b)
      by (eapply lookup_weaken; [apply lookup_insert_eq|exact Hsub]).
    split; [etrans; [apply insert_subseteq, Hma|exact Hsub]|].
    split; [exists b; split; [reflexivity|left; exact Hab]|].
    intros k v Hk Hk0. destruct (decide (k = a)) as [->|Hne].
    + assert (v = b) by congruence. subst v.
      split; [unfold is_primitive; rewrite Hn; reflexivity|].
      eexists _, _. split; [exact Hn|]. split; [exact Hb|]. cbn [node_sim].
      rewrite !andb_true_iff in Hcond. destruct Hcond as [[[[Hs He] Hm] Hp] Hnm].
      unfold opt_eq in Hs, He. apply bool_decide_eq_true in Hs, He.
      split; [exact Hs|]. split; [exact He|].
      split; [apply attrs_cond_sim; rewrite Hm, Hp, Hnm; reflexivity|].
      exists xa, ya. auto.
    + apply Hnew; [exact Hk|]. rewrite lookup_insert_ne by congruence. exact Hk0.
  - destruct (memo !! a) as [b0|] eqn:Hma; [eq_known Hcall Hma|].
    destruct other as [b|l]; cbn [lookup_obj] in Hcall; [|discriminate].
    destruct (h !! b) as [[| |qs tags' offsets' c'| | |]|] eqn:Hb; try discriminate.
    destruct (_ && _) eqn:Hcond in Hcall; [|discriminate].
    destruct (all_eq_establishes fuel _ IH _ memo' Hcall) as (Hsub & Hpairs & Hnew).
    assert (Hab : memo' !! a = Some b)
      by (eapply lookup_weaken; [apply lookup_insert_eq|exact Hsub]).
    split; [etrans; [apply insert_subseteq, Hma|exact Hsub]|].
    split; [exists b; split; [reflexivity|left; exact Hab]|].
    intros k v Hk Hk0. destruct (decide (k = a)) as [->|Hne].
    + assert (v = b) by congruence. subst v.
      split; [unfold is_primitive; rewrite Hn; reflexivity|].
      eexists _, _. split; [exact Hn|]. split; [exact Hb|]. cbn [node_sim].
      rewrite !andb_true_iff in Hcond.
      destruct Hcond as [[[[[[Hlen Hnl] Ht] Ho] Hm] Hp] Hnm].
      unfold opt_eq in Ht, Ho. apply bool_decide_eq_true in Ht, Ho, Hlen.
      split; [exact Ht|]. split; [exact Ho|]. split; [apply eqb_true_eq, Hnl|].
      split; [apply attrs_cond_sim; rewrite Hm, Hp, Hnm; reflexivity|].
      apply zip_sim_Forall2; assumption.
    + apply Hnew; [exact Hk|]. rewrite lookup_insert_ne by congruence. exact Hk0.
  - destruct (memo !! a) as [b0|] eqn:Hma; [eq_known Hcall Hma|].
    destruct other as [b|l]; cbn [lookup_obj] in Hcall; [|discriminate].
    destruct (h !! b) as [[| | |gs c'| |]|] eqn:Hb; try discriminate.
    destruct (_ && _) eqn:Hcond in Hcall; [|discriminate].
    apply bind_ok in Hcall as (pairs & Hfp & Hcall).
    destruct (all_eq_establishes fuel _ IH _ memo' Hcall) as (Hsub & Hpairs & Hnew).
    assert (Hab : memo' !! a = Some b)
      by (eapply lookup_weaken; [apply lookup_insert_eq|exact Hsub]).
    split; [etrans; [apply insert_subseteq, Hma|exact Hsub]|].
    split; [exists b; split; [reflexivity|left; exact Hab]|].
    intros k v Hk Hk0. destruct (decide (k = a)) as [->|Hne].
    + assert (v = b) by congruence. subst v.
      split; [unfold is_primitive; rewrite Hn; reflexivity|].
      eexists _, _. split; [exact Hn|]. split; [exact Hb|]. cbn [node_sim].
      rewrite !andb_true_iff in Hcond. destruct Hcond as [[[[Hkeys Hnl] Hm] Hp] Hnm].
      split; [apply eqb_true_eq, Hnl|].
      split; [apply attrs_cond_sim; rewrite Hm, Hp, Hnm; reflexivity|].
      split; [exact Hkeys|].
      intros key x y Hx Hy. rewrite Forall_forall in Hpairs.
      apply (Hpairs (x, y)). eapply field_pairs_lookup; eauto.
    + apply Hnew; [exact Hk|]. rewrite lookup_insert_ne by congruence. exact Hk0.
  - destruct (memo !! a) as [b0|] eqn:Hma; [eq_known Hcall Hma|].
    destruct other as [b|l]; cbn [lookup_obj] in Hcall; [|discriminate].
    destruct (h !! b) as [[| | | |us c'|]|] eqn:Hb; try discriminate.
    destruct (_ && _) eqn:Hcond in Hcall; [|discriminate].
    destruct (all_eq_establishes fuel _ IH _ memo' Hcall) as (Hsub & Hpairs & Hnew).
    assert (Hab : memo' !! a = Some b)
      by (eapply lookup_weaken; [apply lookup_insert_eq|exact Hsub]).
    split; [etrans; [apply insert_subseteq, Hma|exact Hsub]|].
    split; [exists b; split; [reflexivity|left; exact Hab]|].
    intros k v Hk Hk0. destruct (decide (k = a)) as [->|Hne].
    + assert (v = b) by congruence. subst v.
      split; [unfold is_primitive; rewrite Hn; reflexivity|].
      eexists _, _. split; [exact Hn|]. split; [exact Hb|]. cbn [node_sim].
      rewrite !andb_true_iff in Hcond. destruct Hcond as [[[[Hlen Hnl] Hm] Hp] Hnm].
      apply bool_decide_eq_true in Hlen.
      split; [apply eqb_true_eq, Hnl|].
      split; [apply attrs_cond_sim; rewrite Hm, Hp, Hnm; reflexivity|].
      apply zip_sim_Forall2; assumption.
    + apply Hnew; [exact Hk|]. rewrite lookup_insert_ne by congruence. exact Hk0.
  - destruct (memo !! a) as [b0|] eqn:Hma; [eq_known Hcall Hma|].
    destruct other as [b|l]; cbn [lookup_obj] in Hcall; [|discriminate].
    destruct (h !! b) as [[| | | | |y positions' c']|] eqn:Hb; try discriminate.
    destruct (_ && _) eqn:Hcond in Hcall; [|discriminate].
    destruct x as [xa|l]; [|destruct fuel; discriminate].
    destruct (IH xa y _ memo' Hcall) as (Hsub & (ya & -> & Hxy) & Hnew).
    assert (Hab : memo' !! a = Some b)
      by (eapply lookup_weaken; [apply lookup_insert_eq|exact Hsub]).
    split; [etrans; [apply insert_subseteq, Hma|exact Hsub]|].
    split; [exists b; split; [reflexivity|left; exact Hab]|].
    intros k v Hk Hk0. destruct (decide (k = a)) as [->|Hne].
    + assert (v = b) by congruence. subst v.
      split; [unfold is_primitive; rewrite Hn; reflexivity|].
      eexists _, _. split; [exact Hn|]. split; [exact Hb|]. cbn [node_sim].
      rewrite !andb_true_iff in Hcond. destruct Hcond as [[[[Hnl Hpos] Hm] Hp] Hnm].
      unfold opt_eq in Hpos. apply bool_decide_eq_true in Hpos.
      split; [exact Hpos|]. split; [apply eqb_true_eq, Hnl|].
      split; [apply attrs_cond_sim; rewrite Hm, Hp, Hnm; reflexivity|].
      exists xa, ya. auto.
    + apply Hnew; [exact Hk|]. rewrite lookup_insert_ne by congruence. exact Hk0.
Qed.

End Soundness.
Lemma memo_rel_correspondence `{Packing} (h : heap) (memo : gmap nat nat) :
  (forall k v, memo !! k = Some v -> memo_consistent h memo k v) ->
  eq_correspondence h (memo_rel h memo).
Proof.
  intros Hall. split.
  - intros a b [Hab|(Hp & n & m & Hn & Hm & Hsim)].
    + destruct (Hall a b Hab) as (_ & n & m & Hn & Hm & Hsim). eauto.
    + exists n, m. split; [exact Hn|]. split; [exact Hm|].
      eapply node_sim_mono; [|exact Hsim]. intros ? ? [].
  - intros a b b' [Hab|[Hp _]] [Hab'|[Hp' _]] Hnp; congruence.
Qed.

(** X18: [a == b] is [True] exactly when the graph of [a] can be laid over the
    graph of [b]: when some correspondence that contains the pair [(a, b)]
    relates only nodes of one class with equal compared attributes, relates
    their children in turn, and sends every node of [a]'s side that is not a
    Primitive to a single node.  Nothing is asked of the other direction: two
    nodes of [a]'s side may be sent to one node of [b]'s side. *)
Theorem eq_true_iff_correspondence `{Packing} (h : heap) (a b : addr) :
  heap_wf h -> packing_eq_reflexive ->
  (__eq__ h a b = Ok true <-> exists R, eq_correspondence h R /\ R a b).
Proof.
  intros Hwf Hpk. unfold __eq__. split.
  - intros Hcall. apply bind_ok in Hcall as ([r memo'] & Hcall & Hr).
    injection Hr as Hr. cbn [fst] in Hr. subst r.
    destruct (eq_memo_establishes h _ a (Node b) ∅ memo' Hcall) as (_ & (b' & Hb & Hab) & Hnew).
    injection Hb as <-. exists (memo_rel h memo'). split; [|exact Hab].
    apply memo_rel_correspondence. intros k v Hk. apply Hnew; [exact Hk|apply lookup_empty].
  - intros (R & HR & Hab).
    destruct (proj1 HR a b Hab) as (n & m & Hn & Hm & _).
    apply lookup_lt_Some in Hn, Hm.
    destruct (eq_memo_returns h Hwf Hpk (S (length h)) a b ∅ Hn Hm) as (r & memo' & Hcall & _).
    { rewrite dom_empty_L. set_solver. }
    { rewrite map_size_empty. lia. }
    rewrite Hcall. cbn [bind fst].
    destruct (eq_memo_follows h R HR Hwf _ a b ∅ r memo' Hcall Hab) as [-> _]; [|reflexivity].
    intros k v Hk. rewrite lookup_empty in Hk. discriminate.
Qed.

Lemma heap_wfb_sound `{Packing} (h : heap) : heap_wfb h = true -> heap_wf h.
Proof.
  unfold heap_wfb. rewrite forallb_forall. intros Hall a n Ha.
  specialize (Hall n (proj1 (list_elem_of_In _ _) (list_elem_of_lookup_2 _ _ _ Ha))).
  apply andb_true_iff in Hall as [Hch Hrec]. split.
  - intros s Hs. rewrite forallb_forall in Hch.
    specialize (Hch s (proj1 (list_elem_of_In _ _) Hs)).
    destruct s as [b|l]; [|discriminate]. exists b. split; [reflexivity|].
    apply Nat.ltb_lt, Hch.
  - intros fs c ->. apply bool_decide_eq_true in Hrec. exact Hrec.
Qed.

Lemma shared_and_unshared_wf : heap_wf shared_and_unshared.
Proof. apply heap_wfb_sound. reflexivity. Qed.

(** [T == S] for [S = Tuple([l, l])] and [T = Tuple([List("f8"),
    List("f8")])]: both Lists of [T] are sent to [l]. *)
Lemma eq_true_iff_correspondence_witness :
  __eq__ shared_and_unshared 5%nat 2%nat = Ok true
  <-> exists R, eq_correspondence shared_and_unshared R /\ R 5%nat 2%nat.
Proof.
  apply (eq_true_iff_correspondence shared_and_unshared 5%nat 2%nat
           shared_and_unshared_wf NoPacking_eq_reflexive).
Defined.

(** ** copy *)

(** A correspondence that contains the pair [(a, b)] makes [a == b]
    [True]. *)
Lemma eq_true_of_correspondence `{Packing} (h : heap) (R : addr -> addr -> Prop) a b :
  heap_wf h -> packing_eq_reflexive -> eq_correspondence h R -> R a b ->
  __eq__ h a b = Ok true.
Proof.
  intros Hwf Hpk HR Hab. unfold __eq__.
  destruct (proj1 HR a b Hab) as (n & m & Hn & Hm & _).
  apply lookup_lt_Some in Hn, Hm.
  destruct (eq_memo_returns h Hwf Hpk (S (length h)) a b ∅ Hn Hm) as (r & memo' & Hcall & _).
  { rewrite dom_empty_L. set_solver. }
  { rewrite map_size_empty. lia. }
  rewrite Hcall. cbn [bind fst].
  destruct (eq_memo_follows h R HR Hwf _ a b ∅ r memo' Hcall Hab) as [-> _]; [|reflexivity].
  intros k v Hk. rewrite lookup_empty in Hk. discriminate.
Qed.

Section CopyFacts.
Context `{Packing}.
Variable python3 : bool.

Lemma extend_items_nodes what (h : heap) (items : list slot) :
  (forall s, s ∈ items -> in_heap h s) -> extend_items what h items = Ok (items, h).
Proof.
  induction items as [|x items IH]; intros Hin; [reflexivity|].
  destruct (Hin x (list_elem_of_here _ _)) as (b & -> & _). cbn [extend_items as_schema].
  rewrite IH by (intros s Hs; apply Hin, list_elem_of_further, Hs). reflexivity.
Qed.

Lemma extend_fields_nodes (h : heap) (fs : list (string * slot)) :
  (forall s, s ∈ fs.*2 -> in_heap h s) -> forallb is_identifier fs.*1 = true ->
  extend_fields python3 h fs = Ok (fs, h).
Proof.
  induction fs as [|[k x] fs IH]; intros Hin Hid; [reflexivity|].
  cbn [fmap list_fmap fst snd forallb] in Hin, Hid.
  apply andb_true_iff in Hid as [Hk Hid].
  destruct (Hin x (list_elem_of_here _ _)) as (b & -> & _).
  cbn [extend_fields as_schema]. rewrite Hk. cbn [negb bind fst snd].
  rewrite IH; [reflexivity| |exact Hid].
  intros s Hs. apply Hin, list_elem_of_further, Hs.
Qed.

Lemma extend_fields_rejects (h : heap) (fs : list (string * slot)) :
  (forall s, s ∈ fs.*2 -> in_heap h s) -> forallb is_identifier fs.*1 = false ->
  extend_fields python3 h fs
  = Raise (if python3
           then AttributeError "'AssertionError' object has no attribute 'message'"
           else TypeError "fields must be a dict from identifier strings to Schemas; the key is not an identifier").
Proof.
  induction fs as [|[k x] fs IH]; intros Hin Hid; [discriminate|].
  cbn [fmap list_fmap fst snd forallb] in Hin, Hid.
  cbn [extend_fields]. destruct (is_identifier k) eqn:Hk;
    [|destruct python3; reflexivity].
  destruct (Hin x (list_elem_of_here _ _)) as (b & -> & _).
  cbn [negb as_schema bind fst snd]. rewrite IH; [reflexivity| |exact Hid].
  intros s Hs. apply Hin, list_elem_of_further, Hs.
Qed.

Lemma dict_set_fresh {V} (d : list (string * V)) k v :
  k ∉ d.*1 -> dict_set d k v = (d ++ [(k, v)])%list.
Proof.
  induction d as [|[k0 v0] d IH]; intros Hk; [reflexivity|]. simpl.
  rewrite bool_decide_eq_false_2.
  - rewrite IH; [reflexivity|]. intros Hin. apply Hk. simpl. apply list_elem_of_further, Hin.
  - intros ->. apply Hk. simpl. apply list_elem_of_here.
Qed.

Lemma ordered_items_NoDup (fs : list (string * slot)) :
  NoDup fs.*1 -> ordered_items fs = fs.
Proof.
  unfold ordered_items. intros Hnd.
  assert (Hgen : forall acc : list (string * slot), NoDup (acc ++ fs)%list.*1 ->
            foldl (fun d nv => dict_set d nv.1 nv.2) acc fs = (acc ++ fs)%list).
  { clear Hnd. induction fs as [|[k x] fs IH]; intros acc Hnd; simpl.
    - rewrite app_nil_r. reflexivity.
    - rewrite dict_set_fresh.
      + rewrite IH; rewrite <- app_assoc; [reflexivity|exact Hnd].
      + rewrite fmap_app in Hnd. apply NoDup_app in Hnd as (_ & Hdisj & _).
        intros Hin. apply (Hdisj k Hin). simpl. apply list_elem_of_here. }
  apply (Hgen []). exact Hnd.
Qed.

Lemma node_valid_copy_attrs (n : node) :
  node_valid n = true ->
  copy_attrs (common n)
  = Ok (Attrs (nullable (common n)) (mask (common n)) (packing (common n))
          (name (common n)) None).
Proof.
  unfold node_valid, copy_attrs, name_check. rewrite andb_true_iff. intros [Hname _].
  destruct (name (common n)) as [s|]; simpl; [rewrite Hname|]; reflexivity.
Qed.

(** On a node that holds what its setters accept, [copy] allocates the
    same node without its [doc]. *)
Lemma copy_allocates (h : heap) (a : addr) (n : node) :
  heap_wf h -> h !! a = Some n -> node_valid n = true ->
  copy python3 h a = Ok (length h, (h ++ [clear_doc n])%list).
Proof.
  intros Hwf Ha Hvalid. destruct (Hwf a n Ha) as [Hch Hnd].
  pose proof (node_valid_copy_attrs n Hvalid) as Hattrs.
  unfold copy. rewrite Ha.
  destruct n as [t dims data c|x starts stops c|ps tags offsets c|fs c|ts c|x positions c];
    cbn [common children] in *.
  - unfold node_valid in Hvalid. apply andb_true_iff in Hvalid as [_ Hdims].
    unfold dims_check. rewrite Hdims. cbn [bind]. rewrite Hattrs. reflexivity.
  - destruct (Hch x (list_elem_of_here _ _)) as (b & -> & _).
    cbn [as_schema bind fst snd]. rewrite Hattrs. reflexivity.
  - rewrite extend_items_nodes by exact Hch. cbn [bind fst snd]. rewrite Hattrs. reflexivity.
  - unfold node_valid in Hvalid. apply andb_true_iff in Hvalid as [_ Hkeys].
    rewrite extend_fields_nodes by assumption. cbn [bind fst snd]. rewrite Hattrs.
    cbn [bind]. rewrite ordered_items_NoDup by (eapply Hnd; reflexivity). reflexivity.
  - rewrite extend_items_nodes by exact Hch. cbn [bind fst snd]. rewrite Hattrs. reflexivity.
  - destruct (Hch x (list_elem_of_here _ _)) as (b & -> & _).
    cbn [as_schema bind fst snd]. rewrite Hattrs. reflexivity.
Qed.

Lemma children_clear_doc (n : node) : children (clear_doc n) = children n.
Proof. destruct n; reflexivity. Qed.

Lemma heap_wf_snoc (h : heap) (n : node) :
  heap_wf h -> (forall s, s ∈ children n -> in_heap h s) ->
  (forall fs c, n = Record_ fs c -> NoDup fs.*1) ->
  heap_wf (h ++ [n]).
Proof.
  intros Hwf Hch Hnd a m Ha.
  assert (Hweak : forall s, in_heap h s -> in_heap (h ++ [n]) s).
  { intros s (b & -> & Hb). exists b. split; [reflexivity|]. rewrite length_app. lia. }
  destruct (decide (a < length h)%nat) as [Hlt|Hge].
  - rewrite lookup_app_l in Ha by exact Hlt. destruct (Hwf a m Ha) as [Hc Hn].
    split; [|exact Hn]. intros s Hs. apply Hweak, Hc, Hs.
  - rewrite lookup_app_r in Ha by lia.
    destruct (a - length h)%nat; [|destruct n0; discriminate].
    injection Ha as <-. split; [|exact Hnd]. intros s Hs. apply Hweak, Hch, Hs.
Qed.

(** The correspondence between a copy at the end of the arena and its
    original: every older node with itself, the copy with the original. *)
Definition copy_rel (h : heap) (a : addr) (x y : addr) : Prop :=
  (x = y /\ (x < length h)%nat) \/ (x = length h /\ y = a).

Lemma node_sim_self (R : addr -> addr -> Prop) (n m : node) :
  packing_eq_reflexive ->
  clear_doc n = clear_doc m ->
  (forall s, s ∈ children m -> exists b, s = Node b /\ R b b) ->
  (forall fs c, m = Record_ fs c -> NoDup fs.*1) ->
  node_sim R n m.
Proof.
  intros Hpk Heq Hch Hnd.
  assert (Hattrs : forall c c' : attrs,
            Attrs (nullable c) (mask c) (packing c) (name c) None
            = Attrs (nullable c') (mask c') (packing c') (name c') None ->
            nullable c = nullable c' /\ attrs_sim c c').
  { intros c c' [= Hn Hm Hp Hnm]. split; [exact Hn|]. split; [exact Hm|]. split; [|exact Hnm].
    rewrite Hp. destruct (packing c') as [p|]; simpl; [apply Hpk|reflexivity]. }
  assert (Hslot : forall s, s ∈ children m -> slot_sim R s s).
  { intros s Hs. destruct (Hch s Hs) as (b & -> & Hb). exists b, b. auto. }
  assert (Hall : forall l : list slot, (forall s, s ∈ l -> slot_sim R s s) ->
            Forall2 (slot_sim R) l l).
  { intros l Hl. induction l as [|s l IH]; constructor.
    - apply Hl, list_elem_of_here.
    - apply IH. intros s' Hs'. apply Hl, list_elem_of_further, Hs'. }
  pose proof (f_equal common Heq) as Hc.
  destruct n, m; cbn [clear_doc common] in Heq, Hc; try discriminate;
    destruct (Hattrs _ _ Hc) as [Hnl Has];
    injection Heq; intros; subst; cbn [node_sim children] in *.
  - do 3 (split; [reflexivity|]). split; [exact Hnl|exact Has].
  - split; [reflexivity|]. split; [reflexivity|]. split; [exact Has|].
    apply Hslot, list_elem_of_here.
  - split; [reflexivity|]. split; [reflexivity|]. split; [exact Hnl|]. split; [exact Has|].
    apply Hall, Hslot.
  - split; [exact Hnl|]. split; [exact Has|].
    split; [apply same_keys_refl; eapply Hnd; reflexivity|].
    intros k x y Hx Hy. rewrite Hx in Hy. injection Hy as <-.
    apply Hslot. apply (dict_get_elem _ _ _ Hx).
  - split; [exact Hnl|]. split; [exact Has|]. apply Hall, Hslot.
  - split; [reflexivity|]. split; [exact Hnl|]. split; [exact Has|].
    apply Hslot, list_elem_of_here.
Qed.

Lemma clear_doc_idem (n : node) : clear_doc (clear_doc n) = clear_doc n.
Proof. destruct n; reflexivity. Qed.

Lemma copy_rel_correspondence (h : heap) (a : addr) (n : node) :
  heap_wf h -> packing_eq_reflexive -> h !! a = Some n ->
  eq_correspondence (h ++ [clear_doc n]) (copy_rel h a).
Proof.
  intros Hwf Hpk Ha. split.
  - intros x y [[<- Hx]|[-> ->]].
    + destruct (lookup_lt_is_Some_2 h x Hx) as [m Hm].
      exists m, m. rewrite lookup_app_l by exact Hx. split; [exact Hm|]. split; [exact Hm|].
      destruct (Hwf x m Hm) as [Hch Hnd].
      apply node_sim_self; [exact Hpk|reflexivity| |exact Hnd].
      intros s Hs. destruct (Hch s Hs) as (b & -> & Hb). exists b. split; [reflexivity|].
      left. auto.
    + exists (clear_doc n), n. split.
      { rewrite lookup_app_r by lia. rewrite Nat.sub_diag. reflexivity. }
      split; [rewrite lookup_app_l by (eapply lookup_lt_Some; eauto); exact Ha|].
      destruct (Hwf a n Ha) as [Hch Hnd].
      apply node_sim_self; [exact Hpk|apply clear_doc_idem| |exact Hnd].
      intros s Hs. destruct (Hch s Hs) as (b & -> & Hb). exists b. split; [reflexivity|].
      left. auto.
  - intros x y y' [[<- Hx]|[-> ->]] [[Hy' Hx']|[Hx' ->]] _; subst; try reflexivity; lia.
Qed.

End CopyFacts.

(** X19: [x.copy()] on a node whose attributes are what the setters accept
    returns a new node that holds the attributes and the very children of
    [x], except for [doc], which is lost; the copy compares equal to [x].
    This holds on Python 2 and on Python 3. *)
Theorem copy_equals_original `{Packing} (python3 : bool) (h : heap) (a : addr) (n : node) :
  heap_wf h -> packing_eq_reflexive ->
  h !! a = Some n -> node_valid n = true ->
  copy python3 h a = Ok (length h, (h ++ [clear_doc n])%list)
  /\ __eq__ (h ++ [clear_doc n]) (length h) a = Ok true.
Proof.
  intros Hwf Hpk Ha Hvalid. split; [apply copy_allocates; assumption|].
  destruct (Hwf a n Ha) as [Hch Hnd].
  apply (eq_true_of_correspondence _ (copy_rel h a)).
  - apply heap_wf_snoc; [exact Hwf|rewrite children_clear_doc; exact Hch|].
    intros fs c Hfs. destruct n; try discriminate. injection Hfs as <- _.
    eapply Hnd. reflexivity.
  - exact Hpk.
  - apply copy_rel_correspondence; assumption.
  - right. auto.
Qed.

(** The copy of the List of the cycle [l = List(Pointer(l))] *)
Lemma copy_equals_original_witness :
  copy true list_cycle 0%nat
  = Ok (2%nat, (list_cycle ++ [clear_doc (List (Node 1%nat) None None plain)])%list)
  /\ __eq__ (list_cycle ++ [clear_doc (List (Node 1%nat) None None plain)]) 2%nat 0%nat
     = Ok true.
Proof.
  apply (copy_equals_original true list_cycle 0%nat (List (Node 1%nat) None None plain)
           list_cycle_wf NoPacking_eq_reflexive eq_refl eq_refl).
Defined.

(** The other way round the comparison fails on that cycle: the memo
    matches [l] with its copy, and the Pointer leads back to [l] itself. *)
Example original_differs_from_copy_of_cycle :
  __eq__ (list_cycle ++ [clear_doc (List (Node 1%nat) None None plain)]) 0%nat 2%nat
  = Ok false.
Proof. reflexivity. Qed.

(** X20: [record[key] = value] takes any string for a field name, where the
    constructor and the [fields] setter take identifiers only: after the
    assignment of a name that is not an identifier, [copy] raises.  The
    setter's assertion fails and its handler runs
    [raise TypeError(err.message)]: on Python 2 that is the TypeError with
    the assertion's message, on Python 3, where an exception has no
    [message], the AttributeError of the handler itself. *)
Theorem setitem_admits_what_copy_rejects `{Packing} (python3 : bool) (h : heap) (r v : addr)
    (fs : list (string * slot)) (c : attrs) (key : string) :
  heap_wf h -> h !! r = Some (Record_ fs c) -> (v < length h)%nat ->
  is_identifier key = false ->
  exists h' msg,
    record_setitem h r key (Node v) = Ok h'
    /\ h' !! r = Some (Record_ (dict_set fs key (Node v)) c)
    /\ copy python3 h' r
       = Raise (if python3
                then AttributeError "'AssertionError' object has no attribute 'message'"
                else TypeError msg).
Proof.
  intros Hwf Hr Hv Hkey. unfold record_setitem. rewrite Hr.
  assert (Hrl : (r < length h)%nat) by (eapply lookup_lt_Some; eauto).
  eexists _, _. split; [reflexivity|].
  assert (Hr' : <[r:=Record_ (dict_set fs key (Node v)) c]> h !! r
                = Some (Record_ (dict_set fs key (Node v)) c))
    by (apply list_lookup_insert_eq; exact Hrl).
  split; [exact Hr'|]. unfold copy. rewrite Hr'.
  rewrite extend_fields_rejects; [destruct python3; reflexivity| |].
  - intros s Hs. destruct (Hwf r _ Hr) as [Hch _]. cbn [children] in Hch.
    assert (Hin : s = Node v \/ s ∈ fs.*2).
    { clear -Hs. induction fs as [|[k0 x0] fs IH]; simpl in Hs.
      - apply list_elem_of_singleton in Hs. auto.
      - case_bool_decide; simpl in Hs; apply elem_of_cons in Hs as [->|Hs]; auto.
        + right. apply list_elem_of_further, Hs.
        + right. apply list_elem_of_here.
        + destruct (IH Hs) as [->|Hin]; auto. right. apply list_elem_of_further, Hin. }
    destruct Hin as [->|Hin].
    + exists v. split; [reflexivity|]. rewrite length_insert. exact Hv.
    + destruct (Hch s Hin) as (b & -> & Hb). exists b. split; [reflexivity|].
      rewrite length_insert. exact Hb.
  - clear -Hkey. induction fs as [|[k0 x0] fs IH]; cbn [dict_set].
    + cbn. rewrite Hkey. reflexivity.
    + case_bool_decide as Hk; cbn [fmap list_fmap fst forallb].
      * rewrite Hkey. reflexivity.
      * change (is_identifier k0 && forallb is_identifier (dict_set fs key (Node v)).*1 = false).
        rewrite IH. apply andb_false_r.
Qed.

Lemma setitem_admits_what_copy_rejects_witness :
  exists h' msg,
    record_setitem muons 1%nat "1st" (Node 0%nat) = Ok h'
    /\ h' !! 1%nat = Some (Record_ (dict_set [("pt", Node 0%nat)] "1st" (Node 0%nat)) plain)
    /\ copy true h' 1%nat
       = Raise (if true
                then AttributeError "'AssertionError' object has no attribute 'message'"
                else TypeError msg).
Proof.
  apply (setitem_admits_what_copy_rejects true muons 1%nat 0%nat [("pt", Node 0%nat)] plain "1st").
  - apply heap_wfb_sound. reflexivity.
  - reflexivity.
  - simpl. lia.
  - reflexivity.
Defined.

(** ** The round trip through JSON *)

Lemma dict_get_cons_eq {V} (d : list (string * V)) k v : dict_get ((k, v) :: d) k = Some v.
Proof. simpl. rewrite bool_decide_eq_true_2; reflexivity. Qed.

Lemma dict_get_cons_ne {V} (d : list (string * V)) k k' v :
  k <> k' -> dict_get ((k, v) :: d) k' = dict_get d k'.
Proof. intros Hne. simpl. rewrite bool_decide_eq_false_2 by exact Hne. reflexivity. Qed.

Ltac dict_get_simpl :=
  repeat first
    [ rewrite dict_get_set_if_eq
    | rewrite dict_get_set_if_ne by discriminate
    | rewrite dict_get_cons_eq
    | rewrite dict_get_cons_ne by discriminate ].

Section DictOfNode.
Context `{Packing}.

Lemma tail_tojson_get_other e (c : attrs) lbl out k :
  k <> "label" -> k <> "doc" -> k <> "name" -> k <> "packing" -> k <> "mask" ->
  dict_get (tail_tojson e c lbl out) k = dict_get out k.
Proof.
  intros. unfold tail_tojson. rewrite !dict_get_set_if_ne by congruence. reflexivity.
Qed.

Lemma nullable_tojson_get_other e (c : attrs) out k :
  k <> "nullable" -> dict_get (nullable_tojson e c out) k = dict_get out k.
Proof. intros. unfold nullable_tojson. rewrite dict_get_set_if_ne by congruence. reflexivity. Qed.

Lemma role_tojson_get_other e k0 v out k :
  k0 <> k -> dict_get (role_tojson e k0 v out) k = dict_get out k.
Proof. intros. unfold role_tojson. rewrite dict_get_set_if_ne by congruence. reflexivity. Qed.

Lemma role_tojson_get e k v out :
  dict_get out k = None ->
  get_default (role_tojson e k v out) k JNull = json_of_optstring v.
Proof.
  intros Hout. unfold role_tojson, get_default. rewrite dict_get_set_if_eq, Hout.
  destruct e, v; reflexivity.
Qed.

Lemma nullable_tojson_get e (c : attrs) out :
  dict_get out "nullable" = None ->
  get_default (nullable_tojson e c out) "nullable" (JBool false) = JBool (nullable c).
Proof.
  intros Hout. unfold nullable_tojson, get_default. rewrite dict_get_set_if_eq, Hout.
  destruct e, (nullable c); reflexivity.
Qed.

Lemma optstr_setter_json what o : optstr_setter what (json_of_optstring o) = Ok o.
Proof. destruct o; reflexivity. Qed.

(** What the last assignments of [_fromjson] read back from the keys that
    [_tojson] writes last *)
Lemma tail_fromjson_tojson e (c : attrs) out nl :
  packing_roundtrips ->
  match name c with Some s => is_identifier s | None => true end = true ->
  dict_get out "mask" = None -> dict_get out "packing" = None ->
  dict_get out "name" = None -> dict_get out "doc" = None ->
  exists c', tail_fromjson (tail_tojson e c None out) nl = Ok c'
             /\ nullable c' = nl /\ attrs_sim c' c.
Proof.
  intros Hpk Hname Hm Hp Hn Hd. unfold tail_fromjson, tail_tojson, get_default.
  dict_get_simpl. rewrite Hm, Hp, Hn, Hd.
  assert (Hmask : match (if e || is_some (mask c)
                         then Some (json_of_optstring (mask c)) else None) with
                  | Some v => v | None => JNull end = json_of_optstring (mask c))
    by (destruct e, (mask c); reflexivity).
  assert (Hnm : match (if e || is_some (name c)
                       then Some (json_of_optstring (name c)) else None) with
                | Some v => v | None => JNull end = json_of_optstring (name c))
    by (destruct e, (name c); reflexivity).
  assert (Hdoc : match (if e || is_some (doc c)
                        then Some (json_of_optstring (doc c)) else None) with
                 | Some v => v | None => JNull end = json_of_optstring (doc c))
    by (destruct e, (doc c); reflexivity).
  assert (Hpack : match (if e || is_some (packing c)
                         then Some (_packingtojson (packing c)) else None) with
                  | Some v => v | None => JNull end = _packingtojson (packing c))
    by (destruct e, (packing c); reflexivity).
  rewrite Hmask, Hnm, Hdoc, Hpack. rewrite !optstr_setter_json. cbn [bind].
  assert (Hname' : name_setter (json_of_optstring (name c)) = Ok (name c)).
  { destruct (name c) as [s|]; simpl; [rewrite Hname|]; reflexivity. }
  rewrite Hname'.
  destruct (packing c) as [p|] eqn:Hpc; cbn [_packingtojson _packingfromjson].
  - destruct (Hpk p) as (Hnull & q & Hq & Heq).
    assert (Hfrom : _packingfromjson (PackedSource_tojson p) = Ok (Some q)).
    { unfold _packingfromjson. rewrite Hq.
      destruct (PackedSource_tojson p); try reflexivity. congruence. }
    rewrite Hfrom. cbn [bind]. eexists. split; [reflexivity|].
    split; [reflexivity|]. split; [reflexivity|]. split; [|reflexivity].
    cbn [packing]. rewrite Hpc. exact Heq.
  - cbn [bind]. eexists. split; [reflexivity|].
    split; [reflexivity|]. split; [reflexivity|]. split; [|reflexivity].
    cbn [packing]. rewrite Hpc. reflexivity.
Qed.

(** No label is registered for a node that was serialized without one. *)
Lemma finish_unlabelled e (c : attrs) out n (G : heap) :
  dict_get out "label" = None ->
  finish (tail_tojson e c None out) n (G, ∅) = Ok (Node (length G), ((G ++ [n])%list, ∅)).
Proof.
  intros Hout. unfold finish, alloc, register_label, tail_tojson. cbn [fst snd].
  dict_get_simpl. rewrite Hout. destruct e; reflexivity.
Qed.

End DictOfNode.

Section Built.
Context `{Packing}.
Variable h : heap.

Lemma map_rel_mono (rho rho' : gmap addr addr) x y :
  rho ⊆ rho' -> map_rel rho x y -> map_rel rho' x y.
Proof. intros Hsub Hx. eapply lookup_weaken; eauto. Qed.

Lemma built_nil (G : heap) : built h G [] ∅.
Proof.
  split.
  - intros x y Hx. rewrite lookup_empty in Hx. discriminate.
  - intros i n Hi. destruct i; discriminate.
Qed.

Lemma built_disjoint (G n1 n2 : heap) (rho1 rho2 : gmap addr addr) :
  built h G n1 rho1 -> built h (G ++ n1) n2 rho2 -> rho1 ##ₘ rho2.
Proof.
  intros [H1 _] [H2 _]. apply map_disjoint_spec. intros x y y' Hx Hx'.
  destruct (H1 x y Hx) as [Hr _]. destruct (H2 x y' Hx') as [Hr' _].
  rewrite length_app in Hr'. lia.
Qed.

(** The nodes of a second deserialization follow those of the first. *)
Lemma built_app (G n1 n2 : heap) (rho1 rho2 : gmap addr addr) :
  built h G n1 rho1 -> built h (G ++ n1) n2 rho2 ->
  built h G (n1 ++ n2) (rho1 ∪ rho2).
Proof.
  intros B1 B2. pose proof (built_disjoint _ _ _ _ _ B1 B2) as Hdisj.
  destruct B1 as [H1 D1]. destruct B2 as [H2 D2]. split.
  - intros x y Hx. apply lookup_union_Some in Hx; [|exact Hdisj].
    destruct Hx as [Hx|Hx].
    + destruct (H1 x y Hx) as [Hr (n & m & Hn & Hm & Hsim)]. split.
      { rewrite length_app. lia. }
      exists n, m. split; [rewrite lookup_app_l by lia; exact Hn|]. split; [exact Hm|].
      eapply node_sim_mono; [|exact Hsim]. intros a b. apply map_rel_mono.
      apply map_union_subseteq_l.
    + destruct (H2 x y Hx) as [Hr (n & m & Hn & Hm & Hsim)].
      rewrite length_app in Hr. split.
      { rewrite length_app. lia. }
      exists n, m. split.
      { rewrite lookup_app_r by lia. rewrite length_app in Hn.
        replace (x - length G - length n1)%nat with (x - (length G + length n1))%nat by lia.
        exact Hn. }
      split; [exact Hm|].
      eapply node_sim_mono; [|exact Hsim]. intros a b. apply map_rel_mono.
      apply map_union_subseteq_r, Hdisj.
  - intros i n Hi. destruct (decide (i < length n1)%nat) as [Hlt|Hge].
    + rewrite lookup_app_l in Hi by exact Hlt. exact (D1 i n Hi).
    + rewrite lookup_app_r in Hi by lia. destruct (D2 _ n Hi) as [Hch Hnd].
      split; [|exact Hnd]. intros s Hs. destruct (Hch s Hs) as (c & -> & Hc).
      exists c. split; [reflexivity|]. rewrite length_app in Hc. lia.
Qed.

(** The node that a constructor appends after the nodes of its children *)
Lemma built_snoc (G news : heap) (rho : gmap addr addr) (n m : node) (a : addr) :
  built h G news rho -> h !! a = Some m -> node_sim (map_rel rho) n m ->
  (forall s, s ∈ children n ->
     exists c, s = Node c /\ (length G <= c < length G + length news)%nat) ->
  (forall fs c, n = Record_ fs c -> NoDup fs.*1) ->
  built h G (news ++ [n]) (<[(length G + length news)%nat:=a]> rho).
Proof.
  intros [H1 D1] Ha Hsim Hch Hnd.
  assert (Hfresh : rho !! (length G + length news)%nat = None).
  { destruct (rho !! (length G + length news)%nat) as [y|] eqn:Hy; [|reflexivity].
    destruct (H1 _ _ Hy) as [Hr _]. lia. }
  assert (Hsub : rho ⊆ <[(length G + length news)%nat:=a]> rho)
    by (apply insert_subseteq, Hfresh).
  split.
  - intros x y Hx. rewrite length_app. cbn [length].
    destruct (decide (x = length G + length news)%nat) as [->|Hne].
    + rewrite lookup_insert_eq in Hx. injection Hx as <-. split; [lia|].
      exists n, m. split.
      { rewrite lookup_app_r by lia.
        replace (length G + length news - length G - length news)%nat with 0%nat by lia.
        reflexivity. }
      split; [exact Ha|]. eapply node_sim_mono; [|exact Hsim].
      intros a0 b0. apply map_rel_mono, Hsub.
    + rewrite lookup_insert_ne in Hx by congruence.
      destruct (H1 x y Hx) as [Hr (n0 & m0 & Hn0 & Hm0 & Hsim0)]. split; [lia|].
      exists n0, m0. split; [rewrite lookup_app_l by lia; exact Hn0|]. split; [exact Hm0|].
      eapply node_sim_mono; [|exact Hsim0]. intros a0 b0. apply map_rel_mono, Hsub.
  - intros i n0 Hi. destruct (decide (i < length news)%nat) as [Hlt|Hge].
    + rewrite lookup_app_l in Hi by exact Hlt. exact (D1 i n0 Hi).
    + rewrite lookup_app_r in Hi by lia.
      destruct (i - length news)%nat eqn:Hd; [|destruct n1; discriminate].
      injection Hi as <-. split; [|exact Hnd].
      intros s Hs. destruct (Hch s Hs) as (c & -> & Hc). exists c. split; [reflexivity|]. lia.
Qed.

Lemma built_root_range (G news : heap) (rho : gmap addr addr) r a :
  built h G news rho -> rho !! r = Some a ->
  (length G <= r < length G + length news)%nat.
Proof. intros [H1 _] Hr. exact (proj1 (H1 r a Hr)). Qed.

End Built.

Section FromjsonSteps.
Context `{Packing}.

Lemma get_default_tail_other e (c : attrs) lbl out k def :
  k <> "label" -> k <> "doc" -> k <> "name" -> k <> "packing" -> k <> "mask" ->
  get_default (tail_tojson e c lbl out) k def = get_default out k def.
Proof. intros. unfold get_default. rewrite tail_tojson_get_other by assumption. reflexivity. Qed.

Lemma get_default_nullable_other e (c : attrs) out k def :
  k <> "nullable" -> get_default (nullable_tojson e c out) k def = get_default out k def.
Proof. intros. unfold get_default. rewrite nullable_tojson_get_other by assumption. reflexivity. Qed.

Lemma get_default_role_other e k0 v out k def :
  k0 <> k -> get_default (role_tojson e k0 v out) k def = get_default out k def.
Proof. intros. unfold get_default. rewrite role_tojson_get_other by assumption. reflexivity. Qed.

Lemma _fromjson_primitive fuel d st dt :
  get_default d "type" (JStr "primitive") = JStr "primitive" ->
  dict_get d "dtype" = Some dt ->
  _fromjson (S fuel) (JDict d) st
  = (do t <- dtype_fromjson dt;
     do p <- _packingfromjson (get_default d "packing" JNull);
     do dims <- dims_setter (get_default d "dims" (JList []));
     do nl <- nullable_setter (get_default d "nullable" (JBool false));
     do dat <- optstr_setter "data" (get_default d "data" JNull);
     do m <- optstr_setter "mask" (get_default d "mask" JNull);
     do n <- name_setter (get_default d "name" JNull);
     do dc <- optstr_setter "doc" (get_default d "doc" JNull);
     finish d (Primitive t dims dat (Attrs nl m p n dc)) st).
Proof.
  intros Ht Hd. cbn [_fromjson]. rewrite Ht. cbn beta iota.
  rewrite bool_decide_eq_true_2 by reflexivity. rewrite Hd. reflexivity.
Qed.

Lemma _fromjson_list fuel d st x :
  get_default d "type" (JStr "primitive") = JStr "list" ->
  dict_get d "content" = Some x ->
  _fromjson (S fuel) (JDict d) st
  = (do r <- _fromjson fuel x st;
     do nl <- nullable_setter (get_default d "nullable" (JBool false));
     do starts <- optstr_setter "starts" (get_default d "starts" JNull);
     do stops <- optstr_setter "stops" (get_default d "stops" JNull);
     do c <- tail_fromjson d nl;
     finish d (List r.1 starts stops c) r.2).
Proof.
  intros Ht Hd. cbn [_fromjson]. rewrite Ht. cbn beta iota.
  rewrite bool_decide_eq_false_2 by discriminate.
  rewrite bool_decide_eq_true_2 by reflexivity. rewrite Hd. reflexivity.
Qed.

Lemma _fromjson_union fuel d st l :
  get_default d "type" (JStr "primitive") = JStr "union" ->
  dict_get d "possibilities" = Some (JList l) ->
  _fromjson (S fuel) (JDict d) st
  = (do r <- fromjson_all (_fromjson fuel) l st;
     do nl <- nullable_setter (get_default d "nullable" (JBool false));
     do tags <- optstr_setter "tags" (get_default d "tags" JNull);
     do offsets <- optstr_setter "offsets" (get_default d "offsets" JNull);
     do c <- tail_fromjson d nl;
     finish d (Union r.1 tags offsets c) r.2).
Proof.
  intros Ht Hd. cbn [_fromjson]. rewrite Ht. cbn beta iota.
  rewrite !bool_decide_eq_false_2 by discriminate.
  rewrite bool_decide_eq_true_2 by reflexivity. rewrite Hd. reflexivity.
Qed.

Lemma _fromjson_record fuel d st l pairs :
  get_default d "type" (JStr "primitive") = JStr "record" ->
  dict_get d "fields" = Some (JList l) ->
  check_pairs l = Ok (Some pairs) ->
  _fromjson (S fuel) (JDict d) st
  = (do r <- fromjson_all (_fromjson fuel) pairs.*2 st;
     do nl <- nullable_setter (get_default d "nullable" (JBool false));
     do c <- tail_fromjson d nl;
     finish d (Record_ (ordered_dict pairs.*1 r.1) c) r.2).
Proof.
  intros Ht Hd Hp. cbn [_fromjson]. rewrite Ht. cbn beta iota.
  rewrite !bool_decide_eq_false_2 by discriminate.
  rewrite bool_decide_eq_true_2 by reflexivity. rewrite Hd, Hp. reflexivity.
Qed.

Lemma _fromjson_tuple fuel d st l :
  get_default d "type" (JStr "primitive") = JStr "tuple" ->
  dict_get d "types" = Some (JList l) ->
  _fromjson (S fuel) (JDict d) st
  = (do r <- fromjson_all (_fromjson fuel) l st;
     do nl <- nullable_setter (get_default d "nullable" (JBool false));
     do c <- tail_fromjson d nl;
     finish d (Tuple r.1 c) r.2).
Proof.
  intros Ht Hd. cbn [_fromjson]. rewrite Ht. cbn beta iota.
  rewrite !bool_decide_eq_false_2 by discriminate.
  rewrite bool_decide_eq_true_2 by reflexivity. rewrite Hd. reflexivity.
Qed.

Lemma _fromjson_pointer fuel d st x :
  get_default d "type" (JStr "primitive") = JStr "pointer" ->
  dict_get d "target" = Some x ->
  _fromjson (S fuel) (JDict d) st
  = (do r <- _fromjson fuel x st;
     do nl <- nullable_setter (get_default d "nullable" (JBool false));
     do positions <- optstr_setter "positions" (get_default d "positions" JNull);
     do c <- tail_fromjson d nl;
     finish d (Pointer r.1 positions c) r.2).
Proof.
  intros Ht Hd. cbn [_fromjson]. rewrite Ht. cbn beta iota.
  rewrite !bool_decide_eq_false_2 by discriminate.
  rewrite bool_decide_eq_true_2 by reflexivity. rewrite Hd. reflexivity.
Qed.

Lemma json_depth_dict_get d k v :
  dict_get d k = Some v -> (json_depth v < json_depth (JDict d))%nat.
Proof.
  change (json_depth (JDict d))
    with (S (foldr (fun kv acc => Nat.max (json_depth kv.2) acc) O d)).
  induction d as [|[k0 v0] d IH]; [discriminate|]. cbn [dict_get foldr snd].
  case_bool_decide.
  - intros [= ->]. lia.
  - intros Hd. specialize (IH Hd). lia.
Qed.

Lemma json_depth_elem l x :
  x ∈ l -> (json_depth x < json_depth (JList l))%nat.
Proof.
  change (json_depth (JList l))
    with (S (foldr (fun x acc => Nat.max (json_depth x) acc) O l)).
  induction l as [|y l IH]; intros Hx; [inversion Hx|]. cbn [foldr].
  apply elem_of_cons in Hx as [->|Hx]; [lia|]. specialize (IH Hx). lia.
Qed.

Lemma numpy_dtype_str (t : dtype) : numpy_dtype (str_dtype t) = Ok t.
Proof. destruct t; reflexivity. Qed.

Lemma str_dtype_no_label (t : dtype) : String.prefix "#" (str_dtype t) = false.
Proof. destruct t; reflexivity. Qed.

Lemma dims_items_nonneg (dims : list Z) :
  forallb (Z.leb 0) dims = true -> dims_items (map JInt dims) = Ok dims.
Proof.
  induction dims as [|z dims IH]; [reflexivity|]. cbn [forallb map dims_items].
  intros [Hz Hd]%andb_true_iff. rewrite Hz, (IH Hd). reflexivity.
Qed.

Lemma check_pairs_zip (names : list string) (js : list json) :
  length names = length js ->
  check_pairs (zip_with (fun n x => JList [JStr n; x]) names js) = Ok (Some (zip names js)).
Proof.
  revert js. induction names as [|n names IH]; intros [|j js] Hlen; try discriminate.
  - reflexivity.
  - cbn [zip_with check_pairs]. rewrite IH by (simpl in Hlen; lia). reflexivity.
Qed.

End FromjsonSteps.

Ltac dict_solve :=
  unfold get_default, tail_tojson, role_tojson, nullable_tojson;
  dict_get_simpl; reflexivity.

Ltac get_pass :=
  repeat first
    [ rewrite get_default_tail_other by discriminate
    | rewrite get_default_role_other by discriminate
    | rewrite get_default_nullable_other by discriminate ].

Section Rebuild.
Context `{Packing}.
Variable h : heap.
Hypothesis Hpk : packing_roundtrips.

(** The last step of every class: the new node is appended after the
    nodes of its children. *)
Lemma rebuilt_node (G news : heap) (rho : gmap addr addr) (n m : node) (a : addr) :
  built h G news rho -> h !! a = Some m -> node_sim (map_rel rho) n m ->
  (forall s, s ∈ children n ->
     exists c, s = Node c /\ (length G <= c < length G + length news)%nat) ->
  (forall fs c, n = Record_ fs c -> NoDup fs.*1) ->
  exists r news' rho',
    @Ok (slot * (heap * gmap string addr))
      (Node (length (G ++ news)), (((G ++ news) ++ [n])%list, ∅))
    = Ok (Node r, ((G ++ news')%list, ∅))
    /\ built h G news' rho' /\ rho' !! r = Some a.
Proof.
  intros HB Ha Hsim Hch Hnd.
  exists (length G + length news)%nat, (news ++ [n])%list,
    (<[(length G + length news)%nat:=a]> rho).
  split; [rewrite length_app, app_assoc; reflexivity|].
  split; [apply built_snoc with m; assumption|apply lookup_insert_eq].
Qed.

Lemma fuel_for_dict (d : list (string * json)) (fuel : nat) :
  (json_depth (JDict d) <= fuel)%nat -> exists f, fuel = S f.
Proof. destruct fuel as [|f]; [simpl; lia|]. eauto. Qed.

Lemma rebuilds_list e (a b : addr) starts stops (c : attrs) j :
  h !! a = Some (List (Node b) starts stops c) -> name_ok c = true ->
  rebuilds h j b ->
  rebuilds h (JDict
    (tail_tojson e c None
    (role_tojson e "stops" stops
    (role_tojson e "starts" starts
    (nullable_tojson e c
    [("type", JStr "list"); ("content", j)]))))) a.
Proof.
  intros Ha Hname Hj G fuel Hfuel.
  set (out := role_tojson e "stops" stops (role_tojson e "starts" starts
                (nullable_tojson e c [("type", JStr "list"); ("content", j)]))) in *.
  destruct (fuel_for_dict _ _ Hfuel) as [f ->].
  assert (Hcontent : dict_get (tail_tojson e c None out) "content" = Some j)
    by (subst out; dict_solve).
  pose proof (json_depth_dict_get _ _ _ Hcontent) as Hdepth.
  destruct (Hj G f ltac:(lia)) as (r & news & rho & Hchild & HB & Hr).
  destruct (tail_fromjson_tojson e c out (nullable c) Hpk Hname) as (c' & Htail & Hnl' & Hsim);
    try (subst out; dict_solve).
  rewrite (_fromjson_list f _ _ j); [|subst out; dict_solve|exact Hcontent].
  rewrite Hchild. cbn [bind fst snd].
  assert (Hnl : get_default (tail_tojson e c None out) "nullable" (JBool false)
                = JBool (nullable c))
    by (subst out; get_pass; apply nullable_tojson_get; dict_solve).
  assert (Hstarts : get_default (tail_tojson e c None out) "starts" JNull
                    = json_of_optstring starts)
    by (subst out; get_pass; apply role_tojson_get; dict_solve).
  assert (Hstops : get_default (tail_tojson e c None out) "stops" JNull
                   = json_of_optstring stops)
    by (subst out; get_pass; apply role_tojson_get; dict_solve).
  rewrite Hnl, Hstarts, Hstops, !optstr_setter_json. cbn [nullable_setter bind].
  rewrite Htail. cbn [bind].
  rewrite finish_unlabelled by (subst out; dict_solve).
  apply rebuilt_node with (rho := rho) (m := List (Node b) starts stops c);
    [exact HB|exact Ha| | |discriminate].
  - cbn [node_sim]. split; [reflexivity|]. split; [reflexivity|]. split; [exact Hsim|].
    exists r, b. auto.
  - cbn [children]. intros s Hs. apply list_elem_of_singleton in Hs as ->.
    exists r. split; [reflexivity|]. eapply built_root_range; eauto.
Qed.

Lemma rebuilds_pointer e (a b : addr) positions (c : attrs) j :
  h !! a = Some (Pointer (Node b) positions c) -> name_ok c = true ->
  rebuilds h j b ->
  rebuilds h (JDict
    (tail_tojson e c None
    (role_tojson e "positions" positions
    (nullable_tojson e c
    [("type", JStr "pointer"); ("target", j)])))) a.
Proof.
  intros Ha Hname Hj G fuel Hfuel.
  set (out := role_tojson e "positions" positions
                (nullable_tojson e c [("type", JStr "pointer"); ("target", j)])) in *.
  destruct (fuel_for_dict _ _ Hfuel) as [f ->].
  assert (Htarget : dict_get (tail_tojson e c None out) "target" = Some j)
    by (subst out; dict_solve).
  pose proof (json_depth_dict_get _ _ _ Htarget) as Hdepth.
  destruct (Hj G f ltac:(lia)) as (r & news & rho & Hchild & HB & Hr).
  destruct (tail_fromjson_tojson e c out (nullable c) Hpk Hname) as (c' & Htail & Hnl' & Hsim);
    try (subst out; dict_solve).
  rewrite (_fromjson_pointer f _ _ j); [|subst out; dict_solve|exact Htarget].
  rewrite Hchild. cbn [bind fst snd].
  assert (Hnl : get_default (tail_tojson e c None out) "nullable" (JBool false)
                = JBool (nullable c))
    by (subst out; get_pass; apply nullable_tojson_get; dict_solve).
  assert (Hpos : get_default (tail_tojson e c None out) "positions" JNull
                 = json_of_optstring positions)
    by (subst out; get_pass; apply role_tojson_get; dict_solve).
  rewrite Hnl, Hpos, !optstr_setter_json. cbn [nullable_setter bind].
  rewrite Htail. cbn [bind].
  rewrite finish_unlabelled by (subst out; dict_solve).
  apply rebuilt_node with (rho := rho) (m := Pointer (Node b) positions c);
    [exact HB|exact Ha| | |discriminate].
  - cbn [node_sim]. split; [reflexivity|]. split; [exact Hnl'|]. split; [exact Hsim|].
    exists r, b. auto.
  - cbn [children]. intros s Hs. apply list_elem_of_singleton in Hs as ->.
    exists r. split; [reflexivity|]. eapply built_root_range; eauto.
Qed.

(** The children of a node, deserialized one after the other *)
Lemma fromjson_all_rebuilds (fuel : nat) (js : list json) (kids : list slot) :
  Forall2 (rebuilds_slot h) js kids ->
  (forall j, j ∈ js -> (json_depth j <= fuel)%nat) ->
  forall G : heap,
    exists roots news rho,
      fromjson_all (_fromjson fuel) js (G, ∅) = Ok (map Node roots, ((G ++ news)%list, ∅))
      /\ built h G news rho
      /\ Forall2 (fun r s => exists a, s = Node a /\ rho !! r = Some a) roots kids.
Proof.
  induction 1 as [|j s js kids (a & -> & Hj) Hall IH]; intros Hdepth G.
  - exists [], [], ∅. split; [rewrite app_nil_r; reflexivity|].
    split; [apply built_nil|constructor].
  - destruct (Hj G fuel (Hdepth j (list_elem_of_here _ _))) as (r & n1 & rho1 & Hchild & B1 & Hr).
    destruct (IH (fun j' Hj' => Hdepth j' (list_elem_of_further _ _ _ Hj')) (G ++ n1)%list)
      as (roots & n2 & rho2 & Hrest & B2 & Hroots).
    pose proof (built_disjoint _ _ _ _ _ _ B1 B2) as Hdisj.
    exists (r :: roots), (n1 ++ n2)%list, (rho1 ∪ rho2).
    split; [|split].
    + cbn [fromjson_all]. rewrite Hchild. cbn [bind fst snd]. rewrite Hrest.
      cbn [bind fst snd map]. rewrite app_assoc. reflexivity.
    + apply built_app; assumption.
    + constructor.
      * exists a. split; [reflexivity|]. apply lookup_union_Some_l, Hr.
      * eapply Forall2_impl; [exact Hroots|]. intros r' s' (a' & -> & Hr').
        exists a'. split; [reflexivity|].
        eapply lookup_weaken; [exact Hr'|]. apply map_union_subseteq_r, Hdisj.
Qed.

Lemma roots_in_range (G news : heap) (rho : gmap addr addr) roots (kids : list slot) :
  built h G news rho ->
  Forall2 (fun r s => exists a, s = Node a /\ rho !! r = Some a) roots kids ->
  forall s, s ∈ map Node roots ->
    exists c, s = Node c /\ (length G <= c < length G + length news)%nat.
Proof.
  intros HB Hroots s Hs. apply list_elem_of_fmap in Hs as (r & -> & Hr).
  exists r. split; [reflexivity|].
  apply list_elem_of_lookup in Hr as [i Hi].
  destruct (Forall2_lookup_l _ _ _ _ _ Hroots Hi) as (s & _ & a & _ & Ha).
  eapply built_root_range; eauto.
Qed.

Lemma roots_sim (rho : gmap addr addr) roots (kids : list slot) :
  Forall2 (fun r s => exists a, s = Node a /\ rho !! r = Some a) roots kids ->
  Forall2 (slot_sim (map_rel rho)) (map Node roots) kids.
Proof.
  induction 1 as [|r s roots kids (a & -> & Ha) _ IH]; constructor; [|exact IH].
  exists r, a. auto.
Qed.

Lemma rebuilds_union e (a : addr) ps tags offsets (c : attrs) js :
  h !! a = Some (Union ps tags offsets c) -> name_ok c = true ->
  Forall2 (rebuilds_slot h) js ps ->
  rebuilds h (JDict
    (tail_tojson e c None
    (role_tojson e "offsets" offsets
    (role_tojson e "tags" tags
    (nullable_tojson e c
    [("type", JStr "union"); ("possibilities", JList js)]))))) a.
Proof.
  intros Ha Hname Hjs G fuel Hfuel.
  set (out := role_tojson e "offsets" offsets (role_tojson e "tags" tags
                (nullable_tojson e c [("type", JStr "union"); ("possibilities", JList js)])))
    in *.
  destruct (fuel_for_dict _ _ Hfuel) as [f ->].
  assert (Hkids : dict_get (tail_tojson e c None out) "possibilities" = Some (JList js))
    by (subst out; dict_solve).
  pose proof (json_depth_dict_get _ _ _ Hkids) as Hdepth.
  destruct (fromjson_all_rebuilds f js ps Hjs) with (G := G)
    as (roots & news & rho & Hchild & HB & Hroots).
  { intros j Hj. pose proof (json_depth_elem _ _ Hj). lia. }
  destruct (tail_fromjson_tojson e c out (nullable c) Hpk Hname) as (c' & Htail & Hnl' & Hsim);
    try (subst out; dict_solve).
  rewrite (_fromjson_union f _ _ js); [|subst out; dict_solve|exact Hkids].
  rewrite Hchild. cbn [bind fst snd].
  assert (Hnl : get_default (tail_tojson e c None out) "nullable" (JBool false)
                = JBool (nullable c))
    by (subst out; get_pass; apply nullable_tojson_get; dict_solve).
  assert (Htags : get_default (tail_tojson e c None out) "tags" JNull
                  = json_of_optstring tags)
    by (subst out; get_pass; apply role_tojson_get; dict_solve).
  assert (Hoffsets : get_default (tail_tojson e c None out) "offsets" JNull
                     = json_of_optstring offsets)
    by (subst out; get_pass; apply role_tojson_get; dict_solve).
  rewrite Hnl, Htags, Hoffsets, !optstr_setter_json. cbn [nullable_setter bind].
  rewrite Htail. cbn [bind].
  rewrite finish_unlabelled by (subst out; dict_solve).
  apply rebuilt_node with (rho := rho) (m := Union ps tags offsets c);
    [exact HB|exact Ha| | |discriminate].
  - cbn [node_sim]. do 2 (split; [reflexivity|]). split; [exact Hnl'|]. split; [exact Hsim|].
    apply roots_sim, Hroots.
  - cbn [children]. eapply roots_in_range; eauto.
Qed.

Lemma rebuilds_tuple e (a : addr) ts (c : attrs) js :
  h !! a = Some (Tuple ts c) -> name_ok c = true ->
  Forall2 (rebuilds_slot h) js ts ->
  rebuilds h (JDict
    (tail_tojson e c None
    (nullable_tojson e c
    [("type", JStr "tuple"); ("types", JList js)]))) a.
Proof.
  intros Ha Hname Hjs G fuel Hfuel.
  set (out := nullable_tojson e c [("type", JStr "tuple"); ("types", JList js)]) in *.
  destruct (fuel_for_dict _ _ Hfuel) as [f ->].
  assert (Hkids : dict_get (tail_tojson e c None out) "types" = Some (JList js))
    by (subst out; dict_solve).
  pose proof (json_depth_dict_get _ _ _ Hkids) as Hdepth.
  destruct (fromjson_all_rebuilds f js ts Hjs) with (G := G)
    as (roots & news & rho & Hchild & HB & Hroots).
  { intros j Hj. pose proof (json_depth_elem _ _ Hj). lia. }
  destruct (tail_fromjson_tojson e c out (nullable c) Hpk Hname) as (c' & Htail & Hnl' & Hsim);
    try (subst out; dict_solve).
  rewrite (_fromjson_tuple f _ _ js); [|subst out; dict_solve|exact Hkids].
  rewrite Hchild. cbn [bind fst snd].
  assert (Hnl : get_default (tail_tojson e c None out) "nullable" (JBool false)
                = JBool (nullable c))
    by (subst out; get_pass; apply nullable_tojson_get; dict_solve).
  rewrite Hnl. cbn [nullable_setter bind].
  rewrite Htail. cbn [bind].
  rewrite finish_unlabelled by (subst out; dict_solve).
  apply rebuilt_node with (rho := rho) (m := Tuple ts c);
    [exact HB|exact Ha| | |discriminate].
  - cbn [node_sim]. split; [exact Hnl'|]. split; [exact Hsim|].
    apply roots_sim, Hroots.
  - cbn [children]. eapply roots_in_range; eauto.
Qed.

Lemma dict_get_is_some {V} (d : list (string * V)) k :
  k ∈ d.*1 -> is_some (dict_get d k) = true.
Proof.
  induction d as [|[k0 v0] d IH]; intros Hk; [inversion Hk|]. cbn [dict_get].
  case_bool_decide as Hk0; [reflexivity|]. apply IH.
  cbn [fmap list_fmap fst] in Hk. apply elem_of_cons in Hk as [->|Hk]; [contradiction|exact Hk].
Qed.

Lemma same_keys_same_names (fs gs : list (string * slot)) :
  fs.*1 = gs.*1 -> same_keys fs gs = true.
Proof.
  intros Hnames. unfold same_keys, dict_keys. apply andb_true_iff.
  split; apply forallb_forall; intros k Hk%list_elem_of_In; apply dict_get_is_some;
    congruence.
Qed.

Lemma zip_fields_sim (R : addr -> addr -> Prop) (fs : list (string * slot)) roots :
  Forall2 (fun r s => exists a, s = Node a /\ R r a) roots fs.*2 ->
  forall k x y,
    dict_get (zip fs.*1 (map Node roots)) k = Some x -> dict_get fs k = Some y ->
    slot_sim R x y.
Proof.
  revert roots. induction fs as [|[k0 s0] fs IH]; intros roots Hroots k x y Hx Hy;
    [discriminate|].
  cbn [fmap list_fmap fst snd] in Hroots.
  inversion Hroots as [|r s roots' kids' (a & -> & Ha) Hrest]; subst.
  cbn [fmap list_fmap fst map zip zip_with dict_get] in Hx, Hy.
  case_bool_decide.
  - injection Hx as <-. injection Hy as <-. exists r, a. auto.
  - exact (IH roots' Hrest k x y Hx Hy).
Qed.

Lemma fields_depth (names : list string) (js : list json) j :
  j ∈ js -> length names = length js ->
  (S (json_depth j) < json_depth (JList (zip_with (fun n x => JList [JStr n; x]) names js)))%nat.
Proof.
  intros Hj Hlen. apply list_elem_of_lookup in Hj as [i Hi].
  destruct (lookup_lt_is_Some_2 names i) as [n Hn].
  { rewrite Hlen. eapply lookup_lt_Some; eauto. }
  assert (Hpair : JList [JStr n; j] ∈ zip_with (fun n x => JList [JStr n; x]) names js).
  { apply list_elem_of_lookup. exists i. rewrite lookup_zip_with, Hn, Hi. reflexivity. }
  apply json_depth_elem in Hpair.
  assert (Hin : (json_depth j < json_depth (JList [JStr n; j]))%nat).
  { apply json_depth_elem. apply list_elem_of_further, list_elem_of_here. }
  lia.
Qed.

Lemma rebuilds_record e (a : addr) fs (c : attrs) js :
  h !! a = Some (Record_ fs c) -> name_ok c = true -> NoDup fs.*1 ->
  Forall2 (rebuilds_slot h) js fs.*2 ->
  rebuilds h (JDict
    (tail_tojson e c None
    (nullable_tojson e c
    [("type", JStr "record");
     ("fields", JList (zip_with (fun n x => JList [JStr n; x]) fs.*1 js))]))) a.
Proof.
  intros Ha Hname Hnd Hjs G fuel Hfuel.
  set (fields_ := JList (zip_with (fun n x => JList [JStr n; x]) fs.*1 js)) in *.
  set (out := nullable_tojson e c [("type", JStr "record"); ("fields", fields_)]) in *.
  destruct (fuel_for_dict _ _ Hfuel) as [f ->].
  assert (Hlen : length fs.*1 = length js).
  { rewrite (Forall2_length _ _ _ Hjs), !length_fmap. reflexivity. }
  assert (Hkids : dict_get (tail_tojson e c None out) "fields" = Some fields_)
    by (subst out; dict_solve).
  pose proof (json_depth_dict_get _ _ _ Hkids) as Hdepth.
  destruct (fromjson_all_rebuilds f js fs.*2 Hjs) with (G := G)
    as (roots & news & rho & Hchild & HB & Hroots).
  { intros j Hj. pose proof (fields_depth fs.*1 js j Hj Hlen). subst fields_. lia. }
  destruct (tail_fromjson_tojson e c out (nullable c) Hpk Hname) as (c' & Htail & Hnl' & Hsim);
    try (subst out; dict_solve).
  rewrite (_fromjson_record f _ _ (zip_with (fun n x => JList [JStr n; x]) fs.*1 js)
             (zip fs.*1 js));
    [|subst out; dict_solve|exact Hkids|apply check_pairs_zip, Hlen].
  rewrite snd_zip by lia. rewrite fst_zip by lia.
  rewrite length_fmap in Hlen.
  rewrite Hchild. cbn [bind fst snd].
  assert (Hnl : get_default (tail_tojson e c None out) "nullable" (JBool false)
                = JBool (nullable c))
    by (subst out; get_pass; apply nullable_tojson_get; dict_solve).
  rewrite Hnl. cbn [nullable_setter bind].
  rewrite Htail. cbn [bind].
  rewrite finish_unlabelled by (subst out; dict_solve).
  assert (Hrl : length roots = length fs).
  { rewrite (Forall2_length _ _ _ Hroots), !length_fmap. reflexivity. }
  assert (Hnames : (zip fs.*1 (map Node roots)).*1 = fs.*1)
    by (apply fst_zip; rewrite length_fmap, length_map; lia).
  assert (Hdict : ordered_dict fs.*1 (map Node roots) = zip fs.*1 (map Node roots)).
  { apply (ordered_items_NoDup (zip fs.*1 (map Node roots))). rewrite Hnames. exact Hnd. }
  rewrite Hdict.
  apply rebuilt_node with (rho := rho) (m := Record_ fs c); [exact HB|exact Ha| | |].
  - cbn [node_sim]. split; [exact Hnl'|]. split; [exact Hsim|].
    split; [apply same_keys_same_names, Hnames|].
    apply zip_fields_sim, Hroots.
  - cbn [children]. rewrite snd_zip by (rewrite length_fmap, length_map; lia).
    eapply roots_in_range; eauto.
  - intros fs' c0 [= <- _]. rewrite Hnames. exact Hnd.
Qed.

Lemma rebuilds_primitive_short (a : addr) t dims data (c : attrs) :
  h !! a = Some (Primitive t dims data c) ->
  bool_decide (dims = []) && negb (nullable c)
    && negb (is_some data) && negb (is_some (mask c))
    && negb (is_some (packing c)) && negb (is_some (name c)) = true ->
  rebuilds h (JStr (str_dtype t)) a.
Proof.
  intros Ha Hplain G fuel Hfuel.
  destruct fuel as [|f]; [simpl in Hfuel; lia|].
  repeat (apply andb_true_iff in Hplain as [Hplain ?]).
  apply bool_decide_eq_true_1 in Hplain. subst dims.
  destruct (rebuilt_node G [] ∅ (Primitive t [] None (Attrs false None None None None))
              (Primitive t [] data c) a (built_nil h G) Ha)
    as (r & news & rho & Heq & HB & Hr); [| |discriminate|].
  - cbn [node_sim]. destruct data; [discriminate|].
    destruct c as [nl m p nm dc]; cbn [nullable mask packing name] in *.
    destruct nl, m, p, nm; try discriminate. repeat split.
  - intros s Hs. inversion Hs.
  - exists r, news, rho. split; [|split; assumption]. rewrite <- Heq.
    cbn [_fromjson]. rewrite str_dtype_no_label.
    rewrite bool_decide_eq_false_2 by discriminate.
    rewrite numpy_dtype_str. cbn [bind alloc fst snd]. rewrite app_nil_r. reflexivity.
Qed.

Lemma rebuilds_primitive e (a : addr) t dims data (c : attrs) :
  h !! a = Some (Primitive t dims data c) -> name_ok c = true ->
  forallb (Z.leb 0) dims = true ->
  rebuilds h (JDict
    (tail_tojson e c None
    (role_tojson e "data" data
    (nullable_tojson e c
    (set_if (e || negb (bool_decide (dims = []))) "dims" (JList (map JInt dims))
       [("type", JStr "primitive"); ("dtype", JStr (str_dtype t))]))))) a.
Proof.
  intros Ha Hname Hdims G fuel Hfuel.
  set (out := role_tojson e "data" data (nullable_tojson e c
                (set_if (e || negb (bool_decide (dims = []))) "dims" (JList (map JInt dims))
                   [("type", JStr "primitive"); ("dtype", JStr (str_dtype t))]))) in *.
  destruct (fuel_for_dict _ _ Hfuel) as [f ->].
  destruct (tail_fromjson_tojson e c out (nullable c) Hpk Hname) as (c' & Htail & Hnl' & Hsim);
    try (subst out; dict_solve).
  unfold tail_fromjson in Htail.
  apply bind_ok in Htail as (m & Hm & Htail). apply bind_ok in Htail as (p & Hp & Htail).
  apply bind_ok in Htail as (nm & Hnm & Htail). apply bind_ok in Htail as (dc & Hdc & Htail).
  injection Htail as <-.
  rewrite (_fromjson_primitive f _ _ (JStr (str_dtype t))); [| |]; try (subst out; dict_solve).
  cbn [dtype_fromjson]. rewrite numpy_dtype_str, Hp, Hm, Hnm, Hdc. cbn [bind].
  assert (Hd : dims_setter (get_default (tail_tojson e c None out) "dims" (JList []))
               = Ok dims).
  { subst out. get_pass. unfold get_default. rewrite dict_get_set_if_eq.
    destruct (e || negb (bool_decide (dims = []))) eqn:Hb.
    - cbn [dims_setter]. apply dims_items_nonneg, Hdims.
    - apply orb_false_iff in Hb as [_ Hb]. apply negb_false_iff, bool_decide_eq_true_1 in Hb.
      subst dims. reflexivity. }
  assert (Hnl : get_default (tail_tojson e c None out) "nullable" (JBool false)
                = JBool (nullable c)).
  { subst out. get_pass. apply nullable_tojson_get.
    unfold set_if. destruct (e || negb (bool_decide (dims = []))); [|reflexivity].
    rewrite dict_get_dict_set, bool_decide_eq_false_2 by discriminate. reflexivity. }
  assert (Hdata : get_default (tail_tojson e c None out) "data" JNull
                  = json_of_optstring data)
    by (subst out; get_pass; apply role_tojson_get; dict_solve).
  rewrite Hd, Hnl, Hdata, optstr_setter_json. cbn [nullable_setter bind].
  rewrite finish_unlabelled by (subst out; dict_solve).
  destruct (rebuilt_node G [] ∅ (Primitive t dims data (Attrs (nullable c) m p nm dc))
              (Primitive t dims data c) a (built_nil h G) Ha)
    as (r & news & rho & Heq & HB & Hr); [| |discriminate|].
  - cbn [node_sim]. do 3 (split; [reflexivity|]). split; [reflexivity|exact Hsim].
  - intros s Hs. inversion Hs.
  - exists r, news, rho. split; [|split; assumption]. rewrite <- Heq.
    rewrite app_nil_r. reflexivity.
Qed.

End Rebuild.

Section RoundTripProof.
Context `{Packing}.
Variable h : heap.
Hypothesis Hwf : heap_wf h.
Hypothesis Hvalid : heap_valid h.
Hypothesis Hpk : packing_roundtrips.

(** [_collectlabels] only appends to the list of labels. *)
Lemma collect_all_grows (f : slot -> gset addr * list addr -> result (gset addr * list addr))
    (kids : list slot) :
  (forall s st st', f s st = Ok st' -> exists l, st'.2 = (st.2 ++ l)%list) ->
  forall st st', collect_all f kids st = Ok st' -> exists l, st'.2 = (st.2 ++ l)%list.
Proof.
  intros Hf. induction kids as [|x kids IH]; intros st st' Hc; cbn [collect_all] in Hc.
  - injection Hc as <-. exists []. rewrite app_nil_r. reflexivity.
  - apply bind_ok in Hc as (st1 & H1 & Hc).
    destruct (Hf _ _ _ H1) as [l1 Hl1]. destruct (IH _ _ Hc) as [l2 Hl2].
    exists (l1 ++ l2)%list. rewrite Hl2, Hl1, app_assoc. reflexivity.
Qed.

Lemma _collectlabels_grows (fuel : nat) (s : slot) st st' :
  _collectlabels fuel h s st = Ok st' -> exists l, st'.2 = (st.2 ++ l)%list.
Proof.
  revert s st st'. induction fuel as [|fuel IH]; intros s st st' Hc; [discriminate|].
  cbn [_collectlabels] in Hc. destruct s as [a|]; [|discriminate].
  destruct (h !! a) as [n|]; [|discriminate]. case_bool_decide.
  - injection Hc as <-. eexists. reflexivity.
  - destruct (collect_all_grows _ _ IH _ _ Hc) as [l Hl]. exists l. exact Hl.
Qed.

Lemma app_nil_inv {A} (l l' : list A) : (l ++ l')%list = [] -> l = [].
Proof. destruct l; [reflexivity|discriminate]. Qed.

(** The children of a node whose traversal found no label *)
Lemma tojson_all_rebuilds (fuel : nat) (e : bool) :
  (forall a st st' shown,
     _collectlabels fuel h (Node a) st = Ok st' -> st'.2 = [] ->
     exists j shown', _tojson fuel h e [] (Node a) shown = Ok (j, shown')
                      /\ rebuilds h j a) ->
  forall kids st st' shown,
    collect_all (_collectlabels fuel h) kids st = Ok st' -> st'.2 = [] ->
    exists js shown', tojson_all (_tojson fuel h e []) kids shown = Ok (js, shown')
                      /\ Forall2 (rebuilds_slot h) js kids.
Proof.
  intros IH. induction kids as [|x kids IHk]; intros st st' shown Hc Hnil;
    cbn [collect_all] in Hc.
  - exists [], shown. split; [reflexivity|constructor].
  - apply bind_ok in Hc as (st1 & H1 & Hc).
    destruct (collect_all_grows _ _ (_collectlabels_grows fuel) _ _ Hc) as [l Hl].
    rewrite Hnil in Hl. symmetry in Hl. apply app_nil_inv in Hl.
    assert (Hx : exists a, x = Node a).
    { destruct x as [a|s]; [eauto|]. destruct fuel; discriminate. }
    destruct Hx as [a ->].
    destruct (IH a st st1 shown H1 Hl) as (j & shown1 & Hj & Hr).
    destruct (IHk st1 st' shown1 Hc Hnil) as (js & shown' & Hjs & Hrs).
    exists (j :: js), shown'. split.
    + cbn [tojson_all]. rewrite Hj. cbn [bind fst snd]. rewrite Hjs. reflexivity.
    + constructor; [exists a; auto|exact Hrs].
Qed.

(** A node below which no node is met twice is serialized without labels,
    to a JSON value that deserializes to a node with the same content. *)
Lemma tojson_rebuilds (fuel : nat) (e : bool) :
  forall a st st' shown,
    _collectlabels fuel h (Node a) st = Ok st' -> st'.2 = [] ->
    exists j shown', _tojson fuel h e [] (Node a) shown = Ok (j, shown')
                     /\ rebuilds h j a.
Proof.
  induction fuel as [|fuel IH]; intros a st st' shown Hc Hnil; [discriminate|].
  cbn [_collectlabels] in Hc. destruct (h !! a) as [n|] eqn:Ha; [|discriminate].
  case_bool_decide.
  { injection Hc as <-. cbn [snd] in Hnil. destruct (st.2); discriminate. }
  pose proof (tojson_all_rebuilds fuel e IH _ _ _ ({[a]} ∪ shown) Hc Hnil)
    as (js & shown' & Hjs & Hrs).
  pose proof (Hvalid a n Ha) as Hv. unfold node_valid in Hv.
  apply andb_true_iff in Hv as [Hname Hclass].
  destruct (Hwf a n Ha) as [_ Hnd].
  cbn [_tojson]. rewrite Ha. unfold _label. cbn [index_of is_some negb orb].
  destruct n as [t dims data c|x starts stops c|ps tags offsets c|fs c|ts c|x positions c];
    cbn [children common] in *.
  - destruct (negb e && bool_decide (dims = []) && negb (nullable c)
              && negb (is_some data) && negb (is_some (mask c))
              && negb (is_some (packing c)) && negb (is_some (name c))) eqn:Hshort.
    + eexists _, _. split; [reflexivity|].
      apply (rebuilds_primitive_short h a t dims data c Ha).
      destruct e; [discriminate|exact Hshort].
    + eexists _, _. split; [reflexivity|].
      apply rebuilds_primitive; assumption.
  - inversion Hrs as [|j s js' kids' (b & -> & Hj) Hrest]; subst.
    inversion Hrest; subst. cbn [tojson_all] in Hjs.
    apply bind_ok in Hjs as (r & Hr & Hjs). cbn [bind] in Hjs. injection Hjs as <- <-.
    rewrite Hr. cbn [bind]. eexists _, _. split; [reflexivity|].
    eapply rebuilds_list; [exact Hpk|exact Ha|exact Hname|exact Hj].
  - rewrite Hjs. cbn [bind fst snd]. eexists _, _. split; [reflexivity|].
    eapply rebuilds_union; [exact Hpk|exact Ha|exact Hname|exact Hrs].
  - rewrite Hjs. cbn [bind fst snd]. eexists _, _. split; [reflexivity|].
    eapply rebuilds_record; [exact Hpk|exact Ha|exact Hname| |exact Hrs].
    eapply Hnd. reflexivity.
  - rewrite Hjs. cbn [bind fst snd]. eexists _, _. split; [reflexivity|].
    eapply rebuilds_tuple; [exact Hpk|exact Ha|exact Hname|exact Hrs].
  - inversion Hrs as [|j s js' kids' (b & -> & Hj) Hrest]; subst.
    inversion Hrest; subst. cbn [tojson_all] in Hjs.
    apply bind_ok in Hjs as (r & Hr & Hjs). cbn [bind] in Hjs. injection Hjs as <- <-.
    rewrite Hr. cbn [bind]. eexists _, _. split; [reflexivity|].
    eapply rebuilds_pointer; [exact Hpk|exact Ha|exact Hname|exact Hj].
Qed.

(** The second phase of deserialization finds no label to resolve. *)
Lemma finalize_built (G news : heap) (rho : gmap addr addr) (labels : gmap string addr) :
  built h G news rho ->
  forall fuel x, (x < fuel)%nat -> (length G <= x < length G + length news)%nat ->
    _finalizefromjson fuel labels x (G ++ news) = Ok (G ++ news)%list.
Proof.
  intros [_ HD]. induction fuel as [|fuel IH]; intros x Hfuel Hx; [lia|].
  cbn [_finalizefromjson].
  destruct (lookup_lt_is_Some_2 news (x - length G)%nat ltac:(lia)) as [n Hn].
  assert (HGx : (G ++ news)%list !! x = Some n).
  { rewrite lookup_app_r by lia. exact Hn. }
  rewrite HGx. destruct (HD _ _ Hn) as [Hch _].
  assert (Hidx : forall idx : list nat,
            (forall i, i ∈ idx -> (i < length (children n))%nat) ->
            finalize_slots (_finalizefromjson fuel labels) labels x idx (G ++ news)
            = Ok (G ++ news)%list).
  { induction idx as [|i idx IHi]; intros Hi; [reflexivity|].
    cbn [finalize_slots]. rewrite HGx.
    destruct (lookup_lt_is_Some_2 (children n) i (Hi i (list_elem_of_here _ _))) as [s Hs].
    rewrite Hs. destruct (Hch s (list_elem_of_lookup_2 _ _ _ Hs)) as (c & -> & Hc).
    rewrite IH by lia. cbn [bind]. apply IHi.
    intros i' Hi'. apply Hi, list_elem_of_further, Hi'. }
  apply Hidx. intros i Hi. apply elem_of_seq in Hi. lia.
Qed.

Lemma built_heap_wf (news : heap) (rho : gmap addr addr) :
  built h h news rho -> heap_wf (h ++ news).
Proof.
  intros [_ HD] a n Ha. destruct (decide (a < length h)%nat) as [Hlt|Hge].
  - rewrite lookup_app_l in Ha by exact Hlt. destruct (Hwf a n Ha) as [Hch Hnd].
    split; [|exact Hnd]. intros s Hs. destruct (Hch s Hs) as (b & -> & Hb).
    exists b. split; [reflexivity|]. rewrite length_app. lia.
  - rewrite lookup_app_r in Ha by lia. destruct (HD _ n Ha) as [Hch Hnd].
    split; [|exact Hnd]. intros s Hs. destruct (Hch s Hs) as (c & -> & Hc).
    exists c. split; [reflexivity|]. rewrite length_app.
    apply lookup_lt_Some in Ha. lia.
Qed.

Lemma built_correspondence (news : heap) (rho : gmap addr addr) :
  built h h news rho -> eq_correspondence (h ++ news) (map_rel rho).
Proof.
  intros [HB _]. split.
  - intros x y Hxy. destruct (HB x y Hxy) as [Hr (n & m & Hn & Hm & Hsim)].
    exists n, m. split; [rewrite lookup_app_r by lia; exact Hn|].
    split; [|exact Hsim]. rewrite lookup_app_l by (eapply lookup_lt_Some; eauto). exact Hm.
  - intros x y y' Hy Hy' _. unfold map_rel in *. congruence.
Qed.

End RoundTripProof.

Lemma NoPacking_roundtrips : packing_roundtrips.
Proof. intros []. Qed.

Lemma heap_valid_forallb `{Packing} (h : heap) : forallb node_valid h = true -> heap_valid h.
Proof.
  intros Hall a n Ha. rewrite forallb_forall in Hall. apply Hall.
  apply list_elem_of_In. eapply list_elem_of_lookup_2; eauto.
Qed.

(** X21: a schema in which no node is met twice ([_labels] finds nothing to
    label) survives the round trip through JSON, with [explicit] or
    without: [tojson] and [fromjson] return, and the schema that
    [fromjson] builds compares equal to the original. *)
Theorem roundtrip_without_shared_nodes `{Packing} (h : heap) (a : addr) (explicit : bool) :
  heap_wf h -> heap_valid h -> packing_eq_reflexive -> packing_roundtrips ->
  _labels h a = Ok [] ->
  exists j r h',
    tojson h a explicit = Ok j /\ fromjson h j = Ok (r, h') /\ __eq__ h' r a = Ok true.
Proof.
  intros Hwf Hvalid Hrefl Hpk Hlabels. pose proof Hlabels as Hlab.
  unfold _labels in Hlabels.
  apply bind_ok in Hlabels as (st & Hst & Hnil). injection Hnil as Hnil.
  destruct (tojson_rebuilds h Hwf Hvalid Hpk (S (length h)) explicit a _ _ ∅ Hst Hnil)
    as (j & shown' & Hj & Hre).
  destruct (Hre h (S (json_depth j)) ltac:(lia)) as (r & news & rho & Hfrom & HB & Hr).
  exists j, r, (h ++ news)%list. split; [|split].
  - unfold tojson. rewrite Hlab. cbn [bind]. rewrite Hj. reflexivity.
  - assert (Hfin : _finalizefromjson (S (length (h ++ news))) ∅ r (h ++ news)
                   = Ok (h ++ news)%list).
    { pose proof (built_root_range h _ _ _ _ _ HB Hr) as Hrange.
      eapply finalize_built; [exact HB| |exact Hrange]. rewrite length_app. lia. }
    destruct j; try (cbn [_fromjson] in Hfrom; discriminate);
      unfold fromjson; rewrite Hfrom; cbn [bind fst snd]; rewrite Hfin; reflexivity.
  - apply (eq_true_of_correspondence _ (map_rel rho)).
    + eapply built_heap_wf; eauto.
    + exact Hrefl.
    + eapply built_correspondence; eauto.
    + exact Hr.
Qed.

(** [Record({"muons": List(Record({"pt": "f8"}))})] *)
Lemma roundtrip_without_shared_nodes_witness :
  exists j r h',
    tojson muons 3%nat false = Ok j /\ fromjson muons j = Ok (r, h')
    /\ __eq__ h' r 3%nat = Ok true.
Proof.
  apply (roundtrip_without_shared_nodes muons 3%nat false).
  - apply heap_wfb_sound. reflexivity.
  - apply heap_valid_forallb. reflexivity.
  - exact NoPacking_eq_reflexive.
  - exact NoPacking_roundtrips.
  - reflexivity.
Defined.

(** ** Serialization of cyclic schemas *)

Section TojsonReturns.
Context `{Packing}.
Variable h : heap.
Hypothesis Hwf : heap_wf h.

Lemma collection_size (seen : gset addr) (a : addr) :
  (forall x, x ∈ seen -> (x < length h)%nat) -> (a < length h)%nat -> a ∉ seen ->
  (size seen < length h)%nat.
Proof.
  intros Hseen Ha Hnot.
  assert (Hsub : {[a]} ∪ seen ⊆ (list_to_set (seq 0 (length h)) : gset addr)).
  { intros x Hx. apply elem_of_list_to_set, elem_of_seq.
    apply elem_of_union in Hx as [->%elem_of_singleton|Hx]; [lia|].
    specialize (Hseen x Hx). lia. }
  apply subseteq_size in Hsub.
  rewrite size_list_to_set in Hsub by apply NoDup_seq.
  rewrite length_seq, size_union, size_singleton in Hsub by set_solver. lia.
Qed.

(** The traversal that collects the labels marks every node that it
    enters, so it ends after at most one descent per node of the arena. *)
Lemma _collectlabels_returns (fuel : nat) :
  forall (s : slot) (st : gset addr * list addr),
    in_heap h s -> (forall x, x ∈ st.1 -> (x < length h)%nat) ->
    (length h - size st.1 < fuel)%nat ->
    exists st', _collectlabels fuel h s st = Ok st'
                /\ st.1 ⊆ st'.1 /\ (forall x, x ∈ st'.1 -> (x < length h)%nat).
Proof.
  induction fuel as [|fuel IH]; intros s st (a & -> & Ha) Hseen Hfuel; [lia|].
  cbn [_collectlabels]. destruct (lookup_lt_is_Some_2 h a Ha) as [n Hn]. rewrite Hn.
  case_bool_decide as Hin.
  { eexists. split; [reflexivity|]. split; [reflexivity|exact Hseen]. }
  pose proof (collection_size st.1 a Hseen Ha Hin) as Hsize.
  destruct (Hwf a n Hn) as [Hch _].
  assert (Hall : forall (kids : list slot) (st0 : gset addr * list addr),
            (forall s, s ∈ kids -> in_heap h s) ->
            (forall x, x ∈ st0.1 -> (x < length h)%nat) ->
            (length h - size st0.1 < fuel)%nat ->
            exists st', collect_all (_collectlabels fuel h) kids st0 = Ok st'
                        /\ st0.1 ⊆ st'.1 /\ (forall x, x ∈ st'.1 -> (x < length h)%nat)).
  { induction kids as [|k kids IHk]; intros st0 Hk Hs0 Hf0; cbn [collect_all].
    - eexists. split; [reflexivity|]. split; [reflexivity|exact Hs0].
    - destruct (IH k st0 (Hk k (list_elem_of_here _ _)) Hs0 Hf0) as (st1 & H1 & Hsub1 & Hs1).
      rewrite H1. cbn [bind].
      destruct (IHk st1) as (st' & H' & Hsub' & Hs').
      + intros s Hs. apply Hk, list_elem_of_further, Hs.
      + exact Hs1.
      + apply subseteq_size in Hsub1. lia.
      + exists st'. split; [exact H'|]. split; [set_solver|exact Hs']. }
  destruct (Hall (children n) ({[a]} ∪ st.1, st.2) Hch) as (st' & H' & Hsub' & Hs').
  - cbn [fst]. intros x Hx. apply elem_of_union in Hx as [->%elem_of_singleton|Hx]; auto.
  - cbn [fst]. rewrite size_union, size_singleton by set_solver. lia.
  - exists st'. split; [exact H'|]. split; [|exact Hs']. cbn [fst] in Hsub'. set_solver.
Qed.

Lemma _label_of_labelled (a : addr) (labels : list addr) :
  a ∈ labels -> is_some (_label a labels) = true.
Proof.
  unfold _label. generalize O.
  induction labels as [|l labels IH]; intros i Ha; [inversion Ha|].
  cbn [index_of]. case_bool_decide as Hl; [reflexivity|].
  apply elem_of_cons in Ha as [->|Ha]; [contradiction|].
  exact (IH (S i) Ha).
Qed.

(** [_tojson] follows the traversal of [_collectlabels] step by step: it
    stops where that traversal met a node again, which is where the node
    got its label. *)
Lemma _tojson_follows (fuel : nat) (e : bool) (labels : list addr) :
  forall (s : slot) (st st' : gset addr * list addr),
    _collectlabels fuel h s st = Ok st' ->
    (forall x, x ∈ st'.2 -> x ∈ labels) ->
    exists j, _tojson fuel h e labels s st.1 = Ok (j, st'.1).
Proof.
  induction fuel as [|fuel IH]; intros s st st' Hc Hlab; [discriminate|].
  cbn [_collectlabels] in Hc. destruct s as [a|]; [|discriminate].
  cbn [_tojson]. destruct (h !! a) as [n|] eqn:Hn; [|discriminate].
  case_bool_decide as Hin.
  { injection Hc as <-. cbn [fst snd] in Hlab |- *.
    rewrite _label_of_labelled by (apply Hlab; set_solver).
    rewrite ?bool_decide_eq_true_2 by exact Hin. cbn [negb orb]. eauto. }
  rewrite ?(bool_decide_eq_false_2 _ Hin). cbn [negb]. rewrite orb_true_r.
  assert (Hall : forall (kids : list slot) (st0 st1 : gset addr * list addr),
            collect_all (_collectlabels fuel h) kids st0 = Ok st1 ->
            (forall x, x ∈ st1.2 -> x ∈ labels) ->
            exists js, tojson_all (_tojson fuel h e labels) kids st0.1 = Ok (js, st1.1)).
  { induction kids as [|k kids IHk]; intros st0 st1 Hk Hl1; cbn [collect_all] in Hk.
    - injection Hk as <-. exists []. reflexivity.
    - apply bind_ok in Hk as (stm & Hm & Hk).
      destruct (collect_all_grows _ kids (_collectlabels_grows h fuel) _ _ Hk) as [l Hl].
      destruct (IH k st0 stm Hm) as [j Hj].
      { intros x Hx. apply Hl1. rewrite Hl. apply elem_of_app. left. exact Hx. }
      destruct (IHk stm st1 Hk Hl1) as [js Hjs].
      exists (j :: js). cbn [tojson_all]. rewrite Hj. cbn [bind fst snd]. rewrite Hjs.
      reflexivity. }
  destruct (Hall (children n) _ _ Hc Hlab) as [js Hjs]. cbn [fst] in Hjs.
  destruct n as [t dims data c|x starts stops c|ps tags offsets c|fs c|ts c|x positions c];
    cbn [children] in Hjs, Hc.
  - cbn [collect_all] in Hc. injection Hc as <-. cbn [fst].
    match goal with |- context [if ?b then _ else _] => destruct b end; eauto.
  - cbn [tojson_all] in Hjs. apply bind_ok in Hjs as (r & Hr & Hjs).
    cbn [bind] in Hjs. injection Hjs as _ Hs. rewrite Hr. cbn [bind]. rewrite Hs. eauto.
  - rewrite Hjs. cbn [bind fst snd]. eauto.
  - rewrite Hjs. cbn [bind fst snd]. eauto.
  - rewrite Hjs. cbn [bind fst snd]. eauto.
  - cbn [tojson_all] in Hjs. apply bind_ok in Hjs as (r & Hr & Hjs).
    cbn [bind] in Hjs. injection Hjs as _ Hs. rewrite Hr. cbn [bind]. rewrite Hs. eauto.
Qed.

End TojsonReturns.

(** X22: [tojson] returns a JSON value for every node of a finished schema
    graph, whatever its cycles and shared nodes, with [explicit] or
    without: the traversals never raise and never run forever. *)
Theorem tojson_returns `{Packing} (h : heap) (a : addr) (explicit : bool) :
  heap_wf h -> (a < length h)%nat ->
  exists labels j, _labels h a = Ok labels /\ tojson h a explicit = Ok j.
Proof.
  intros Hwf Ha.
  destruct (_collectlabels_returns h Hwf (S (length h)) (Node a) (∅, []))
    as (st' & Hc & _ & _).
  - exists a. auto.
  - cbn [fst]. intros x Hx. set_solver.
  - cbn [fst]. rewrite size_empty. lia.
  - destruct (_tojson_follows h Hwf (S (length h)) explicit st'.2 (Node a) (∅, []) st' Hc)
      as [j Hj]; [auto|].
    exists st'.2, j. unfold tojson, _labels. rewrite Hc. cbn [bind fst] in Hj |- *.
    rewrite Hj. split; reflexivity.
Qed.

(** The cycle [l = List(Pointer(l))] *)
Lemma tojson_returns_witness :
  exists labels j, _labels list_cycle 0%nat = Ok labels /\ tojson list_cycle 0%nat false = Ok j.
Proof.
  apply (tojson_returns list_cycle 0%nat false list_cycle_wf). simpl. lia.
Defined.
